(** * pyshtools.shclasses: coefficient sets, grids and localization windows

    A shallow embedding of the class layer of [pyshtools/shclasses.py]
    (classes [SHCoeffs], [SHGrid], [SHWindow] and their subclasses) and the
    properties of its conventions: the mask invariant, the normalization
    and phase conversions, the arithmetic operators, the spectra, rotation,
    grid shapes and the multitaper coupling matrix.

    Conventions of the embedding.
    - numpy [float64] is idealised as the real numbers [R], [complex128]
      as pairs of reals; rounding, overflow and NaN are not modelled.
    - A rank-3 numpy array is a nested list (plane, degree, order) tagged
      with its dtype; a rank-2 array is a nested list (row, column).
    - A Python exception is a value [Raise e] of the result type [res];
      [x ← e; k] sequences two statements and propagates the exception.
    - Python [int] is [Z]; positions inside an array are [nat].
    - The compiled module [_SHTOOLS] is an interface ([Backend]); its
      routines are operations of that interface. *)

From Stdlib Require Import Reals Lra ZArith Lia Ascii.
From stdpp Require Import base list strings.


(** ** Exceptions and the result monad *)

Inductive exn : Type :=
  | ValueError
  | IndexError
  | TypeError
  | RuntimeError
  | AttributeError
  | NameError
  | NotImplementedError.

Inductive res (A : Type) : Type :=
  | Ok (a : A)
  | Raise (e : exn).
Arguments Ok {A} a.
Arguments Raise {A} e.

#[global] Instance res_ret : MRet res := @Ok.
#[global] Instance res_bind : MBind res :=
  λ A B f m, match m with Ok a => f a | Raise e => Raise e end.
#[global] Instance res_fmap : FMap res :=
  λ A B f m, match m with Ok a => Ok (f a) | Raise e => Raise e end.

Definition is_Ok {A} (r : res A) : Prop := ∃ a, r = Ok a.

(** ** Strings: [str.lower] and membership in a set of literals *)

Definition lower_ascii (c : ascii) : ascii :=
  let n := nat_of_ascii c in
  if (65 <=? n)%nat && (n <=? 90)%nat then ascii_of_nat (n + 32) else c.

Fixpoint lower (s : string) : string :=
  match s with
  | EmptyString => EmptyString
  | String c s' => String (lower_ascii c) (lower s')
  end.

Fixpoint upper (s : string) : string :=
  match s with
  | EmptyString => EmptyString
  | String c s' =>
      let n := nat_of_ascii c in
      String (if (97 <=? n)%nat && (n <=? 122)%nat
              then ascii_of_nat (n - 32) else c) (upper s')
  end.

Definition str_in (s : string) (l : list string) : bool :=
  existsb (String.eqb s) l.

(** ** Scalars: floats and complex numbers *)

Record C : Type := mkC { Cre : R; Cim : R }.

Definition RtoC (x : R) : C := mkC x 0.
Definition Ci : C := mkC 0 1.
Definition Cadd (z w : C) : C := mkC (Cre z + Cre w) (Cim z + Cim w).
Definition Csub (z w : C) : C := mkC (Cre z - Cre w) (Cim z - Cim w).
Definition Cmul (z w : C) : C :=
  mkC (Cre z * Cre w - Cim z * Cim w) (Cre z * Cim w + Cim z * Cre w).
Definition Cdiv (z w : C) : C :=
  let d := (Cre w * Cre w + Cim w * Cim w)%R in
  mkC ((Cre z * Cre w + Cim z * Cim w) / d) ((Cim z * Cre w - Cre z * Cim w) / d).
Definition Cneg (z : C) : C := mkC (- Cre z) (- Cim z).
Definition Cconj (z : C) : C := mkC (Cre z) (- Cim z).

(** The arithmetic the array code needs of an element type.  [nscale] and
    [nunscale] are [x *= s] and [x /= s] for a real factor [s]. *)
Class Num (K : Type) : Type := {
  nzero : K;
  nadd : K → K → K;
  nsub : K → K → K;
  nmul : K → K → K;
  ndiv : K → K → K;
  nneg : K → K;
  nscale : R → K → K;
  nunscale : R → K → K;
}.

#[global] Instance Num_R : Num R := {|
  nzero := 0%R; nadd := Rplus; nsub := Rminus; nmul := Rmult; ndiv := Rdiv;
  nneg := Ropp;
  nscale := λ s x, (x * s)%R;
  nunscale := λ s x, (x / s)%R |}.

#[global] Instance Num_C : Num C := {|
  nzero := RtoC 0; nadd := Cadd; nsub := Csub; nmul := Cmul; ndiv := Cdiv;
  nneg := Cneg;
  nscale := λ s z, mkC (Cre z * s) (Cim z * s);
  nunscale := λ s z, mkC (Cre z / s) (Cim z / s) |}.

Class NumLaws (K : Type) `{Num K} : Prop := {
  nscale_nscale : ∀ s t x, nscale t (nscale s x) = nscale (s * t)%R x;
  nscale_1 : ∀ x, nscale 1%R x = x;
  nunscale_nscale : ∀ s x, nunscale s x = nscale (/ s)%R x;
  nneg_nneg : ∀ x, nneg (nneg x) = x;
  nscale_zero : ∀ s, nscale s nzero = nzero;
  nneg_zero : nneg nzero = nzero;
  nscale_nneg : ∀ s x, nscale s (nneg x) = nneg (nscale s x);
}.

(** ** Rank-3 arrays *)

Abbreviation list3 K := (list (list (list K))).

Definition lookup3 {K} (a : list3 K) (i l m : nat) : option K :=
  a !! i ≫= λ p, p !! l ≫= λ r, r !! m.

Definition imap3 {A B} (f : nat → nat → nat → A → B) (a : list3 A) : list3 B :=
  imap (λ i p, imap (λ l r, imap (λ m x, f i l m x) r) p) a.

Definition zip3 {A B D} (f : A → B → D) (a : list3 A) (b : list3 B) : list3 D :=
  zip_with (zip_with (zip_with f)) a b.

(** [numpy.zeros((n0, n1, n2))], with the element given. *)
Definition np_zeros {K} (z : K) (n0 n1 n2 : nat) : list3 K :=
  replicate n0 (replicate n1 (replicate n2 z)).

(** [a.shape], read off the first plane and its first row. *)
Definition shape3 {K} (a : list3 K) : nat * nat * nat :=
  (length a, length (hd [] a), length (hd [] (hd [] a))).

(** Every plane and row has the extent the shape says: the list is an
    array. *)
Definition has_shape {K} (s : nat * nat * nat) (a : list3 K) : bool :=
  (length a =? s.1.1)%nat &&
  forallb (λ p, (length p =? s.1.2)%nat &&
                forallb (λ r, (length r =? s.2)%nat) p) a.

(** [a[:, :n, :n]] *)
Definition slice3 {K} (n : nat) (a : list3 K) : list3 K :=
  (λ p, take n <$> take n p) <$> a.

(** [a[region] = v] and [a[region] = f(a[region])] for a region of index
    triples given by its characteristic function. *)
Definition assign_where {K} (P : nat → nat → nat → bool) (v : K)
    (a : list3 K) : list3 K :=
  imap3 (λ i l m x, if P i l m then v else x) a.

Definition update_where {K} (P : nat → nat → nat → bool) (f : K → K)
    (a : list3 K) : list3 K :=
  imap3 (λ i l m x, if P i l m then f x else x) a.

(** [a[i, l, m] = v] with non-negative indices. *)
Definition setitem3 {K} (a : list3 K) (i l m : nat) (v : K) : res (list3 K) :=
  match lookup3 a i l m with
  | Some _ => Ok (assign_where (λ i' l' m', (i' =? i)%nat && (l' =? l)%nat && (m' =? m)%nat) v a)
  | None => Raise IndexError
  end.

(** An array with its dtype. *)
Inductive ndarray : Type :=
  | FloatArr (a : list3 R)
  | ComplexArr (a : list3 C).

Definition iscomplexobj (a : ndarray) : bool :=
  match a with FloatArr _ => false | ComplexArr _ => true end.

Definition arr_shape (a : ndarray) : nat * nat * nat :=
  match a with FloatArr x => shape3 x | ComplexArr x => shape3 x end.

Definition arr_has_shape (s : nat * nat * nat) (a : ndarray) : bool :=
  match a with FloatArr x => has_shape s x | ComplexArr x => has_shape s x end.

(** Reading one entry as a complex number, whatever the dtype. *)
Definition arr_get (a : ndarray) (i l m : nat) : option C :=
  match a with
  | FloatArr x => RtoC <$> lookup3 x i l m
  | ComplexArr x => lookup3 x i l m
  end.

(** Applying to every entry the same operation of the element type. *)
Definition arr_map (f : ∀ K, Num K → nat → nat → nat → K → K)
    (a : ndarray) : ndarray :=
  match a with
  | FloatArr x => FloatArr (imap3 (f R _) x)
  | ComplexArr x => ComplexArr (imap3 (f C _) x)
  end.

Definition arr_slice (n : nat) (a : ndarray) : ndarray :=
  match a with
  | FloatArr x => FloatArr (slice3 n x)
  | ComplexArr x => ComplexArr (slice3 n x)
  end.

(** [a[~mask] = 0.]: a boolean index must have the shape of the array. *)
Definition zero_outside (mask : list3 bool) (a : ndarray) : res ndarray :=
  if has_shape (arr_shape a) mask && arr_has_shape (arr_shape a) a then
    Ok (match a with
        | FloatArr x => FloatArr (zip3 (λ v (b : bool), if b then v else nzero) x mask)
        | ComplexArr x => ComplexArr (zip3 (λ v (b : bool), if b then v else nzero) x mask)
        end)
  else Raise IndexError.

(** f2py hands a routine with real arguments the real parts of a complex
    array (numpy warns and discards the imaginary parts); assigning complex
    values into a float array does the same. *)
Definition as_float (a : ndarray) : list3 R :=
  match a with
  | FloatArr x => x
  | ComplexArr x => imap3 (λ _ _ _ z, Cre z) x
  end.

Definition as_complex (a : ndarray) : list3 C :=
  match a with
  | FloatArr x => imap3 (λ _ _ _ v, RtoC v) x
  | ComplexArr x => x
  end.

(** Elementwise binary operation of two arrays, with numpy's promotion:
    float with float is float, anything with complex is complex. *)
Definition arr_zip (f : ∀ K, Num K → K → K → K) (a b : ndarray) : ndarray :=
  match a, b with
  | FloatArr x, FloatArr y => FloatArr (zip3 (f R _) x y)
  | _, _ => ComplexArr (zip3 (f C _) (as_complex a) (as_complex b))
  end.

(** A Python [for] loop over a list, threading the loop state and stopping
    at the first exception. *)
Definition py_for {A S} (xs : list A) (body : A → S → res S) (s : S) : res S :=
  foldl (λ acc x, acc ≫= body x) (Ok s) xs.

(** [l[:stop]] for a Python [int] stop: a negative stop counts from the
    end. *)
Definition slice_to {A} (stop : Z) (l : list A) : list A :=
  if (0 <=? stop)%Z then take (Z.to_nat stop) l
  else take (length l - Z.to_nat (- stop)) l.

(** [numpy.arange(n)] for a Python [int]: empty when [n <= 0]. *)
Definition arange (n : Z) : list nat := seq 0 (Z.to_nat n).

(** ** The compiled backend [_SHTOOLS] and the environment

    The Fortran routines, the file system and the random generator are not
    part of [shclasses.py]; the class layer only calls them.  Each group of
    routines is an interface whose operations have the signatures the
    calls in the source use. *)

(** Spectra of a coefficient array, one value per degree. *)
Class SpectrumBackend : Type := {
  SHPowerSpectrum : list3 R → list R;
  SHPowerSpectrumC : list3 C → list R;
  SHPowerSpectrumDensity : list3 R → list R;
}.

(** [SHrtoc(rcilm, convention=1, switchcs=0)] and [SHctor] likewise. *)
Class ConvertBackend : Type := {
  SHrtoc : list3 R → list3 R;
  SHctor : list3 R → list3 R;
}.

(** [SHRead(fname, lmax)] returns the coefficients and the degree read;
    [numpy.load(fname)] returns the array stored in the file. *)
Class FileBackend : Type := {
  SHRead : string → Z → list3 R * Z;
  np_load : string → ndarray;
}.

(** [djpi2(lmax)] and [SHRotateRealCoef(cilm, angles, dj_matrix)]. *)
Class RotationBackend : Type := {
  dj_matrix_t : Type;
  djpi2 : Z → dj_matrix_t;
  SHRotateRealCoef : list3 R → R * R * R → dj_matrix_t → list3 R;
}.

(** Grid synthesis and analysis: [MakeGridDH(cilm, sampling, norm,
    csphase)], [MakeGridDHC] likewise, [SHExpandDH(grid, norm, sampling,
    csphase)], [SHExpandDHC(grid, norm, csphase)] and [SHGLQ(lmax)]. *)
Class GridBackend : Type := {
  MakeGridDH : list3 R → Z → Z → Z → list (list R);
  MakeGridDHC : list3 C → Z → Z → Z → list (list C);
  SHExpandDH : list (list R) → Z → Z → Z → list3 R;
  SHExpandDHC : list (list C) → Z → Z → list3 C;
  SHGLQ : Z → list R * list R;
  (** [MakeGridGLQ(cilm, zeros, norm, csphase)] and [MakeGridGLQC] *)
  MakeGridGLQ : list3 R → list R → Z → Z → list (list R);
  MakeGridGLQC : list3 C → list R → Z → Z → list (list C);
}.

(** [SHMTCouplingMatrix(lmax, tapers_power, k=, taper_wt=)]: the last
    argument is [None] when the keyword is not passed, and [Some w] when
    it is passed with the Python value [w] (itself possibly [None]). *)
Class WindowBackend : Type := {
  SHMTCouplingMatrix :
    Z → list (list R) → Z → option (option (list R)) → list (list R);
  SHVectorToCilm : list R → list3 R;
  SHCilmToVector : list3 R → list R;
}.

(** ** Coefficient classes *)

Inductive coeffs_class : Type := SHRealCoeffs | SHComplexCoeffs.

Record SHCoeffs : Type := mkSHCoeffs {
  cls : coeffs_class;
  coeffs : ndarray;
  mask : list3 bool;
  lmax : Z;
  normalization : string;
  csphase : Z;
}.

(** [self.kind] is set by the constructor of the subclass and nowhere
    else. *)
Definition kind (x : SHCoeffs) : string :=
  match cls x with SHRealCoeffs => "real" | SHComplexCoeffs => "complex" end.

Definition istype (c : coeffs_class) (kind : string) : bool :=
  match c with
  | SHRealCoeffs => String.eqb kind "real"
  | SHComplexCoeffs => String.eqb kind "complex"
  end.

(** [for cls in self.__subclasses__(): if cls.istype(kind): return cls(...)]:
    the first subclass whose [istype] accepts [kind], if any. *)
Definition subclass_for (kind : string) : option coeffs_class :=
  find (λ c, istype c kind) [SHRealCoeffs; SHComplexCoeffs].

(** The block "create mask to filter out m<=l" of both constructors. *)
Definition make_mask (lmax : Z) : res (list3 bool) :=
  let n := Z.to_nat (lmax + 1) in
  let mask := np_zeros false 2 n n in
  mask ← setitem3 mask 0 0 0 true;
  let mask :=
    foldl (λ mask l,
             assign_where (λ _ l' m, (l' =? l)%nat && (m <? l + 1)%nat) true mask)
          mask (arange (lmax + 1)) in
  Ok (assign_where (λ i _ m, (i =? 1)%nat && (m =? 0)%nat) false mask).

(** [SHRealCoeffs.__init__] and [SHComplexCoeffs.__init__]: the two bodies
    differ only in the value of [kind]. *)
Definition subclass_init (c : coeffs_class) (coeffs : ndarray)
    (normalization : string) (csphase : Z) (copy : bool) : res SHCoeffs :=
  let lmax := (Z.of_nat (arr_shape coeffs).1.2 - 1)%Z in
  mask ← make_mask lmax;
  coeffs' ← (if copy then zero_outside mask coeffs else Ok coeffs);
  Ok {| cls := c; coeffs := coeffs'; mask := mask; lmax := lmax;
        normalization := normalization; csphase := csphase |}.

Definition SHRealCoeffs_init := subclass_init SHRealCoeffs.
Definition SHComplexCoeffs_init := subclass_init SHComplexCoeffs.

Definition valid_normalization (normalization : string) : bool :=
  str_in (lower normalization) ["4pi"; "ortho"; "schmidt"].

Definition valid_csphase (csphase : Z) : bool :=
  negb (negb (csphase =? 1)%Z && negb (csphase =? -1)%Z).

(** [SHCoeffs.from_array].  [kind] is computed from the dtype, so one of the
    two subclasses always accepts it; the last branch is the loop falling
    through, which [subclass_for_dtype] shows unreachable. *)
Definition SHCoeffs_from_array (coeffs : ndarray) (normalization : string)
    (csphase : Z) (copy : bool) : res SHCoeffs :=
  let kind := if iscomplexobj coeffs then "complex" else "real" in
  if negb (valid_normalization normalization) then Raise ValueError
  else if negb (valid_csphase csphase) then Raise ValueError
  else match subclass_for kind with
       | Some c => subclass_init c coeffs (lower normalization) csphase copy
       | None => Raise TypeError
       end.

(** ** Rank-2 arrays and planes of a rank-3 array *)

Definition shape2 {K} (p : list (list K)) : nat * nat :=
  (length p, length (hd [] p)).

(** Elementwise map of a plane. *)
Definition map2 {A B} (f : A → B) (p : list (list A)) : list (list B) :=
  (λ r : list A, f <$> r) <$> p.

Definition has_shape2 {K} (s : nat * nat) (p : list (list K)) : bool :=
  (length p =? s.1)%nat && forallb (λ r, (length r =? s.2)%nat) p.

(** [numpy.zeros((n0, n1, n2))] for Python [int] extents: a negative extent
    is a ValueError. *)
Definition zeros3 {K} (z : K) (n0 n1 n2 : Z) : res (list3 K) :=
  if (n0 <? 0)%Z || (n1 <? 0)%Z || (n2 <? 0)%Z then Raise ValueError
  else Ok (np_zeros z (Z.to_nat n0) (Z.to_nat n1) (Z.to_nat n2)).

(** [a[i, :, :]] *)
Definition get_plane {K} (i : nat) (a : list3 K) : res (list (list K)) :=
  match a !! i with Some p => Ok p | None => Raise IndexError end.

(** [a[i, :, :] = p]: the plane assigned must have the shape of the plane
    it replaces (broadcasting of a smaller plane is not modelled). *)
Definition set_plane {K} (i : nat) (p : list (list K)) (a : list3 K)
    : res (list3 K) :=
  match a !! i with
  | None => Raise IndexError
  | Some q =>
      if has_shape2 (shape2 q) q && has_shape2 (shape2 q) p
      then Ok (<[i := p]> a) else Raise ValueError
  end.

(** [a[:, :, m] = - a[:, :, m]] *)
Definition negate_order {K} `{Num K} (m : nat) (a : list3 K) : res (list3 K) :=
  if (m <? (shape3 a).2)%nat
  then Ok (update_where (λ _ _ m', (m' =? m)%nat) nneg a)
  else Raise IndexError.

(** [a[i, :, m] = - a[i, :, m]] *)
Definition negate_plane_order {K} `{Num K} (i m : nat) (a : list3 K)
    : res (list3 K) :=
  if (i <? (shape3 a).1.1)%nat && (m <? (shape3 a).2)%nat
  then Ok (update_where (λ i' _ m', (i' =? i)%nat && (m' =? m)%nat) nneg a)
  else Raise IndexError.

(** Decidable comparison of floats and of complex numbers ([==], [!=]). *)
Definition Req_b (x y : R) : bool := if Req_dec_T x y then true else false.
Definition Ceq_b (z w : C) : bool :=
  Req_b (Cre z) (Cre w) && Req_b (Cim z) (Cim w).

(** ** Factories of [SHCoeffs] *)

(** [SHCoeffs.from_zeros].  The result is [None] when the loop over the
    subclasses finds none that accepts [kind] as it is spelled. *)
Definition SHCoeffs_from_zeros (lmax : Z) (kind normalization : string)
    (csphase : Z) : res (option SHCoeffs) :=
  if negb (str_in (lower kind) ["real"; "complex"]) then Raise ValueError
  else if negb (valid_normalization normalization) then Raise ValueError
  else if negb (valid_csphase csphase) then Raise ValueError
  else
    let nl := (lmax + 1)%Z in
    coeffs ← (if String.eqb (lower kind) "real"
              then FloatArr <$> zeros3 0%R 2 nl nl
              else ComplexArr <$> zeros3 (RtoC 0) 2 nl nl);
    match subclass_for kind with
    | Some c => Some <$> subclass_init c coeffs (lower normalization) csphase true
    | None => Ok None
    end.

(** [power / power_per_lm] followed by [power[~isfinite(power)] = 0]: over
    the reals a quotient fails to be finite exactly when the divisor is
    zero. *)
Definition true_divide_finite (power power_per_lm : list R) : res (list R) :=
  if (length power =? length power_per_lm)%nat
  then Ok (zip_with (λ p d, if Req_b d 0 then 0%R else (p / d)%R)
                    power power_per_lm)
  else Raise ValueError.

(** [coeffs *= f(l)[newaxis, :, newaxis]]: every entry of degree [l] is
    multiplied by the [l]-th factor. *)
Definition scale_by_degree (f : nat → R) (a : ndarray) : ndarray :=
  arr_map (λ K _ _ l _ x, nscale (f l) x) a.

(** [SHCoeffs.from_random].  The two calls of [numpy.random.normal] are the
    arguments [normal1] and [normal2], giving the sample drawn at each
    index of an array of the requested size. *)
Definition SHCoeffs_from_random `{SpectrumBackend}
    (normal1 normal2 : nat → nat → nat → R)
    (power : list R) (kind normalization : string) (csphase : Z)
    (exact_power : bool) : res (option SHCoeffs) :=
  if negb (valid_normalization normalization) then Raise ValueError
  else if negb (valid_csphase csphase) then Raise ValueError
  else if negb (str_in (lower kind) ["real"; "complex"]) then Raise ValueError
  else
    let nl := length power in
    let draw g := imap3 (λ i l m (_ : R), g i l m) (np_zeros 0%R 2 nl nl) in
    '(coeffs, power) ←
      (if String.eqb (lower kind) "real" then
         let coeffs := draw normal1 in
         power ← (if exact_power
                  then true_divide_finite power (SHPowerSpectrumDensity coeffs)
                  else Ok power);
         Ok (FloatArr coeffs, power)
       else
         let coeffs :=
           zip3 (λ x y, mkC (x / sqrt 2) (y / sqrt 2))
                (draw normal1) (draw normal2) in
         power ← (if exact_power
                  then true_divide_finite power (SHPowerSpectrumC coeffs)
                  else Ok power);
         Ok (ComplexArr coeffs, power));
    let pw l := nth l power 0%R in
    let coeffs :=
      if String.eqb (lower normalization) "4pi" then
        scale_by_degree (λ l, sqrt (pw l / (2 * INR l + 1))) coeffs
      else if String.eqb (lower normalization) "ortho" then
        scale_by_degree (λ l, sqrt (4 * PI * pw l / (2 * INR l + 1))) coeffs
      else if String.eqb (lower normalization) "schmidt" then
        scale_by_degree (λ l, sqrt (pw l)) coeffs
      else coeffs in
    match subclass_for kind with
    | Some c => Some <$> subclass_init c coeffs (lower normalization) csphase true
    | None => Ok None
    end.

(** [SHCoeffs.from_file]; [lmax] is [None] when the argument is omitted. *)
Definition SHCoeffs_from_file `{FileBackend} (fname : string) (lmax : option Z)
    (format kind normalization : string) (csphase : Z)
    : res (option SHCoeffs) :=
  if negb (valid_normalization normalization) then Raise ValueError
  else if negb (valid_csphase csphase) then Raise ValueError
  else if String.eqb (lower format) "shtools" && negb (bool_decide (is_Some lmax))
  then Raise ValueError
  else
    coeffs ←
      (if String.eqb (lower format) "shtools" then
         if String.eqb (lower kind) "real"
         then Ok (FloatArr (SHRead fname (default 0%Z lmax)).1)
         else Raise NotImplementedError
       else if String.eqb (lower format) "npy" then Ok (np_load fname)
       else Raise NotImplementedError);
    match subclass_for kind with
    | Some c => Some <$> subclass_init c coeffs (lower normalization) csphase true
    | None => Ok None
    end.

(** ** Conversion of normalization and phase *)

Definition degrees (self : SHCoeffs) : list nat := arange (lmax self + 1).

(** [coeffs[:, l, :l+1] *= s] and [coeffs[:, l, :l+1] /= s] *)
Definition scale_degree (s : R) (l : nat) (a : ndarray) : res ndarray :=
  if (l <? (arr_shape a).1.2)%nat
  then Ok (arr_map (λ K _ _ l' m x,
                      if (l' =? l)%nat && (m <? l + 1)%nat then nscale s x else x) a)
  else Raise IndexError.

Definition unscale_degree (s : R) (l : nat) (a : ndarray) : res ndarray :=
  if (l <? (arr_shape a).1.2)%nat
  then Ok (arr_map (λ K _ _ l' m x,
                      if (l' =? l)%nat && (m <? l + 1)%nat then nunscale s x else x) a)
  else Raise IndexError.

(** [coeffs *= s] and [coeffs /= s] *)
Definition scale_all (s : R) (a : ndarray) : ndarray :=
  arr_map (λ K _ _ _ _ x, nscale s x) a.

Definition unscale_all (s : R) (a : ndarray) : ndarray :=
  arr_map (λ K _ _ _ _ x, nunscale s x) a.

(** [coeffs[:, :, m] = - coeffs[:, :, m]] *)
Definition negate_order_arr (m : nat) (a : ndarray) : res ndarray :=
  match a with
  | FloatArr x => FloatArr <$> negate_order m x
  | ComplexArr x => ComplexArr <$> negate_order m x
  end.

(** [a[:, :lmax+1, :lmax+1]] *)
Definition slice_lmax (lmax : Z) (a : ndarray) : ndarray :=
  let cut {K} (x : list3 K) : list3 K :=
    (λ p, slice_to (lmax + 1) <$> slice_to (lmax + 1) p) <$> x in
  match a with
  | FloatArr x => FloatArr (cut x)
  | ComplexArr x => ComplexArr (cut x)
  end.

(** [SHRealCoeffs._to_array] and [SHComplexCoeffs._to_array]: the two
    methods have the same body. *)
Definition _to_array (self : SHCoeffs) (output_normalization : string)
    (output_csphase : Z) (lmax : Z) : res ndarray :=
  let coeffs := slice_lmax lmax (coeffs self) in
  let degrees := arange (lmax + 1) in
  let norm := normalization self in
  coeffs ←
    (if String.eqb norm output_normalization then Ok coeffs
     else if String.eqb norm "4pi" && String.eqb output_normalization "schmidt" then
       py_for degrees (λ l, scale_degree (sqrt (2 * INR l + 1)) l) coeffs
     else if String.eqb norm "4pi" && String.eqb output_normalization "ortho" then
       Ok (scale_all (sqrt (4 * PI)) coeffs)
     else if String.eqb norm "schmidt" && String.eqb output_normalization "4pi" then
       py_for degrees (λ l, unscale_degree (sqrt (2 * INR l + 1)) l) coeffs
     else if String.eqb norm "schmidt" && String.eqb output_normalization "ortho" then
       py_for degrees (λ l, scale_degree (sqrt (4 * PI / (2 * INR l + 1))) l) coeffs
     else if String.eqb norm "ortho" && String.eqb output_normalization "4pi" then
       Ok (unscale_all (sqrt (4 * PI)) coeffs)
     else if String.eqb norm "ortho" && String.eqb output_normalization "schmidt" then
       py_for degrees (λ l, scale_degree (sqrt ((2 * INR l + 1) / (4 * PI))) l) coeffs
     else Ok coeffs);
  if negb (output_csphase =? csphase self)%Z then
    py_for degrees (λ m c, if Nat.odd m then negate_order_arr m c else Ok c) coeffs
  else Ok coeffs.

Definition SHRealCoeffs__to_array := _to_array.
Definition SHComplexCoeffs__to_array := _to_array.

(** [SHCoeffs.to_array]; an argument is [None] when it is omitted. *)
Definition SHCoeffs_to_array (self : SHCoeffs) (normalization_ : option string)
    (csphase_ : option Z) (lmax_ : option Z) : res ndarray :=
  let normalization := default (normalization self) normalization_ in
  let csphase := default (csphase self) csphase_ in
  if negb (valid_normalization normalization) then Raise ValueError
  else if negb (valid_csphase csphase) then Raise ValueError
  else
    _ ← (match lmax_ with
         | Some lmax' =>
             if (lmax self <? lmax')%Z then Raise ValueError else Ok ()
         | None => Ok ()
         end);
    let lmax := default (lmax self) lmax_ in
    match cls self with
    | SHRealCoeffs => SHRealCoeffs__to_array self (lower normalization) csphase lmax
    | SHComplexCoeffs => SHComplexCoeffs__to_array self (lower normalization) csphase lmax
    end.

(** ** Real and complex forms *)

(** [SHRealCoeffs._make_complex] *)
Definition _make_complex `{ConvertBackend} (self : SHCoeffs) : res SHCoeffs :=
  let rcomplex_coeffs := SHrtoc (as_float (coeffs self)) in
  complex_coeffs ← zeros3 (RtoC 0) 2 (lmax self + 1) (lmax self + 1);
  re ← get_plane 0 rcomplex_coeffs;
  im ← get_plane 1 rcomplex_coeffs;
  complex_coeffs ←
    set_plane (K:=C) 0
      (zip_with (zip_with (λ x y, Cadd (RtoC x) (Cmul Ci (RtoC y)))) re im)
      complex_coeffs;
  p0 ← get_plane (K:=C) 0 complex_coeffs;
  complex_coeffs ← set_plane (K:=C) 1 (map2 Cconj p0) complex_coeffs;
  complex_coeffs ←
    py_for (degrees self)
           (λ m c, if Nat.odd m then negate_plane_order (K:=C) 1 m c else Ok c)
           complex_coeffs;
  SHCoeffs_from_array (ComplexArr complex_coeffs) (normalization self)
                      (csphase self) false.

(** The test of [_make_real] that the coefficients are those of a real
    field, for one degree [l]. *)
Definition check_real_degree (c : list3 C) (l : nat) : res () :=
  match lookup3 c 0 l 0 with
  | None => Raise IndexError
  | Some z =>
      if negb (Ceq_b z (Cconj z)) then Raise RuntimeError
      else
        py_for (seq 1 l)
          (λ m _,
             match lookup3 c 0 l m, lookup3 c 1 l m with
             | Some z0, Some z1 =>
                 if Nat.odd m
                 then if negb (Ceq_b z0 (Cneg (Cconj z1)))
                      then Raise RuntimeError else Ok ()
                 else if negb (Ceq_b z0 (Cconj z1))
                      then Raise RuntimeError else Ok ()
             | _, _ => Raise IndexError
             end) ()
  end.

(** [SHComplexCoeffs._make_real] *)
Definition _make_real `{ConvertBackend} (self : SHCoeffs) (check : bool) : res SHCoeffs :=
  let c := as_complex (coeffs self) in
  _ ← (if check
       then py_for (degrees self) (λ l _, check_real_degree c l) ()
       else Ok ());
  coeffs_rc ← zeros3 0%R 2 (lmax self + 1) (lmax self + 1);
  p0 ← get_plane (K:=C) 0 c;
  coeffs_rc ← set_plane (K:=R) 0 (map2 Cre p0) coeffs_rc;
  coeffs_rc ← set_plane (K:=R) 1 (map2 Cim p0) coeffs_rc;
  let real_coeffs := SHctor coeffs_rc in
  SHCoeffs_from_array (FloatArr real_coeffs) (normalization self)
                      (csphase self) true.

(** [SHCoeffs.convert]; an argument is [None] when it is omitted.  A
    [kind] other than the instance's own asks the instance for
    [_make_complex] when it is ['complex'] and for [_make_real] otherwise;
    the subclass that has no such method raises AttributeError. *)
Definition SHCoeffs_convert `{ConvertBackend} (self : SHCoeffs)
    (normalization_ : option string) (csphase_ : option Z) (lmax_ : option Z)
    (kind_ : option string) (check : bool) : res SHCoeffs :=
  let normalization := default (normalization self) normalization_ in
  let csphase := default (csphase self) csphase_ in
  let lmax := default (lmax self) lmax_ in
  let kind' := default (kind self) kind_ in
  if negb (valid_normalization normalization) then Raise ValueError
  else if negb (valid_csphase csphase) then Raise ValueError
  else
    coeffs ←
      (if negb (String.eqb kind' (kind self)) then
         temp ←
           (if String.eqb kind' "complex" then
              match cls self with
              | SHRealCoeffs => _make_complex self
              | SHComplexCoeffs => Raise AttributeError
              end
            else
              match cls self with
              | SHComplexCoeffs => _make_real self check
              | SHRealCoeffs => Raise AttributeError
              end);
         SHCoeffs_to_array temp (Some (lower normalization)) (Some csphase) (Some lmax)
       else
         SHCoeffs_to_array self (Some (lower normalization)) (Some csphase) (Some lmax));
    SHCoeffs_from_array coeffs (lower normalization) csphase false.

(** ** Arithmetic operators *)

(** A Python number: [float] (and [int]) or [complex]. *)
Inductive pyscalar : Type :=
  | PyFloat (x : R)
  | PyComplex (z : C).

(** The right operand of an operator: a coefficient set; a number,
    which [numpy.isscalar] accepts; a [str] or [bytes], which
    [numpy.isscalar] accepts as well; or a value it rejects ([None], a
    list, an array, any other object). *)
Inductive operand : Type :=
  | OCoeffs (other : SHCoeffs)
  | OScalar (s : pyscalar)
  | OStr (s : string)
  | OOther.

(** A scalar seen as an array of the shape of [a] (broadcasting). *)
Definition full_like (s : pyscalar) (a : ndarray) : ndarray :=
  match s with
  | PyFloat x =>
      FloatArr (np_zeros x (arr_shape a).1.1 (arr_shape a).1.2 (arr_shape a).2)
  | PyComplex z =>
      ComplexArr (np_zeros z (arr_shape a).1.1 (arr_shape a).1.2 (arr_shape a).2)
  end.

(** The two statements shared by the operators:
    [coeffs = numpy.zeros([2, self.lmax+1, self.lmax+1])] and
    [coeffs[self.mask] = x[self.mask] (op) y[self.mask]].
    A boolean index selects the positions where the mask is true, in the
    same order on both sides, so the assignment is elementwise on those
    positions; each array indexed by the mask must have its shape.  The
    array [coeffs] is float: complex values lose their imaginary part when
    they are stored. *)
Definition masked_op (f : ∀ K, Num K → K → K → K) (self : SHCoeffs)
    (x y : ndarray) : res ndarray :=
  coeffs ← zeros3 0%R 2 (lmax self + 1) (lmax self + 1);
  let s := shape3 (mask self) in
  if has_shape s (mask self) && arr_has_shape s x && arr_has_shape s y
     && has_shape s coeffs
  then Ok (FloatArr (zip3 (λ (b : bool) v, if b then v else 0%R)
                          (mask self) (as_float (arr_zip f x y))))
  else Raise IndexError.

(** The common shape of [__add__], [__sub__], [__rsub__], [__mul__],
    [__div__] and [__truediv__]; [reflected] puts [other] on the left. *)
Definition binary_operator (f : ∀ K, Num K → K → K → K) (reflected : bool)
    (self : SHCoeffs) (other : operand) : res SHCoeffs :=
  let args (x y : ndarray) := if reflected then (y, x) else (x, y) in
  match other with
  | OCoeffs other =>
      if String.eqb (normalization self) (normalization other)
         && (csphase self =? csphase other)%Z
         && String.eqb (kind self) (kind other)
      then
        let '(x, y) := args (coeffs self) (coeffs other) in
        coeffs ← masked_op f self x y;
        SHCoeffs_from_array coeffs (normalization self) (csphase self) true
      else Raise ValueError
  | OScalar s =>
      let '(x, y) := args (coeffs self) (full_like s (coeffs self)) in
      coeffs ← masked_op f self x y;
      SHCoeffs_from_array coeffs (normalization self) (csphase self) true
  | OStr _ =>
      (* numpy has no arithmetic of a float array and a string *)
      _ ← zeros3 0%R 2 (lmax self + 1) (lmax self + 1);
      if has_shape (shape3 (mask self)) (mask self)
         && arr_has_shape (shape3 (mask self)) (coeffs self)
      then Raise TypeError else Raise IndexError
  | OOther => Raise NotImplementedError
  end.

Definition SHCoeffs___add__ := binary_operator (λ K _, nadd) false.
Definition SHCoeffs___radd__ (self : SHCoeffs) (other : operand) :=
  SHCoeffs___add__ self other.
Definition SHCoeffs___sub__ := binary_operator (λ K _, nsub) false.
Definition SHCoeffs___rsub__ := binary_operator (λ K _, nsub) true.
Definition SHCoeffs___mul__ := binary_operator (λ K _, nmul) false.
Definition SHCoeffs___rmul__ (self : SHCoeffs) (other : operand) :=
  SHCoeffs___mul__ self other.
Definition SHCoeffs___div__ := binary_operator (λ K _, ndiv) false.
Definition SHCoeffs___truediv__ := binary_operator (λ K _, ndiv) false.

(** The four operations the specification names. *)
Inductive arith_op : Type := OpAdd | OpSub | OpMul | OpDiv.

Definition apply_op (op : arith_op) : SHCoeffs → operand → res SHCoeffs :=
  match op with
  | OpAdd => SHCoeffs___add__
  | OpSub => SHCoeffs___sub__
  | OpMul => SHCoeffs___mul__
  | OpDiv => SHCoeffs___truediv__
  end.

(** ** [set_coeffs] *)

(** The result of [numpy.array(x)] for a number or a flat list. *)
Inductive array_like (A : Type) : Type :=
  | Scalar (a : A)
  | Vector (l : list A).
Arguments Scalar {A} a.
Arguments Vector {A} l.

(** Shape of a 0-d or 1-d array: [None] is [()]. *)
Definition al_shape {A} (x : array_like A) : option nat :=
  match x with Scalar _ => None | Vector l => Some (length l) end.

(** The [j]-th entry after broadcasting: a 0-d array and an array of one
    element repeat their value. *)
Definition al_get {A} (x : array_like A) (j : nat) : option A :=
  match x with
  | Scalar a => Some a
  | Vector [a] => Some a
  | Vector l => l !! j
  end.

(** numpy broadcasting of two shapes of rank at most one. *)
Definition broadcast (s t : option nat) : option (option nat) :=
  match s, t with
  | None, u | u, None => Some u
  | Some a, Some b =>
      if (a =? b)%nat then Some (Some a)
      else if (a =? 1)%nat then Some (Some b)
      else if (b =? 1)%nat then Some (Some a)
      else None
  end.

(** Can values of shape [v] be assigned to an indexing result of shape
    [s]? *)
Definition assignable (v s : option nat) : bool :=
  match v, s with
  | None, _ => true
  | Some 1, _ => true
  | Some a, Some b => (a =? b)%nat
  | Some _, None => false
  end.

(** A Python index into an axis of extent [n]: negative indices count
    from the end. *)
Definition py_index (n : nat) (i : Z) : option nat :=
  if (0 <=? i)%Z && (i <? Z.of_nat n)%Z then Some (Z.to_nat i)
  else if (i <? 0)%Z && (- Z.of_nat n <=? i)%Z then Some (Z.to_nat (Z.of_nat n + i))
  else None.

(** Storing a Python number into an array of a given dtype. *)
Definition store_float (v : pyscalar) : R :=
  match v with PyFloat x => x | PyComplex z => Cre z end.
Definition store_complex (v : pyscalar) : C :=
  match v with PyFloat x => RtoC x | PyComplex z => z end.

Definition write_item (a : ndarray) (i l m : nat) (v : pyscalar) : ndarray :=
  let here i' l' m' := (i' =? i)%nat && (l' =? l)%nat && (m' =? m)%nat in
  match a with
  | FloatArr x => FloatArr (assign_where here (store_float v) x)
  | ComplexArr x => ComplexArr (assign_where here (store_complex v) x)
  end.

(** [numpy.array([])] is an array of floats, and an array of floats is
    no index: indexing with it is an IndexError. *)
Definition float_index {A} (x : array_like A) : bool :=
  match x with Vector [] => true | _ => false end.

(** The index triples [(mneg_mask[j], ls[j], abs(ms)[j])] with the value
    assigned to each, for index arrays of which one at least has rank
    one, after broadcasting, checked against the shape of the array:
    numpy checks the dtype of the index arrays, broadcasts them, fits the
    values to the result and checks every index before it writes.  (Two
    index arrays of rank zero are integers to numpy: see
    [setitem_integer].) *)
Definition resolve_writes (shape : nat * nat * nat)
    (values : array_like pyscalar) (ls ms : array_like Z)
    : res (list (nat * nat * nat * pyscalar)) :=
  if float_index ls || float_index ms then Raise IndexError
  else
    match broadcast (al_shape ms) (al_shape ls) with
    | None => Raise IndexError
    | Some s =>
        if negb (assignable (al_shape values) s) then Raise ValueError
        else
          mapM (M := res)
            (λ j,
               match al_get values j, al_get ls j, al_get ms j with
               | Some v, Some l, Some m =>
                   let mneg := if (m <? 0)%Z then 1%Z else 0%Z in
                   match py_index shape.1.1 mneg, py_index shape.1.2 l,
                         py_index shape.2 (Z.abs m) with
                   | Some i', Some l', Some m' => Ok (i', l', m', v)
                   | _, _, _ => Raise IndexError
                   end
               | _, _, _ => Raise IndexError
               end)
            (seq 0 (default 1%nat s))
    end.

(** The writes of one assignment, in the order of the index arrays. *)
Abbreviation write_all a ws :=
  (foldl (λ (acc : ndarray) (w : nat * nat * nat * pyscalar),
            write_item acc w.1.1.1 w.1.1.2 w.1.2 w.2) a ws).

(** [a[i, l, m] = values] for three integers.  The indices are checked
    first, then [values] is converted to one element of the dtype of [a]:
    an array of floats converts with [float(values)], which takes a real
    array of one element, raises TypeError on a complex array of rank
    zero, and on any other array of rank one fails with the ValueError
    'setting an array element with a sequence'; an array of complex
    numbers converts with [complex(values)], which takes every array of
    one element and raises TypeError on the others. *)
Definition setitem_integer (a : ndarray) (i l m : Z)
    (values : array_like pyscalar) : res ndarray :=
  match py_index (arr_shape a).1.1 i, py_index (arr_shape a).1.2 l,
        py_index (arr_shape a).2 m with
  | Some i', Some l', Some m' =>
      match a, values with
      | FloatArr _, Scalar (PyFloat x) => Ok (write_item a i' l' m' (PyFloat x))
      | FloatArr _, Scalar (PyComplex _) => Raise TypeError
      | FloatArr _, Vector [PyFloat x] => Ok (write_item a i' l' m' (PyFloat x))
      | FloatArr _, Vector _ => Raise ValueError
      | ComplexArr _, Scalar v => Ok (write_item a i' l' m' v)
      | ComplexArr _, Vector [v] => Ok (write_item a i' l' m' v)
      | ComplexArr _, Vector _ => Raise TypeError
      end
  | _, _, _ => Raise IndexError
  end.

(** [SHCoeffs.set_coeffs]: the instance after the in-place assignment
    [self.coeffs[mneg_mask, ls, abs(ms)] = values].  When [ls] and [ms] are
    numbers the three indices are arrays of rank zero, which numpy takes
    as integers; otherwise they are index arrays, and with a repeated
    index the last value stays. *)
Definition SHCoeffs_set_coeffs (self : SHCoeffs)
    (values : array_like pyscalar) (ls ms : array_like Z) : res SHCoeffs :=
  coeffs' ←
    (match ls, ms with
     | Scalar l, Scalar m =>
         setitem_integer (coeffs self) (if (m <? 0)%Z then 1%Z else 0%Z) l
                         (Z.abs m) values
     | _, _ =>
         writes ← resolve_writes (arr_shape (coeffs self)) values ls ms;
         Ok (write_all (coeffs self) writes)
     end);
  Ok {| cls := cls self;
        coeffs := coeffs';
        mask := mask self; lmax := lmax self;
        normalization := normalization self; csphase := csphase self |}.

(** ** Spectra *)

(** [spectrum op= v] for two vectors: the in-place operation keeps the
    shape of [spectrum], so [v] must have its length or length one. *)
Definition vec_inplace (f : R → R → R) (spectrum v : list R) : res (list R) :=
  if (length v =? length spectrum)%nat then Ok (zip_with f spectrum v)
  else match v with
       | [c] => Ok ((λ x, f x c) <$> spectrum)
       | _ => Raise ValueError
       end.

(** [2.0 * l + 1.0] for [l = self.degrees()] *)
Definition two_l_plus_1 (self : SHCoeffs) : list R :=
  (λ l, (2 * INR l + 1)%R) <$> degrees self.

(** [SHRealCoeffs._spectrum] and [SHComplexCoeffs._spectrum]: the two
    bodies differ only in the backend routine, [backend_spectrum]. *)
Definition subclass_spectrum (backend_spectrum : ndarray → list R)
    (self : SHCoeffs) (convention unit : string) (base : R) : res (list R) :=
  spectrum ←
    (if String.eqb (lower convention) "l2norm" then
       Ok (backend_spectrum (coeffs self))
     else if String.eqb (lower convention) "power"
             || String.eqb (lower convention) "energy" then
       if String.eqb (normalization self) "4pi" then
         Ok (backend_spectrum (coeffs self))
       else if String.eqb (normalization self) "schmidt" then
         vec_inplace Rdiv (backend_spectrum (coeffs self)) (two_l_plus_1 self)
       else if String.eqb (normalization self) "ortho" then
         Ok ((λ x, x / (4 * PI))%R <$> backend_spectrum (coeffs self))
       else Raise ValueError
     else Raise ValueError);
  let spectrum :=
    if String.eqb (lower convention) "energy"
    then (λ x, x * (4 * PI))%R <$> spectrum else spectrum in
  if String.eqb (lower unit) "per_l" then Ok spectrum
  else if String.eqb (lower unit) "per_lm" then
    vec_inplace Rdiv spectrum (two_l_plus_1 self)
  else if String.eqb (lower unit) "per_dlogl" then
    vec_inplace Rmult spectrum ((λ l, INR l * ln base)%R <$> degrees self)
  else Raise ValueError.

Definition SHRealCoeffs__spectrum `{SpectrumBackend} :=
  subclass_spectrum (λ a, SHPowerSpectrum (as_float a)).
Definition SHComplexCoeffs__spectrum `{SpectrumBackend} :=
  subclass_spectrum (λ a, SHPowerSpectrumC (as_complex a)).

(** [SHCoeffs.spectrum] *)
Definition SHCoeffs_spectrum `{SpectrumBackend} (self : SHCoeffs)
    (convention unit : string) (base : R) : res (list R) :=
  match cls self with
  | SHRealCoeffs => SHRealCoeffs__spectrum self convention unit base
  | SHComplexCoeffs => SHComplexCoeffs__spectrum self convention unit base
  end.

(** ** Grids *)

Inductive grid_data : Type :=
  | FloatGrid (rows : list (list R))
  | ComplexGrid (rows : list (list C)).

(** A rank-2 numpy array: its shape [(nlat, nlon)] and its entries. *)
Record array2 : Type := mkArray2 {
  a2_shape : nat * nat;
  a2_data : grid_data;
}.

Inductive grid_class : Type :=
  DHRealGrid | DHComplexGrid | GLQRealGrid | GLQComplexGrid.

(** An instance of a subclass of [SHGrid]; the fields are the attributes
    [nlat], [nlon], [lmax], [sampling], [grid], [kind], [data], [zeros] and
    [weights] (the last three exist on some subclasses only). *)
Record SHGrid : Type := mkSHGrid {
  g_cls : grid_class;
  g_nlat : nat;
  g_nlon : nat;
  g_lmax : Z;
  g_sampling : option Z;
  g_data : grid_data;
  g_zeros_weights : option (list R * list R);
}.

Definition g_grid (x : SHGrid) : string :=
  match g_cls x with
  | DHRealGrid | DHComplexGrid => "DH"
  | GLQRealGrid | GLQComplexGrid => "GLQ"
  end.

Definition g_kind (x : SHGrid) : string :=
  match g_cls x with
  | DHRealGrid | GLQRealGrid => "real"
  | DHComplexGrid | GLQComplexGrid => "complex"
  end.

Definition grid_istype (c : grid_class) (kind : string) : bool :=
  match c with
  | DHRealGrid | GLQRealGrid => String.eqb kind "real"
  | DHComplexGrid | GLQComplexGrid => String.eqb kind "complex"
  end.

Definition isgrid (c : grid_class) (grid : string) : bool :=
  match c with
  | DHRealGrid | DHComplexGrid => String.eqb grid "DH"
  | GLQRealGrid | GLQComplexGrid => String.eqb grid "GLQ"
  end.

(** [DHRealGrid.__init__] and [DHComplexGrid.__init__].  [nlat] is even
    where [lmax] is computed, so [int(nlat / 2 - 1)] is exact. *)
Definition DHGrid_init (c : grid_class) (array : array2) (copy : bool)
    : res SHGrid :=
  let '(nlat, nlon) := a2_shape array in
  if negb (nlat mod 2 =? 0)%nat then Raise ValueError
  else
    sampling ← (if (nlon =? 2 * nlat)%nat then Ok 2%Z
                else if (nlat =? nlon)%nat then Ok 1%Z
                else Raise ValueError);
    Ok {| g_cls := c; g_nlat := nlat; g_nlon := nlon;
          g_lmax := (Z.of_nat nlat / 2 - 1)%Z;
          g_sampling := Some sampling;
          g_data := a2_data array;
          g_zeros_weights := None |}.

(** [GLQRealGrid.__init__] and [GLQComplexGrid.__init__] *)
Definition GLQGrid_init `{GridBackend} (c : grid_class) (array : array2)
    (zeros_weights : option (list R * list R)) (copy : bool) : res SHGrid :=
  let '(nlat, nlon) := a2_shape array in
  let lmax := (Z.of_nat nlat - 1)%Z in
  if negb (Z.of_nat nlat =? lmax + 1)%Z || negb (Z.of_nat nlon =? 2 * lmax + 1)%Z
  then Raise ValueError
  else
    Ok {| g_cls := c; g_nlat := nlat; g_nlon := nlon; g_lmax := lmax;
          g_sampling := None;
          g_data := a2_data array;
          g_zeros_weights := Some (default (SHGLQ lmax) zeros_weights) |}.

Definition DHRealGrid_init := DHGrid_init DHRealGrid.
Definition DHComplexGrid_init := DHGrid_init DHComplexGrid.
Definition GLQRealGrid_init `{GridBackend} := GLQGrid_init GLQRealGrid.
Definition GLQComplexGrid_init `{GridBackend} := GLQGrid_init GLQComplexGrid.

Definition grid_init `{GridBackend} (c : grid_class) (array : array2)
    (copy : bool) : res SHGrid :=
  match c with
  | DHRealGrid | DHComplexGrid => DHGrid_init c array copy
  | GLQRealGrid | GLQComplexGrid => GLQGrid_init c array None copy
  end.

(** [SHGrid.from_array]: [None] when no subclass accepts [kind] and [grid]
    as it is spelled. *)
Definition SHGrid_from_array `{GridBackend} (array : array2) (grid : string)
    (copy : bool) : res (option SHGrid) :=
  let kind := match a2_data array with
              | ComplexGrid _ => "complex" | FloatGrid _ => "real" end in
  if negb (str_in (upper grid) ["DH"; "GLQ"]) then Raise ValueError
  else
    match find (λ c, grid_istype c kind && isgrid c grid)
               [DHRealGrid; DHComplexGrid; GLQRealGrid; GLQComplexGrid] with
    | Some c => Some <$> grid_init c array copy
    | None => Ok None
    end.

(** ** Expansion on a grid and rotation *)

(** The code [norm] the backend uses for a normalization. *)
Definition norm_code (normalization : string) : res Z :=
  if String.eqb normalization "4pi" then Ok 1%Z
  else if String.eqb normalization "schmidt" then Ok 2%Z
  else if String.eqb normalization "ortho" then Ok 4%Z
  else Raise ValueError.

Definition grid_array_R (data : list (list R)) : array2 :=
  mkArray2 (shape2 data) (FloatGrid data).
Definition grid_array_C (data : list (list C)) : array2 :=
  mkArray2 (shape2 data) (ComplexGrid data).

(** [_expandDH] and [_expandGLQ] of the two subclasses *)
Definition SHRealCoeffs__expandDH `{GridBackend} (self : SHCoeffs)
    (sampling : Z) : res (option SHGrid) :=
  norm ← norm_code (normalization self);
  let data := MakeGridDH (as_float (coeffs self)) sampling norm (csphase self) in
  SHGrid_from_array (grid_array_R data) "DH" false.

Definition SHRealCoeffs__expandGLQ `{GridBackend} (self : SHCoeffs)
    (zeros : option (list R)) : res (option SHGrid) :=
  norm ← norm_code (normalization self);
  let zeros := default (SHGLQ (lmax self)).1 zeros in
  let data := MakeGridGLQ (as_float (coeffs self)) zeros norm (csphase self) in
  SHGrid_from_array (grid_array_R data) "GLQ" false.

Definition SHComplexCoeffs__expandDH `{GridBackend} (self : SHCoeffs)
    (sampling : Z) : res (option SHGrid) :=
  norm ← norm_code (normalization self);
  let data := MakeGridDHC (as_complex (coeffs self)) sampling norm (csphase self) in
  SHGrid_from_array (grid_array_C data) "DH" false.

Definition SHComplexCoeffs__expandGLQ `{GridBackend} (self : SHCoeffs)
    (zeros : option (list R)) : res (option SHGrid) :=
  norm ← norm_code (normalization self);
  let zeros := default (SHGLQ (lmax self)).1 zeros in
  let data := MakeGridGLQC (as_complex (coeffs self)) zeros norm (csphase self) in
  SHGrid_from_array (grid_array_C data) "GLQ" false.

(** [SHCoeffs.expand] *)
Definition SHCoeffs_expand `{GridBackend} (self : SHCoeffs) (grid : string)
    : res (option SHGrid) :=
  let expandDH := match cls self with
                  | SHRealCoeffs => SHRealCoeffs__expandDH self
                  | SHComplexCoeffs => SHComplexCoeffs__expandDH self
                  end in
  let expandGLQ := match cls self with
                   | SHRealCoeffs => SHRealCoeffs__expandGLQ self
                   | SHComplexCoeffs => SHComplexCoeffs__expandGLQ self
                   end in
  if String.eqb (upper grid) "DH" || String.eqb (upper grid) "DH1" then expandDH 1%Z
  else if String.eqb (upper grid) "DH2" then expandDH 2%Z
  else if String.eqb (upper grid) "GLQ" then expandGLQ None
  else Raise ValueError.

(** A Python value passed by keyword. *)
Inductive pyval : Type :=
  | PyStr (s : string)
  | PyInt (z : Z)
  | PyBool (b : bool).

Definition kw_lookup (name : string) (keywords : list (string * pyval))
    : option pyval :=
  snd <$> find (λ kv, String.eqb kv.1 name) keywords.

(** A call [SHCoeffs.from_array(coeffs, name=value, ...)]: the signature is
    [from_array(coeffs, normalization='4pi', csphase=1, copy=True)], so a
    keyword that names none of these parameters is a TypeError raised by
    the call itself; the keywords given bind the parameters by name and
    the others take their defaults. *)
Definition call_from_array (coeffs : ndarray) (keywords : list (string * pyval))
    : res SHCoeffs :=
  if negb (forallb (λ kv, str_in kv.1 ["normalization"; "csphase"; "copy"])
                   keywords)
  then Raise TypeError
  else
    normalization ← (match kw_lookup "normalization" keywords with
                     | None => Ok "4pi"
                     | Some (PyStr s) => Ok s
                     | Some _ => Raise ValueError
                     end);
    csphase ← (match kw_lookup "csphase" keywords with
               | None => Ok 1%Z
               | Some (PyInt z) => Ok z
               | Some (PyBool b) => Ok (if b then 1%Z else 0%Z)
               | Some (PyStr _) => Raise ValueError
               end);
    let copy := match kw_lookup "copy" keywords with
                | None => true
                | Some (PyBool b) => b
                | Some (PyInt z) => negb (z =? 0)%Z
                | Some (PyStr s) => negb (String.eqb s "")
                end in
    SHCoeffs_from_array coeffs normalization csphase copy.

(** [SHRealCoeffs._rotate]; [dj_matrix] is [None] when it is to be
    computed. *)
Definition SHRealCoeffs__rotate `{RotationBackend} (self : SHCoeffs)
    (angles : R * R * R) (dj_matrix : option dj_matrix_t) : res SHCoeffs :=
  let dj_matrix := default (djpi2 (lmax self + 1)) dj_matrix in
  a ← SHCoeffs_to_array self (Some "4pi") (Some 1%Z) None;
  let coeffs := FloatArr (SHRotateRealCoef (as_float a) angles dj_matrix) in
  if negb (String.eqb (normalization self) "4pi") || negb (csphase self =? 1)%Z
  then
    temp ← call_from_array coeffs [("kind", PyStr "real")];
    tempcoeffs ← SHCoeffs_to_array temp (Some (normalization self))
                                  (Some (csphase self)) None;
    SHCoeffs_from_array tempcoeffs (normalization self) (csphase self) false
  else call_from_array coeffs [("copy", PyBool false)].

Definition grid_real (d : grid_data) : list (list R) :=
  match d with FloatGrid x => x | ComplexGrid x => map2 Cre x end.
Definition grid_imag (d : grid_data) : list (list R) :=
  match d with FloatGrid x => map2 (λ _, 0%R) x | ComplexGrid x => map2 Cim x end.

(** [rgrid_rot + 1j * igrid_rot]: elementwise, the two grids having the
    same shape. *)
Definition grid_combine (re im : list (list R)) : res (list (list C)) :=
  if has_shape2 (shape2 re) re && has_shape2 (shape2 re) im
  then Ok (zip_with (zip_with (λ x y, Cadd (RtoC x) (Cmul Ci (RtoC y)))) re im)
  else Raise ValueError.

(** [SHComplexCoeffs._rotate] *)
Definition SHComplexCoeffs__rotate `{RotationBackend} `{GridBackend}
    (self : SHCoeffs) (angles : R * R * R) (dj_matrix : option dj_matrix_t)
    : res SHCoeffs :=
  let dj_matrix := default (djpi2 (lmax self + 1)) dj_matrix in
  cgrid ← SHCoeffs_expand self "DH";
  match cgrid with
  | None => Raise AttributeError
  | Some cgrid =>
      let rgrid := grid_real (g_data cgrid) in
      let igrid := grid_imag (g_data cgrid) in
      let rgridcoeffs := SHExpandDH rgrid 1 1 1 in
      let igridcoeffs := SHExpandDH igrid 1 1 1 in
      let rgridcoeffs_rot := SHRotateRealCoef rgridcoeffs angles dj_matrix in
      let igridcoeffs_rot := SHRotateRealCoef igridcoeffs angles dj_matrix in
      let rgrid_rot := MakeGridDH rgridcoeffs_rot 1 1 1 in
      let igrid_rot := MakeGridDH igridcoeffs_rot 1 1 1 in
      grid_rot ← grid_combine rgrid_rot igrid_rot;
      norm ← norm_code (normalization self);
      let coeffs_rot := SHExpandDHC grid_rot norm (csphase self) in
      SHCoeffs_from_array (ComplexArr coeffs_rot) (normalization self)
                          (csphase self) false
  end.

(** [SHCoeffs.rotate] *)
Definition SHCoeffs_rotate `{RotationBackend} `{GridBackend} (self : SHCoeffs)
    (alpha beta gamma : R) (degrees : bool) (dj_matrix : option dj_matrix_t)
    : res SHCoeffs :=
  let radians x := (x * (PI / 180))%R in
  let angles := if degrees then (radians alpha, radians beta, radians gamma)
                else (alpha, beta, gamma) in
  match cls self with
  | SHRealCoeffs => SHRealCoeffs__rotate self angles dj_matrix
  | SHComplexCoeffs => SHComplexCoeffs__rotate self angles dj_matrix
  end.

(** ** Localization windows *)

Inductive window_class : Type := SHWindowCap | SHWindowMask.

(** An instance of a subclass of [SHWindow], with the attributes the
    methods below read: [tapers] is a matrix with one column per window,
    [coeffs] the matrix of rotated windows ([None] until [rotate] has
    run), [weights] is [None] when no weights are set. *)
Record SHWindow : Type := mkSHWindow {
  w_cls : window_class;
  w_tapers : list (list R);
  w_eigenvalues : list R;
  w_orders : list Z;
  w_weights : option (list R);
  w_lwin : Z;
  w_nwin : Z;
  w_coeffs : option (list (list R));
  w_nwinrot : option Z;
}.

Definition w_kind (x : SHWindow) : string :=
  match w_cls x with SHWindowCap => "cap" | SHWindowMask => "mask" end.

(** [M[:, j]] for a Python [int] [j] *)
Definition get_column (M : list (list R)) (j : Z) : res (list R) :=
  match py_index (shape2 M).2 j with
  | Some j' => Ok ((λ r, nth j' r 0%R) <$> M)
  | None => Raise IndexError
  end.

(** [M[:, j] = v]: [v] has one entry per row, or a single entry that is
    repeated. *)
Definition set_column (j : nat) (v : list R) (M : list (list R))
    : res (list (list R)) :=
  if negb (j <? (shape2 M).2)%nat then Raise IndexError
  else if (length v =? length M)%nat
  then Ok (zip_with (λ r x, <[j := x]> r) M v)
  else match v with
       | [c] => Ok ((λ r, <[j := c]> r) <$> M)
       | _ => Raise ValueError
       end.

(** [a[i, :, m] = v] *)
Definition set_order_column (i m : nat) (v : list R) (a : list3 R)
    : res (list3 R) :=
  match a !! i with
  | None => Raise IndexError
  | Some p => p' ← set_column m v p; Ok (<[i := p']> a)
  end.

(** [SHWindowCap._taper2coeffs] *)
Definition _taper2coeffs (self : SHWindow) (itaper : Z) : res (list3 R) :=
  match py_index (length (w_orders self)) itaper with
  | None => Raise IndexError
  | Some j =>
      let taperm := nth j (w_orders self) 0%Z in
      coeffs ← zeros3 0%R 2 (w_lwin self + 1) (w_lwin self + 1);
      column ← get_column (w_tapers self) itaper;
      if (taperm <? 0)%Z
      then set_order_column 1 (Z.to_nat (Z.abs taperm)) column coeffs
      else set_order_column 0 (Z.to_nat (Z.abs taperm)) column coeffs
  end.

(** The conversion shared by the two [_to_array] methods of the windows:
    from 4pi-normalized coefficients without the phase to the convention
    asked for. *)
Definition window_convention (lwin : Z) (normalization : string) (csphase : Z)
    (coeffs : list3 R) : res (list3 R) :=
  coeffs ←
    (if String.eqb normalization "schmidt" then
       as_float <$>
         py_for (arange (lwin + 1))
                (λ l, scale_degree (sqrt (2 * INR l + 1)) l) (FloatArr coeffs)
     else if String.eqb normalization "ortho" then
       Ok (as_float (scale_all (sqrt (4 * PI)) (FloatArr coeffs)))
     else Ok coeffs);
  if (csphase =? -1)%Z then
    py_for (arange (lwin + 1))
           (λ m c, if Nat.odd m then negate_order (K:=R) m c else Ok c) coeffs
  else Ok coeffs.

(** [SHWindowCap._to_array] *)
Definition SHWindowCap__to_array `{WindowBackend} (self : SHWindow)
    (itaper : Z) (normalization : string) (csphase : Z) : res (list3 R) :=
  coeffs ←
    (match w_coeffs self with
     | None => _taper2coeffs self itaper
     | Some rotated =>
         match w_nwinrot self with
         | None => Raise TypeError
         | Some nwinrot =>
             if (nwinrot - 1 <? itaper)%Z then Raise ValueError
             else SHVectorToCilm <$> get_column rotated itaper
         end
     end);
  window_convention (w_lwin self) normalization csphase coeffs.

(** [SHWindowMask._to_array] *)
Definition SHWindowMask__to_array `{WindowBackend} (self : SHWindow)
    (itaper : Z) (normalization : string) (csphase : Z) : res (list3 R) :=
  coeffs ← SHVectorToCilm <$> get_column (w_tapers self) itaper;
  window_convention (w_lwin self) normalization csphase coeffs.

(** [SHWindow.to_array].  The message of the first error names
    [output_normalization], which is not defined in this method, so what
    is raised there is a NameError. *)
Definition SHWindow_to_array `{WindowBackend} (self : SHWindow) (itaper : Z)
    (normalization : string) (csphase : Z) : res (list3 R) :=
  if negb (valid_normalization normalization) then Raise NameError
  else if negb (valid_csphase csphase) then Raise ValueError
  else match w_cls self with
       | SHWindowCap =>
           SHWindowCap__to_array self itaper (lower normalization) csphase
       | SHWindowMask =>
           SHWindowMask__to_array self itaper (lower normalization) csphase
       end.

(** The arguments of one call of the backend routine
    [SHMTCouplingMatrix(lmax, tapers_power, k=k, taper_wt=taper_wt)]. *)
Record coupling_call : Type := mkCall {
  call_lmax : Z;
  call_tapers_power : list (list R);
  call_k : Z;
  call_taper_wt : option (option (list R));
}.

Definition invoke `{WindowBackend} (c : coupling_call) : list (list R) :=
  SHMTCouplingMatrix (call_lmax c) (call_tapers_power c) (call_k c)
                     (call_taper_wt c).

(** [SHWindowCap._couplingmatrix], up to the call of the backend: the
    arguments it passes. *)
Definition SHWindowCap__couplingmatrix_call (self : SHWindow) (lmax : Z)
    (nwin : option Z) (weights : option (list R)) : res coupling_call :=
  let nwin := default (w_nwin self) nwin in
  let weights := match weights with None => w_weights self | Some w => Some w end in
  let tapers_power := map2 (λ x, x * x)%R (w_tapers self) in
  match weights with
  | None => Ok (mkCall lmax tapers_power nwin None)
  | Some _ => Ok (mkCall lmax tapers_power nwin (Some (w_weights self)))
  end.

(** [SHWindowMask._couplingmatrix], up to the call of the backend. *)
Definition SHWindowMask__couplingmatrix_call `{WindowBackend}
    `{SpectrumBackend} (self : SHWindow) (lmax : Z) (nwin : option Z)
    (weights : option (list R)) : res coupling_call :=
  let nwin := default (w_nwin self) nwin in
  let weights := match weights with None => w_weights self | Some w => Some w end in
  rows ← (if (w_lwin self + 1 <? 0)%Z || (nwin <? 0)%Z then Raise ValueError
          else Ok (replicate (Z.to_nat (w_lwin self + 1))
                             (replicate (Z.to_nat nwin) 0%R)));
  tapers_power ←
    py_for (arange nwin)
           (λ i tp, a ← SHWindow_to_array self (Z.of_nat i) "4pi" 1;
                    set_column i (SHPowerSpectrum a) tp)
           rows;
  match weights with
  | None => Ok (mkCall lmax tapers_power nwin None)
  | Some _ => Ok (mkCall lmax tapers_power nwin (Some (w_weights self)))
  end.

Definition _couplingmatrix_call `{WindowBackend} `{SpectrumBackend}
    (self : SHWindow) (lmax : Z) (nwin : option Z) (weights : option (list R))
    : res coupling_call :=
  match w_cls self with
  | SHWindowCap => SHWindowCap__couplingmatrix_call self lmax nwin weights
  | SHWindowMask => SHWindowMask__couplingmatrix_call self lmax nwin weights
  end.

(** [self._couplingmatrix(lmax, nwin=nwin, weights=weights)] *)
Definition _couplingmatrix `{WindowBackend} `{SpectrumBackend}
    (self : SHWindow) (lmax : Z) (nwin : option Z) (weights : option (list R))
    : res (list (list R)) :=
  invoke <$> _couplingmatrix_call self lmax nwin weights.

(** The test of [couplingmatrix] on the length of [weights]. *)
Definition check_weights (self : SHWindow) (nwin : option Z)
    (weights : option (list R)) : res () :=
  match weights with
  | None => Ok ()
  | Some w =>
      if negb (Z.of_nat (length w) =? default (w_nwin self) nwin)%Z
      then Raise ValueError else Ok ()
  end.

(** [SHWindow.couplingmatrix] *)
Definition SHWindow_couplingmatrix `{WindowBackend} `{SpectrumBackend}
    (self : SHWindow) (lmax : Z) (nwin : option Z) (weights : option (list R))
    (mode : string) : res (list (list R)) :=
  _ ← check_weights self nwin weights;
  if String.eqb mode "full" then _couplingmatrix self lmax nwin weights
  else if String.eqb mode "same" then
    cmatrix ← _couplingmatrix self lmax nwin weights;
    Ok (slice_to (lmax + 1) cmatrix)
  else if String.eqb mode "valid" then
    cmatrix ← _couplingmatrix self lmax nwin weights;
    Ok (slice_to (lmax - w_lwin self + 1) cmatrix)
  else Raise ValueError.

(** The backend call a call of [couplingmatrix] leads to, if any. *)
Definition couplingmatrix_call `{WindowBackend} `{SpectrumBackend}
    (self : SHWindow) (lmax : Z) (nwin : option Z) (weights : option (list R))
    (mode : string) : res coupling_call :=
  _ ← check_weights self nwin weights;
  if String.eqb mode "full" || String.eqb mode "same" || String.eqb mode "valid"
  then _couplingmatrix_call self lmax nwin weights
  else Raise ValueError.

(** ** Coefficient sets as objects

    Instances live in a store and are named by references.  The operators
    read their operands and build a new instance; [set_coeffs] is the one
    method that writes into an existing instance. *)

Abbreviation store := (list SHCoeffs) (only parsing).
Abbreviation ref := nat (only parsing).

(** [self (op) other] for two instances: the result is a new object. *)
Definition obj_binary (op : arith_op) (self other : ref) (σ : store)
    : res ref * store :=
  match σ !! self, σ !! other with
  | Some s, Some o =>
      match apply_op op s (OCoeffs o) with
      | Ok r => (Ok (length σ), σ ++ [r])
      | Raise e => (Raise e, σ)
      end
  | _, _ => (Raise NameError, σ)
  end.

(** [self.set_coeffs(values, ls, ms)] *)
Definition obj_set_coeffs (self : ref) (values : array_like pyscalar)
    (ls ms : array_like Z) (σ : store) : res () * store :=
  match σ !! self with
  | Some s =>
      match SHCoeffs_set_coeffs s values ls ms with
      | Ok s' => (Ok (), <[self := s']> σ)
      | Raise e => (Raise e, σ)
      end
  | None => (Raise NameError, σ)
  end.

(** ** Properties stated about coefficient sets *)

(** The mask of the data model: true exactly where [m <= l], except on the
    sine plane at order 0. *)
Definition mask_spec (i l m : nat) : bool :=
  (m <=? l)%nat && negb ((i =? 1)%nat && (m =? 0)%nat).

(** Every entry at an index where the mask is false is zero. *)
Definition zero_outside_mask (x : SHCoeffs) : Prop :=
  ∀ i l m, lookup3 (mask x) i l m = Some false →
           arr_get (coeffs x) i l m = Some (RtoC 0).

(** The three normalizations and the two phases. *)
Definition normalizations : list string := ["4pi"; "ortho"; "schmidt"].
Definition csphases : list Z := [1%Z; (-1)%Z].

(** ** A reference backend

    The routines of [_SHTOOLS] that the examples below run. *)

(** Modelled from the spec: the backend routine for the l2-norm spectrum,
    which is missing from the sources; section 4.3 gives it as the sum of
    the squared magnitudes of all stored coefficients at each degree, one
    value per degree. *)
Definition spec_power_spectrum {K} (sq : K → R) (a : list3 K) : list R :=
  (λ l : nat,
     foldr Rplus 0%R
       ((λ p : list (list K), foldr Rplus 0%R (sq <$> default [] (p !! l)))
          <$> a))
    <$> seq 0 (shape3 a).1.2.

#[local] Instance spec_spectrum_backend : SpectrumBackend := {|
  SHPowerSpectrum := spec_power_spectrum (λ x, x * x)%R;
  SHPowerSpectrumC := spec_power_spectrum (λ z, Cre z * Cre z + Cim z * Cim z)%R;
  SHPowerSpectrumDensity := λ a,
    imap (λ l x, x / (2 * INR l + 1))%R (spec_power_spectrum (λ x, x * x)%R a);
|}.

(** Modelled from the spec: the routines [SHrtoc] and [SHctor], which are
    missing from the sources; section 4.2 gives the complex coefficient of
    order [m > 0] as [(a - i b) / 2] and that of order 0 as the real
    number [a(l, 0)], and the map back as its inverse.  The first plane of
    the result holds the real parts, the second the imaginary parts. *)
Definition spec_SHrtoc (a : list3 R) : list3 R :=
  imap3 (λ i l m (_ : R),
           let re := default 0%R (lookup3 a 0 l m) in
           let im := default 0%R (lookup3 a 1 l m) in
           if (m =? 0)%nat then (if (i =? 0)%nat then re else 0%R)
           else if (i =? 0)%nat then (re / 2)%R else (- im / 2)%R) a.

Definition spec_SHctor (c : list3 R) : list3 R :=
  imap3 (λ i l m (_ : R),
           let re := default 0%R (lookup3 c 0 l m) in
           let im := default 0%R (lookup3 c 1 l m) in
           if (m =? 0)%nat then (if (i =? 0)%nat then re else 0%R)
           else if (i =? 0)%nat then (2 * re)%R else (- (2 * im))%R) c.

#[local] Instance spec_convert_backend : ConvertBackend := {|
  SHrtoc := spec_SHrtoc;
  SHctor := spec_SHctor;
|}.

(** Modelled from the spec: the routine [SHMTCouplingMatrix], which is
    missing from the sources; section 4.7 gives its result as a matrix
    that maps a spectrum of length [lmax + 1] to one of length
    [lmax + lwin + 1], where [lwin + 1] is the number of degrees of the
    window spectra.  The specification does not give the entries; they
    are the values of [kernel]. *)
Definition spec_coupling_matrix (kernel : nat → nat → R) (lmax : Z)
    (tapers_power : list (list R)) : list (list R) :=
  (λ i, (λ j, kernel i j) <$> seq 0 (Z.to_nat (lmax + 1)))
    <$> seq 0 (Z.to_nat (lmax + Z.of_nat (length tapers_power))).

(** Modelled from the spec: the routines [SHVectorToCilm] and
    [SHCilmToVector], which are missing from the sources; section 6 names
    them as the conversion between a packed vector and a coefficient array
    without giving the layout.  The layout here puts the entry of plane
    [i], degree [l] and order [m] at position [l * l + i * l + m]. *)
Definition spec_SHVectorToCilm (v : list R) : list3 R :=
  let n := Nat.sqrt (length v) in
  imap3 (λ i l m (_ : R),
           if mask_spec i l m then nth (l * l + i * l + m) v 0%R else 0%R)
        (np_zeros 0%R 2 n n).

Definition spec_SHCilmToVector (a : list3 R) : list R :=
  flat_map (λ l, ((λ m, default 0%R (lookup3 a 0 l m)) <$> seq 0 (l + 1))
                 ++ ((λ m, default 0%R (lookup3 a 1 l m)) <$> seq 1 l))
           (seq 0 (shape3 a).1.2).

#[local] Instance spec_window_backend : WindowBackend := {|
  SHMTCouplingMatrix := λ lmax tapers_power _ _,
    spec_coupling_matrix (λ i j, INR (i + j)) lmax tapers_power;
  SHVectorToCilm := spec_SHVectorToCilm;
  SHCilmToVector := spec_SHCilmToVector;
|}.

(** The mask of shape [(2, n, n)] in closed form. *)
Definition mask_array (n : nat) : list3 bool :=
  imap3 (λ i l m (_ : bool), mask_spec i l m) (np_zeros false 2 n n).

(** A coefficient set of the data model: an array of shape
    [(2, lmax+1, lmax+1)] with the mask the constructors build. *)
Definition wf_coeffs (x : SHCoeffs) : Prop :=
  ∃ n, (0 < n)%nat ∧ lmax x = (Z.of_nat n - 1)%Z ∧ mask x = mask_array n
       ∧ arr_has_shape (2, n, n)%nat (coeffs x) = true.

(** What [_to_array] does to the entry of degree [l] and order [m]: the
    factor of the normalization, then the sign of the phase. *)
Definition convert_entry {K} `{Num K} (norm_from norm_to : string)
    (cs_from cs_to : Z) (l m : nat) (x : K) : K :=
  let in_degree (f : K → K) := if (m <? l + 1)%nat then f x else x in
  let y :=
    if String.eqb norm_from norm_to then x
    else if String.eqb norm_from "4pi" && String.eqb norm_to "schmidt" then
      in_degree (nscale (sqrt (2 * INR l + 1)))
    else if String.eqb norm_from "4pi" && String.eqb norm_to "ortho" then
      nscale (sqrt (4 * PI)) x
    else if String.eqb norm_from "schmidt" && String.eqb norm_to "4pi" then
      in_degree (nunscale (sqrt (2 * INR l + 1)))
    else if String.eqb norm_from "schmidt" && String.eqb norm_to "ortho" then
      in_degree (nscale (sqrt (4 * PI / (2 * INR l + 1))))
    else if String.eqb norm_from "ortho" && String.eqb norm_to "4pi" then
      nunscale (sqrt (4 * PI)) x
    else if String.eqb norm_from "ortho" && String.eqb norm_to "schmidt" then
      in_degree (nscale (sqrt ((2 * INR l + 1) / (4 * PI))))
    else x in
  if negb (cs_to =? cs_from)%Z && Nat.odd m then nneg y else y.

(** [a[~mask] = 0.] entry by entry. *)
Definition masked (a : ndarray) : ndarray :=
  arr_map (λ K H i l m x, if mask_spec i l m then x else nzero) a.

(** The subclass [from_array] selects for the dtype of an array. *)
Definition dtype_class (a : ndarray) : coeffs_class :=
  if iscomplexobj a then SHComplexCoeffs else SHRealCoeffs.

(** The array [_to_array] returns for a coefficient set of the data
    model. *)
Definition converted (x : SHCoeffs) (out_norm : string) (out_cs : Z)
    (lmax' : Z) : ndarray :=
  arr_map (λ K H _ l m v,
             convert_entry (normalization x) out_norm (csphase x) out_cs l m v)
          (slice_lmax lmax' (coeffs x)).

(** A coefficient set with [lmax = 1], orthonormalized, with the phase. *)
Definition example_ortho : SHCoeffs :=
  {| cls := SHRealCoeffs;
     coeffs := FloatArr [[[1; 0]; [2; 3]]; [[0; 0]; [0; 4]]]%R;
     mask := mask_array 2; lmax := 1;
     normalization := "ortho"; csphase := (-1)%Z |}.

(** The real coefficient set with [lmax = 0] whose single coefficient is
    1, as [from_array] builds it. *)
Definition unit_degree0 : SHCoeffs :=
  {| cls := SHRealCoeffs; coeffs := FloatArr [[[1%R]]; [[0%R]]];
     mask := mask_array 1; lmax := 0;
     normalization := "4pi"; csphase := 1 |}.

(** The test of the operators on two coefficient sets: the same
    normalization, phase convention and kind. *)
Definition compatible (s o : SHCoeffs) : Prop :=
  normalization s = normalization o ∧ csphase s = csphase o ∧ kind s = kind o.

(** The same test as the operators compute it. *)
Definition compatible_b (s o : SHCoeffs) : bool :=
  String.eqb (normalization s) (normalization o)
  && (csphase s =? csphase o)%Z
  && String.eqb (kind s) (kind o).

(** The complex coefficient set with [lmax = 0] whose single coefficient
    is the imaginary unit, as [from_array] builds it. *)
Definition imag_degree0 : SHCoeffs :=
  {| cls := SHComplexCoeffs; coeffs := ComplexArr [[[Ci]]; [[RtoC 0]]];
     mask := mask_array 1; lmax := 0;
     normalization := "4pi"; csphase := 1 |}.

(** The backend returns one value per degree of the array it is given. *)
Definition spectrum_lengths `{SpectrumBackend} : Prop :=
  (∀ a, length (SHPowerSpectrum a) = (shape3 a).1.2)
  ∧ (∀ a, length (SHPowerSpectrumC a) = (shape3 a).1.2).

(** Modelled from the spec: the rotation routines [djpi2] and
    [SHRotateRealCoef], which are missing from the sources.  Section 4.4
    fixes the result of a rotation at the angles (0, 0, 0) only, where it
    is the input; this instance returns the input at all angles and keeps
    no rotation matrix. *)
Definition spec_rotation_backend : RotationBackend :=
  {| dj_matrix_t := unit;
     djpi2 := λ _, ();
     SHRotateRealCoef := λ cilm _ _, cilm |}.

(** Modelled from the spec: the grid routines, which are missing from the
    sources.  Section 3 gives the shapes: a DH grid for degree [lmax] has
    [2*lmax+2] rows and as many columns, or twice as many with sampling 2,
    and a GLQ grid has [lmax+1] rows and [2*lmax+1] columns.  The
    specification gives no entries; they are zero here. *)
Definition spec_grid_backend : GridBackend :=
  let rows {K} (a : list3 K) := (shape3 a).1.2 in
  {| MakeGridDH := λ a sampling _ _,
       replicate (2 * rows a) (replicate (Z.to_nat sampling * 2 * rows a) 0%R);
     MakeGridDHC := λ a sampling _ _,
       replicate (2 * rows a) (replicate (Z.to_nat sampling * 2 * rows a) (RtoC 0));
     SHExpandDH := λ g _ _ _, np_zeros 0%R 2 (length g / 2) (length g / 2);
     SHExpandDHC := λ g _ _, np_zeros (RtoC 0) 2 (length g / 2) (length g / 2);
     SHGLQ := λ lmax, (replicate (Z.to_nat (lmax + 1)) 0%R,
                       replicate (Z.to_nat (lmax + 1)) 0%R);
     MakeGridGLQ := λ a _ _ _,
       replicate (rows a) (replicate (2 * rows a - 1) 0%R);
     MakeGridGLQC := λ a _ _ _,
       replicate (rows a) (replicate (2 * rows a - 1) (RtoC 0)) |}.

(** The subclass [from_array] selects for a dtype and a grid name. *)
Definition DH_class (d : grid_data) : grid_class :=
  match d with FloatGrid _ => DHRealGrid | ComplexGrid _ => DHComplexGrid end.
Definition GLQ_class (d : grid_data) : grid_class :=
  match d with FloatGrid _ => GLQRealGrid | ComplexGrid _ => GLQComplexGrid end.

(** The shapes a DH grid and a GLQ grid may have. *)
Definition DH_shape (nlat nlon : nat) : Prop :=
  (nlat mod 2 = 0)%nat ∧ (nlon = nlat ∨ nlon = 2 * nlat)%nat.
Definition GLQ_shape (nlat nlon : nat) : Prop :=
  (Z.of_nat nlon = 2 * Z.of_nat nlat - 1)%Z.

(** The index [set_coeffs] writes for a degree [l >= 0] and a signed order
    [m]: plane 1 for a negative order and plane 0 otherwise, degree [l],
    order [|m|]. *)
Definition target (l m : Z) : nat * nat * nat :=
  (if (m <? 0)%Z then 1%nat else 0%nat, Z.to_nat l, Z.to_nat (Z.abs m)).

(** The entry of an array of the dtype of [a] after a Python number is
    stored in it. *)
Definition stored_in (a : ndarray) (v : pyscalar) : C :=
  match a with
  | FloatArr _ => RtoC (store_float v)
  | ComplexArr _ => store_complex v
  end.

(** The writes [set_coeffs] makes for three parallel lists. *)
Definition writes_of (vs : list pyscalar) (ls ms : list Z)
    : list (nat * nat * nat * pyscalar) :=
  (λ j, (target (nth j ls 0%Z) (nth j ms 0%Z), nth j vs (PyFloat 0)))
    <$> seq 0 (length vs).

(** Modelled from the spec: the number of rows of the matrix the routine
    [SHMTCouplingMatrix] returns, which is missing from the sources;
    section 6 gives the full matrix [lmax + lwin + 1] rows, where
    [tapers_power] has one row per degree of the windows, [lwin + 1] in
    all. *)
Definition coupling_rows `{WindowBackend} : Prop :=
  ∀ lmax tapers_power k taper_wt, (0 <= lmax)%Z →
    Z.of_nat (length (SHMTCouplingMatrix lmax tapers_power k taper_wt))
    = (lmax + Z.of_nat (length tapers_power))%Z.

(** What [SHWindowCap.__init__] establishes with
    [self.lwin = tapers.shape[0] - 1]; the windows of a mask carry no such
    condition, their spectra are laid out in [lwin + 1] rows by
    [_couplingmatrix] itself. *)
Definition window_rows (self : SHWindow) : Prop :=
  match w_cls self with
  | SHWindowCap => Z.of_nat (length (w_tapers self)) = (w_lwin self + 1)%Z
  | SHWindowMask => True
  end.

(** Two windows of a spherical cap with [lwin = 3], of orders 0 and 1. *)
Definition example_cap : SHWindow :=
  {| w_cls := SHWindowCap;
     w_tapers := [[1; 0]; [2; 1]; [3; 2]; [4; 3]]%R;
     w_eigenvalues := [1; 1]%R;
     w_orders := [0; 1]%Z;
     w_weights := None;
     w_lwin := 3; w_nwin := 2;
     w_coeffs := None; w_nwinrot := None |}.

(** A backend whose coupling matrix is the one row of the weights it is
    passed as [taper_wt] (no row when it is passed none): it shows which
    weights reach the routine. *)
Definition echo_window_backend : WindowBackend :=
  {| SHMTCouplingMatrix := λ _ _ _ taper_wt,
       match taper_wt with Some (Some w) => [w] | _ => [] end;
     SHVectorToCilm := spec_SHVectorToCilm;
     SHCilmToVector := spec_SHCilmToVector |}.

(** The rows [couplingmatrix] keeps of the matrix of the backend, by
    mode. *)
Definition mode_rows (self : SHWindow) (lmax : Z) (mode : string)
    (cmatrix : list (list R)) : list (list R) :=
  if String.eqb mode "full" then cmatrix
  else if String.eqb mode "same" then slice_to (lmax + 1) cmatrix
  else slice_to (lmax - w_lwin self + 1) cmatrix.

(** The windows of [example_cap] with weights set. *)
Definition example_weighted : SHWindow :=
  {| w_cls := SHWindowCap;
     w_tapers := [[1; 0]; [2; 1]; [3; 2]; [4; 3]]%R;
     w_eigenvalues := [1; 1]%R;
     w_orders := [0; 1]%Z;
     w_weights := Some [1; 1]%R;
     w_lwin := 3; w_nwin := 2;
     w_coeffs := None; w_nwinrot := None |}.

(** What [_couplingmatrix] needs of the windows of a mask and of the
    backend for its first [k] windows: the windows are there, and the
    routines [SHVectorToCilm] and [SHPowerSpectrum], which are not part of
    [shclasses.py], give the spectrum of a window one value per degree up
    to [lwin]. *)
Definition mask_spectra `{WindowBackend} `{SpectrumBackend} (self : SHWindow)
    (k : Z) : Prop :=
  (0 <= k <= Z.of_nat (shape2 (w_tapers self)).2)%Z
  ∧ ∀ i column, get_column (w_tapers self) i = Ok column →
      Z.of_nat (length (SHPowerSpectrum (SHVectorToCilm column)))
      = (w_lwin self + 1)%Z.

(** One window of a mask with [lwin = 1]. *)
Definition example_mask : SHWindow :=
  {| w_cls := SHWindowMask;
     w_tapers := [[1]; [0]; [2]; [3]]%R;
     w_eigenvalues := [1%R];
     w_orders := [];
     w_weights := None;
     w_lwin := 1; w_nwin := 1;
     w_coeffs := None; w_nwinrot := None |}.

(** The factor a normalization puts on a coefficient of degree [l],
    relative to the 4pi normalization. *)
Definition norm_factor (norm : string) (l : nat) : R :=
  if String.eqb norm "schmidt" then sqrt (2 * INR l + 1)
  else if String.eqb norm "ortho" then sqrt (4 * PI)
  else 1%R.

(** A coefficient set whose class is the one of its dtype, as every
    constructor call through [from_array] makes it. *)
Definition class_of_dtype (x : SHCoeffs) : Prop :=
  cls x = dtype_class (coeffs x).

(** The operation of the reals an operator applies entry by entry. *)
Definition real_op (op : arith_op) : R → R → R :=
  match op with
  | OpAdd => Rplus | OpSub => Rminus | OpMul => Rmult | OpDiv => Rdiv
  end.

(** The same operation on either element type. *)
Definition num_op (op : arith_op) : ∀ K, Num K → K → K → K :=
  match op with
  | OpAdd => λ K _, nadd | OpSub => λ K _, nsub
  | OpMul => λ K _, nmul | OpDiv => λ K _, ndiv
  end.

(** A real coefficient set with [lmax = 1] in the default conventions. *)
Definition example_4pi : SHCoeffs :=
  {| cls := SHRealCoeffs;
     coeffs := FloatArr [[[5; 0]; [6; 7]]; [[0; 0]; [0; 8]]]%R;
     mask := mask_array 2; lmax := 1;
     normalization := "4pi"; csphase := 1 |}.

(** A Python value passed as [binary]: a [str], an [int] or a [bool], or
    [None]. *)
Inductive pyarg : Type :=
  | PyVal (v : pyval)
  | PyNone.

(** An array read from a file, by its rank: 0 or 1, 2, or more. *)
Inductive file_array : Type :=
  | RankLow
  | Rank2 (a : array2)
  | RankHigh.

(** The files: the table of numbers a text file holds, one row for each
    line, and the array a binary file holds. *)
Class GridFileBackend : Type := {
  text_table : string → list (list R);
  np_load_grid : string → file_array;
}.

(** [numpy.loadtxt(fname)]: rows of different lengths are a ValueError;
    the result is an array of floats from which the axes of length one
    are removed, so a file of one row, of one column or of no row gives an
    array of rank 0 or 1. *)
Definition np_loadtxt `{GridFileBackend} (fname : string) : res file_array :=
  let rows := text_table fname in
  if negb (has_shape2 (shape2 rows) rows) then Raise ValueError
  else if ((shape2 rows).1 <=? 1)%nat || ((shape2 rows).2 <=? 1)%nat
  then Ok RankLow
  else Ok (Rank2 (mkArray2 (shape2 rows) (FloatGrid rows))).

(** [SHGrid.from_file] from the array read on: the kind, the grid type
    read off the shape (DH first) and the constructor. *)
Definition SHGrid_from_file_data `{GridBackend} (data : array2)
    : res (option SHGrid) :=
  let kind := match a2_data data with
              | ComplexGrid _ => "complex" | FloatGrid _ => "real" end in
  let '(nlat, nlon) := a2_shape data in
  grid ← (if (nlon =? nlat)%nat || (nlon =? 2 * nlat)%nat then Ok "DH"
          else if (Z.of_nat nlon =? 2 * Z.of_nat nlat - 1)%Z then Ok "GLQ"
          else Raise ValueError);
  match find (λ c, grid_istype c kind && isgrid c grid)
             [DHRealGrid; DHComplexGrid; GLQRealGrid; GLQComplexGrid] with
  | Some c => Some <$> grid_init c data true
  | None => Ok None
  end.

(** [SHGrid.from_file].  The tests on [binary] are [binary is False] and
    [binary is True]; for every other value the message of the ValueError
    is formatted with ['{:s}'.format(binary)], which is itself a
    ValueError for an [int] and a TypeError for [None].  On an array of
    rank 0 or 1, [data.shape[1]] is an IndexError; an array of rank 3 or
    more ends in a ValueError, of the test on the shape or of the
    constructor, which unpacks [array.shape] into two names. *)
Definition SHGrid_from_file `{GridBackend} `{GridFileBackend} (fname : string)
    (binary : pyarg) : res (option SHGrid) :=
  data ← (match binary with
          | PyVal (PyBool false) => np_loadtxt fname
          | PyVal (PyBool true) => Ok (np_load_grid fname)
          | PyVal (PyStr _) | PyVal (PyInt _) => Raise ValueError
          | PyNone => Raise TypeError
          end);
  match data with
  | RankLow => Raise IndexError
  | Rank2 data => SHGrid_from_file_data data
  | RankHigh => Raise ValueError
  end.

(** The right operand of an operator of [SHGrid]: a grid; a number, which
    [numpy.isscalar] accepts; a [str] or [bytes], which [numpy.isscalar]
    accepts as well; or a value it rejects ([None], a list, an array, any
    other object). *)
Inductive grid_operand : Type :=
  | GGrid (other : SHGrid)
  | GScalar (s : pyscalar)
  | GStr (s : string)
  | GOther.

Definition grid_as_complex (d : grid_data) : list (list C) :=
  match d with FloatGrid x => map2 RtoC x | ComplexGrid x => x end.

(** [a (op) b] for two arrays of the same shape: the result is complex as
    soon as one of them is. *)
Definition grid_zip (f : ∀ K, Num K → K → K → K) (a b : grid_data) : grid_data :=
  match a, b with
  | FloatGrid x, FloatGrid y => FloatGrid (zip_with (zip_with (f R _)) x y)
  | _, _ => ComplexGrid (zip_with (zip_with (f C _))
                                  (grid_as_complex a) (grid_as_complex b))
  end.

(** [a (op) s], or [s (op) a] when [reflected], for a number [s]. *)
Definition grid_scalar (f : ∀ K, Num K → K → K → K) (reflected : bool)
    (a : grid_data) (s : pyscalar) : grid_data :=
  match a, s with
  | FloatGrid x, PyFloat c =>
      FloatGrid (map2 (λ v, if reflected then f R _ c v else f R _ v c) x)
  | _, _ =>
      let c := store_complex s in
      ComplexGrid (map2 (λ v, if reflected then f C _ c v else f C _ v c)
                        (grid_as_complex a))
  end.

(** The common shape of the operators of [SHGrid]; [self.data.shape] is
    [(nlat, nlon)], which the constructors set from it. *)
Definition SHGrid_binary_operator `{GridBackend} (f : ∀ K, Num K → K → K → K)
    (reflected : bool) (self : SHGrid) (other : grid_operand)
    : res (option SHGrid) :=
  match other with
  | GGrid other =>
      if String.eqb (g_grid self) (g_grid other)
         && ((g_nlat self =? g_nlat other)%nat && (g_nlon self =? g_nlon other)%nat)
         && String.eqb (g_kind self) (g_kind other)
      then
        let data := if reflected then grid_zip f (g_data other) (g_data self)
                    else grid_zip f (g_data self) (g_data other) in
        SHGrid_from_array (mkArray2 (g_nlat self, g_nlon self) data)
                          (g_grid self) true
      else Raise ValueError
  | GScalar s =>
      SHGrid_from_array
        (mkArray2 (g_nlat self, g_nlon self)
                  (grid_scalar f reflected (g_data self) s))
        (g_grid self) true
  | GStr _ =>
      (* numpy has no arithmetic of an array of numbers and a string *)
      Raise TypeError
  | GOther => Raise NotImplementedError
  end.

Definition SHGrid___add__ `{GridBackend} :=
  SHGrid_binary_operator (λ K _, nadd) false.
Definition SHGrid___radd__ `{GridBackend} (self : SHGrid) (other : grid_operand) :=
  SHGrid___add__ self other.
Definition SHGrid___sub__ `{GridBackend} :=
  SHGrid_binary_operator (λ K _, nsub) false.
Definition SHGrid___rsub__ `{GridBackend} :=
  SHGrid_binary_operator (λ K _, nsub) true.
Definition SHGrid___mul__ `{GridBackend} :=
  SHGrid_binary_operator (λ K _, nmul) false.
Definition SHGrid___rmul__ `{GridBackend} (self : SHGrid) (other : grid_operand) :=
  SHGrid___mul__ self other.
Definition SHGrid___truediv__ `{GridBackend} :=
  SHGrid_binary_operator (λ K _, ndiv) false.

Definition grid_apply_op `{GridBackend} (op : arith_op)
    : SHGrid → grid_operand → res (option SHGrid) :=
  match op with
  | OpAdd => SHGrid___add__
  | OpSub => SHGrid___sub__
  | OpMul => SHGrid___mul__
  | OpDiv => SHGrid___truediv__
  end.

(** [SHExpandGLQ(grid, weights, zeros, norm, csphase)] and
    [SHExpandGLQC] likewise. *)
Class GridExpandBackend : Type := {
  SHExpandGLQ : list (list R) → list R → list R → Z → Z → list3 R;
  SHExpandGLQC : list (list C) → list R → list R → Z → Z → list3 C;
}.

(** [_expand] of the four grid classes.  The routine receives the data
    in the dtype it is written for.  [sampling] exists on DH grids and
    [zeros] and [weights] on GLQ grids. *)
Definition DHRealGrid__expand `{GridBackend} (self : SHGrid)
    (normalization : string) (csphase : Z) : res SHCoeffs :=
  norm ← norm_code (lower normalization);
  match g_sampling self with
  | None => Raise AttributeError
  | Some sampling =>
      let cilm := SHExpandDH (grid_real (g_data self)) norm sampling csphase in
      SHCoeffs_from_array (FloatArr cilm) (lower normalization) csphase false
  end.

Definition DHComplexGrid__expand `{GridBackend} (self : SHGrid)
    (normalization : string) (csphase : Z) : res SHCoeffs :=
  norm ← norm_code (lower normalization);
  let cilm := SHExpandDHC (grid_as_complex (g_data self)) norm csphase in
  SHCoeffs_from_array (ComplexArr cilm) (lower normalization) csphase false.

Definition GLQRealGrid__expand `{GridExpandBackend} (self : SHGrid)
    (normalization : string) (csphase : Z) : res SHCoeffs :=
  norm ← norm_code (lower normalization);
  match g_zeros_weights self with
  | None => Raise AttributeError
  | Some (zeros, weights) =>
      let cilm := SHExpandGLQ (grid_real (g_data self)) weights zeros norm
                              csphase in
      SHCoeffs_from_array (FloatArr cilm) (lower normalization) csphase false
  end.

Definition GLQComplexGrid__expand `{GridExpandBackend} (self : SHGrid)
    (normalization : string) (csphase : Z) : res SHCoeffs :=
  norm ← norm_code (lower normalization);
  match g_zeros_weights self with
  | None => Raise AttributeError
  | Some (zeros, weights) =>
      let cilm := SHExpandGLQC (grid_as_complex (g_data self)) weights zeros
                               norm csphase in
      SHCoeffs_from_array (ComplexArr cilm) (lower normalization) csphase false
  end.

(** [SHGrid.expand] *)
Definition SHGrid_expand `{GridBackend} `{GridExpandBackend} (self : SHGrid)
    (normalization : string) (csphase : Z) : res SHCoeffs :=
  if negb (str_in (lower normalization) ["4pi"; "ortho"; "schmidt"])
  then Raise ValueError
  else if negb (csphase =? 1)%Z && negb (csphase =? -1)%Z then Raise ValueError
  else match g_cls self with
       | DHRealGrid => DHRealGrid__expand self normalization csphase
       | DHComplexGrid => DHComplexGrid__expand self normalization csphase
       | GLQRealGrid => GLQRealGrid__expand self normalization csphase
       | GLQComplexGrid => GLQComplexGrid__expand self normalization csphase
       end.

(** [numpy.linspace(start, stop, num)], end point included. *)
Definition linspace (start stop : R) (num : nat) : list R :=
  match num with
  | 0%nat => []
  | 1%nat => [start]
  | _ => (λ i, start + INR i * ((stop - start) / INR (num - 1)))%R <$> seq 0 num
  end.

(** [numpy.radians] *)
Definition np_radians (v : list R) : list R := (λ x, x * (PI / 180))%R <$> v.

(** [_lats] of the two DH classes; [None] stands for the
    ZeroDivisionError of [180.0 / self.nlat] on a grid without rows. *)
Definition DHGrid__lats (self : SHGrid) : option (list R) :=
  if (g_nlat self =? 0)%nat then None
  else Some (linspace 90 (-90 + 180 / INR (g_nlat self)) (g_nlat self)).

(** [_lons] of the four classes; [None] stands for the ZeroDivisionError
    of [360.0 / self.nlon] on a grid without columns. *)
Definition SHGrid__lons (self : SHGrid) : option (list R) :=
  if (g_nlon self =? 0)%nat then None
  else Some (linspace 0 (360 - 360 / INR (g_nlon self)) (g_nlon self)).

(** [SHGrid.lats] on a DH grid and [SHGrid.lons] *)
Definition DHGrid_lats (self : SHGrid) (degrees : bool) : option (list R) :=
  if negb degrees then np_radians <$> DHGrid__lats self else DHGrid__lats self.

Definition SHGrid_lons (self : SHGrid) (degrees : bool) : option (list R) :=
  if negb degrees then np_radians <$> SHGrid__lons self else SHGrid__lons self.

(** A grid that [SHGrid.from_array] returned. *)
Definition built_grid `{GridBackend} (g : SHGrid) : Prop :=
  ∃ array copy, SHGrid_from_array array (g_grid g) copy = Ok (Some g).

(** The grid [g] with the entries [d], in the class of the dtype of [d]. *)
Definition with_data (g : SHGrid) (d : grid_data) : SHGrid :=
  {| g_cls := match g_cls g with
              | DHRealGrid | DHComplexGrid => DH_class d
              | GLQRealGrid | GLQComplexGrid => GLQ_class d
              end;
     g_nlat := g_nlat g; g_nlon := g_nlon g; g_lmax := g_lmax g;
     g_sampling := g_sampling g; g_data := d;
     g_zeros_weights := g_zeros_weights g |}.

(** The test of the operators on two grids. *)
Definition grid_compatible (s o : SHGrid) : Prop :=
  g_grid s = g_grid o ∧ (g_nlat s, g_nlon s) = (g_nlat o, g_nlon o)
  ∧ g_kind s = g_kind o.

(** The array of coefficients the backend returns for a grid, a code
    [norm] of the normalization and a phase. *)
Definition expand_output `{GridBackend} `{GridExpandBackend} (self : SHGrid)
    (norm csphase : Z) : ndarray :=
  match g_cls self with
  | DHRealGrid =>
      FloatArr (SHExpandDH (grid_real (g_data self)) norm
                           (default 1%Z (g_sampling self)) csphase)
  | DHComplexGrid =>
      ComplexArr (SHExpandDHC (grid_as_complex (g_data self)) norm csphase)
  | GLQRealGrid =>
      FloatArr (SHExpandGLQ (grid_real (g_data self))
                            (default ([], []) (g_zeros_weights self)).2
                            (default ([], []) (g_zeros_weights self)).1
                            norm csphase)
  | GLQComplexGrid =>
      ComplexArr (SHExpandGLQC (grid_as_complex (g_data self))
                               (default ([], []) (g_zeros_weights self)).2
                               (default ([], []) (g_zeros_weights self)).1
                               norm csphase)
  end.

(** The code of a normalization in lower case. *)
Definition norm_number (normalization : string) : Z :=
  if String.eqb normalization "4pi" then 1
  else if String.eqb normalization "schmidt" then 2 else 4.

(** Modelled from the spec: the routines [SHExpandGLQ] and [SHExpandGLQC],
    which are missing from the sources.  Section 3 gives a GLQ grid for
    degree [lmax] [lmax + 1] rows and a coefficient array the shape
    [(2, lmax + 1, lmax + 1)].  The specification gives no entries; they
    are zero here. *)
Definition spec_grid_expand_backend : GridExpandBackend :=
  {| SHExpandGLQ := λ g _ _ _ _, np_zeros 0%R 2 (length g) (length g);
     SHExpandGLQC := λ g _ _ _ _, np_zeros (RtoC 0) 2 (length g) (length g) |}.

(** The real DH grid of shape (2, 2) with the entries 1 to 4. *)
Definition example_grid : SHGrid :=
  {| g_cls := DHRealGrid; g_nlat := 2; g_nlon := 2; g_lmax := 0;
     g_sampling := Some 1%Z;
     g_data := FloatGrid [[1; 2]; [3; 4]]%R;
     g_zeros_weights := None |}.

(** [x >= y] of two floats, as a truth value. *)
Definition Rge_b (x y : R) : bool := if Rle_dec y x then true else false.

(** [SHWindow.number]: [len(self.eigenvalues[self.eigenvalues >= alpha])] *)
Definition SHWindow_number (self : SHWindow) (alpha : R) : nat :=
  length (List.filter (λ e, Rge_b e alpha) (w_eigenvalues self)).

(** [SHWindow.return_coeffs] *)
Definition SHWindow_return_coeffs `{WindowBackend} (self : SHWindow)
    (itaper : Z) (normalization : string) (csphase : Z) : res SHCoeffs :=
  if negb (valid_normalization normalization) then Raise ValueError
  else if negb (valid_csphase csphase) then Raise ValueError
  else
    coeffs ← SHWindow_to_array self itaper (lower normalization) csphase;
    SHCoeffs_from_array (FloatArr coeffs) (lower normalization) csphase false.

(** The eigenvalues of a window bank are in descending order. *)
Definition descending (v : list R) : Prop :=
  ∀ i j x y, (i ≤ j)%nat → v !! i = Some x → v !! j = Some y → (y <= x)%R.

(** The samples [from_random] draws for a kind, in an array of shape
    [(2, nl, nl)]. *)
Definition random_draw (normal1 normal2 : nat → nat → nat → R) (nl : nat)
    (kind : string) : ndarray :=
  let draw g := imap3 (λ i l m (_ : R), g i l m) (np_zeros 0%R 2 nl nl) in
  if String.eqb kind "real" then FloatArr (draw normal1)
  else ComplexArr (zip3 (λ x y, mkC (x / sqrt 2) (y / sqrt 2))
                        (draw normal1) (draw normal2)).

(** The factor [from_random] puts on the samples of degree [l]. *)
Definition random_factor (norm : string) (power : list R) (l : nat) : R :=
  let p := nth l power 0%R in
  if String.eqb norm "4pi" then sqrt (p / (2 * INR l + 1))
  else if String.eqb norm "ortho" then sqrt (4 * PI * p / (2 * INR l + 1))
  else sqrt p.

(** A file backend whose [numpy.load] returns a complex array of shape
    (2, 1, 1). *)
Definition complex_file_backend : FileBackend :=
  {| SHRead := λ _ _, ([[[0%R]]; [[0%R]]], 0%Z);
     np_load := λ _, ComplexArr [[[mkC 1 1]]; [[mkC 0 0]]] |}.

(** * Properties *)

(** ** Laws of the element types *)

#[global] Instance NumLaws_R : NumLaws R.
Proof.
  split; simpl; intros; try lra.
Qed.

#[global] Instance NumLaws_C : NumLaws C.
Proof.
  split; simpl; unfold RtoC, Cneg; simpl; intros;
    try match goal with x : C |- _ => destruct x as [a b]; simpl end;
    f_equal; lra.
Qed.

(** ** The result monad *)

Lemma bind_Ok {A B} (f : A → res B) (a : A) : (Ok a ≫= f) = f a.
Proof. reflexivity. Qed.

Lemma bind_Ok_inv {A B} (f : A → res B) (m : res A) (b : B) :
  m ≫= f = Ok b → ∃ a, m = Ok a ∧ f a = Ok b.
Proof. destruct m as [a|e]; simpl; [eauto | discriminate]. Qed.

Lemma fmap_Ok_inv {A B} (f : A → B) (m : res A) (b : B) :
  f <$> m = Ok b → ∃ a, m = Ok a ∧ b = f a.
Proof. destruct m as [a|e]; simpl; [intros [= <-]; eauto | discriminate]. Qed.

(** ** Nested lists as arrays *)

Lemma imap_imap {A B D} (f : nat → B → D) (g : nat → A → B) (l : list A) :
  imap f (imap g l) = imap (λ i x, f i (g i x)) l.
Proof.
  revert f g. induction l as [|x l IH]; intros f g; [done|].
  simpl. f_equal. apply IH.
Qed.

Lemma imap_id {A} (f : nat → A → A) (l : list A) :
  (∀ i x, l !! i = Some x → f i x = x) → imap f l = l.
Proof.
  revert f. induction l as [|x l IH]; intros f Hf; [done|].
  simpl. f_equal; [apply (Hf 0%nat); done|].
  apply IH. intros i y Hy. apply (Hf (S i)). done.
Qed.

Lemma forallb_imap {A B} (P : B → bool) (Q : A → bool) (f : nat → A → B)
    (l : list A) :
  (∀ i x, l !! i = Some x → P (f i x) = Q x) →
  forallb P (imap f l) = forallb Q l.
Proof.
  revert f. induction l as [|x l IH]; intros f H; [done|].
  simpl. rewrite (H 0%nat x eq_refl). f_equal.
  apply IH. intros i y Hy. apply (H (S i)). done.
Qed.

Section list3.
Context {A B D : Type}.

Lemma lookup3_imap3 (f : nat → nat → nat → A → B) (a : list3 A) i l m :
  lookup3 (imap3 f a) i l m = f i l m <$> lookup3 a i l m.
Proof.
  unfold lookup3, imap3. rewrite list_lookup_imap.
  destruct (a !! i) as [p|]; simpl; [|done].
  rewrite list_lookup_imap. destruct (p !! l) as [r|]; simpl; [|done].
  by rewrite list_lookup_imap.
Qed.

Lemma imap3_ext (f g : nat → nat → nat → A → B) (a : list3 A) :
  (∀ i l m x, lookup3 a i l m = Some x → f i l m x = g i l m x) →
  imap3 f a = imap3 g a.
Proof.
  intros H. unfold imap3. apply imap_ext. intros i p Hp.
  apply imap_ext. intros l r Hr. apply imap_ext. intros m x Hx.
  apply H. unfold lookup3. rewrite Hp. simpl. rewrite Hr. done.
Qed.

Lemma imap3_imap3 (f : nat → nat → nat → B → D)
    (g : nat → nat → nat → A → B) (a : list3 A) :
  imap3 f (imap3 g a) = imap3 (λ i l m x, f i l m (g i l m x)) a.
Proof.
  unfold imap3. rewrite imap_imap. apply imap_ext. intros i p _.
  rewrite imap_imap. apply imap_ext. intros l r _.
  by rewrite imap_imap.
Qed.

Lemma imap3_id (f : nat → nat → nat → A → A) (a : list3 A) :
  (∀ i l m x, lookup3 a i l m = Some x → f i l m x = x) → imap3 f a = a.
Proof.
  intros H. unfold imap3. apply imap_id. intros i p Hp.
  apply imap_id. intros l r Hr. apply imap_id. intros m x Hx.
  apply H. unfold lookup3. rewrite Hp. simpl. rewrite Hr. done.
Qed.

Lemma shape3_imap3 (f : nat → nat → nat → A → B) (a : list3 A) :
  shape3 (imap3 f a) = shape3 a.
Proof.
  unfold shape3, imap3. rewrite length_imap.
  destruct a as [|p a]; [done|]. simpl. rewrite length_imap.
  destruct p as [|r p]; [done|]. simpl. by rewrite length_imap.
Qed.

Lemma has_shape_imap3 s (f : nat → nat → nat → A → B) (a : list3 A) :
  has_shape s (imap3 f a) = has_shape s a.
Proof.
  unfold has_shape, imap3. rewrite length_imap. f_equal.
  apply forallb_imap. intros i p _. rewrite length_imap. f_equal.
  apply forallb_imap. intros l r _. by rewrite length_imap.
Qed.

End list3.

Lemma foldl_imap3 {A X} (F : X → nat → nat → nat → A → A) (steps : list X)
      (a : list3 A) :
    foldl (λ a x, imap3 (F x) a) a steps
    = imap3 (λ i l m v, foldl (λ v x, F x i l m v) v steps) a.
  Proof.
    revert a. induction steps as [|x steps IH]; intros a; cbn [foldl].
    - symmetry. by apply imap3_id.
    - rewrite IH. by rewrite imap3_imap3.
  Qed.

Lemma has_shape_spec {K} s (a : list3 K) :
  has_shape s a = true ↔
  length a = s.1.1 ∧
  ∀ i p, a !! i = Some p → length p = s.1.2 ∧
    ∀ l r, p !! l = Some r → length r = s.2.
Proof.
  unfold has_shape. rewrite andb_true_iff, Nat.eqb_eq, forallb_forall.
  split.
  - intros [H1 H2]. split; [done|]. intros i p Hp.
    apply list_elem_of_lookup_2, list_elem_of_In, H2 in Hp.
    apply andb_true_iff in Hp as [Hp1 Hp2]. apply Nat.eqb_eq in Hp1.
    split; [done|]. intros l r Hr.
    rewrite forallb_forall in Hp2.
    apply list_elem_of_lookup_2, list_elem_of_In, Hp2 in Hr.
    by apply Nat.eqb_eq.
  - intros [H1 H2]. split; [done|]. intros p Hp.
    apply list_elem_of_In, list_elem_of_lookup_1 in Hp as [i Hi].
    destruct (H2 i p Hi) as [Hl Hr].
    rewrite andb_true_iff, Nat.eqb_eq, forallb_forall. split; [done|].
    intros r Hr'. apply list_elem_of_In, list_elem_of_lookup_1 in Hr' as [l Hl'].
    apply Nat.eqb_eq. eauto.
Qed.

Lemma lookup3_Some_lt {K} s (a : list3 K) i l m x :
  has_shape s a = true → lookup3 a i l m = Some x →
  (i < s.1.1 ∧ l < s.1.2 ∧ m < s.2)%nat.
Proof.
  intros [H1 H2]%has_shape_spec. unfold lookup3.
  destruct (a !! i) as [p|] eqn:Hp; simpl; [|done].
  destruct (p !! l) as [r|] eqn:Hr; simpl; [|done].
  intros Hx. destruct (H2 i p Hp) as [Hl Hr'].
  specialize (Hr' l r Hr).
  apply lookup_lt_Some in Hp, Hr, Hx. lia.
Qed.

Lemma lookup3_is_Some {K} s (a : list3 K) i l m :
  has_shape s a = true → (i < s.1.1)%nat → (l < s.1.2)%nat → (m < s.2)%nat →
  is_Some (lookup3 a i l m).
Proof.
  intros [H1 H2]%has_shape_spec Hi Hl Hm. unfold lookup3.
  destruct (lookup_lt_is_Some_2 a i) as [p Hp]; [lia|]. rewrite Hp. simpl.
  destruct (H2 i p Hp) as [Hlen Hr].
  destruct (lookup_lt_is_Some_2 p l) as [r Hr']; [lia|]. rewrite Hr'. simpl.
  apply lookup_lt_is_Some_2. rewrite (Hr l r Hr'). done.
Qed.

Lemma lookup_replicate_ge {A} (x : A) n i :
  (n ≤ i)%nat → replicate n x !! i = None.
Proof. intros H. apply lookup_replicate_None. lia. Qed.

Lemma lookup3_np_zeros {K} (z : K) n0 n1 n2 i l m :
  lookup3 (np_zeros z n0 n1 n2) i l m
  = if decide (i < n0 ∧ l < n1 ∧ m < n2)%nat then Some z else None.
Proof.
  unfold lookup3, np_zeros.
  destruct (decide (i < n0)%nat) as [Hi|Hi];
    [rewrite lookup_replicate_2 by done
    |rewrite lookup_replicate_ge by lia; simpl; rewrite decide_False; [done|lia]].
  simpl.
  destruct (decide (l < n1)%nat) as [Hl|Hl];
    [rewrite lookup_replicate_2 by done
    |rewrite lookup_replicate_ge by lia; simpl; rewrite decide_False; [done|lia]].
  simpl.
  destruct (decide (m < n2)%nat) as [Hm|Hm];
    [rewrite lookup_replicate_2 by done; by rewrite decide_True
    |rewrite lookup_replicate_ge by lia; rewrite decide_False; [done|lia]].
Qed.

Lemma has_shape_np_zeros {K} (z : K) n0 n1 n2 :
  has_shape (n0, n1, n2) (np_zeros z n0 n1 n2) = true.
Proof.
  apply has_shape_spec. simpl. unfold np_zeros. rewrite length_replicate.
  split; [done|]. intros i p [-> _]%lookup_replicate.
  rewrite length_replicate. split; [done|].
  intros l r [-> _]%lookup_replicate. by rewrite length_replicate.
Qed.

Lemma lookup3_zip3 {A B D} (f : A → B → D) (a : list3 A) (b : list3 B) i l m :
  lookup3 (zip3 f a b) i l m
  = x ← lookup3 a i l m; y ← lookup3 b i l m; Some (f x y).
Proof.
  unfold lookup3, zip3. rewrite lookup_zip_with.
  destruct (a !! i) as [p|]; simpl; [|done].
  destruct (b !! i) as [q|]; simpl; [|by destruct (p !! l) as [r|]; simpl; [destruct (r !! m)|]].
  rewrite lookup_zip_with.
  destruct (p !! l) as [r|]; simpl; [|done].
  destruct (q !! l) as [t|]; simpl; [|by destruct (r !! m)].
  by rewrite lookup_zip_with.
Qed.

Lemma has_shape_zip3 {A B D} s (f : A → B → D) (a : list3 A) (b : list3 B) :
  has_shape s a = true → has_shape s b = true → has_shape s (zip3 f a b) = true.
Proof.
  intros [Ha1 Ha2]%has_shape_spec [Hb1 Hb2]%has_shape_spec.
  apply has_shape_spec. unfold zip3. rewrite length_zip_with. split; [lia|].
  intros i p Hp. apply lookup_zip_with_Some in Hp as (pa & pb & -> & Hpa & Hpb).
  destruct (Ha2 _ _ Hpa) as [Ha3 Ha4]. destruct (Hb2 _ _ Hpb) as [Hb3 Hb4].
  rewrite length_zip_with. split; [lia|].
  intros l r Hr. apply lookup_zip_with_Some in Hr as (ra & rb & -> & Hra & Hrb).
  rewrite length_zip_with. specialize (Ha4 _ _ Hra). specialize (Hb4 _ _ Hrb). lia.
Qed.

(** Two arrays of one shape with the same entries are the same array. *)
Lemma list3_eq {K} s (a b : list3 K) :
  has_shape s a = true → has_shape s b = true →
  (∀ i l m, lookup3 a i l m = lookup3 b i l m) → a = b.
Proof.
  intros Ha Hb H.
  pose proof Ha as [Ha1 Ha2]%has_shape_spec.
  pose proof Hb as [Hb1 Hb2]%has_shape_spec.
  apply list_eq_same_length with (n := s.1.1); [done|done|].
  intros i p q Hi Hp Hq.
  destruct (Ha2 _ _ Hp) as [Ha3 Ha4]. destruct (Hb2 _ _ Hq) as [Hb3 Hb4].
  apply list_eq_same_length with (n := s.1.2); [done|done|].
  intros l r t Hl Hr Ht.
  apply list_eq_same_length with (n := s.2); [eauto|eauto|].
  intros m x y Hm Hx Hy.
  specialize (H i l m). unfold lookup3 in H.
  rewrite Hp, Hq in H. simpl in H. rewrite Hr, Ht in H. simpl in H. congruence.
Qed.

(** ** Loops *)

Lemma py_for_nil {A S} (body : A → S → res S) s : py_for [] body s = Ok s.
Proof. reflexivity. Qed.

Lemma foldl_Raise {A S} (body : A → S → res S) e xs :
  foldl (λ acc x, acc ≫= body x) (Raise e) xs = Raise e.
Proof. induction xs as [|x xs IH]; [done|]. simpl. exact IH. Qed.

Lemma py_for_cons {A S} (body : A → S → res S) x xs s :
  py_for (x :: xs) body s = body x s ≫= py_for xs body.
Proof.
  unfold py_for. simpl. destruct (body x s) as [s'|e]; simpl; [done|].
  apply foldl_Raise.
Qed.

Lemma py_for_app {A S} (body : A → S → res S) xs ys s :
  py_for (xs ++ ys) body s = py_for xs body s ≫= py_for ys body.
Proof.
  revert s. induction xs as [|x xs IH]; intros s; [done|].
  simpl. rewrite !py_for_cons. destruct (body x s) as [s'|e]; simpl; [|done].
  apply IH.
Qed.

(** A loop whose body cannot raise while an invariant holds is a fold. *)
Lemma py_for_pure {A S} (Inv : S → Prop) (body : A → S → res S)
    (step : A → S → S) xs s :
  (∀ x s, Inv s → body x s = Ok (step x s) ∧ Inv (step x s)) →
  Inv s →
  py_for xs body s = Ok (foldl (λ s x, step x s) s xs)
  ∧ Inv (foldl (λ s x, step x s) s xs).
Proof.
  intros H. revert s. induction xs as [|x xs IH]; intros s Hs; [done|].
  rewrite py_for_cons. destruct (H x s Hs) as [-> Hs']. simpl.
  apply IH, Hs'.
Qed.

(** ** The mask *)

Lemma foldl_fun_ext {V X} (f g : V → X → V) v xs :
  (∀ v x, f v x = g v x) → foldl f v xs = foldl g v xs.
Proof.
  intros H. revert v. induction xs as [|x xs IH]; intros v; [done|].
  simpl. rewrite H. apply IH.
Qed.

(** A loop over [0 .. n-1] whose [k]-th round changes the value selected
    by [k] only changes it once, in round [sel]. *)
Lemma foldl_select {V} (sel : nat) (c : nat → bool) (g : nat → V → V) n v :
  foldl (λ v k, if (sel =? k)%nat && c k then g k v else v) v (seq 0 n)
  = if (sel <? n)%nat && c sel then g sel v else v.
Proof.
  induction n as [|n IH]; [done|].
  rewrite seq_S, foldl_snoc, IH. simpl.
  destruct (Nat.eqb_spec sel n) as [->|Hne]; simpl.
  - rewrite Nat.ltb_irrefl. simpl.
    destruct (Nat.ltb_spec n (S n)); [|lia]. done.
  - destruct (Nat.ltb_spec sel n), (Nat.ltb_spec sel (S n)); try lia; done.
Qed.

Lemma make_mask_eq lmax :
  (0 <= lmax)%Z → make_mask lmax = Ok (mask_array (Z.to_nat (lmax + 1))).
Proof.
  intros Hl. unfold make_mask, setitem3.
  set (n := Z.to_nat (lmax + 1)). assert (0 < n)%nat as Hn by lia.
  rewrite lookup3_np_zeros. rewrite decide_True by lia. simpl.
  unfold arange. fold n. unfold assign_where.
  rewrite (foldl_imap3 (λ l _ l' m v, if (l' =? l)%nat && (m <? l + 1)%nat then true else v)).
  rewrite !imap3_imap3. f_equal. unfold mask_array. apply imap3_ext.
  intros i l m x Hx.
  rewrite foldl_select.
  rewrite lookup3_np_zeros in Hx.
  destruct (decide _) as [(Hi & Hl' & Hm)|]; [|done].
  injection Hx as <-.
  unfold mask_spec.
  destruct (Nat.ltb_spec l n); [|lia]. simpl.
  destruct (Nat.ltb_spec m (l + 1)), (Nat.leb_spec m l); try lia; simpl.
  - by destruct ((i =? 1)%nat && (m =? 0)%nat).
  - destruct (Nat.eqb_spec m 0); [lia|]. by rewrite !andb_false_r.
Qed.

Lemma make_mask_neg lmax : (lmax < 0)%Z → make_mask lmax = Raise IndexError.
Proof.
  intros Hl. unfold make_mask, setitem3.
  replace (Z.to_nat (lmax + 1)) with 0%nat by lia. reflexivity.
Qed.

Lemma lookup3_mask_array n i l m :
  lookup3 (mask_array n) i l m
  = if decide (i < 2 ∧ l < n ∧ m < n)%nat then Some (mask_spec i l m) else None.
Proof.
  unfold mask_array. rewrite lookup3_imap3, lookup3_np_zeros.
  by destruct (decide _).
Qed.

Lemma has_shape_mask_array n : has_shape (2, n, n)%nat (mask_array n) = true.
Proof. unfold mask_array. rewrite has_shape_imap3. apply has_shape_np_zeros. Qed.

Lemma shape3_mask_array n : (0 < n)%nat → shape3 (mask_array n) = (2, n, n)%nat.
Proof.
  intros Hn. unfold mask_array. rewrite shape3_imap3.
  destruct n as [|n]; [lia|]. unfold shape3, np_zeros. simpl.
  by rewrite !length_replicate.
Qed.

(** ** Arrays with a dtype *)

Lemma arr_shape_arr_map f a : arr_shape (arr_map f a) = arr_shape a.
Proof. destruct a; simpl; apply shape3_imap3. Qed.

Lemma arr_has_shape_arr_map s f a :
  arr_has_shape s (arr_map f a) = arr_has_shape s a.
Proof. destruct a; simpl; apply has_shape_imap3. Qed.

Lemma iscomplexobj_arr_map f a : iscomplexobj (arr_map f a) = iscomplexobj a.
Proof. by destruct a. Qed.

Lemma arr_map_arr_map f g a :
  arr_map f (arr_map g a)
  = arr_map (λ K H i l m x, f K H i l m (g K H i l m x)) a.
Proof. destruct a; simpl; by rewrite imap3_imap3. Qed.

Lemma arr_map_ext s f g a :
  arr_has_shape s a = true →
  (∀ K (H : Num K), NumLaws K → ∀ i l m (x : K),
     (i < s.1.1)%nat → (l < s.1.2)%nat → (m < s.2)%nat →
     f K H i l m x = g K H i l m x) →
  arr_map f a = arr_map g a.
Proof.
  intros Hs H. destruct a as [x|x]; simpl in *; f_equal; apply imap3_ext;
    intros i l m v Hv; destruct (lookup3_Some_lt _ _ _ _ _ _ Hs Hv) as (?&?&?);
    apply H; try done; apply _.
Qed.

Lemma arr_map_id s f a :
  arr_has_shape s a = true →
  (∀ K (H : Num K), NumLaws K → ∀ i l m (x : K),
     (i < s.1.1)%nat → (l < s.1.2)%nat → (m < s.2)%nat →
     f K H i l m x = x) →
  arr_map f a = a.
Proof.
  intros Hs H. destruct a as [x|x]; simpl in *; f_equal; apply imap3_id;
    intros i l m v Hv; destruct (lookup3_Some_lt _ _ _ _ _ _ Hs Hv) as (?&?&?);
    apply H; try done; apply _.
Qed.

Lemma foldl_arr_map {X} (F : X → ∀ K, Num K → nat → nat → nat → K → K)
    (steps : list X) a :
  foldl (λ a x, arr_map (F x) a) a steps
  = arr_map (λ K H i l m v, foldl (λ v x, F x K H i l m v) v steps) a.
Proof.
  destruct a as [x|x]; simpl.
  - rewrite <- (foldl_imap3 (λ x, F x R _)).
    generalize x. induction steps as [|s steps IH]; intros y; [done|].
    simpl. apply IH.
  - rewrite <- (foldl_imap3 (λ x, F x C _)).
    generalize x. induction steps as [|s steps IH]; intros y; [done|].
    simpl. apply IH.
Qed.

Lemma arr_get_arr_map (f : ∀ K, Num K → nat → nat → nat → K → K) a i l m :
  (∀ i l m x, RtoC (f R _ i l m x) = f C _ i l m (RtoC x)) →
  arr_get (arr_map f a) i l m = f C _ i l m <$> arr_get a i l m.
Proof.
  intros H. destruct a as [x|x]; simpl; rewrite lookup3_imap3; [|done].
  destruct (lookup3 x i l m); simpl; [|done]. by rewrite H.
Qed.

(** The shape of an array that has a shape, when no extent is zero. *)
Lemma shape3_has_shape {K} s (a : list3 K) :
  has_shape s a = true → (0 < s.1.1)%nat → (0 < s.1.2)%nat → shape3 a = s.
Proof.
  intros [H1 H2]%has_shape_spec H0 H0'. unfold shape3.
  destruct a as [|p a]; simpl in *; [lia|].
  destruct (H2 0%nat p eq_refl) as [Hp Hr].
  destruct p as [|r p]; simpl in *; [lia|].
  specialize (Hr 0%nat r eq_refl).
  destruct s as [[s0 s1] s2]. simpl in *. congruence.
Qed.

Lemma arr_shape_has_shape s a :
  arr_has_shape s a = true → (0 < s.1.1)%nat → (0 < s.1.2)%nat → arr_shape a = s.
Proof. destruct a; simpl; apply shape3_has_shape. Qed.

(** ** Slices *)

Lemma slice_to_take {A} (n : nat) (l : list A) :
  slice_to (Z.of_nat n) l = take n l.
Proof.
  unfold slice_to. destruct (Z.leb_spec 0 (Z.of_nat n)); [|lia].
  by rewrite Nat2Z.id.
Qed.

Lemma has_shape_slice {K} n n' (a : list3 K) :
  has_shape (2, n, n)%nat a = true → (n' ≤ n)%nat →
  has_shape (2, n', n')%nat
    ((λ p, slice_to (Z.of_nat n') <$> slice_to (Z.of_nat n') p) <$> a) = true.
Proof.
  intros [H1 H2]%has_shape_spec Hn. apply has_shape_spec. simpl in *.
  rewrite length_fmap. split; [done|].
  intros i p Hp. apply list_lookup_fmap_Some in Hp as (q & -> & Hq).
  destruct (H2 _ _ Hq) as [H3 H4].
  rewrite length_fmap, slice_to_take, length_take. split; [lia|].
  intros l r Hr. apply list_lookup_fmap_Some in Hr as (t & -> & Ht).
  apply lookup_take_Some in Ht as [Ht _].
  rewrite slice_to_take, length_take. rewrite (H4 _ _ Ht). lia.
Qed.

Lemma slice_full {K} n (a : list3 K) :
  has_shape (2, n, n)%nat a = true →
  (λ p, slice_to (Z.of_nat n) <$> slice_to (Z.of_nat n) p) <$> a = a.
Proof.
  intros [H1 H2]%has_shape_spec. simpl in *.
  apply list_eq. intros i. rewrite list_lookup_fmap.
  destruct (a !! i) as [p|] eqn:Hp; simpl; [|done]. f_equal.
  destruct (H2 _ _ Hp) as [H3 H4].
  rewrite slice_to_take, take_ge by lia.
  apply list_eq. intros l. rewrite list_lookup_fmap.
  destruct (p !! l) as [r|] eqn:Hr; simpl; [|done]. f_equal.
  rewrite slice_to_take, take_ge; [done|]. rewrite (H4 _ _ Hr). done.
Qed.

Lemma lookup3_slice {K} n' (a : list3 K) i l m :
  lookup3 ((λ p, slice_to (Z.of_nat n') <$> slice_to (Z.of_nat n') p) <$> a) i l m
  = if decide (l < n' ∧ m < n')%nat then lookup3 a i l m else None.
Proof.
  unfold lookup3. rewrite list_lookup_fmap.
  destruct (a !! i) as [p|]; simpl; [|by destruct (decide _)].
  rewrite list_lookup_fmap, slice_to_take.
  destruct (decide (l < n')%nat) as [Hl|Hl].
  - rewrite lookup_take_lt by done.
    destruct (p !! l) as [r|]; simpl; [|by destruct (decide _)].
    rewrite slice_to_take.
    destruct (decide (m < n')%nat) as [Hm|Hm].
    + rewrite lookup_take_lt by done. by rewrite decide_True.
    + rewrite lookup_take_ge by lia. rewrite decide_False; [done|lia].
  - rewrite lookup_take_ge by lia. simpl. rewrite decide_False; [done|lia].
Qed.

Lemma arr_has_shape_slice_lmax n lmax' a :
  arr_has_shape (2, n, n)%nat a = true → (0 <= lmax' + 1 <= Z.of_nat n)%Z →
  arr_has_shape (2, Z.to_nat (lmax' + 1), Z.to_nat (lmax' + 1))%nat
                (slice_lmax lmax' a) = true.
Proof.
  intros Ha Hl. unfold slice_lmax.
  remember (Z.to_nat (lmax' + 1)) as n' eqn:En.
  assert (lmax' + 1 = Z.of_nat n')%Z as -> by lia.
  destruct a as [x|x]; simpl in *; apply (has_shape_slice n); try done; lia.
Qed.

Lemma slice_lmax_full n a :
  arr_has_shape (2, n, n)%nat a = true →
  slice_lmax (Z.of_nat n - 1) a = a.
Proof.
  intros Ha. unfold slice_lmax.
  replace (Z.of_nat n - 1 + 1)%Z with (Z.of_nat n) by lia.
  destruct a as [x|x]; simpl in *; f_equal; by apply slice_full.
Qed.

(** ** The loops of [_to_array] *)

Lemma py_for_pure_in {A S} (Inv : S → Prop) (body : A → S → res S)
    (step : A → S → S) xs s :
  (∀ x s, x ∈ xs → Inv s → body x s = Ok (step x s) ∧ Inv (step x s)) →
  Inv s →
  py_for xs body s = Ok (foldl (λ s x, step x s) s xs)
  ∧ Inv (foldl (λ s x, step x s) s xs).
Proof.
  revert s. induction xs as [|x xs IH]; intros s H Hs; [done|].
  rewrite py_for_cons. destruct (H x s) as [-> Hs']; [left|done|]. simpl.
  apply IH; [|done]. intros y t Hy. apply H. by right.
Qed.

Section loops.
Context (n : nat) (Hn : (0 < n)%nat).

Lemma py_for_degree_loop (body : nat → ndarray → res ndarray)
    (g : nat → ∀ K, Num K → K → K) a :
  (∀ l a, (l < n)%nat → arr_has_shape (2, n, n)%nat a = true →
     body l a = Ok (arr_map (λ K H _ l' m x,
                     if (l' =? l)%nat && (m <? l + 1)%nat then g l K H x else x) a)) →
  arr_has_shape (2, n, n)%nat a = true →
  py_for (seq 0 n) body a
  = Ok (arr_map (λ K H _ l m x, if (m <? l + 1)%nat then g l K H x else x) a).
Proof.
  intros Hbody Ha.
  destruct (py_for_pure_in (λ a, arr_has_shape (2, n, n)%nat a = true) body
              (λ l, arr_map (λ K H _ l' m x,
                 if (l' =? l)%nat && (m <? l + 1)%nat then g l K H x else x))
              (seq 0 n) a) as [-> _]; [|done|].
  { intros l a' Hl Ha'. apply elem_of_seq in Hl.
    rewrite Hbody by (done || lia). by rewrite arr_has_shape_arr_map. }
  f_equal.
  rewrite (foldl_arr_map (λ l K H _ l' m x,
             if (l' =? l)%nat && (m <? l + 1)%nat then g l K H x else x)).
  apply (arr_map_ext (2, n, n)%nat); [done|].
  intros K H _ i l m x _ Hl _. simpl in Hl.
  rewrite (foldl_select l (λ k, (m <? k + 1)%nat) (λ k v, g k K H v)).
  destruct (Nat.ltb_spec l n); [done|lia].
Qed.

Lemma scale_degree_loop (s : nat → R) a :
  arr_has_shape (2, n, n)%nat a = true →
  py_for (seq 0 n) (λ l, scale_degree (s l) l) a
  = Ok (arr_map (λ K H _ l m x,
                   if (m <? l + 1)%nat then nscale (s l) x else x) a).
Proof.
  intros Ha.
  apply (py_for_degree_loop _ (λ l K H, nscale (s l))); [|done].
  intros l a' Hl Ha'. unfold scale_degree.
  rewrite (arr_shape_has_shape _ _ Ha') by (simpl; lia). simpl.
  destruct (Nat.ltb_spec l n); [done|lia].
Qed.

Lemma unscale_degree_loop (s : nat → R) a :
  arr_has_shape (2, n, n)%nat a = true →
  py_for (seq 0 n) (λ l, unscale_degree (s l) l) a
  = Ok (arr_map (λ K H _ l m x,
                   if (m <? l + 1)%nat then nunscale (s l) x else x) a).
Proof.
  intros Ha.
  apply (py_for_degree_loop _ (λ l K H, nunscale (s l))); [|done].
  intros l a' Hl Ha'. unfold unscale_degree.
  rewrite (arr_shape_has_shape _ _ Ha') by (simpl; lia). simpl.
  destruct (Nat.ltb_spec l n); [done|lia].
Qed.

Lemma negate_order_arr_eq m a :
  arr_has_shape (2, n, n)%nat a = true → (m < n)%nat →
  negate_order_arr m a
  = Ok (arr_map (λ K H _ _ m' x, if (m' =? m)%nat then nneg x else x) a).
Proof.
  intros Ha Hm. destruct a as [x|x]; simpl in *; unfold negate_order;
    rewrite (shape3_has_shape _ _ Ha) by (simpl; lia); simpl;
    destruct (Nat.ltb_spec m n); try lia; done.
Qed.

Lemma phase_loop a :
  arr_has_shape (2, n, n)%nat a = true →
  py_for (seq 0 n)
         (λ m c, if Nat.odd m then negate_order_arr m c else Ok c) a
  = Ok (arr_map (λ K H _ _ m x, if Nat.odd m then nneg x else x) a).
Proof.
  intros Ha.
  destruct (py_for_pure_in (λ a, arr_has_shape (2, n, n)%nat a = true)
              (λ m c, if Nat.odd m then negate_order_arr m c else Ok c)
              (λ m, arr_map (λ K H _ _ m' x,
                 if (m' =? m)%nat && Nat.odd m then nneg x else x))
              (seq 0 n) a) as [-> _]; [|done|].
  { intros m a' Hm Ha'. apply elem_of_seq in Hm.
    rewrite arr_has_shape_arr_map. split; [|done].
    destruct (Nat.odd m) eqn:Hodd.
    - rewrite negate_order_arr_eq by (done || lia). f_equal.
      apply (arr_map_ext (2, n, n)%nat); [done|]. intros.
      by rewrite andb_true_r.
    - f_equal. symmetry. apply (arr_map_id (2, n, n)%nat); [done|]. intros.
      by rewrite andb_false_r. }
  f_equal.
  rewrite (foldl_arr_map (λ m K H _ _ m' x,
             if (m' =? m)%nat && Nat.odd m then nneg x else x)).
  apply (arr_map_ext (2, n, n)%nat); [done|].
  intros K H _ i l m x _ _ Hm. simpl in Hm.
  rewrite (foldl_select m Nat.odd (λ k v, nneg v)).
  destruct (Nat.ltb_spec m n); [done|lia].
Qed.
End loops.

Lemma _to_array_eq x out_norm out_cs lmax' n :
  arr_has_shape (2, n, n)%nat (coeffs x) = true →
  (0 <= lmax' < Z.of_nat n)%Z →
  _to_array x out_norm out_cs lmax'
  = Ok (arr_map (λ K H _ l m v,
                   convert_entry (normalization x) out_norm (csphase x) out_cs l m v)
                (slice_lmax lmax' (coeffs x))).
Proof.
  intros Hx Hl. unfold _to_array, arange.
  pose proof (arr_has_shape_slice_lmax n lmax' _ Hx ltac:(lia)) as Ha.
  set (a := slice_lmax lmax' (coeffs x)) in *.
  set (n' := Z.to_nat (lmax' + 1)) in *.
  assert (0 < n')%nat as Hn' by lia.
  assert (∀ F : ∀ K, Num K → nat → nat → nat → K → K,
            (∀ K H i l m v, F K H i l m v
               = let in_degree (f : K → K) := if (m <? l + 1)%nat then f v else v in
                 if String.eqb (normalization x) out_norm then v
    else if String.eqb (normalization x) "4pi" && String.eqb out_norm "schmidt" then
      in_degree (nscale (sqrt (2 * INR l + 1)))
    else if String.eqb (normalization x) "4pi" && String.eqb out_norm "ortho" then
      nscale (sqrt (4 * PI)) v
    else if String.eqb (normalization x) "schmidt" && String.eqb out_norm "4pi" then
      in_degree (nunscale (sqrt (2 * INR l + 1)))
    else if String.eqb (normalization x) "schmidt" && String.eqb out_norm "ortho" then
      in_degree (nscale (sqrt (4 * PI / (2 * INR l + 1))))
    else if String.eqb (normalization x) "ortho" && String.eqb out_norm "4pi" then
      nunscale (sqrt (4 * PI)) v
    else if String.eqb (normalization x) "ortho" && String.eqb out_norm "schmidt" then
      in_degree (nscale (sqrt ((2 * INR l + 1) / (4 * PI))))
    else v) →
            (Ok (arr_map F a) ≫= λ coeffs,
               if negb (out_cs =? csphase x)%Z
               then py_for (seq 0 n')
                           (λ m c, if Nat.odd m then negate_order_arr m c else Ok c)
                           coeffs
               else Ok coeffs)
            = Ok (arr_map (λ K H _ l m v,
                   convert_entry (normalization x) out_norm (csphase x) out_cs l m v) a))
    as Hphase.
  { intros F HF. simpl.
    destruct (negb (out_cs =? csphase x)%Z) eqn:Hcs.
    - rewrite phase_loop by (done || by rewrite arr_has_shape_arr_map).
      f_equal. rewrite arr_map_arr_map.
      apply (arr_map_ext (2, n', n')%nat); [done|]. intros.
      unfold convert_entry. rewrite Hcs, HF. done.
    - f_equal. apply (arr_map_ext (2, n', n')%nat); [done|]. intros.
      unfold convert_entry. rewrite Hcs, HF. done. }
  assert (Ok a = Ok (arr_map (λ K H i l m v, v) a)) as Hid.
  { f_equal. symmetry. by apply (arr_map_id (2, n', n')%nat). }
  destruct (String.eqb (normalization x) out_norm) eqn:E0.
  { rewrite Hid. apply Hphase. done. }
  destruct (String.eqb (normalization x) "4pi" && String.eqb out_norm "schmidt") eqn:E1.
  { rewrite scale_degree_loop by done. apply Hphase.
    done. }
  destruct (String.eqb (normalization x) "4pi" && String.eqb out_norm "ortho") eqn:E2.
  { unfold scale_all. apply Hphase. done. }
  destruct (String.eqb (normalization x) "schmidt" && String.eqb out_norm "4pi") eqn:E3.
  { rewrite unscale_degree_loop by done. apply Hphase.
    done. }
  destruct (String.eqb (normalization x) "schmidt" && String.eqb out_norm "ortho") eqn:E4.
  { rewrite scale_degree_loop by done. apply Hphase.
    done. }
  destruct (String.eqb (normalization x) "ortho" && String.eqb out_norm "4pi") eqn:E5.
  { unfold unscale_all. apply Hphase. done. }
  destruct (String.eqb (normalization x) "ortho" && String.eqb out_norm "schmidt") eqn:E6.
  { rewrite scale_degree_loop by done. apply Hphase.
    done. }
  rewrite Hid. apply Hphase. done.
Qed.

(** ** The constructors *)

Lemma zip3_mask_array {K} (z : K) n (x : list3 K) :
  has_shape (2, n, n)%nat x = true →
  zip3 (λ v (b : bool), if b then v else z) x (mask_array n)
  = imap3 (λ i l m v, if mask_spec i l m then v else z) x.
Proof.
  intros Hx. apply (list3_eq (2, n, n)%nat).
  - apply has_shape_zip3; [done|apply has_shape_mask_array].
  - by rewrite has_shape_imap3.
  - intros i l m. rewrite lookup3_zip3, lookup3_imap3, lookup3_mask_array.
    destruct (lookup3 x i l m) as [v|] eqn:Hv; simpl; [|done].
    destruct (lookup3_Some_lt _ _ _ _ _ _ Hx Hv) as (?&?&?). simpl in *.
    by rewrite decide_True.
Qed.

Lemma has_shape_mask_array_inv s n :
  (0 < n)%nat → has_shape s (mask_array n) = true → s = (2, n, n)%nat.
Proof.
  intros Hn [H1 H2]%has_shape_spec.
  pose proof (has_shape_mask_array n) as [G1 G2]%has_shape_spec.
  cbn [fst snd] in *.
  destruct (lookup_lt_is_Some_2 (mask_array n) 0%nat) as [p Hp]; [lia|].
  destruct (H2 _ _ Hp) as [H3 H4]. destruct (G2 _ _ Hp) as [G3 G4].
  destruct (lookup_lt_is_Some_2 p 0%nat) as [r Hr]; [lia|].
  specialize (H4 _ _ Hr). specialize (G4 _ _ Hr).
  destruct s as [[s0 s1] s2]. simpl in *. congruence.
Qed.

Lemma zero_outside_Ok n a b :
  (0 < n)%nat → zero_outside (mask_array n) a = Ok b →
  arr_has_shape (2, n, n)%nat a = true ∧ b = masked a.
Proof.
  intros Hn. unfold zero_outside.
  destruct (has_shape _ _ && _) eqn:E; [|done].
  apply andb_true_iff in E as [E1 E2].
  apply has_shape_mask_array_inv in E1; [|done]. rewrite E1 in E2.
  intros [= <-]. split; [done|].
  destruct a as [x|x]; simpl in *; unfold masked; simpl; f_equal;
    by apply zip3_mask_array.
Qed.

Lemma zero_outside_eq n a :
  (0 < n)%nat → arr_has_shape (2, n, n)%nat a = true →
  zero_outside (mask_array n) a = Ok (masked a).
Proof.
  intros Hn Ha. unfold zero_outside.
  rewrite (arr_shape_has_shape _ _ Ha) by (simpl; lia).
  rewrite has_shape_mask_array, Ha. simpl.
  destruct a as [x|x]; simpl in *; unfold masked; simpl; do 2 f_equal;
    by apply zip3_mask_array.
Qed.

Lemma subclass_init_Ok c a norm cs copy x :
  subclass_init c a norm cs copy = Ok x →
  ∃ n, (0 < n)%nat ∧ (arr_shape a).1.2 = n
       ∧ x = {| cls := c;
                coeffs := if copy then masked a else a;
                mask := mask_array n; lmax := (Z.of_nat n - 1)%Z;
                normalization := norm; csphase := cs |}
       ∧ (copy = true → arr_has_shape (2, n, n)%nat a = true).
Proof.
  unfold subclass_init. set (n := (arr_shape a).1.2).
  destruct (decide (0 < n)%nat) as [Hn|Hn].
  - rewrite make_mask_eq by lia.
    replace (Z.to_nat (Z.of_nat n - 1 + 1)) with n by lia. simpl.
    destruct copy.
    + destruct (zero_outside (mask_array n) a) as [b|e] eqn:E; simpl; [|done].
      apply zero_outside_Ok in E as [Ha ->]; [|done].
      intros [= <-]. exists n. done.
    + simpl. intros [= <-]. exists n. done.
  - rewrite make_mask_neg by lia. done.
Qed.

Lemma subclass_init_eq c a norm cs copy n :
  (0 < n)%nat → arr_has_shape (2, n, n)%nat a = true →
  subclass_init c a norm cs copy
  = Ok {| cls := c;
          coeffs := if copy then masked a else a;
          mask := mask_array n; lmax := (Z.of_nat n - 1)%Z;
          normalization := norm; csphase := cs |}.
Proof.
  intros Hn Ha. unfold subclass_init.
  rewrite (arr_shape_has_shape _ _ Ha) by (simpl; lia). simpl.
  rewrite make_mask_eq by lia.
  replace (Z.to_nat (Z.of_nat n - 1 + 1)) with n by lia. simpl.
  destruct copy; simpl; [|done].
  by rewrite zero_outside_eq.
Qed.

Lemma subclass_for_dtype a :
  subclass_for (if iscomplexobj a then "complex" else "real")
  = Some (dtype_class a).
Proof. by destruct a. Qed.

Lemma from_array_Ok a norm cs copy x :
  SHCoeffs_from_array a norm cs copy = Ok x →
  valid_normalization norm = true ∧ valid_csphase cs = true
  ∧ subclass_init (dtype_class a) a (lower norm) cs copy = Ok x.
Proof.
  unfold SHCoeffs_from_array. rewrite subclass_for_dtype.
  destruct (valid_normalization norm); simpl; [|done].
  destruct (valid_csphase cs); simpl; done.
Qed.

Lemma from_array_eq a norm cs copy :
  valid_normalization norm = true → valid_csphase cs = true →
  SHCoeffs_from_array a norm cs copy
  = subclass_init (dtype_class a) a (lower norm) cs copy.
Proof.
  intros Hn Hc. unfold SHCoeffs_from_array.
  by rewrite subclass_for_dtype, Hn, Hc.
Qed.

Lemma masked_shape s a : arr_has_shape s (masked a) = arr_has_shape s a.
Proof. apply arr_has_shape_arr_map. Qed.

Lemma wf_subclass_init c a norm cs x :
  subclass_init c a norm cs true = Ok x → wf_coeffs x.
Proof.
  intros (n & Hn & _ & -> & Ha)%subclass_init_Ok.
  exists n. simpl. rewrite masked_shape. auto.
Qed.

Lemma arr_get_masked a i l m :
  arr_get (masked a) i l m
  = (λ z, if mask_spec i l m then z else RtoC 0) <$> arr_get a i l m.
Proof.
  unfold masked.
  rewrite (arr_get_arr_map (λ K H i l m x, if mask_spec i l m then x else nzero)).
  - done.
  - intros. simpl. by destruct (mask_spec _ _ _).
Qed.

(** ** Facts about the factors *)

Lemma two_l_plus_1_pos l : (0 < 2 * INR l + 1)%R.
Proof. pose proof (pos_INR l). lra. Qed.

Lemma four_pi_pos : (0 < 4 * PI)%R.
Proof. pose proof PI_RGT_0. lra. Qed.

Lemma sqrt_inv_r x : (0 < x)%R → (sqrt x * / sqrt x = 1)%R.
Proof. intros Hx. apply Rinv_r. pose proof (sqrt_lt_R0 x Hx). lra. Qed.

Lemma sqrt_ratio_inv x y :
  (0 < x)%R → (0 < y)%R → (sqrt (x / y) * sqrt (y / x) = 1)%R.
Proof.
  intros Hx Hy. rewrite <- sqrt_mult_alt.
  - replace (x / y * (y / x))%R with 1%R by (field; lra). apply sqrt_1.
  - apply Rlt_le, Rdiv_lt_0_compat; lra.
Qed.

Lemma valid_normalization_elem norm :
  valid_normalization norm = true ↔ lower norm ∈ normalizations.
Proof.
  unfold valid_normalization, str_in, normalizations. simpl.
  rewrite !orb_true_iff, !String.eqb_eq, !elem_of_cons, elem_of_nil.
  intuition discriminate.
Qed.

Lemma valid_csphase_elem cs : valid_csphase cs = true ↔ cs ∈ csphases.
Proof.
  unfold valid_csphase, csphases. rewrite !elem_of_cons, elem_of_nil.
  destruct (Z.eqb_spec cs 1), (Z.eqb_spec cs (-1)); simpl;
    intuition (try discriminate; try lia).
Qed.

Lemma lower_normalizations norm : norm ∈ normalizations → lower norm = norm.
Proof.
  unfold normalizations. rewrite !elem_of_cons, elem_of_nil.
  intros [->|[->|[->|[]]]]; reflexivity.
Qed.

(** Converting an entry to another convention and back gives the entry. *)
Lemma convert_entry_roundtrip {K} `{NumLaws K} n0 n1 c0 c1 l m (x : K) :
  n0 ∈ normalizations → n1 ∈ normalizations →
  convert_entry n1 n0 c1 c0 l m (convert_entry n0 n1 c0 c1 l m x) = x.
Proof.
  unfold normalizations. rewrite !elem_of_cons, !elem_of_nil.
  pose proof (two_l_plus_1_pos l) as Hl. pose proof four_pi_pos as Hpi.
  assert (∀ s t y, (s * t = 1)%R → nscale t (nscale s y) = y) as Hst.
  { intros s t y E. by rewrite nscale_nscale, E, nscale_1. }
  assert (∀ y : K, (if negb (c0 =? c1)%Z && Nat.odd m
                    then nneg (if negb (c1 =? c0)%Z && Nat.odd m then nneg y else y)
                    else (if negb (c1 =? c0)%Z && Nat.odd m then nneg y else y)) = y)
    as Hphase.
  { intros y. rewrite (Z.eqb_sym c1 c0).
    destruct (negb (c0 =? c1)%Z && Nat.odd m); [apply nneg_nneg|done]. }
  assert (∀ s (y : K), (if negb (c1 =? c0)%Z && Nat.odd m then nneg (nscale s y)
                        else nscale s y)
            = nscale s (if negb (c1 =? c0)%Z && Nat.odd m then nneg y else y))
    as Hcomm.
  { intros s y. destruct (negb (c1 =? c0)%Z && Nat.odd m); [|done].
    by rewrite nscale_nneg. }
  intros [->|[->|[->|[]]]] [->|[->|[->|[]]]]; unfold convert_entry; simpl;
    rewrite ?nunscale_nscale;
    try (destruct (m <? l + 1)%nat);
    rewrite ?nunscale_nscale, ?Hcomm, ?Hphase; try done;
    rewrite <- ?Hcomm.
  all: rewrite Hst; [apply Hphase|];
    first [ apply sqrt_inv_r; lra
          | rewrite Rmult_comm; apply sqrt_inv_r; lra
          | apply sqrt_ratio_inv; lra ].
Qed.

Lemma convert_entry_zero {K} `{NumLaws K} n0 n1 c0 c1 l m :
  convert_entry n0 n1 c0 c1 l m nzero = (nzero : K).
Proof.
  unfold convert_entry.
  repeat match goal with
         | |- context [if ?b then _ else _] => destruct b
         end;
    rewrite ?nunscale_nscale, ?nscale_zero, ?nneg_zero; done.
Qed.

Lemma convert_entry_RtoC n0 n1 c0 c1 l m (x : R) :
  RtoC (convert_entry n0 n1 c0 c1 l m x)
  = convert_entry n0 n1 c0 c1 l m (RtoC x).
Proof.
  unfold convert_entry.
  repeat match goal with
         | |- context [if ?b then _ else _] => destruct b
         end; simpl; unfold RtoC, Cneg, Rdiv; simpl; f_equal; lra.
Qed.

Lemma RtoC_inj x y : RtoC x = RtoC y → x = y.
Proof. by intros [= ->]. Qed.

Lemma arr_get_is_Some s a i l m :
  arr_has_shape s a = true → (i < s.1.1)%nat → (l < s.1.2)%nat → (m < s.2)%nat →
  is_Some (arr_get a i l m).
Proof.
  intros Ha Hi Hl Hm. destruct a as [x|x]; simpl in *.
  - destruct (lookup3_is_Some _ _ _ _ _ Ha Hi Hl Hm) as [v ->]. by eexists.
  - by apply (lookup3_is_Some s).
Qed.

Lemma arr_get_Some_lt s a i l m z :
  arr_has_shape s a = true → arr_get a i l m = Some z →
  (i < s.1.1 ∧ l < s.1.2 ∧ m < s.2)%nat.
Proof.
  intros Ha. destruct a as [x|x]; simpl in *.
  - destruct (lookup3 x i l m) as [v|] eqn:E; [|done]. intros _.
    by apply (lookup3_Some_lt s x i l m v).
  - by apply lookup3_Some_lt.
Qed.

(** Zeroing outside the mask changes nothing in an array that is zero
    there. *)
Lemma masked_fix n a :
  arr_has_shape (2, n, n)%nat a = true →
  (∀ i l m, mask_spec i l m = false → (i < 2)%nat → (l < n)%nat → (m < n)%nat →
            arr_get a i l m = Some (RtoC 0)) →
  masked a = a.
Proof.
  intros Ha H. unfold masked. destruct a as [x|x]; simpl in *; f_equal;
    apply imap3_id; intros i l m v Hv;
    destruct (lookup3_Some_lt _ _ _ _ _ _ Ha Hv) as (?&?&?); simpl in *;
    destruct (mask_spec i l m) eqn:E; try done;
    specialize (H i l m E ltac:(done) ltac:(done) ltac:(done));
    rewrite Hv in H; simpl in H.
  - by injection H as ->.
  - by injection H as ->.
Qed.

Lemma zero_outside_mask_spec x n :
  mask x = mask_array n →
  (zero_outside_mask x ↔
   ∀ i l m, mask_spec i l m = false → (i < 2)%nat → (l < n)%nat → (m < n)%nat →
            arr_get (coeffs x) i l m = Some (RtoC 0)).
Proof.
  intros Hm. unfold zero_outside_mask. rewrite Hm. split.
  - intros H i l m Hs Hi Hl Hm'. apply H. rewrite lookup3_mask_array.
    rewrite decide_True by done. by rewrite Hs.
  - intros H i l m. rewrite lookup3_mask_array.
    destruct (decide _) as [(?&?&?)|]; [|done]. intros [= Hs]. by apply H.
Qed.

Lemma arr_get_converted_entry n0 n1 c0 c1 a i l m :
  arr_get (arr_map (λ K H _ l m v, convert_entry n0 n1 c0 c1 l m v) a) i l m
  = convert_entry n0 n1 c0 c1 l m <$> arr_get a i l m.
Proof.
  rewrite (arr_get_arr_map (λ K H _ l m v, convert_entry n0 n1 c0 c1 l m v)); [done|].
  intros. apply convert_entry_RtoC.
Qed.

(** The mask invariant of a constructor that copies. *)
Lemma zero_outside_mask_init c a norm cs x :
  subclass_init c a norm cs true = Ok x → zero_outside_mask x.
Proof.
  intros (n & Hn & _ & -> & Ha)%subclass_init_Ok.
  apply (zero_outside_mask_spec _ n); [done|]. simpl.
  intros i l m Hs Hi Hl Hm. rewrite arr_get_masked, Hs.
  destruct (arr_get_is_Some (2, n, n)%nat a i l m) as [z ->]; auto.
Qed.

Section to_array.
Context (x : SHCoeffs) (n : nat).
Context (Hn : (0 < n)%nat) (Hlmax : lmax x = (Z.of_nat n - 1)%Z).
Context (Hshape : arr_has_shape (2, n, n)%nat (coeffs x) = true).

Lemma to_array_eq norm_ cs_ lmax_ :
  valid_normalization (default (normalization x) norm_) = true →
  valid_csphase (default (csphase x) cs_) = true →
  (0 <= default (lmax x) lmax_ <= lmax x)%Z →
  SHCoeffs_to_array x norm_ cs_ lmax_
  = Ok (converted x (lower (default (normalization x) norm_))
                  (default (csphase x) cs_) (default (lmax x) lmax_)).
Proof.
  intros Hv Hc Hl. unfold SHCoeffs_to_array. rewrite Hv, Hc. simpl.
  assert ((match lmax_ with
           | Some lmax' => if (lmax x <? lmax')%Z then Raise ValueError else Ok ()
           | None => Ok ()
           end) = Ok ()) as ->.
  { destruct lmax_ as [lmax'|]; [|done]. simpl in Hl.
    destruct (Z.ltb_spec (lmax x) lmax'); [lia|done]. }
  simpl. unfold SHRealCoeffs__to_array, SHComplexCoeffs__to_array.
  destruct (cls x); apply (_to_array_eq _ _ _ _ n); try done; lia.
Qed.

Lemma converted_full out_norm out_cs :
  converted x out_norm out_cs (Z.of_nat n - 1)
  = arr_map (λ K H _ l m v,
               convert_entry (normalization x) out_norm (csphase x) out_cs l m v)
            (coeffs x).
Proof. unfold converted. by rewrite (slice_lmax_full n). Qed.
End to_array.

(** ** Round trip of the conventions *)

(** C2. For every coefficient set of the data model, every target
    normalization among 4pi, ortho and schmidt and every target csphase
    among 1 and -1: [to_array] to the target convention, [from_array] on
    the result (with or without a copy), and [to_array] back to the
    original convention all succeed, and the last array is the original
    coefficient array, exactly over the reals, for every [lmax >= 0]. *)
Theorem C2_conversion_round_trip (x : SHCoeffs) (norm1 : string) (cs1 : Z)
    (copy : bool) :
  wf_coeffs x →
  normalization x ∈ normalizations → csphase x ∈ csphases →
  valid_normalization norm1 = true → valid_csphase cs1 = true →
  (copy = true → zero_outside_mask x) →
  ∃ a1 x1,
    SHCoeffs_to_array x (Some norm1) (Some cs1) None = Ok a1
    ∧ SHCoeffs_from_array a1 norm1 cs1 copy = Ok x1
    ∧ SHCoeffs_to_array x1 (Some (normalization x)) (Some (csphase x)) None
      = Ok (coeffs x).
Proof.
  intros (n & Hn & Hlmax & Hmask & Hshape) Hnorm Hcs Hv1 Hc1 Hinv.
  set (conv1 := λ (K : Set) (H : Num K) (_ l m : nat) (v : K),
         convert_entry (normalization x) (lower norm1) (csphase x) cs1 l m v).
  assert (arr_has_shape (2, n, n)%nat (arr_map conv1 (coeffs x)) = true) as Ha1.
  { by rewrite arr_has_shape_arr_map. }
  assert ((if copy then masked (arr_map conv1 (coeffs x))
           else arr_map conv1 (coeffs x)) = arr_map conv1 (coeffs x)) as Hcopy.
  { destruct copy; [|done]. apply (masked_fix n); [done|].
    intros i l m Hs Hi Hl Hm. unfold conv1.
    rewrite arr_get_converted_entry.
    apply (zero_outside_mask_spec x n Hmask) in Hs; auto.
    rewrite Hs. simpl. f_equal.
    exact (convert_entry_zero (K:=C) _ _ _ _ _ _). }
  exists (arr_map conv1 (coeffs x)). eexists. split; [|split].
  - rewrite (to_array_eq x n) by (simpl; done || lia).
    simpl. by rewrite Hlmax, (converted_full x n).
  - rewrite from_array_eq by done. by apply subclass_init_eq.
  - rewrite Hcopy. rewrite (to_array_eq _ n); simpl; try done; try lia.
    + rewrite (converted_full _ n) by done. simpl.
      rewrite (lower_normalizations _ Hnorm).
      unfold conv1. rewrite arr_map_arr_map. f_equal.
      apply (arr_map_id (2, n, n)%nat); [done|]. intros K H HL i l m v _ _ _.
      apply convert_entry_roundtrip; [done|].
      by apply valid_normalization_elem.
    + apply valid_normalization_elem. by rewrite (lower_normalizations _ Hnorm).
    + by apply valid_csphase_elem.
Qed.

Lemma C2_conversion_round_trip_witness :
  ∃ a1 x1,
    SHCoeffs_to_array example_ortho (Some "schmidt") (Some 1%Z) None = Ok a1
    ∧ SHCoeffs_from_array a1 "schmidt" 1 true = Ok x1
    ∧ SHCoeffs_to_array x1 (Some "ortho") (Some (-1)%Z) None
      = Ok (coeffs example_ortho).
Proof.
  apply (C2_conversion_round_trip example_ortho "schmidt" 1 true).
  - exists 2%nat. split; [lia|]. repeat split.
  - unfold normalizations. rewrite !elem_of_cons. auto.
  - unfold csphases. rewrite !elem_of_cons. auto.
  - reflexivity.
  - reflexivity.
  - intros _. apply (zero_outside_mask_spec _ 2%nat); [done|].
    intros i l m Hs Hi Hl Hm.
    destruct i as [|[|i]]; [| |lia]; destruct l as [|[|l]]; try lia;
      destruct m as [|[|m]]; try lia; try discriminate Hs; reflexivity.
Defined.

(** ** The mask invariant *)

Lemma from_array_copy_invariant a norm cs x :
  SHCoeffs_from_array a norm cs true = Ok x → zero_outside_mask x ∧ wf_coeffs x.
Proof.
  intros (_ & _ & H)%from_array_Ok. split.
  - by apply zero_outside_mask_init in H.
  - by apply wf_subclass_init in H.
Qed.

Lemma dispatch_init_invariant kind a norm cs x :
  match subclass_for kind with
  | Some c => Some <$> subclass_init c a norm cs true
  | None => Ok None
  end = Ok (Some x) → zero_outside_mask x.
Proof.
  destruct (subclass_for kind) as [c|]; [|done].
  intros (y & Hy & [= ->])%fmap_Ok_inv. by apply zero_outside_mask_init in Hy.
Qed.

Lemma from_zeros_invariant lmax kind norm cs x :
  SHCoeffs_from_zeros lmax kind norm cs = Ok (Some x) → zero_outside_mask x.
Proof.
  unfold SHCoeffs_from_zeros.
  repeat match goal with
         | |- context [if negb ?b then Raise _ else _] => destruct b; simpl; [|done]
         end.
  intros (a & _ & H)%bind_Ok_inv. by apply dispatch_init_invariant in H.
Qed.

Lemma from_random_invariant `{SpectrumBackend} g1 g2 power kind norm cs exact x :
  SHCoeffs_from_random g1 g2 power kind norm cs exact = Ok (Some x) →
  zero_outside_mask x.
Proof.
  unfold SHCoeffs_from_random.
  repeat match goal with
         | |- context [if negb ?b then Raise _ else _] => destruct b; simpl; [|done]
         end.
  intros ([a p] & _ & H0)%bind_Ok_inv. by apply dispatch_init_invariant in H0.
Qed.

Lemma from_file_invariant `{FileBackend} fname lmax format kind norm cs x :
  SHCoeffs_from_file fname lmax format kind norm cs = Ok (Some x) →
  zero_outside_mask x.
Proof.
  unfold SHCoeffs_from_file.
  repeat match goal with
         | |- context [if negb ?b then Raise _ else _] => destruct b; simpl; [|done]
         end.
  destruct (_ && _); [done|].
  intros (a & _ & H0)%bind_Ok_inv. by apply dispatch_init_invariant in H0.
Qed.

Lemma to_array_Ok_lmax x norm_ cs_ lmax' a :
  SHCoeffs_to_array x norm_ cs_ (Some lmax') = Ok a → (lmax' <= lmax x)%Z.
Proof.
  unfold SHCoeffs_to_array.
  destruct (valid_normalization _); simpl; [|done].
  destruct (valid_csphase _); simpl; [|done].
  destruct (Z.ltb_spec (lmax x) lmax'); [done|lia].
Qed.

(** [convert] to the instance's own kind keeps the invariant. *)
Lemma convert_same_kind_invariant `{ConvertBackend} x norm_ cs_ lmax_ y :
  wf_coeffs x → zero_outside_mask x →
  (0 <= default (lmax x) lmax_)%Z →
  SHCoeffs_convert x norm_ cs_ lmax_ None true = Ok y →
  zero_outside_mask y.
Proof.
  intros (n & Hn & Hlmax & Hmask & Hshape) Hinv Hl. unfold SHCoeffs_convert.
  destruct (valid_normalization _) eqn:Hv; simpl; [|done].
  destruct (valid_csphase _) eqn:Hc; simpl; [|done].
  rewrite String.eqb_refl. simpl.
  intros (a & Ha & Hy)%bind_Ok_inv.
  pose proof (to_array_Ok_lmax _ _ _ _ _ Ha) as Hle.
  assert (lower (lower (default (normalization x) norm_))
          = lower (default (normalization x) norm_)) as Hlow.
  { apply lower_normalizations. by apply valid_normalization_elem. }
  rewrite (to_array_eq x n) in Ha; simpl; try done; try lia.
  2:{ apply valid_normalization_elem. rewrite Hlow.
      by apply valid_normalization_elem. }
  injection Ha as <-.
  set (n' := Z.to_nat (default (lmax x) lmax_ + 1)).
  assert (arr_has_shape (2, n', n')%nat
            (converted x (lower (lower (default (normalization x) norm_)))
                       (default (csphase x) cs_) (default (lmax x) lmax_)) = true) as Hs.
  { unfold converted. rewrite arr_has_shape_arr_map.
    apply (arr_has_shape_slice_lmax n); [done|lia]. }
  rewrite from_array_eq in Hy; try done.
  2:{ apply valid_normalization_elem. rewrite Hlow.
      by apply valid_normalization_elem. }
  rewrite (subclass_init_eq _ _ _ _ _ n') in Hy by (done || lia).
  injection Hy as <-.
  apply (zero_outside_mask_spec _ n'); [done|]. simpl.
  intros i l m Hs' Hi Hl' Hm. unfold converted.
  rewrite arr_get_converted_entry.
  assert (arr_get (slice_lmax (default (lmax x) lmax_) (coeffs x)) i l m
          = arr_get (coeffs x) i l m) as ->.
  { unfold slice_lmax.
    replace (default (lmax x) lmax_ + 1)%Z with (Z.of_nat n') by lia.
    destruct (coeffs x) as [v|v]; simpl; rewrite lookup3_slice;
      by rewrite decide_True. }
  apply (zero_outside_mask_spec x n Hmask) in Hs'; [|done|lia..].
  rewrite Hs'. simpl. f_equal. exact (convert_entry_zero (K:=C) _ _ _ _ _ _).
Qed.

Lemma from_array_unit_degree0 :
  SHCoeffs_from_array (FloatArr [[[1%R]]; [[0%R]]]) "4pi" 1 true = Ok unit_degree0.
Proof. reflexivity. Qed.

(** C1. The mask invariant does not survive [convert] from real to
    complex:
    [_make_complex] stores the conjugate of [c(l, 0)] at the sine plane,
    order 0, where the mask is false, and hands the array to the
    constructor with [copy=False], so nothing zeroes it.  For the real
    coefficient set with [lmax = 0] and coefficient 1, built by
    [from_array] (which does satisfy the invariant), and a backend whose
    [SHrtoc] returns the real part 1 and the imaginary part 0 for it,
    [convert(kind='complex')] succeeds and returns a coefficient set
    whose entry at (1, 0, 0) has real part 1 while its mask is false
    there. *)
Theorem C1_convert_to_complex_breaks_mask_invariant `{ConvertBackend} :
  SHrtoc [[[1%R]]; [[0%R]]] = [[[1%R]]; [[0%R]]] →
  ∃ x y,
    SHCoeffs_from_array (FloatArr [[[1%R]]; [[0%R]]]) "4pi" 1 true = Ok x
    ∧ zero_outside_mask x
    ∧ SHCoeffs_convert x None None None (Some "complex") true = Ok y
    ∧ lookup3 (mask y) 1 0 0 = Some false
    ∧ (∃ z, arr_get (coeffs y) 1 0 0 = Some z ∧ Cre z = 1%R)
    ∧ ¬ zero_outside_mask y.
Proof.
  intros HB. exists unit_degree0.
  assert (∃ y, SHCoeffs_convert unit_degree0 None None None (Some "complex") true
               = Ok y
               ∧ lookup3 (mask y) 1 0 0 = Some false
               ∧ ∃ z, arr_get (coeffs y) 1 0 0 = Some z ∧ Cre z = 1%R)
    as (y & Hy & Hmask & z & Hz & Hre).
  { eexists. split; [|split].
    - unfold SHCoeffs_convert. simpl. unfold _make_complex. simpl.
      rewrite HB. reflexivity.
    - reflexivity.
    - eexists. split; [reflexivity|]. simpl. lra. }
  exists y. split; [reflexivity|]. split.
  { by apply (from_array_copy_invariant _ _ _ _ from_array_unit_degree0). }
  split; [done|]. split; [done|]. split; [by exists z|].
  intros Hinv. specialize (Hinv 1%nat 0%nat 0%nat Hmask).
  rewrite Hz in Hinv. injection Hinv as ->. simpl in Hre. lra.
Qed.

Lemma C1_convert_to_complex_breaks_mask_invariant_witness :
  ∃ x y,
    SHCoeffs_from_array (FloatArr [[[1%R]]; [[0%R]]]) "4pi" 1 true = Ok x
    ∧ zero_outside_mask x
    ∧ SHCoeffs_convert (H := spec_convert_backend) x None None None
                       (Some "complex") true = Ok y
    ∧ lookup3 (mask y) 1 0 0 = Some false
    ∧ (∃ z, arr_get (coeffs y) 1 0 0 = Some z ∧ Cre z = 1%R)
    ∧ ¬ zero_outside_mask y.
Proof.
  apply (C1_convert_to_complex_breaks_mask_invariant (H := spec_convert_backend)).
  reflexivity.
Defined.

(** ** The operators *)

Lemma compatible_b_spec s o : compatible_b s o = true ↔ compatible s o.
Proof.
  unfold compatible_b, compatible.
  rewrite !andb_true_iff, !String.eqb_eq, Z.eqb_eq. tauto.
Qed.

Lemma binary_operator_incompatible f refl s o :
  ¬ compatible s o → binary_operator f refl s (OCoeffs o) = Raise ValueError.
Proof.
  intros Hc. unfold binary_operator. fold (compatible_b s o).
  destruct (compatible_b s o) eqn:E; [|done].
  by apply compatible_b_spec in E.
Qed.

Lemma binary_operator_Ok_compatible f refl s o r :
  binary_operator f refl s (OCoeffs o) = Ok r → compatible s o.
Proof.
  unfold binary_operator. fold (compatible_b s o).
  destruct (compatible_b s o) eqn:E; [|done].
  intros _. by apply compatible_b_spec.
Qed.

(** The result of an operator is built by [from_array] from a float
    array. *)
Lemma binary_operator_Ok_float f refl s other r :
  binary_operator f refl s other = Ok r →
  ∃ a, coeffs r = masked (FloatArr a) ∧ cls r = SHRealCoeffs.
Proof.
  assert (∀ x y, (masked_op f s x y ≫= λ coeffs,
                    SHCoeffs_from_array coeffs (normalization s) (csphase s) true)
                 = Ok r →
                 ∃ a, coeffs r = masked (FloatArr a) ∧ cls r = SHRealCoeffs) as H.
  { intros x y (c & Hc & Hr)%bind_Ok_inv. unfold masked_op in Hc.
    apply bind_Ok_inv in Hc as (z & _ & Hc).
    destruct (_ && _) in Hc; [|done]. injection Hc as <-.
    apply from_array_Ok in Hr as (_ & _ & Hr).
    apply subclass_init_Ok in Hr as (n & _ & _ & -> & _). simpl. eauto. }
  unfold binary_operator. destruct other as [o|sc|str|]; [| | |done].
  - destruct (_ && _); [|done]. destruct refl; apply H.
  - destruct refl; apply H.
  - destruct (zeros3 _ _ _ _); [|done]. simpl. by destruct (_ && _).
Qed.

Lemma apply_op_binary op :
  ∃ f, apply_op op = binary_operator f false.
Proof. destruct op; eexists; reflexivity. Qed.

Lemma as_float_shape s a : arr_has_shape s a = true → has_shape s (as_float a) = true.
Proof. destruct a; simpl; [done|]. by rewrite has_shape_imap3. Qed.

Lemma as_complex_shape s a :
  arr_has_shape s a = true → has_shape s (as_complex a) = true.
Proof. destruct a; simpl; [|done]. by rewrite has_shape_imap3. Qed.

Lemma arr_zip_shape s f a b :
  arr_has_shape s a = true → arr_has_shape s b = true →
  arr_has_shape s (arr_zip f a b) = true.
Proof.
  intros Ha Hb. destruct a as [x|x], b as [y|y]; simpl in *;
    apply has_shape_zip3; rewrite ?has_shape_imap3; done.
Qed.

Lemma zeros3_eq {K} (z : K) n1 n2 :
  (0 <= n1)%Z → (0 <= n2)%Z →
  zeros3 z 2 n1 n2 = Ok (np_zeros z 2 (Z.to_nat n1) (Z.to_nat n2)).
Proof.
  intros H1 H2. unfold zeros3.
  destruct (Z.ltb_spec n1 0), (Z.ltb_spec n2 0); try lia. reflexivity.
Qed.

(** Two coefficient sets of the data model with the same conventions and
    the same degree can be combined. *)
Lemma binary_operator_Ok f refl s o :
  wf_coeffs s → wf_coeffs o → lmax s = lmax o → compatible s o →
  normalization s ∈ normalizations → csphase s ∈ csphases →
  is_Ok (binary_operator f refl s (OCoeffs o)).
Proof.
  intros (n & Hn & Hl & Hm & Hs) (n' & Hn' & Hl' & Hm' & Hs') Hll Hc Hnorm Hcs.
  assert (n' = n) as -> by lia.
  unfold binary_operator. fold (compatible_b s o).
  rewrite (proj2 (compatible_b_spec s o) Hc).
  assert (∀ x y, arr_has_shape (2, n, n)%nat x = true →
                 arr_has_shape (2, n, n)%nat y = true →
                 is_Ok (masked_op f s x y ≫= λ coeffs,
                   SHCoeffs_from_array coeffs (normalization s) (csphase s) true)) as H.
  { intros x y Hx Hy. unfold masked_op. rewrite Hl, Hm.
    replace (Z.of_nat n - 1 + 1)%Z with (Z.of_nat n) by lia.
    rewrite zeros3_eq, bind_Ok by lia.
    rewrite shape3_mask_array by done. rewrite Nat2Z.id.
    rewrite has_shape_mask_array, Hx, Hy, has_shape_np_zeros.
    cbn [andb]. rewrite bind_Ok.
    rewrite from_array_eq;
      [|by apply valid_normalization_elem; rewrite lower_normalizations
       |by apply valid_csphase_elem].
    rewrite (subclass_init_eq _ _ _ _ _ n); [by eexists|done|].
    unfold arr_has_shape.
    apply has_shape_zip3; [apply has_shape_mask_array|].
    apply as_float_shape. by apply arr_zip_shape. }
  destruct refl; simpl; by apply H.
Qed.

(** C3. For every two coefficient sets in a store and each of the four
    binary operations (add, subtract, multiply, divide): whatever the
    outcome, both operands are in the store afterwards as they were
    before; a success returns a reference that did not exist before (a
    new coefficient set) and happens only when [normalization], [csphase]
    and [kind] of the operands are equal; when one of the three differs
    the operation raises ValueError and the store is unchanged; and two
    coefficient sets of the data model with equal conventions and equal
    degree are indeed combined. *)
Theorem C3_operators_need_matching_conventions (op : arith_op) (σ : store)
    (a b : ref) (sa sb : SHCoeffs) :
  σ !! a = Some sa → σ !! b = Some sb →
  (∀ out σ', obj_binary op a b σ = (out, σ') →
     σ' !! a = Some sa ∧ σ' !! b = Some sb
     ∧ ∀ r, out = Ok r →
         compatible sa sb ∧ σ !! r = None ∧ is_Some (σ' !! r))
  ∧ (¬ compatible sa sb → obj_binary op a b σ = (Raise ValueError, σ))
  ∧ (compatible sa sb → wf_coeffs sa → wf_coeffs sb → lmax sa = lmax sb →
     normalization sa ∈ normalizations → csphase sa ∈ csphases →
     ∃ r σ', obj_binary op a b σ = (Ok r, σ')).
Proof.
  intros Ha Hb. destruct (apply_op_binary op) as [f Hf].
  unfold obj_binary. rewrite Ha, Hb, Hf. split; [|split].
  - intros out σ'.
    destruct (binary_operator f false sa (OCoeffs sb)) as [r|e] eqn:E.
    + intros [= <- <-]. split; [by apply lookup_app_l_Some|].
      split; [by apply lookup_app_l_Some|].
      intros r' [= <-]. split; [by apply binary_operator_Ok_compatible in E|].
      split; [by apply lookup_ge_None|].
      rewrite lookup_app_r by done. rewrite Nat.sub_diag. by eexists.
    + intros [= <- <-]. split; [done|]. split; [done|]. intros r [=].
  - intros Hc. by rewrite binary_operator_incompatible.
  - intros Hc Hwa Hwb Hl Hn Hcs.
    destruct (binary_operator_Ok f false sa sb) as [r ->]; try done.
    eauto.
Qed.

Lemma C3_operators_need_matching_conventions_witness :
  (∀ out σ', obj_binary OpAdd 0 1 [unit_degree0; example_ortho] = (out, σ') →
     σ' !! 0%nat = Some unit_degree0 ∧ σ' !! 1%nat = Some example_ortho
     ∧ ∀ r, out = Ok r →
         compatible unit_degree0 example_ortho
         ∧ [unit_degree0; example_ortho] !! r = None ∧ is_Some (σ' !! r))
  ∧ (¬ compatible unit_degree0 example_ortho →
     obj_binary OpAdd 0 1 [unit_degree0; example_ortho]
     = (Raise ValueError, [unit_degree0; example_ortho]))
  ∧ (compatible unit_degree0 example_ortho →
     wf_coeffs unit_degree0 → wf_coeffs example_ortho →
     lmax unit_degree0 = lmax example_ortho →
     normalization unit_degree0 ∈ normalizations →
     csphase unit_degree0 ∈ csphases →
     ∃ r σ', obj_binary OpAdd 0 1 [unit_degree0; example_ortho] = (Ok r, σ')).
Proof.
  apply (C3_operators_need_matching_conventions OpAdd
           [unit_degree0; example_ortho] 0 1 unit_degree0 example_ortho);
    reflexivity.
Defined.

(** C9. Every operator ([__add__], [__sub__], [__rsub__], [__mul__],
    [__div__], [__truediv__] and the two that call them), with a
    coefficient set or a number as the other operand, returns on success a
    coefficient set of the real class whose array has the float dtype,
    whatever the kind of the operands; and there is a complex coefficient
    set, built by [from_array], whose sum with itself succeeds and differs
    at entry (0, 0, 0) from the elementwise complex sum of the two
    coefficient arrays. *)
Theorem C9_operators_return_float_arrays :
  (∀ f reflected self other r,
     binary_operator f reflected self other = Ok r →
     iscomplexobj (coeffs r) = false ∧ cls r = SHRealCoeffs)
  ∧ ∃ a r,
      SHCoeffs_from_array (ComplexArr [[[Ci]]; [[RtoC 0]]]) "4pi" 1 true = Ok a
      ∧ kind a = "complex" ∧ compatible a a
      ∧ SHCoeffs___add__ a (OCoeffs a) = Ok r
      ∧ arr_get (coeffs r) 0 0 0
        ≠ arr_get (arr_zip (λ K _, nadd) (coeffs a) (coeffs a)) 0 0 0.
Proof.
  split.
  - intros f refl self other r (a & -> & ->)%binary_operator_Ok_float. done.
  - exists imag_degree0. eexists. split; [reflexivity|].
    split; [reflexivity|]. split; [done|]. split; [reflexivity|].
    simpl. unfold RtoC, Cadd, Ci. simpl. intros [= H]. lra.
Qed.

(** ** Spectra *)

Lemma vec_inplace_same_length f (s v : list R) :
  length v = length s → vec_inplace f s v = Ok (zip_with f s v).
Proof. intros E. unfold vec_inplace. by rewrite E, Nat.eqb_refl. Qed.

Lemma length_two_l_plus_1 x n :
  lmax x = (Z.of_nat n - 1)%Z → length (two_l_plus_1 x) = n.
Proof.
  intros E. unfold two_l_plus_1, degrees, arange.
  rewrite length_fmap, length_seq, E. lia.
Qed.

Lemma zip_with_two_l_plus_1 x (s : list R) :
  length s = length (two_l_plus_1 x) →
  zip_with Rdiv s (two_l_plus_1 x) = imap (λ l v, v / (2 * INR l + 1))%R s.
Proof.
  intros E. apply list_eq. intros l.
  rewrite lookup_zip_with, list_lookup_imap.
  destruct (s !! l) as [v|] eqn:Hv; simpl; [|done].
  unfold two_l_plus_1, degrees, arange in *.
  rewrite length_fmap, length_seq in E.
  rewrite list_lookup_fmap, lookup_seq_lt; [done|].
  apply lookup_lt_Some in Hv. lia.
Qed.

Lemma subclass_spectrum_per_lm bs x n convention base :
  lmax x = (Z.of_nat n - 1)%Z → length (bs (coeffs x)) = n →
  subclass_spectrum bs x convention "per_lm" base
  = imap (λ l v, v / (2 * INR l + 1))%R
      <$> subclass_spectrum bs x convention "per_l" base
  ∧ ∀ s, subclass_spectrum bs x convention "per_l" base = Ok s → length s = n.
Proof.
  intros Hl Hb. unfold subclass_spectrum.
  match goal with
  | |- (?S ≫= _) = _ ∧ _ => destruct S as [s0|e0] eqn:ES
  end; [|done].
  assert (length s0 = n) as Hlen.
  { repeat match type of ES with
           | (if ?b then _ else _) = _ => destruct b
           end; try done;
      try (injection ES as <-; rewrite ?length_fmap; done).
    rewrite vec_inplace_same_length in ES
      by (by rewrite (length_two_l_plus_1 x n)).
    injection ES as <-. rewrite length_zip_with.
    rewrite (length_two_l_plus_1 x n) by done. lia. }
  simpl.
  assert (length (if String.eqb (lower convention) "energy"
                  then (λ v, v * (4 * PI))%R <$> s0 else s0) = n) as Hlen'.
  { destruct (String.eqb (lower convention) "energy"); by rewrite ?length_fmap. }
  split.
  - rewrite vec_inplace_same_length by (by rewrite (length_two_l_plus_1 x n)).
    f_equal. apply zip_with_two_l_plus_1.
    by rewrite (length_two_l_plus_1 x n).
  - by intros s [= <-].
Qed.

Lemma subclass_spectrum_per_l_Ok bs x n convention base :
  lmax x = (Z.of_nat n - 1)%Z → length (bs (coeffs x)) = n →
  lower convention ∈ ["power"; "energy"; "l2norm"] →
  normalization x ∈ normalizations →
  is_Ok (subclass_spectrum bs x convention "per_l" base).
Proof.
  intros Hl Hb Hc Hn. unfold subclass_spectrum.
  match goal with
  | |- is_Ok (?S ≫= _) => assert (∃ s0, S = Ok s0) as [s0 ->]
  end.
  { rewrite vec_inplace_same_length by (by rewrite (length_two_l_plus_1 x n)).
    unfold normalizations in Hn. rewrite !elem_of_cons, elem_of_nil in Hn, Hc.
    destruct Hc as [->|[->|[->|[]]]], Hn as [->|[->|[->|[]]]]; simpl; eauto. }
  simpl. by eexists.
Qed.

Lemma spec_spectrum_lengths : spectrum_lengths (H := spec_spectrum_backend).
Proof.
  split; intros a; simpl; unfold spec_power_spectrum;
    by rewrite length_fmap, length_seq.
Qed.

(** C4. For every coefficient set of the data model, real or complex, and
    every convention string, with a backend that returns one value per
    degree: the spectrum with unit 'per_lm' is the spectrum with unit
    'per_l' with the entry of each degree [l] divided by [2l+1] (both
    raise the same error when the convention or the stored normalization
    is not known); the 'per_l' spectrum has [lmax+1] entries, degrees 0 to
    [lmax]; and for the conventions power, energy and l2norm and a known
    normalization the spectrum is returned. *)
Theorem C4_per_lm_is_per_l_over_2l_plus_1 `{SpectrumBackend} (x : SHCoeffs)
    (convention : string) (base : R) :
  spectrum_lengths → wf_coeffs x →
  SHCoeffs_spectrum x convention "per_lm" base
  = imap (λ l v, v / (2 * INR l + 1))%R
      <$> SHCoeffs_spectrum x convention "per_l" base
  ∧ (∀ s, SHCoeffs_spectrum x convention "per_l" base = Ok s →
          Z.of_nat (length s) = (lmax x + 1)%Z)
  ∧ (lower convention ∈ ["power"; "energy"; "l2norm"] →
     normalization x ∈ normalizations →
     is_Ok (SHCoeffs_spectrum x convention "per_l" base)).
Proof.
  intros [HR HC] (n & Hn & Hl & Hm & Hs).
  assert (length (SHPowerSpectrum (as_float (coeffs x))) = n) as HlenR.
  { rewrite HR. rewrite (shape3_has_shape (2, n, n)%nat); [done| |simpl; lia..].
    by apply as_float_shape. }
  assert (length (SHPowerSpectrumC (as_complex (coeffs x))) = n) as HlenC.
  { rewrite HC. rewrite (shape3_has_shape (2, n, n)%nat); [done| |simpl; lia..].
    by apply as_complex_shape. }
  unfold SHCoeffs_spectrum, SHRealCoeffs__spectrum, SHComplexCoeffs__spectrum.
  destruct (cls x).
  - destruct (subclass_spectrum_per_lm (λ a, SHPowerSpectrum (as_float a))
                x n convention base Hl HlenR) as [E L].
    split; [exact E|]. split.
    + intros s Hs'. rewrite (L s Hs'). lia.
    + intros Hc Hnorm. by apply (subclass_spectrum_per_l_Ok _ _ n).
  - destruct (subclass_spectrum_per_lm (λ a, SHPowerSpectrumC (as_complex a))
                x n convention base Hl HlenC) as [E L].
    split; [exact E|]. split.
    + intros s Hs'. rewrite (L s Hs'). lia.
    + intros Hc Hnorm. by apply (subclass_spectrum_per_l_Ok _ _ n).
Qed.

Lemma C4_per_lm_is_per_l_over_2l_plus_1_witness :
  SHCoeffs_spectrum (H := spec_spectrum_backend) example_ortho "energy" "per_lm" 10
  = imap (λ l v, v / (2 * INR l + 1))%R
      <$> SHCoeffs_spectrum (H := spec_spectrum_backend) example_ortho
            "energy" "per_l" 10
  ∧ (∀ s, SHCoeffs_spectrum (H := spec_spectrum_backend) example_ortho
            "energy" "per_l" 10 = Ok s →
          Z.of_nat (length s) = (lmax example_ortho + 1)%Z)
  ∧ (lower "energy" ∈ ["power"; "energy"; "l2norm"] →
     normalization example_ortho ∈ normalizations →
     is_Ok (SHCoeffs_spectrum (H := spec_spectrum_backend) example_ortho
              "energy" "per_l" 10)).
Proof.
  apply (C4_per_lm_is_per_l_over_2l_plus_1 (H := spec_spectrum_backend)
           example_ortho "energy" 10).
  - exact spec_spectrum_lengths.
  - exists 2%nat. split; [lia|]. repeat split.
Defined.

(** ** Rotation *)

Lemma call_from_array_kind a :
  call_from_array a [("kind", PyStr "real")] = Raise TypeError.
Proof. reflexivity. Qed.

Lemma to_array_4pi_Ok x :
  wf_coeffs x → is_Ok (SHCoeffs_to_array x (Some "4pi") (Some 1%Z) None).
Proof.
  intros (n & Hn & Hl & Hm & Hs).
  rewrite (to_array_eq x n); simpl; try done; try lia. by eexists.
Qed.

(** C5. Rotation by (0, 0, 0) does not return the coefficients of a real
    coefficient set that is not 4pi-normalized or whose csphase is not 1:
    for every such coefficient set of the data model, every backend and
    all angles, in particular (0, 0, 0), [rotate] raises TypeError, because
    [SHRealCoeffs._rotate] converts the rotated coefficients back with
    [SHCoeffs.from_array(coeffs, kind='real')] and [from_array] has no
    parameter [kind]. *)
Theorem C5_rotate_real_raises_for_other_conventions `{RotationBackend}
    `{GridBackend} (x : SHCoeffs) (alpha beta gamma : R) (degrees : bool)
    (dj_matrix : option dj_matrix_t) :
  cls x = SHRealCoeffs → wf_coeffs x →
  normalization x ≠ "4pi" ∨ csphase x ≠ 1%Z →
  SHCoeffs_rotate x alpha beta gamma degrees dj_matrix = Raise TypeError.
Proof.
  intros Hcls Hwf Hconv. unfold SHCoeffs_rotate. rewrite Hcls.
  unfold SHRealCoeffs__rotate.
  destruct (to_array_4pi_Ok x Hwf) as [a ->]. rewrite bind_Ok.
  assert (negb (String.eqb (normalization x) "4pi") || negb (csphase x =? 1)%Z
          = true) as ->.
  { destruct Hconv as [Hn|Hc].
    - apply String.eqb_neq in Hn. by rewrite Hn.
    - apply Z.eqb_neq in Hc. rewrite Hc. by rewrite orb_true_r. }
  by rewrite call_from_array_kind.
Qed.

Lemma C5_rotate_real_raises_for_other_conventions_witness :
  SHCoeffs_rotate (H := spec_rotation_backend) (H0 := spec_grid_backend)
                  example_ortho 0 0 0 true None
  = Raise TypeError.
Proof.
  apply (C5_rotate_real_raises_for_other_conventions
           (H := spec_rotation_backend) (H0 := spec_grid_backend)
           example_ortho 0 0 0 true None).
  - reflexivity.
  - exists 2%nat. split; [lia|]. repeat split.
  - left. discriminate.
Defined.

(** Where the conventions are the default ones, rotation of a real
    coefficient set by (0, 0, 0) does return the coefficients, if the
    backend rotates by no angle there. *)
Lemma rotate_zero_real_default `{RotationBackend} `{GridBackend} x a degrees dj :
  cls x = SHRealCoeffs → coeffs x = FloatArr a → wf_coeffs x →
  normalization x = "4pi" → csphase x = 1%Z →
  (∀ c dj, SHRotateRealCoef c (0, 0, 0)%R dj = c) →
  ∃ y, SHCoeffs_rotate x 0 0 0 degrees dj = Ok y ∧ coeffs y = coeffs x.
Proof.
  intros Hcls Ha (n & Hn & Hl & Hm & Hs) Hnorm Hcs Hrot.
  unfold SHCoeffs_rotate. rewrite Hcls. unfold SHRealCoeffs__rotate.
  rewrite (to_array_eq x n); simpl; try done; try lia.
  rewrite Hl, (converted_full x n) by done.
  rewrite (arr_map_id (2, n, n)%nat); [|done|].
  2:{ intros. unfold convert_entry. rewrite Hnorm, Hcs. reflexivity. }
  rewrite Hnorm, Hcs. simpl. rewrite Ha in *. simpl.
  assert ((if degrees then (0 * (PI / 180), 0 * (PI / 180), 0 * (PI / 180))
           else (0, 0, 0)) = (0, 0, 0))%R as ->.
  { destruct degrees; [|done]. by rewrite Rmult_0_l. }
  rewrite Hrot. unfold call_from_array. simpl.
  rewrite from_array_eq by done.
  rewrite (subclass_init_eq _ _ _ _ _ n) by done. by eexists.
Qed.

(** ** Grids *)

Lemma DHGrid_init_Ok c array copy :
  DH_shape (a2_shape array).1 (a2_shape array).2 →
  ∃ g, DHGrid_init c array copy = Ok g
       ∧ g_lmax g = (Z.of_nat (a2_shape array).1 / 2 - 1)%Z
       ∧ g_nlat g = (a2_shape array).1 ∧ g_nlon g = (a2_shape array).2
       ∧ g_cls g = c.
Proof.
  unfold DHGrid_init, DH_shape. destruct (a2_shape array) as [nlat nlon].
  cbn [fst snd]. intros [Heven Hlon]. rewrite Heven. cbn [Nat.eqb negb].
  destruct (Nat.eqb_spec nlon (2 * nlat)); [eexists; repeat split|].
  destruct (Nat.eqb_spec nlat nlon); [eexists; repeat split|]. lia.
Qed.

Lemma DHGrid_init_Raise c array copy :
  ¬ DH_shape (a2_shape array).1 (a2_shape array).2 →
  DHGrid_init c array copy = Raise ValueError.
Proof.
  unfold DHGrid_init, DH_shape. destruct (a2_shape array) as [nlat nlon].
  cbn [fst snd]. intros Hshape.
  destruct (Nat.eqb_spec (nlat mod 2) 0); [|done]. cbn [negb].
  destruct (Nat.eqb_spec nlon (2 * nlat)); [tauto|].
  destruct (Nat.eqb_spec nlat nlon); [|done]. subst. tauto.
Qed.

Lemma GLQGrid_init_Ok `{GridBackend} c array zw copy :
  GLQ_shape (a2_shape array).1 (a2_shape array).2 →
  ∃ g, GLQGrid_init c array zw copy = Ok g
       ∧ g_lmax g = (Z.of_nat (a2_shape array).1 - 1)%Z
       ∧ g_nlat g = (a2_shape array).1 ∧ g_nlon g = (a2_shape array).2
       ∧ g_cls g = c.
Proof.
  unfold GLQGrid_init, GLQ_shape. destruct (a2_shape array) as [nlat nlon].
  cbn [fst snd]. intros Hshape.
  destruct (Z.eqb_spec (Z.of_nat nlat) (Z.of_nat nlat - 1 + 1)); [|lia].
  destruct (Z.eqb_spec (Z.of_nat nlon) (2 * (Z.of_nat nlat - 1) + 1)); [|lia].
  eexists; repeat split.
Qed.

Lemma GLQGrid_init_Raise `{GridBackend} c array zw copy :
  ¬ GLQ_shape (a2_shape array).1 (a2_shape array).2 →
  GLQGrid_init c array zw copy = Raise ValueError.
Proof.
  unfold GLQGrid_init, GLQ_shape. destruct (a2_shape array) as [nlat nlon].
  cbn [fst snd]. intros Hshape.
  destruct (Z.eqb_spec (Z.of_nat nlat) (Z.of_nat nlat - 1 + 1)); [|lia].
  destruct (Z.eqb_spec (Z.of_nat nlon) (2 * (Z.of_nat nlat - 1) + 1)); [lia|].
  done.
Qed.

Lemma SHGrid_from_array_DH `{GridBackend} array copy :
  SHGrid_from_array array "DH" copy
  = Some <$> DHGrid_init (DH_class (a2_data array)) array copy.
Proof. unfold SHGrid_from_array. by destruct (a2_data array). Qed.

Lemma SHGrid_from_array_GLQ `{GridBackend} array copy :
  SHGrid_from_array array "GLQ" copy
  = Some <$> GLQGrid_init (GLQ_class (a2_data array)) array None copy.
Proof. unfold SHGrid_from_array. by destruct (a2_data array). Qed.

(** C6. Construction of a grid from an array, by the four constructors
    and by [SHGrid.from_array] with grid 'DH' or 'GLQ': a DH grid is built
    exactly when [nlat] is even and [nlon] is [nlat] or [2*nlat], and then
    [lmax = nlat/2 - 1]; a GLQ grid is built exactly when
    [nlon = 2*nlat - 1], and then [lmax = nlat - 1]; every other shape
    raises ValueError.  So a (4, 4) DH grid has [lmax = 1], a (3, 5) GLQ
    grid has [lmax = 2], and a (3, 4) GLQ grid raises ValueError. *)
Theorem C6_grid_shape_invariants `{GridBackend} :
  (∀ array copy,
     let nlat := (a2_shape array).1 in
     let nlon := (a2_shape array).2 in
     (DH_shape nlat nlon →
      ∃ g, SHGrid_from_array array "DH" copy = Ok (Some g)
           ∧ DHGrid_init (g_cls g) array copy = Ok g
           ∧ g_grid g = "DH"
           ∧ g_lmax g = (Z.of_nat nlat / 2 - 1)%Z
           ∧ (2 * (g_lmax g + 1) = Z.of_nat nlat)%Z)
     ∧ (¬ DH_shape nlat nlon →
        SHGrid_from_array array "DH" copy = Raise ValueError
        ∧ ∀ c, DHGrid_init c array copy = Raise ValueError)
     ∧ (GLQ_shape nlat nlon →
        ∃ g, SHGrid_from_array array "GLQ" copy = Ok (Some g)
             ∧ GLQGrid_init (g_cls g) array None copy = Ok g
             ∧ g_grid g = "GLQ"
             ∧ g_lmax g = (Z.of_nat nlat - 1)%Z)
     ∧ (¬ GLQ_shape nlat nlon →
        SHGrid_from_array array "GLQ" copy = Raise ValueError
        ∧ ∀ c zw, GLQGrid_init c array zw copy = Raise ValueError))
  ∧ (∀ data copy, ∃ g,
       SHGrid_from_array (mkArray2 (4, 4)%nat data) "DH" copy = Ok (Some g)
       ∧ g_lmax g = 1%Z)
  ∧ (∀ data copy, ∃ g,
       SHGrid_from_array (mkArray2 (3, 5)%nat data) "GLQ" copy = Ok (Some g)
       ∧ g_lmax g = 2%Z)
  ∧ (∀ data copy,
       SHGrid_from_array (mkArray2 (3, 4)%nat data) "GLQ" copy
       = Raise ValueError).
Proof.
  assert (∀ array copy,
     let nlat := (a2_shape array).1 in
     let nlon := (a2_shape array).2 in
     (DH_shape nlat nlon →
      ∃ g, SHGrid_from_array array "DH" copy = Ok (Some g)
           ∧ DHGrid_init (g_cls g) array copy = Ok g
           ∧ g_grid g = "DH"
           ∧ g_lmax g = (Z.of_nat nlat / 2 - 1)%Z
           ∧ (2 * (g_lmax g + 1) = Z.of_nat nlat)%Z)
     ∧ (¬ DH_shape nlat nlon →
        SHGrid_from_array array "DH" copy = Raise ValueError
        ∧ ∀ c, DHGrid_init c array copy = Raise ValueError)
     ∧ (GLQ_shape nlat nlon →
        ∃ g, SHGrid_from_array array "GLQ" copy = Ok (Some g)
             ∧ GLQGrid_init (g_cls g) array None copy = Ok g
             ∧ g_grid g = "GLQ"
             ∧ g_lmax g = (Z.of_nat nlat - 1)%Z)
     ∧ (¬ GLQ_shape nlat nlon →
        SHGrid_from_array array "GLQ" copy = Raise ValueError
        ∧ ∀ c zw, GLQGrid_init c array zw copy = Raise ValueError)) as Hgen.
  { intros array copy nlat nlon. split; [|split; [|split]].
    - intros Hs.
      destruct (DHGrid_init_Ok (DH_class (a2_data array)) array copy Hs)
        as (g & Hg & Hl & _ & _ & Hc).
      exists g. rewrite SHGrid_from_array_DH, Hg, Hc. simpl.
      split; [done|]. split; [done|]. split.
      { unfold g_grid. rewrite Hc. by destruct (a2_data array). }
      split; [done|]. rewrite Hl. destruct Hs as [Heven _]. fold nlat in Heven |- *.
      pose proof (Nat2Z.inj_mod nlat 2) as Hz. rewrite Heven in Hz.
      change (Z.of_nat 2) with 2%Z in Hz.
      pose proof (Z.div_mod (Z.of_nat nlat) 2 ltac:(lia)). lia.
    - intros Hs. rewrite SHGrid_from_array_DH.
      split; [by rewrite DHGrid_init_Raise|].
      intros c. by apply DHGrid_init_Raise.
    - intros Hs.
      destruct (GLQGrid_init_Ok (GLQ_class (a2_data array)) array None copy Hs)
        as (g & Hg & Hl & _ & _ & Hc).
      exists g. rewrite SHGrid_from_array_GLQ, Hg, Hc. simpl.
      split; [done|]. split; [done|]. split; [|done].
      unfold g_grid. rewrite Hc. by destruct (a2_data array).
    - intros Hs. rewrite SHGrid_from_array_GLQ.
      split; [by rewrite GLQGrid_init_Raise|].
      intros c zw. by apply GLQGrid_init_Raise. }
  split; [exact Hgen|]. split; [|split].
  - intros data copy.
    destruct (Hgen (mkArray2 (4, 4)%nat data) copy) as (H1 & _).
    destruct H1 as (g & Hg & _ & _ & Hl & _).
    { split; [reflexivity|]. left. reflexivity. }
    exists g. split; [done|]. rewrite Hl. reflexivity.
  - intros data copy.
    destruct (Hgen (mkArray2 (3, 5)%nat data) copy) as (_ & _ & H3 & _).
    destruct H3 as (g & Hg & _ & _ & Hl).
    { reflexivity. }
    exists g. split; [done|]. rewrite Hl. reflexivity.
  - intros data copy.
    destruct (Hgen (mkArray2 (3, 4)%nat data) copy) as (_ & _ & _ & H4).
    apply H4. unfold GLQ_shape. simpl. lia.
Qed.

(** ** [set_coeffs] *)

Lemma arr_get_write_item a i0 l0 m0 v i l m :
  arr_get (write_item a i0 l0 m0 v) i l m
  = (λ z, if (i =? i0)%nat && (l =? l0)%nat && (m =? m0)%nat
          then stored_in a v else z) <$> arr_get a i l m.
Proof.
  destruct a as [x|x]; simpl; unfold assign_where; rewrite lookup3_imap3;
    destruct (lookup3 x i l m); simpl; [|done| |done];
    by destruct (_ && _).
Qed.

Lemma write_item_shape s a i l m v :
  arr_has_shape s (write_item a i l m v) = arr_has_shape s a.
Proof. destruct a; simpl; apply has_shape_imap3. Qed.

Lemma stored_in_write_item a i l m v w :
  stored_in (write_item a i l m v) w = stored_in a w.
Proof. by destruct a. Qed.

Lemma write_all_shape s a ws :
  arr_has_shape s (write_all a ws) = arr_has_shape s a.
Proof.
  revert a. induction ws as [|w ws IH]; intros a; [done|].
  simpl. by rewrite IH, write_item_shape.
Qed.

Lemma stored_in_write_all a ws w :
  stored_in (write_all a ws) w = stored_in a w.
Proof.
  revert a. induction ws as [|w' ws IH]; intros a; [done|].
  simpl. by rewrite IH, stored_in_write_item.
Qed.

(** An entry that no write targets keeps its value. *)
Lemma write_all_untouched a ws i l m :
  (∀ w, w ∈ ws → w.1 ≠ (i, l, m)) →
  arr_get (write_all a ws) i l m = arr_get a i l m.
Proof.
  revert a. induction ws as [|w ws IH]; intros a H; [done|].
  simpl. rewrite IH by (intros w' Hw'; apply H; by right).
  rewrite arr_get_write_item.
  destruct w as [[[i0 l0] m0] v]. simpl.
  destruct (Nat.eqb_spec i i0), (Nat.eqb_spec l l0), (Nat.eqb_spec m m0);
    simpl; try by destruct (arr_get a i l m).
  subst. exfalso. by apply (H (i0, l0, m0, v)); [left|].
Qed.

(** An entry holds the value of the last write that targets it. *)
Lemma write_all_last s a ws1 w ws2 :
  arr_has_shape s a = true →
  (w.1.1.1 < s.1.1)%nat → (w.1.1.2 < s.1.2)%nat → (w.1.2 < s.2)%nat →
  (∀ w', w' ∈ ws2 → w'.1 ≠ w.1) →
  arr_get (write_all a (ws1 ++ w :: ws2)) w.1.1.1 w.1.1.2 w.1.2
  = Some (stored_in a w.2).
Proof.
  intros Ha Hi Hl Hm H. rewrite foldl_app. simpl.
  destruct w as [[[i0 l0] m0] v]. simpl in *.
  rewrite write_all_untouched by done.
  rewrite arr_get_write_item. rewrite !Nat.eqb_refl. simpl.
  destruct (arr_get_is_Some s (write_all a ws1) i0 l0 m0) as [z ->];
    [by rewrite write_all_shape|done..|].
  simpl. by rewrite stored_in_write_all.
Qed.

Lemma mapM_res_Ok {A B} (f : A → res B) (g : A → B) xs :
  (∀ x, x ∈ xs → f x = Ok (g x)) → mapM f xs = Ok (g <$> xs).
Proof.
  induction xs as [|x xs IH]; intros H; [done|].
  simpl. rewrite (H x) by left. simpl.
  rewrite IH by (intros y Hy; apply H; by right). done.
Qed.

Lemma py_index_in_range n i :
  (0 <= i < Z.of_nat n)%Z → py_index n i = Some (Z.to_nat i).
Proof.
  intros H. unfold py_index.
  destruct (Z.leb_spec 0 i), (Z.ltb_spec i (Z.of_nat n)); try lia. done.
Qed.

Lemma al_get_Vector {A} (l : list A) j :
  (j < length l)%nat → al_get (Vector l) j = l !! j.
Proof.
  intros Hj. destruct l as [|a [|b l]]; simpl in *; [lia| |done].
  by replace j with 0%nat by lia.
Qed.

Lemma resolve_writes_vectors n vs ls ms :
  vs ≠ [] → length ls = length vs → length ms = length vs →
  (∀ j l m, ls !! j = Some l → ms !! j = Some m →
            (0 <= l < Z.of_nat n)%Z ∧ (Z.abs m < Z.of_nat n)%Z) →
  resolve_writes (2, n, n)%nat (Vector vs) (Vector ls) (Vector ms)
  = Ok (writes_of vs ls ms).
Proof.
  intros Hvs Hls Hms Hrange. unfold resolve_writes.
  assert (float_index (Vector ls) || float_index (Vector ms) = false) as ->.
  { destruct vs; [done|]. by destruct ls, ms. }
  cbn [al_shape broadcast].
  rewrite Hls, Hms, Nat.eqb_refl.
  assert (assignable (Some (length vs)) (Some (length vs)) = true) as ->.
  { unfold assignable. destruct (length vs) as [|[|k]]; [|done|];
      by rewrite Nat.eqb_refl. }
  cbn [negb default fst snd]. apply mapM_res_Ok. intros j Hj. apply elem_of_seq in Hj.
  rewrite !al_get_Vector by lia.
  destruct (lookup_lt_is_Some_2 vs j) as [v Hv]; [lia|].
  destruct (lookup_lt_is_Some_2 ls j) as [l Hl]; [lia|].
  destruct (lookup_lt_is_Some_2 ms j) as [m Hm]; [lia|].
  rewrite Hv, Hl, Hm. destruct (Hrange j l m Hl Hm) as [Hl' Hm'].
  rewrite (nth_lookup_Some _ _ _ _ Hv), (nth_lookup_Some _ _ _ _ Hl),
    (nth_lookup_Some _ _ _ _ Hm).
  rewrite (py_index_in_range n l) by done.
  rewrite (py_index_in_range n (Z.abs m)) by lia.
  unfold target. destruct (Z.ltb_spec m 0); reflexivity.
Qed.

Lemma elem_of_writes_of vs ls ms w :
  length ls = length vs → length ms = length vs →
  w ∈ writes_of vs ls ms →
  ∃ j v l m, vs !! j = Some v ∧ ls !! j = Some l ∧ ms !! j = Some m
             ∧ w = (target l m, v).
Proof.
  intros Hls Hms. unfold writes_of.
  intros (j & -> & Hj)%list_elem_of_fmap. apply elem_of_seq in Hj.
  destruct (lookup_lt_is_Some_2 vs j) as [v Hv]; [lia|].
  destruct (lookup_lt_is_Some_2 ls j) as [l Hl]; [lia|].
  destruct (lookup_lt_is_Some_2 ms j) as [m Hm]; [lia|].
  exists j, v, l, m.
  by rewrite (nth_lookup_Some _ _ _ _ Hv), (nth_lookup_Some _ _ _ _ Hl),
    (nth_lookup_Some _ _ _ _ Hm).
Qed.

Lemma writes_of_split vs ls ms j v l m :
  length ls = length vs → length ms = length vs →
  vs !! j = Some v → ls !! j = Some l → ms !! j = Some m →
  ∃ ws1 ws2, writes_of vs ls ms = ws1 ++ (target l m, v) :: ws2
    ∧ ∀ w, w ∈ ws2 →
        ∃ j' v' l' m', (j < j')%nat ∧ vs !! j' = Some v' ∧ ls !! j' = Some l'
                       ∧ ms !! j' = Some m' ∧ w = (target l' m', v').
Proof.
  intros Hls Hms Hv Hl Hm. pose proof (lookup_lt_Some _ _ _ Hv) as Hj.
  set (f := λ j, (target (nth j ls 0%Z) (nth j ms 0%Z), nth j vs (PyFloat 0))).
  exists (f <$> seq 0 j), (f <$> seq (S j) (length vs - S j)). split.
  - unfold writes_of. fold f.
    replace (length vs) with (j + S (length vs - S j))%nat at 1 by lia.
    rewrite seq_app, fmap_app. simpl. f_equal. f_equal.
    unfold f. by rewrite (nth_lookup_Some _ _ _ _ Hv),
      (nth_lookup_Some _ _ _ _ Hl), (nth_lookup_Some _ _ _ _ Hm).
  - intros w (j' & -> & Hj')%list_elem_of_fmap. apply elem_of_seq in Hj'.
    destruct (lookup_lt_is_Some_2 vs j') as [v' Hv']; [lia|].
    destruct (lookup_lt_is_Some_2 ls j') as [l' Hl']; [lia|].
    destruct (lookup_lt_is_Some_2 ms j') as [m' Hm']; [lia|].
    exists j', v', l', m'. unfold f.
    rewrite (nth_lookup_Some _ _ _ _ Hv'), (nth_lookup_Some _ _ _ _ Hl'),
      (nth_lookup_Some _ _ _ _ Hm').
    repeat split; try done. lia.
Qed.

(** A call with three numbers whose value converts to the dtype of the
    array is the call with three lists of one element. *)
Lemma set_coeffs_scalars x v l m :
  iscomplexobj (coeffs x) = true ∨ (∃ r, v = PyFloat r) →
  SHCoeffs_set_coeffs x (Scalar v) (Scalar l) (Scalar m)
  = SHCoeffs_set_coeffs x (Vector [v]) (Vector [l]) (Vector [m]).
Proof.
  intros Hv. unfold SHCoeffs_set_coeffs, setitem_integer, resolve_writes.
  cbn [float_index orb al_shape broadcast Nat.eqb assignable negb default
       seq mapM al_get].
  destruct (py_index _ (if (m <? 0)%Z then 1%Z else 0%Z)) as [i'|]; [|done].
  destruct (py_index _ l) as [l'|]; [|done].
  destruct (py_index _ (Z.abs m)) as [m'|]; [|done].
  destruct (coeffs x) as [a|a] eqn:Ha; simpl.
  - destruct Hv as [Hv|[r ->]]; [done|]. done.
  - by destruct v.
Qed.

(** C8. [set_coeffs] on the instance a reference names, with non-empty
    parallel lists of values, degrees [0 <= l <= lmax] and signed orders
    [|m| <= lmax]: the call succeeds and replaces the array of that
    instance in place, every other attribute and every other instance
    staying as it was; an entry no pair [(l, m)] targets keeps its value;
    the entry at plane 0 (order >= 0) or plane 1 (order < 0), degree [l],
    order [|m|] holds the value of the last write that targets it, stored
    at the dtype of the array.  A call with three numbers writes the one
    entry at that index and leaves the others, when the value is real or
    the array complex; a complex number written by three numbers into a
    real array is a TypeError, where the lists of one element store its
    real part.  An empty list of degrees or of orders is an IndexError,
    and an error leaves the store as it was.  On the zero-filled real set
    of [lmax = 2], [set_coeffs(10.0, 1, 1)] followed by [to_array()] gives
    10 at (0, 1, 1) and zero elsewhere. *)
Theorem C8_set_coeffs_writes_in_place
    (σ : store) (self : ref) (x : SHCoeffs) (n : nat)
    (vs : list pyscalar) (ls ms : list Z) :
  σ !! self = Some x →
  arr_has_shape (2, n, n)%nat (coeffs x) = true → (0 < n)%nat →
  vs ≠ [] → length ls = length vs → length ms = length vs →
  (∀ j l m, ls !! j = Some l → ms !! j = Some m →
            (0 <= l < Z.of_nat n)%Z ∧ (Z.abs m < Z.of_nat n)%Z) →
  (∃ x',
     obj_set_coeffs self (Vector vs) (Vector ls) (Vector ms) σ
     = (Ok (), <[self := x']> σ)
     ∧ SHCoeffs_set_coeffs x (Vector vs) (Vector ls) (Vector ms) = Ok x'
     ∧ (cls x', mask x', lmax x', normalization x', csphase x')
       = (cls x, mask x, lmax x, normalization x, csphase x)
     ∧ arr_has_shape (2, n, n)%nat (coeffs x') = true
     ∧ dtype_class (coeffs x') = dtype_class (coeffs x)
     ∧ (∀ r, r ≠ self → (<[self := x']> σ) !! r = σ !! r)
     ∧ (∀ i l m,
          (∀ j lj mj, ls !! j = Some lj → ms !! j = Some mj →
                      target lj mj ≠ (i, l, m)) →
          arr_get (coeffs x') i l m = arr_get (coeffs x) i l m)
     ∧ (∀ j v l m,
          vs !! j = Some v → ls !! j = Some l → ms !! j = Some m →
          (∀ j' l' m', (j < j')%nat → ls !! j' = Some l' → ms !! j' = Some m' →
                       target l' m' ≠ target l m) →
          arr_get (coeffs x') (target l m).1.1 (target l m).1.2 (target l m).2
          = Some (stored_in (coeffs x) v)))
  ∧ (∀ v l m, (0 <= l < Z.of_nat n)%Z → (Z.abs m < Z.of_nat n)%Z →
       (iscomplexobj (coeffs x) = true ∨ (∃ r, v = PyFloat r) →
        ∃ x', obj_set_coeffs self (Scalar v) (Scalar l) (Scalar m) σ
              = (Ok (), <[self := x']> σ)
              ∧ SHCoeffs_set_coeffs x (Vector [v]) (Vector [l]) (Vector [m])
                = Ok x'
              ∧ (∀ i' l' m',
                   arr_get (coeffs x') i' l' m'
                   = (λ z, if bool_decide ((i', l', m') = target l m)
                           then stored_in (coeffs x) v else z)
                       <$> arr_get (coeffs x) i' l' m'))
       ∧ (iscomplexobj (coeffs x) = false → ∀ z, v = PyComplex z →
          obj_set_coeffs self (Scalar v) (Scalar l) (Scalar m) σ
          = (Raise TypeError, σ)
          ∧ ∃ x', SHCoeffs_set_coeffs x (Vector [v]) (Vector [l]) (Vector [m])
                  = Ok x'
                  ∧ arr_get (coeffs x') (target l m).1.1 (target l m).1.2
                            (target l m).2
                    = Some (RtoC (Cre z))))
  ∧ (∀ values ls' ms', ls' = Vector [] ∨ ms' = Vector [] →
       obj_set_coeffs self values ls' ms' σ = (Raise IndexError, σ))
  ∧ (∃ z z',
       SHCoeffs_from_zeros 2 "real" "4pi" 1 = Ok (Some z)
       ∧ SHCoeffs_set_coeffs z (Scalar (PyFloat 10)) (Scalar 1%Z) (Scalar 1%Z)
         = Ok z'
       ∧ SHCoeffs_to_array z' None None None
         = Ok (FloatArr [[[0; 0; 0]; [0; 10; 0]; [0; 0; 0]];
                         [[0; 0; 0]; [0; 0; 0]; [0; 0; 0]]]%R)).
Proof.
  intros Hx Hshape Hn Hvs Hls Hms Hrange.
  pose proof (arr_shape_has_shape (2, n, n)%nat _ Hshape) as Hsh.
  split; [|split; [|split]].
  - pose proof (resolve_writes_vectors n vs ls ms Hvs Hls Hms Hrange) as Hw.
    unfold obj_set_coeffs, SHCoeffs_set_coeffs. rewrite Hx.
    rewrite Hsh by (simpl; lia).
    rewrite Hw, !bind_Ok. eexists. split; [reflexivity|]. split; [reflexivity|].
    cbn [cls mask lmax normalization csphase coeffs].
    split; [reflexivity|]. split; [by rewrite write_all_shape|].
    split.
    { generalize (writes_of vs ls ms). intros ws. revert Hshape. clear.
      generalize (coeffs x). induction ws as [|w ws IH]; intros a Ha; [done|].
      simpl. rewrite IH; [by destruct a|by rewrite write_item_shape]. }
    split; [intros r Hr; by apply list_lookup_insert_ne|]. split.
    + intros i l m Hfree. apply write_all_untouched.
      intros w (j & v & lj & mj & _ & Hl & Hm & ->)%elem_of_writes_of; [|done..].
      simpl. by apply (Hfree j).
    + intros j v l m Hv Hl Hm Hlast.
      destruct (writes_of_split vs ls ms j v l m Hls Hms Hv Hl Hm)
        as (ws1 & ws2 & -> & Hws2).
      destruct (Hrange j l m Hl Hm) as [Hl' Hm'].
      apply (write_all_last (2, n, n)%nat (coeffs x) ws1 (target l m, v) ws2).
      * done.
      * unfold target. simpl. destruct (m <? 0)%Z; lia.
      * unfold target. simpl. lia.
      * unfold target. simpl. lia.
      * intros w' (j' & v' & l' & m' & Hj' & _ & Hl2 & Hm2 & ->)%Hws2.
        simpl. by apply (Hlast j').
  - intros v l m Hl Hm.
    assert (resolve_writes (2, n, n)%nat (Vector [v]) (Vector [l]) (Vector [m])
            = Ok [(target l m, v)]) as Hw.
    { rewrite (resolve_writes_vectors n [v] [l] [m]); [done|done|done|done|].
      intros [|j] l0 m0 [= <-] [= <-]; done. }
    assert (SHCoeffs_set_coeffs x (Vector [v]) (Vector [l]) (Vector [m])
            = Ok {| cls := cls x;
                    coeffs := write_item (coeffs x) (target l m).1.1
                                (target l m).1.2 (target l m).2 v;
                    mask := mask x; lmax := lmax x;
                    normalization := normalization x; csphase := csphase x |})
      as Hlist.
    { unfold SHCoeffs_set_coeffs. rewrite Hsh by (simpl; lia).
      by rewrite Hw, !bind_Ok. }
    assert (setitem_integer (coeffs x) (if (m <? 0)%Z then 1%Z else 0%Z) l
              (Z.abs m) (Scalar v)
            = match coeffs x, v with
              | FloatArr _, PyComplex _ => Raise TypeError
              | _, _ => Ok (write_item (coeffs x) (target l m).1.1
                              (target l m).1.2 (target l m).2 v)
              end) as Hint.
    { unfold setitem_integer. rewrite Hsh by (simpl; lia). cbn [fst snd].
      rewrite (py_index_in_range n l), (py_index_in_range n (Z.abs m)) by lia.
      unfold target. cbn [fst snd].
      destruct (m <? 0)%Z; simpl; by destruct (coeffs x), v. }
    split.
    + intros Hv. eexists. split; [|split; [exact Hlist|]].
      * unfold obj_set_coeffs. rewrite Hx.
        rewrite set_coeffs_scalars, Hlist by done. reflexivity.
      * intros i' l' m'. cbn [coeffs]. rewrite arr_get_write_item.
        destruct (arr_get (coeffs x) i' l' m') as [z|]; [|done]. simpl.
        f_equal. unfold target. cbn [fst snd].
        destruct (Nat.eqb_spec i' (if (m <? 0)%Z then 1%nat else 0%nat)),
          (Nat.eqb_spec l' (Z.to_nat l)), (Nat.eqb_spec m' (Z.to_nat (Z.abs m)));
          simpl; subst;
          first [ by rewrite bool_decide_true
                | rewrite bool_decide_false; [done|congruence] ].
    + intros Hreal z ->. split.
      * unfold obj_set_coeffs, SHCoeffs_set_coeffs. rewrite Hx, Hint.
        destruct (coeffs x); [done|discriminate Hreal].
      * eexists. split; [exact Hlist|]. cbn [coeffs].
        rewrite arr_get_write_item, !Nat.eqb_refl. cbn [andb].
        destruct (arr_get_is_Some (2, n, n)%nat (coeffs x) (target l m).1.1
                    (target l m).1.2 (target l m).2) as [z' ->];
          [done|unfold target; simpl; destruct (m <? 0)%Z; lia
          |unfold target; simpl; lia..|].
        simpl. destruct (coeffs x); [done|discriminate Hreal].
  - intros values ls' ms' Hempty. unfold obj_set_coeffs, SHCoeffs_set_coeffs.
    rewrite Hx.
    destruct Hempty as [-> | ->]; [destruct ms' as [m|[|m ms']]|
                                   destruct ls' as [l|[|l ls']]];
      unfold resolve_writes; cbn [float_index orb]; done.
  - eexists. eexists. split; [reflexivity|]. split; [reflexivity|].
    reflexivity.
Qed.

Lemma C8_set_coeffs_writes_in_place_witness :
  ∃ x',
    obj_set_coeffs 0 (Vector [PyFloat 1; PyFloat 2]) (Vector [1; 1]%Z)
      (Vector [0; -1]%Z) [example_ortho] = (Ok (), [x'])
    ∧ arr_get (coeffs x') 0 1 0 = Some (RtoC 1)
    ∧ arr_get (coeffs x') 1 1 1 = Some (RtoC 2)
    ∧ arr_get (coeffs x') 0 1 1 = Some (RtoC 3).
Proof.
  destruct (C8_set_coeffs_writes_in_place [example_ortho] 0 example_ortho 2
              [PyFloat 1; PyFloat 2] [1; 1]%Z [0; -1]%Z)
    as [(x' & Hset & _ & _ & _ & _ & _ & Hfree & Hlast) _].
  - reflexivity.
  - reflexivity.
  - lia.
  - done.
  - reflexivity.
  - reflexivity.
  - intros j l m Hl Hm. destruct j as [|[|j]]; simplify_eq/=; lia.
  - exists x'. split; [exact Hset|]. split; [|split].
    + apply (Hlast 0%nat (PyFloat 1) 1%Z 0%Z); [reflexivity..|].
      intros j' l' m' Hj' Hl' Hm'.
      destruct j' as [|[|j']]; simplify_eq/=; [lia|done].
    + apply (Hlast 1%nat (PyFloat 2) 1%Z (-1)%Z); [reflexivity..|].
      intros j' l' m' Hj' Hl' Hm'.
      destruct j' as [|[|j']]; simplify_eq/=; lia.
    + rewrite Hfree; [reflexivity|].
      intros j lj mj Hl Hm. destruct j as [|[|j]]; simplify_eq/=; done.
Defined.

(** ** Coupling matrices *)

Lemma py_for_invariant {A S} (Inv : S → Prop) (body : A → S → res S) xs s s' :
  (∀ x s s', Inv s → body x s = Ok s' → Inv s') →
  Inv s → py_for xs body s = Ok s' → Inv s'.
Proof.
  intros H. revert s. induction xs as [|x xs IH]; intros s Hs.
  - rewrite py_for_nil. by intros [= <-].
  - rewrite py_for_cons. intros (t & Ht & Hxs)%bind_Ok_inv.
    apply (IH t); [by apply (H x s)|done].
Qed.

Lemma set_column_length j v M M' :
  set_column j v M = Ok M' → length M' = length M.
Proof.
  unfold set_column. destruct (negb _); [done|].
  destruct (Nat.eqb_spec (length v) (length M)) as [E|_].
  - intros [= <-]. rewrite length_zip_with. lia.
  - destruct v as [|c [|??]]; [done| |done]. intros [= <-].
    by rewrite length_fmap.
Qed.

Lemma check_weights_Raise self nwin weights e :
  check_weights self nwin weights = Raise e → e = ValueError.
Proof.
  unfold check_weights. destruct weights as [w|]; [|done].
  destruct (negb _); [|done]. by intros [= <-].
Qed.

(** The rows of [tapers_power] in the call of the backend. *)
Lemma call_tapers_power_rows `{WindowBackend} `{SpectrumBackend}
    self lmax nwin weights c :
  window_rows self → (0 <= w_lwin self)%Z →
  _couplingmatrix_call self lmax nwin weights = Ok c →
  call_lmax c = lmax
  ∧ Z.of_nat (length (call_tapers_power c)) = (w_lwin self + 1)%Z.
Proof.
  unfold window_rows, _couplingmatrix_call. intros Hrows Hlwin.
  destruct (w_cls self).
  - unfold SHWindowCap__couplingmatrix_call.
    destruct (match weights with None => w_weights self | Some w => Some w end);
      intros [= <-]; simpl; unfold map2; by rewrite length_fmap.
  - unfold SHWindowMask__couplingmatrix_call.
    intros (rows & Hr & (tp & Htp & Hc)%bind_Ok_inv)%bind_Ok_inv.
    destruct (_ || _) in Hr; [done|]. injection Hr as <-.
    assert (length tp = Z.to_nat (w_lwin self + 1)) as Hlen.
    { revert Htp.
      apply (py_for_invariant (λ s, length s = Z.to_nat (w_lwin self + 1))).
      - intros i s s' Hs (a & _ & Hset)%bind_Ok_inv.
        by rewrite (set_column_length _ _ _ _ Hset).
      - by rewrite length_replicate. }
    destruct (match weights with None => w_weights self | Some w => Some w end);
      injection Hc as <-; simpl; split; try done; lia.
Qed.

Lemma couplingmatrix_same `{WindowBackend} `{SpectrumBackend}
    self lmax nwin weights :
  SHWindow_couplingmatrix self lmax nwin weights "same"
  = slice_to (lmax + 1)
      <$> SHWindow_couplingmatrix self lmax nwin weights "full".
Proof.
  unfold SHWindow_couplingmatrix.
  destruct (check_weights self nwin weights) as [[]|e]; [|done].
  rewrite !bind_Ok. cbn [String.eqb Ascii.eqb Bool.eqb].
  by destruct (_couplingmatrix self lmax nwin weights).
Qed.

Lemma couplingmatrix_valid `{WindowBackend} `{SpectrumBackend}
    self lmax nwin weights :
  SHWindow_couplingmatrix self lmax nwin weights "valid"
  = slice_to (lmax - w_lwin self + 1)
      <$> SHWindow_couplingmatrix self lmax nwin weights "full".
Proof.
  unfold SHWindow_couplingmatrix.
  destruct (check_weights self nwin weights) as [[]|e]; [|done].
  rewrite !bind_Ok. cbn [String.eqb Ascii.eqb Bool.eqb].
  by destruct (_couplingmatrix self lmax nwin weights).
Qed.

Lemma couplingmatrix_other_mode `{WindowBackend} `{SpectrumBackend}
    self lmax nwin weights mode :
  mode ≠ "full" → mode ≠ "same" → mode ≠ "valid" →
  SHWindow_couplingmatrix self lmax nwin weights mode = Raise ValueError.
Proof.
  intros Hf%String.eqb_neq Hs%String.eqb_neq Hv%String.eqb_neq.
  unfold SHWindow_couplingmatrix.
  destruct (check_weights self nwin weights) as [[]|e] eqn:Hc.
  - rewrite bind_Ok. by rewrite Hf, Hs, Hv.
  - by rewrite (check_weights_Raise _ _ _ _ Hc).
Qed.

Lemma couplingmatrix_full_rows `{WindowBackend} `{SpectrumBackend}
    self lmax nwin weights full :
  coupling_rows → window_rows self → (0 <= w_lwin self)%Z → (0 <= lmax)%Z →
  SHWindow_couplingmatrix self lmax nwin weights "full" = Ok full →
  Z.of_nat (length full) = (lmax + w_lwin self + 1)%Z.
Proof.
  intros Hlaw Hrows Hlwin Hlmax. unfold SHWindow_couplingmatrix.
  intros ([] & _ & Hfull)%bind_Ok_inv. cbn [String.eqb Ascii.eqb Bool.eqb] in Hfull.
  unfold _couplingmatrix in Hfull.
  apply fmap_Ok_inv in Hfull as (c & Hc & ->).
  destruct (call_tapers_power_rows _ _ _ _ _ Hrows Hlwin Hc) as [Hl Hr].
  unfold invoke. rewrite Hlaw by lia. lia.
Qed.

(** For the windows of a cap the call returns whenever the weights have
    the length asked for. *)
Lemma couplingmatrix_cap_Ok `{WindowBackend} `{SpectrumBackend}
    self lmax nwin weights :
  w_cls self = SHWindowCap → check_weights self nwin weights = Ok () →
  is_Ok (SHWindow_couplingmatrix self lmax nwin weights "full").
Proof.
  intros Hcls Hc. unfold SHWindow_couplingmatrix. rewrite Hc, bind_Ok.
  cbn [String.eqb Ascii.eqb Bool.eqb].
  unfold _couplingmatrix, _couplingmatrix_call. rewrite Hcls.
  unfold SHWindowCap__couplingmatrix_call.
  destruct (match weights with None => w_weights self | Some w => Some w end);
    by eexists.
Qed.

Lemma spec_coupling_rows : coupling_rows (H := spec_window_backend).
Proof.
  intros lmax tp k wt Hl. simpl. unfold spec_coupling_matrix.
  rewrite length_fmap, length_seq. lia.
Qed.

Lemma set_column_Ok j v M :
  (0 < length M)%nat → length v = length M →
  (∀ r, r ∈ M → (j < length r)%nat) →
  set_column j v M = Ok (zip_with (λ r x, <[j := x]> r) M v).
Proof.
  intros HM Hv Hr. unfold set_column, shape2.
  destruct M as [|r M]; [simpl in HM; lia|]. simpl hd. cbn [snd].
  destruct (Nat.ltb_spec j (length r)) as [_|Hj].
  - cbn [negb]. by rewrite Hv, Nat.eqb_refl.
  - specialize (Hr r ltac:(left)). lia.
Qed.

Lemma zip_with_insert_rows {A} (j k : nat) (M : list (list A)) (v : list A) r :
  (∀ r, r ∈ M → length r = k) →
  r ∈ zip_with (λ r x, <[j := x]> r) M v → length r = k.
Proof.
  intros HM (r0 & x & -> & Hr0 & _)%elem_of_zip_with.
  rewrite length_insert. by apply HM.
Qed.

(** For the windows of a mask the call returns when the weights have the
    length asked for and the spectra of the windows can be formed. *)
Lemma couplingmatrix_mask_Ok `{WindowBackend} `{SpectrumBackend}
    self lmax nwin weights :
  w_cls self = SHWindowMask → check_weights self nwin weights = Ok () →
  (0 <= w_lwin self)%Z → mask_spectra self (default (w_nwin self) nwin) →
  is_Ok (SHWindow_couplingmatrix self lmax nwin weights "full").
Proof.
  intros Hcls Hc Hlwin [Hk Hspec]. unfold SHWindow_couplingmatrix.
  rewrite Hc, bind_Ok. cbn [String.eqb Ascii.eqb Bool.eqb].
  unfold _couplingmatrix, _couplingmatrix_call. rewrite Hcls.
  unfold SHWindowMask__couplingmatrix_call.
  set (k := default (w_nwin self) nwin) in *.
  destruct (Z.ltb_spec (w_lwin self + 1) 0); [lia|].
  destruct (Z.ltb_spec k 0); [lia|]. cbn [orb]. rewrite bind_Ok.
  set (n := Z.to_nat (w_lwin self + 1)).
  set (body := λ (i : nat) tp, a ← SHWindow_to_array self (Z.of_nat i) "4pi" 1;
                               set_column i (SHPowerSpectrum a) tp).
  set (column := λ i : nat, (λ r, nth i r 0%R) <$> w_tapers self).
  set (step := λ (i : nat) (tp : list (list R)),
         zip_with (λ r x, <[i := x]> r) tp
                  (SHPowerSpectrum (SHVectorToCilm (column i)))).
  destruct (py_for_pure_in
              (λ tp, length tp = n ∧ ∀ r, r ∈ tp → length r = Z.to_nat k)
              body step (arange k) (replicate n (replicate (Z.to_nat k) 0%R)))
    as [-> _].
  - intros i tp Hi [Hlen Hrows]. apply elem_of_seq in Hi.
    assert (get_column (w_tapers self) (Z.of_nat i) = Ok (column i)) as Hcol.
    { unfold get_column. rewrite py_index_in_range by lia.
      by rewrite Nat2Z.id. }
    assert (length (SHPowerSpectrum (SHVectorToCilm (column i))) = n) as Hs.
    { pose proof (Hspec _ _ Hcol). lia. }
    assert (body i tp = Ok (step i tp)) as ->.
    { unfold body, SHWindow_to_array. simpl valid_normalization.
      simpl valid_csphase. cbn [negb]. rewrite Hcls.
      unfold SHWindowMask__to_array. rewrite Hcol. simpl.
      apply set_column_Ok; [lia|lia|].
      intros r Hr. rewrite (Hrows r Hr). lia. }
    split; [done|]. split.
    + unfold step. rewrite length_zip_with. lia.
    + intros r. by apply zip_with_insert_rows.
  - split; [by rewrite length_replicate|].
    intros r Hr%elem_of_replicate. destruct Hr as [-> _].
    by rewrite length_replicate.
  - rewrite bind_Ok.
    destruct (match weights with None => w_weights self | Some w => Some w end);
      by eexists.
Qed.

(** The reference backend forms the spectra of [example_mask], and the
    call returns. *)
Example couplingmatrix_example_mask :
  is_Ok (SHWindow_couplingmatrix (H := spec_window_backend)
           (H0 := spec_spectrum_backend) example_mask 3 None None "full").
Proof.
  apply couplingmatrix_mask_Ok; [reflexivity|reflexivity|simpl; lia|].
  split; [simpl; lia|].
  intros i column. unfold get_column.
  destruct (py_index _ i) as [j|]; [|done]. intros [= <-]. reflexivity.
Qed.

(** C7. The modes of [couplingmatrix], for a window bank with
    [0 <= lwin <= lmax] and a backend whose matrix has one row per degree
    up to [lmax + lwin]: whatever mode 'full' does, mode 'same' is its
    first [lmax + 1] rows and mode 'valid' its first [lmax - lwin + 1]
    rows (an error of 'full' is the error of both); when 'full' returns,
    the three matrices have [lmax + lwin + 1], [lmax + 1] and
    [lmax - lwin + 1] rows; every other mode raises ValueError; and
    'full' returns whenever the weights have the length asked for, for
    the windows of a cap always and for the windows of a mask when their
    spectra can be formed. *)
Theorem C7_couplingmatrix_modes `{WindowBackend} `{SpectrumBackend}
    (self : SHWindow) (lmax : Z) (nwin : option Z) (weights : option (list R)) :
  coupling_rows → window_rows self → (0 <= w_lwin self <= lmax)%Z →
  let call := SHWindow_couplingmatrix self lmax nwin weights in
  call "same" = slice_to (lmax + 1) <$> call "full"
  ∧ call "valid" = slice_to (lmax - w_lwin self + 1) <$> call "full"
  ∧ (∀ full, call "full" = Ok full →
       Z.of_nat (length full) = (lmax + w_lwin self + 1)%Z
       ∧ call "same" = Ok (take (Z.to_nat (lmax + 1)) full)
       ∧ Z.of_nat (length (take (Z.to_nat (lmax + 1)) full)) = (lmax + 1)%Z
       ∧ call "valid" = Ok (take (Z.to_nat (lmax - w_lwin self + 1)) full)
       ∧ Z.of_nat (length (take (Z.to_nat (lmax - w_lwin self + 1)) full))
         = (lmax - w_lwin self + 1)%Z)
  ∧ (∀ mode, mode ≠ "full" → mode ≠ "same" → mode ≠ "valid" →
       call mode = Raise ValueError)
  ∧ (w_cls self = SHWindowCap → check_weights self nwin weights = Ok () →
     is_Ok (call "full"))
  ∧ (w_cls self = SHWindowMask → check_weights self nwin weights = Ok () →
     mask_spectra self (default (w_nwin self) nwin) → is_Ok (call "full")).
Proof.
  intros Hlaw Hrows Hl call. subst call.
  split; [apply couplingmatrix_same|]. split; [apply couplingmatrix_valid|].
  split; [|split; [|split]].
  - intros full Hfull.
    pose proof (couplingmatrix_full_rows self lmax nwin weights full Hlaw Hrows
                  ltac:(lia) ltac:(lia) Hfull) as Hlen.
    split; [done|].
    rewrite couplingmatrix_same, couplingmatrix_valid, Hfull. simpl.
    unfold slice_to.
    destruct (Z.leb_spec 0 (lmax + 1)); [|lia].
    destruct (Z.leb_spec 0 (lmax - w_lwin self + 1)); [|lia].
    rewrite !length_take. repeat split; lia.
  - intros mode. apply couplingmatrix_other_mode.
  - apply couplingmatrix_cap_Ok.
  - intros Hcls Hc Hs. apply couplingmatrix_mask_Ok; [done..|lia|done].
Qed.

Lemma C7_couplingmatrix_modes_witness :
  ∃ full valid,
    SHWindow_couplingmatrix (H := spec_window_backend)
      (H0 := spec_spectrum_backend) example_cap 5 None None "full" = Ok full
    ∧ length full = 9%nat
    ∧ SHWindow_couplingmatrix (H := spec_window_backend)
        (H0 := spec_spectrum_backend) example_cap 5 None None "valid" = Ok valid
    ∧ valid = take 3 full ∧ length valid = 3%nat
    ∧ SHWindow_couplingmatrix (H := spec_window_backend)
        (H0 := spec_spectrum_backend) example_cap 5 None None "rows"
      = Raise ValueError.
Proof.
  destruct (C7_couplingmatrix_modes (H := spec_window_backend)
              (H0 := spec_spectrum_backend) example_cap 5 None None)
    as (_ & _ & Hfull & Hother & Hok & _).
  - exact spec_coupling_rows.
  - reflexivity.
  - simpl. lia.
  - destruct Hok as [full Hf]; [reflexivity..|].
    destruct (Hfull full Hf) as (Hlen & _ & _ & Hvalid & Hlenv).
    change (w_lwin example_cap) with 3%Z in Hlen, Hlenv, Hvalid.
    change (Z.to_nat (5 - 3 + 1)) with 3%nat in Hlenv, Hvalid.
    exists full, (take 3 full). split; [exact Hf|]. split; [lia|].
    split; [exact Hvalid|]. split; [reflexivity|].
    split; [lia|].
    apply Hother; discriminate.
Defined.

(** [couplingmatrix] is the call of the backend followed by the choice of
    rows. *)
Lemma couplingmatrix_through_call `{WindowBackend} `{SpectrumBackend}
    self lmax nwin weights mode :
  SHWindow_couplingmatrix self lmax nwin weights mode
  = (λ c, mode_rows self lmax mode (invoke c))
      <$> couplingmatrix_call self lmax nwin weights mode.
Proof.
  unfold SHWindow_couplingmatrix, couplingmatrix_call, mode_rows, _couplingmatrix.
  destruct (check_weights self nwin weights) as [[]|e]; [|done].
  rewrite !bind_Ok.
  destruct (String.eqb mode "full"), (String.eqb mode "same"),
    (String.eqb mode "valid"); cbn [orb]; try done;
    by destruct (_couplingmatrix_call self lmax nwin weights).
Qed.

Lemma _couplingmatrix_call_weights `{WindowBackend} `{SpectrumBackend}
    self lmax nwin w1 w2 :
  _couplingmatrix_call self lmax nwin (Some w1)
  = _couplingmatrix_call self lmax nwin (Some w2).
Proof. reflexivity. Qed.

Lemma _couplingmatrix_call_taper_wt `{WindowBackend} `{SpectrumBackend}
    self lmax nwin w c :
  _couplingmatrix_call self lmax nwin (Some w) = Ok c →
  call_taper_wt c = Some (w_weights self).
Proof.
  unfold _couplingmatrix_call. destruct (w_cls self).
  - by intros [= <-].
  - unfold SHWindowMask__couplingmatrix_call.
    intros (rows & _ & (tp & _ & [= <-])%bind_Ok_inv)%bind_Ok_inv. done.
Qed.

Lemma _couplingmatrix_call_fields `{WindowBackend} `{SpectrumBackend}
    self lmax nwin w c :
  _couplingmatrix_call self lmax nwin (Some w) = Ok c →
  call_lmax c = lmax ∧ call_k c = default (w_nwin self) nwin
  ∧ call_taper_wt c = Some (w_weights self).
Proof.
  unfold _couplingmatrix_call. destruct (w_cls self).
  - by intros [= <-].
  - unfold SHWindowMask__couplingmatrix_call.
    intros (rows & _ & (tp & _ & [= <-])%bind_Ok_inv)%bind_Ok_inv. done.
Qed.

(** C10. [couplingmatrix] with an explicit [weights] of the length asked
    for.  Whenever the call returns, what it returns is the rows chosen by
    the mode of [SHMTCouplingMatrix(lmax, tapers_power, k=nwin,
    taper_wt=self.weights)]: the routine receives the attribute of the
    instance (also when that is [None]) and not the array supplied.  For
    the windows of a cap the call returns for each of the three modes,
    and [tapers_power] is the square of the tapers.  So two calls that
    differ only in the array supplied return the same, for every
    backend. *)
Theorem C10_supplied_weights_not_forwarded `{WindowBackend} `{SpectrumBackend}
    (self : SHWindow) (lmax : Z) (nwin : option Z) (w1 w2 : list R)
    (mode : string) :
  check_weights self nwin (Some w1) = Ok () →
  check_weights self nwin (Some w2) = Ok () →
  (∀ r, SHWindow_couplingmatrix self lmax nwin (Some w1) mode = Ok r →
        ∃ tapers_power,
          r = mode_rows self lmax mode
                (SHMTCouplingMatrix lmax tapers_power
                   (default (w_nwin self) nwin) (Some (w_weights self))))
  ∧ (w_cls self = SHWindowCap → mode ∈ ["full"; "same"; "valid"] →
     SHWindow_couplingmatrix self lmax nwin (Some w1) mode
     = Ok (mode_rows self lmax mode
             (SHMTCouplingMatrix lmax (map2 (λ x, x * x)%R (w_tapers self))
                (default (w_nwin self) nwin) (Some (w_weights self)))))
  ∧ SHWindow_couplingmatrix self lmax nwin (Some w1) mode
    = SHWindow_couplingmatrix self lmax nwin (Some w2) mode
  ∧ (∀ c, couplingmatrix_call self lmax nwin (Some w1) mode = Ok c →
          call_taper_wt c = Some (w_weights self))
  ∧ couplingmatrix_call self lmax nwin (Some w1) mode
    = couplingmatrix_call self lmax nwin (Some w2) mode
  ∧ SHWindow_couplingmatrix self lmax nwin (Some w1) mode
    = (λ c, mode_rows self lmax mode
              (SHMTCouplingMatrix (call_lmax c) (call_tapers_power c)
                                  (call_k c) (call_taper_wt c)))
        <$> couplingmatrix_call self lmax nwin (Some w1) mode.
Proof.
  intros H1 H2.
  assert (couplingmatrix_call self lmax nwin (Some w1) mode
          = couplingmatrix_call self lmax nwin (Some w2) mode) as Hcall.
  { unfold couplingmatrix_call. rewrite H1, H2, !bind_Ok.
    by rewrite (_couplingmatrix_call_weights self lmax nwin w1 w2). }
  split; [|split; [|split; [|split; [|split; [exact Hcall|]]]]].
  - intros r. rewrite couplingmatrix_through_call.
    intros (c & Hc & ->)%fmap_Ok_inv. revert Hc.
    unfold couplingmatrix_call. rewrite H1, bind_Ok.
    destruct (_ || _); [|done].
    intros Hc. apply _couplingmatrix_call_fields in Hc as (Hl & Hk & Hwt).
    exists (call_tapers_power c). unfold invoke. by rewrite Hl, Hk, Hwt.
  - intros Hcls Hmode. rewrite couplingmatrix_through_call.
    unfold couplingmatrix_call. rewrite H1, bind_Ok.
    assert (String.eqb mode "full" || String.eqb mode "same"
            || String.eqb mode "valid" = true) as ->.
    { rewrite !elem_of_cons in Hmode.
      destruct Hmode as [->|[->|[->|Hm]]]; [done..|].
      by apply elem_of_nil in Hm. }
    unfold _couplingmatrix_call. rewrite Hcls. reflexivity.
  - by rewrite !couplingmatrix_through_call, Hcall.
  - intros c. unfold couplingmatrix_call. rewrite H1, bind_Ok.
    destruct (_ || _); [|done]. apply _couplingmatrix_call_taper_wt.
  - apply couplingmatrix_through_call.
Qed.

Lemma C10_supplied_weights_not_forwarded_witness :
  SHWindow_couplingmatrix (H := echo_window_backend)
    (H0 := spec_spectrum_backend) example_weighted 5 None
    (Some [0; 2]%R) "full"
  = Ok [[1; 1]%R]
  ∧ SHWindow_couplingmatrix (H := echo_window_backend)
      (H0 := spec_spectrum_backend) example_weighted 5 None
      (Some [2; 0]%R) "full"
    = Ok [[1; 1]%R].
Proof.
  destruct (C10_supplied_weights_not_forwarded (H := echo_window_backend)
              (H0 := spec_spectrum_backend) example_weighted 5 None
              [0; 2]%R [2; 0]%R "full" eq_refl eq_refl)
    as (_ & Hcap & Hres & _).
  rewrite <- Hres. split; (rewrite Hcap; [reflexivity|reflexivity|]);
    rewrite !elem_of_cons; by left.
Defined.

(** ** More on the factories *)

Lemma lower_ascii_idemp c : lower_ascii (lower_ascii c) = lower_ascii c.
Proof.
  unfold lower_ascii.
  destruct ((65 <=? nat_of_ascii c)%nat && (nat_of_ascii c <=? 90)%nat) eqn:E.
  - apply andb_true_iff in E as [E1%Nat.leb_le E2%Nat.leb_le].
    rewrite nat_ascii_embedding by lia.
    destruct (Nat.leb_spec (nat_of_ascii c + 32) 90); [lia|].
    by rewrite andb_false_r.
  - by rewrite E.
Qed.

Lemma lower_idemp s : lower (lower s) = lower s.
Proof. induction s as [|c s IH]; [done|]. simpl. by rewrite lower_ascii_idemp, IH. Qed.

Lemma subclass_for_None kind :
  kind ≠ "real" → kind ≠ "complex" → subclass_for kind = None.
Proof.
  intros Hr%String.eqb_neq Hc%String.eqb_neq. unfold subclass_for. simpl.
  by rewrite Hr, Hc.
Qed.

Lemma mask_spec_true i l m :
  mask_spec i l m = true ↔ (m ≤ l)%nat ∧ ¬ (i = 1%nat ∧ m = 0%nat).
Proof.
  unfold mask_spec.
  destruct (Nat.leb_spec m l), (Nat.eqb_spec i 1), (Nat.eqb_spec m 0); simpl;
    split; try done; try lia; intros [? ?]; try lia; tauto.
Qed.

(** X1. [SHCoeffs.from_array] on an array of shape [(2, n, n)] with
    [n >= 1], a known normalization in any letter case and a csphase of 1
    or -1 returns a coefficient set of the class of the dtype with
    [lmax = n - 1], the normalization in lower case, and the mask that is
    true exactly at [m <= l] except on the sine plane at order 0.  With
    [copy=True] the coefficients are those of the array with every entry
    outside the mask set to zero, so the mask invariant holds; with
    [copy=False] they are the array as it is. *)
Theorem X1_from_array_builds_the_set (a : ndarray) (n : nat) (norm : string)
    (cs : Z) (copy : bool) :
  (0 < n)%nat → arr_has_shape (2, n, n)%nat a = true →
  valid_normalization norm = true → valid_csphase cs = true →
  ∃ x, SHCoeffs_from_array a norm cs copy = Ok x
       ∧ cls x = dtype_class a ∧ lmax x = (Z.of_nat n - 1)%Z
       ∧ normalization x = lower norm ∧ csphase x = cs
       ∧ has_shape (2, n, n)%nat (mask x) = true
       ∧ (∀ i l m, lookup3 (mask x) i l m = Some true
                   ↔ (i < 2 ∧ l < n ∧ m ≤ l)%nat ∧ ¬ (i = 1%nat ∧ m = 0%nat))
       ∧ arr_has_shape (2, n, n)%nat (coeffs x) = true
       ∧ (∀ i l m, arr_get (coeffs x) i l m
                   = (λ z, if copy && negb (mask_spec i l m) then RtoC 0 else z)
                       <$> arr_get a i l m)
       ∧ (copy = false → coeffs x = a)
       ∧ (copy = true → zero_outside_mask x).
Proof.
  intros Hn Ha Hv Hc. rewrite from_array_eq by done.
  rewrite (subclass_init_eq _ _ _ _ _ n) by done.
  eexists. split; [reflexivity|]. cbn [cls lmax normalization csphase mask coeffs].
  split; [done|]. split; [done|]. split; [done|]. split; [done|].
  split; [apply has_shape_mask_array|]. split.
  { intros i l m. rewrite lookup3_mask_array.
    destruct (decide _) as [(Hi & Hl & Hm)|Hnot].
    - split.
      + intros [= H%mask_spec_true]. lia.
      + intros [H1 H2]. f_equal. apply mask_spec_true. split; [lia|done].
    - split; [done|]. intros [H1 H2]. lia. }
  split; [destruct copy; [by rewrite masked_shape|done]|]. split.
  { intros i l m. destruct copy; simpl.
    - rewrite arr_get_masked. destruct (arr_get a i l m); [|done]. simpl.
      by destruct (mask_spec i l m).
    - by destruct (arr_get a i l m). }
  split; [by intros ->|]. intros ->.
  apply (zero_outside_mask_init (dtype_class a) a (lower norm) cs).
  by apply subclass_init_eq.
Qed.

Lemma X1_from_array_builds_the_set_witness :
  ∃ x, SHCoeffs_from_array (FloatArr [[[1; 5]; [2; 3]]; [[7; 0]; [6; 4]]]%R)
         "Ortho" (-1) true = Ok x
       ∧ lmax x = 1%Z ∧ normalization x = "ortho"
       ∧ coeffs x = FloatArr [[[1; 0]; [2; 3]]; [[0; 0]; [0; 4]]]%R.
Proof.
  destruct (X1_from_array_builds_the_set
              (FloatArr [[[1; 5]; [2; 3]]; [[7; 0]; [6; 4]]]%R) 2 "Ortho" (-1) true)
    as (x & Hx & _ & Hl & Hnorm & _).
  - lia.
  - reflexivity.
  - reflexivity.
  - reflexivity.
  - exists x. split; [exact Hx|]. split; [exact Hl|]. split; [exact Hnorm|].
    cbv in Hx. injection Hx as <-. reflexivity.
Defined.

(** X2. What [SHCoeffs.from_array] rejects, whatever the array and the
    copy flag: a normalization that is not 4pi, ortho or schmidt in some
    letter case, and a csphase other than 1 and -1, are a ValueError; an
    array with no degree at all (second extent 0) is an IndexError, raised
    where the constructor sets [mask[0, 0, 0]].  The normalization is
    read without regard to letter case. *)
Theorem X2_from_array_rejects (a : ndarray) (norm : string) (cs : Z)
    (copy : bool) :
  (valid_normalization norm = false →
   SHCoeffs_from_array a norm cs copy = Raise ValueError)
  ∧ (valid_csphase cs = false →
     SHCoeffs_from_array a norm cs copy = Raise ValueError)
  ∧ (valid_normalization norm = true → valid_csphase cs = true →
     (arr_shape a).1.2 = 0%nat →
     SHCoeffs_from_array a norm cs copy = Raise IndexError)
  ∧ SHCoeffs_from_array a (lower norm) cs copy
    = SHCoeffs_from_array a norm cs copy.
Proof.
  split; [|split; [|split]].
  - intros Hv. unfold SHCoeffs_from_array. by rewrite Hv.
  - intros Hc. unfold SHCoeffs_from_array. rewrite Hc.
    by destruct (valid_normalization norm).
  - intros Hv Hc H0. rewrite from_array_eq by done. unfold subclass_init.
    rewrite H0. by rewrite make_mask_neg by lia.
  - unfold SHCoeffs_from_array, valid_normalization. by rewrite !lower_idemp.
Qed.

Lemma from_zeros_eq lmax_ kind_ norm cs :
  kind_ = "real" ∨ kind_ = "complex" →
  valid_normalization norm = true → valid_csphase cs = true →
  (0 <= lmax_ + 1)%Z →
  SHCoeffs_from_zeros lmax_ kind_ norm cs
  = Some <$> subclass_init
               (if String.eqb kind_ "real" then SHRealCoeffs else SHComplexCoeffs)
               (if String.eqb kind_ "real"
                then FloatArr (np_zeros 0%R 2 (Z.to_nat (lmax_ + 1))
                                        (Z.to_nat (lmax_ + 1)))
                else ComplexArr (np_zeros (RtoC 0) 2 (Z.to_nat (lmax_ + 1))
                                          (Z.to_nat (lmax_ + 1))))
               (lower norm) cs true.
Proof.
  intros Hk Hv Hc Hl. unfold SHCoeffs_from_zeros. rewrite Hv, Hc.
  rewrite !zeros3_eq by lia. by destruct Hk as [-> | ->].
Qed.

(** X3. [SHCoeffs.from_zeros] with kind 'real' or 'complex', a known
    normalization and a csphase of 1 or -1: for [lmax >= 0] it returns a
    coefficient set of that kind and degree whose entries are all zero;
    for [lmax = -1] it raises IndexError (the constructor writes
    [mask[0, 0, 0]] into an empty mask) and for [lmax < -1] ValueError (a
    negative extent). *)
Theorem X3_from_zeros (lmax_ : Z) (kind_ norm : string) (cs : Z) :
  kind_ = "real" ∨ kind_ = "complex" →
  valid_normalization norm = true → valid_csphase cs = true →
  ((0 <= lmax_)%Z →
   ∃ x, SHCoeffs_from_zeros lmax_ kind_ norm cs = Ok (Some x)
        ∧ kind x = kind_ ∧ lmax x = lmax_
        ∧ normalization x = lower norm ∧ csphase x = cs
        ∧ iscomplexobj (coeffs x) = String.eqb kind_ "complex"
        ∧ wf_coeffs x ∧ zero_outside_mask x
        ∧ ∀ i l m, (i < 2)%nat → (Z.of_nat l <= lmax_)%Z →
                   (Z.of_nat m <= lmax_)%Z →
                   arr_get (coeffs x) i l m = Some (RtoC 0))
  ∧ (lmax_ = (-1)%Z → SHCoeffs_from_zeros lmax_ kind_ norm cs = Raise IndexError)
  ∧ ((lmax_ < -1)%Z → SHCoeffs_from_zeros lmax_ kind_ norm cs = Raise ValueError).
Proof.
  intros Hk Hv Hc. split; [|split].
  - intros Hl. rewrite from_zeros_eq by (done || lia).
    set (n := Z.to_nat (lmax_ + 1)).
    set (c := if String.eqb kind_ "real" then SHRealCoeffs else SHComplexCoeffs).
    set (a := if String.eqb kind_ "real" then FloatArr (np_zeros 0%R 2 n n)
              else ComplexArr (np_zeros (RtoC 0) 2 n n)).
    assert (arr_has_shape (2, n, n)%nat a = true) as Ha.
    { unfold a. destruct (String.eqb kind_ "real"); apply has_shape_np_zeros. }
    assert (∀ i l m, (i < 2)%nat → (l < n)%nat → (m < n)%nat →
                     arr_get a i l m = Some (RtoC 0)) as Hzero.
    { intros i l m Hi Hl' Hm. unfold a.
      destruct (String.eqb kind_ "real"); simpl; rewrite lookup3_np_zeros;
        by rewrite decide_True. }
    pose proof (subclass_init_eq c a (lower norm) cs true n ltac:(lia) Ha) as Hinit.
    rewrite Hinit. eexists. split; [reflexivity|].
    cbn [cls lmax normalization csphase mask coeffs].
    split; [unfold kind, c; cbn [cls]; by destruct Hk as [-> | ->]|].
    split; [lia|]. split; [done|]. split; [done|].
    split; [unfold a; by destruct Hk as [-> | ->]|].
    split; [by apply (wf_subclass_init c a (lower norm) cs)|].
    split; [by apply (zero_outside_mask_init c a (lower norm) cs)|].
    intros i l m Hi Hl' Hm. rewrite arr_get_masked, Hzero by lia. simpl.
    by destruct (mask_spec i l m).
  - intros ->. rewrite from_zeros_eq by (done || lia). simpl Z.to_nat.
    unfold subclass_init.
    destruct (String.eqb kind_ "real"); by rewrite make_mask_neg.
  - intros Hl. unfold SHCoeffs_from_zeros. rewrite Hv, Hc.
    assert (str_in (lower kind_) ["real"; "complex"] = true) as ->
      by (by destruct Hk as [-> | ->]).
    cbn [negb]. unfold zeros3.
    destruct (Z.ltb_spec (lmax_ + 1) 0); [|lia]. simpl.
    by destruct (String.eqb (lower kind_) "real").
Qed.

Lemma X3_from_zeros_witness :
  (∃ x, SHCoeffs_from_zeros 1 "complex" "4pi" 1 = Ok (Some x)
        ∧ coeffs x = ComplexArr [[[RtoC 0; RtoC 0]; [RtoC 0; RtoC 0]];
                                 [[RtoC 0; RtoC 0]; [RtoC 0; RtoC 0]]])
  ∧ SHCoeffs_from_zeros (-1) "complex" "4pi" 1 = Raise IndexError.
Proof.
  destruct (X3_from_zeros 1 "complex" "4pi" 1) as (H1 & _ & _);
    [by right|reflexivity|reflexivity|].
  destruct (X3_from_zeros (-1) "complex" "4pi" 1) as (_ & H2 & _);
    [by right|reflexivity|reflexivity|].
  split; [|by apply H2].
  destruct H1 as (x & Hx & _); [lia|]. exists x. split; [exact Hx|].
  cbv in Hx. injection Hx as <-. reflexivity.
Defined.

(** X4. The factories test [kind.lower()] but choose the class with
    [kind] as it is spelled: for a kind that is 'real' or 'complex' only
    up to letter case, [from_zeros] (for [lmax >= -1]) and [from_random]
    (without [exact_power]) run to the end and return [None], no error
    and no coefficient set.  [from_file] with format 'npy' does not test
    the kind at all and returns [None] for every kind other than 'real'
    and 'complex'. *)
Theorem X4_kind_in_other_case_gives_None `{SpectrumBackend} `{FileBackend}
    (kind_ norm : string) (cs : Z) :
  kind_ ≠ "real" → kind_ ≠ "complex" →
  valid_normalization norm = true → valid_csphase cs = true →
  (lower kind_ = "real" ∨ lower kind_ = "complex" →
   (∀ lmax_, (-1 <= lmax_)%Z →
             SHCoeffs_from_zeros lmax_ kind_ norm cs = Ok None)
   ∧ (∀ normal1 normal2 power,
        SHCoeffs_from_random normal1 normal2 power kind_ norm cs false = Ok None))
  ∧ (∀ fname lmax_ format, lower format = "npy" →
       SHCoeffs_from_file fname lmax_ format kind_ norm cs = Ok None).
Proof.
  intros Hr Hc Hv Hcs. pose proof (subclass_for_None kind_ Hr Hc) as Hnone.
  split.
  - intros Hk.
    assert (str_in (lower kind_) ["real"; "complex"] = true) as Hin
      by (by destruct Hk as [-> | ->]).
    split.
    + intros lmax_ Hl. unfold SHCoeffs_from_zeros.
      rewrite Hin, Hv, Hcs, Hnone. cbn [negb].
      rewrite !zeros3_eq by lia. by destruct (String.eqb (lower kind_) "real").
    + intros g1 g2 power. unfold SHCoeffs_from_random.
      rewrite Hin, Hv, Hcs, Hnone. cbn [negb].
      by destruct (String.eqb (lower kind_) "real").
  - intros fname lmax_ format Hf. unfold SHCoeffs_from_file.
    rewrite Hv, Hcs, Hnone, Hf. reflexivity.
Qed.

Lemma X4_kind_in_other_case_gives_None_witness :
  SHCoeffs_from_zeros 2 "Real" "4pi" 1 = Ok None.
Proof.
  destruct (X4_kind_in_other_case_gives_None (H := spec_spectrum_backend)
              (H0 := {| SHRead := λ _ _, ([], 0%Z); np_load := λ _, FloatArr [] |})
              "Real" "4pi" 1) as [Hz _]; [done|done|reflexivity|reflexivity|].
  destruct Hz as [Hz _]; [by left|]. apply Hz. lia.
Defined.

(** ** More on [to_array] and [convert] *)

Lemma norm_factor_pos norm l : (0 < norm_factor norm l)%R.
Proof.
  unfold norm_factor. destruct (String.eqb norm "schmidt").
  - apply sqrt_lt_R0, two_l_plus_1_pos.
  - destruct (String.eqb norm "ortho"); [apply sqrt_lt_R0, four_pi_pos|lra].
Qed.

(** Inside the triangle [m <= l] a conversion multiplies by the ratio of
    the two factors and changes the sign of the odd orders when the phase
    convention changes. *)
Lemma convert_entry_factor {K} `{NumLaws K} n0 n1 c0 c1 l m (x : K) :
  n0 ∈ normalizations → n1 ∈ normalizations → (m ≤ l)%nat →
  convert_entry n0 n1 c0 c1 l m x
  = let y := nscale (norm_factor n1 l / norm_factor n0 l) x in
    if negb (c1 =? c0)%Z && Nat.odd m then nneg y else y.
Proof.
  unfold normalizations. rewrite !elem_of_cons, !elem_of_nil.
  pose proof (two_l_plus_1_pos l) as Hl. pose proof four_pi_pos as Hpi.
  pose proof (sqrt_lt_R0 _ Hl) as Hsl. pose proof (sqrt_lt_R0 _ Hpi) as Hsp.
  intros [->|[->|[->|[]]]] [->|[->|[->|[]]]] Hm; unfold convert_entry, norm_factor;
    simpl String.eqb; cbn [andb];
    destruct (Nat.ltb_spec m (l + 1)); try lia;
    rewrite ?nunscale_nscale;
    cbv zeta;
    match goal with
    | |- (if ?b then nneg ?u else ?u) = (if ?b then nneg ?v else ?v) =>
        assert (u = v) as E; [|destruct b; [exact (f_equal nneg E)|exact E]]
    end.
  - rewrite <- (nscale_1 x) at 1. f_equal. field.
  - f_equal. field; lra.
  - f_equal. field.
  - f_equal. field; lra.
  - rewrite <- (nscale_1 x) at 1. f_equal. field; lra.
  - f_equal. rewrite sqrt_div_alt by lra. field; lra.
  - f_equal. field; lra.
  - f_equal. rewrite sqrt_div_alt by lra. field; lra.
  - rewrite <- (nscale_1 x) at 1. f_equal. field; lra.
Qed.

Lemma convert_entry_compose {K} `{NumLaws K} n0 n1 n2 c0 c1 c2 l m (x : K) :
  n0 ∈ normalizations → n1 ∈ normalizations → n2 ∈ normalizations →
  c0 ∈ csphases → c1 ∈ csphases → c2 ∈ csphases → (m ≤ l)%nat →
  convert_entry n1 n2 c1 c2 l m (convert_entry n0 n1 c0 c1 l m x)
  = convert_entry n0 n2 c0 c2 l m x.
Proof.
  intros Hn0 Hn1 Hn2 Hc0 Hc1 Hc2 Hm.
  rewrite !convert_entry_factor by done. cbv zeta.
  pose proof (norm_factor_pos n0 l). pose proof (norm_factor_pos n1 l).
  pose proof (norm_factor_pos n2 l).
  assert (nscale (norm_factor n2 l / norm_factor n1 l)
            (nscale (norm_factor n1 l / norm_factor n0 l) x)
          = nscale (norm_factor n2 l / norm_factor n0 l) x) as Hs.
  { rewrite nscale_nscale. f_equal. field; lra. }
  unfold csphases in *. rewrite !elem_of_cons, !elem_of_nil in Hc0, Hc1, Hc2.
  destruct Hc0 as [->|[->|[]]], Hc1 as [->|[->|[]]], Hc2 as [->|[->|[]]];
    simpl; destruct (Nat.odd m); simpl;
    rewrite ?nscale_nneg, ?nneg_nneg, Hs; done.
Qed.

Lemma convert_entry_same {K} `{Num K} n c l m (x : K) :
  convert_entry n n c c l m x = x.
Proof. unfold convert_entry. by rewrite String.eqb_refl, Z.eqb_refl. Qed.

Lemma arr_map_ext_entries (f g : ∀ K, Num K → nat → nat → nat → K → K) a :
  match a with
  | FloatArr x =>
      ∀ i l m v, lookup3 x i l m = Some v → f R _ i l m v = g R _ i l m v
  | ComplexArr x =>
      ∀ i l m v, lookup3 x i l m = Some v → f C _ i l m v = g C _ i l m v
  end →
  arr_map f a = arr_map g a.
Proof. destruct a; simpl; intros E; f_equal; by apply imap3_ext. Qed.

(** An entry with [m > l], or on the sine plane at order 0, is outside
    the mask. *)
Lemma mask_spec_false_gt i l m : (l < m)%nat → mask_spec i l m = false.
Proof. intros Hm. unfold mask_spec. by destruct (Nat.leb_spec m l); [lia|]. Qed.

Lemma lower_valid norm :
  valid_normalization norm = true → lower norm ∈ normalizations.
Proof. apply valid_normalization_elem. Qed.

Lemma valid_lower norm :
  valid_normalization norm = true → valid_normalization (lower norm) = true.
Proof.
  intros Hv. apply valid_normalization_elem.
  rewrite (lower_normalizations (lower norm)); by apply valid_normalization_elem.
Qed.

(** [convert] to the instance's own kind, in closed form. *)
Lemma convert_same_kind_eq `{ConvertBackend} x n norm_ cs_ lmax_ check :
  (0 < n)%nat → lmax x = (Z.of_nat n - 1)%Z →
  arr_has_shape (2, n, n)%nat (coeffs x) = true →
  valid_normalization (default (normalization x) norm_) = true →
  valid_csphase (default (csphase x) cs_) = true →
  (0 <= default (lmax x) lmax_ <= lmax x)%Z →
  SHCoeffs_convert x norm_ cs_ lmax_ None check
  = Ok {| cls := dtype_class (coeffs x);
          coeffs := converted x (lower (default (normalization x) norm_))
                              (default (csphase x) cs_) (default (lmax x) lmax_);
          mask := mask_array (Z.to_nat (default (lmax x) lmax_ + 1));
          lmax := default (lmax x) lmax_;
          normalization := lower (default (normalization x) norm_);
          csphase := default (csphase x) cs_ |}.
Proof.
  intros Hn Hlmax Hshape Hv Hc Hl. unfold SHCoeffs_convert.
  rewrite Hv, Hc. cbn [negb default]. rewrite String.eqb_refl. cbn [negb].
  pose proof (valid_lower _ Hv) as Hv'.
  assert (lower (lower (default (normalization x) norm_))
          = lower (default (normalization x) norm_)) as Hlow.
  { apply lower_normalizations. by apply valid_normalization_elem. }
  rewrite (to_array_eq x n); cbn [default]; try done.
  rewrite bind_Ok. cbn [default]. repeat match goal with
         | |- context [Datatypes.id ?u] => change (Datatypes.id u) with u
         end.
  rewrite Hlow.
  set (L := default (lmax x) lmax_) in *.
  set (a := converted x _ _ L).
  assert (arr_has_shape (2, Z.to_nat (L + 1), Z.to_nat (L + 1))%nat a = true) as Ha.
  { unfold a, converted. rewrite arr_has_shape_arr_map.
    apply (arr_has_shape_slice_lmax n); [done|lia]. }
  rewrite from_array_eq by done.
  rewrite (subclass_init_eq _ _ _ _ _ (Z.to_nat (L + 1))) by (done || lia).
  rewrite Hlow. f_equal. f_equal.
  - unfold a, converted, dtype_class. rewrite iscomplexobj_arr_map.
    unfold slice_lmax. by destruct (coeffs x).
  - lia.
Qed.

(** X5. [to_array] of a coefficient set of shape [(2, lmax+1, lmax+1)],
    for a known normalization and a csphase of 1 or -1: an output [lmax]
    above the degree of the set is a ValueError; an output [lmax] between 0
    and that degree gives an array of shape [(2, lmax+1, lmax+1)] whose
    entries are those of the array converted at full degree; and with no
    argument the array returned is the coefficient array itself. *)
Theorem X5_to_array_truncates (x : SHCoeffs) (n : nat)
    (norm_ : option string) (cs_ : option Z) (L : Z) :
  (0 < n)%nat → lmax x = (Z.of_nat n - 1)%Z →
  arr_has_shape (2, n, n)%nat (coeffs x) = true →
  valid_normalization (default (normalization x) norm_) = true →
  valid_csphase (default (csphase x) cs_) = true →
  ((lmax x < L)%Z → SHCoeffs_to_array x norm_ cs_ (Some L) = Raise ValueError)
  ∧ ((0 <= L <= lmax x)%Z →
     ∃ a full,
       SHCoeffs_to_array x norm_ cs_ (Some L) = Ok a
       ∧ SHCoeffs_to_array x norm_ cs_ None = Ok full
       ∧ arr_has_shape (2, Z.to_nat (L + 1), Z.to_nat (L + 1))%nat a = true
       ∧ iscomplexobj a = iscomplexobj (coeffs x)
       ∧ ∀ i l m, (Z.of_nat l <= L)%Z → (Z.of_nat m <= L)%Z →
                  arr_get a i l m = arr_get full i l m)
  ∧ (norm_ = None → cs_ = None →
     SHCoeffs_to_array x None None None = Ok (coeffs x)).
Proof.
  intros Hn Hlmax Hshape Hv Hc. split; [|split].
  - intros HL. unfold SHCoeffs_to_array. rewrite Hv, Hc. cbn [negb].
    by destruct (Z.ltb_spec (lmax x) L); [|lia].
  - intros HL. do 2 eexists.
    split; [apply (to_array_eq x n); first [done | simpl; lia]|].
    split; [apply (to_array_eq x n); first [done | simpl; lia]|].
    simpl default. unfold converted. split; [|split].
    + rewrite arr_has_shape_arr_map.
      apply (arr_has_shape_slice_lmax n); [done|lia].
    + rewrite iscomplexobj_arr_map. unfold slice_lmax. by destruct (coeffs x).
    + intros i l m Hl Hm. rewrite !arr_get_converted_entry. f_equal.
      rewrite Hlmax, (slice_lmax_full n) by done.
      unfold slice_lmax.
      replace (L + 1)%Z with (Z.of_nat (Z.to_nat (L + 1))) by lia.
      destruct (coeffs x) as [v|v]; simpl; rewrite lookup3_slice;
        by rewrite decide_True by lia.
  - intros -> ->. simpl default in *.
    rewrite (to_array_eq x n); try done; [|simpl; lia].
    simpl default. f_equal. rewrite Hlmax, (converted_full x n) by done.
    apply (arr_map_id (2, n, n)%nat); [done|].
    intros K H HL i l m v _ _ _.
    unfold convert_entry. rewrite Z.eqb_refl. cbn [negb andb].
    destruct (String.eqb_spec (normalization x) (lower (normalization x)))
      as [_|Hne]; [done|].
    repeat match goal with
           | |- context [String.eqb (normalization x) ?s] =>
               destruct (String.eqb_spec (normalization x) s) as [E|_];
               [rewrite E in Hne; exfalso; apply Hne; reflexivity|]
           end.
    done.
Qed.

Lemma X5_to_array_truncates_witness :
  SHCoeffs_to_array example_ortho (Some "4pi") None (Some 2%Z) = Raise ValueError
  ∧ (∃ a, SHCoeffs_to_array example_ortho (Some "4pi") None (Some 0%Z) = Ok a
          ∧ arr_has_shape (2, 1, 1)%nat a = true)
  ∧ SHCoeffs_to_array example_ortho None None None = Ok (coeffs example_ortho).
Proof.
  assert (∀ norm_ cs_ L,
            valid_normalization (default (normalization example_ortho) norm_) = true →
            valid_csphase (default (csphase example_ortho) cs_) = true → _)
    as Hx by (intros norm_ cs_ L;
              exact (X5_to_array_truncates example_ortho 2 norm_ cs_ L
                       ltac:(lia) eq_refl eq_refl)).
  split; [|split].
  - apply (Hx (Some "4pi") None 2%Z); [reflexivity|reflexivity|]. simpl. lia.
  - destruct (Hx (Some "4pi") None 0%Z) as (_ & Ht & _); [reflexivity..|].
    destruct Ht as (a & full & Ha & _ & Hs & _); [simpl; lia|]. by exists a.
  - by apply (Hx None None 0%Z).
Defined.

Lemma converted_same x n :
  arr_has_shape (2, n, n)%nat (coeffs x) = true →
  normalization x ∈ normalizations →
  converted x (normalization x) (csphase x) (Z.of_nat n - 1) = coeffs x.
Proof.
  intros Hs Hn. rewrite (converted_full x n) by done.
  apply (arr_map_id (2, n, n)%nat); [done|].
  intros. apply convert_entry_same.
Qed.

Lemma dtype_class_converted x norm cs L :
  dtype_class (converted x norm cs L) = dtype_class (coeffs x).
Proof.
  unfold converted, dtype_class. rewrite iscomplexobj_arr_map.
  unfold slice_lmax. by destruct (coeffs x).
Qed.

(** An entry of an array that is zero outside the mask, read at an index
    outside the triangle [m <= l]. *)
Lemma entry_outside_zero x n :
  mask x = mask_array n → arr_has_shape (2, n, n)%nat (coeffs x) = true →
  zero_outside_mask x →
  match coeffs x with
  | FloatArr a => ∀ i l m v, lookup3 a i l m = Some v → (l < m)%nat → v = 0%R
  | ComplexArr a => ∀ i l m v, lookup3 a i l m = Some v → (l < m)%nat → v = RtoC 0
  end.
Proof.
  intros Hmask Hs Hinv.
  pose proof (proj1 (zero_outside_mask_spec x n Hmask) Hinv) as Hz.
  destruct (coeffs x) as [a|a]; simpl in *; intros i l m v Hv Hlm;
    destruct (lookup3_Some_lt _ _ _ _ _ _ Hs Hv) as (Hi & Hl & Hm); simpl in *;
    specialize (Hz i l m (mask_spec_false_gt i l m Hlm) Hi Hl Hm);
    rewrite Hv in Hz; simpl in Hz.
  - injection Hz as ->. done.
  - by injection Hz as ->.
Qed.

(** X7. Conversions of the convention compose: for a coefficient set of
    the data model that is zero outside its mask, with a known
    normalization and phase, [convert] to a first normalization and
    csphase and then to a second gives the same coefficient set as
    [convert] to the second at once.  (Entries with [m > l] are not
    scaled by the degree-wise conversions but are by the others, which is
    why they have to be zero.) *)
Theorem X7_convert_composes `{ConvertBackend} (x : SHCoeffs)
    (norm1 norm2 : string) (cs1 cs2 : Z) (check : bool) :
  wf_coeffs x → zero_outside_mask x →
  normalization x ∈ normalizations → csphase x ∈ csphases →
  valid_normalization norm1 = true → valid_csphase cs1 = true →
  valid_normalization norm2 = true → valid_csphase cs2 = true →
  ∃ y1 y2,
    SHCoeffs_convert x (Some norm1) (Some cs1) None None check = Ok y1
    ∧ SHCoeffs_convert y1 (Some norm2) (Some cs2) None None check = Ok y2
    ∧ SHCoeffs_convert x (Some norm2) (Some cs2) None None check = Ok y2.
Proof.
  intros (n & Hn & Hlmax & Hmask & Hshape) Hinv Hnorm Hcs Hv1 Hc1 Hv2 Hc2.
  pose proof (convert_same_kind_eq x n (Some norm1) (Some cs1) None check
                Hn Hlmax Hshape Hv1 Hc1 ltac:(simpl; lia)) as E1.
  pose proof (convert_same_kind_eq x n (Some norm2) (Some cs2) None check
                Hn Hlmax Hshape Hv2 Hc2 ltac:(simpl; lia)) as E3.
  simpl default in E1, E3.
  eexists. eexists. split; [exact E1|]. split; [|exact E3].
  set (y1 := {| cls := dtype_class (coeffs x);
                coeffs := converted x (lower norm1) cs1 (lmax x) |}) in *.
  assert (arr_has_shape (2, n, n)%nat (coeffs y1) = true) as Hs1.
  { simpl. rewrite Hlmax, (converted_full x n) by done.
    by rewrite arr_has_shape_arr_map. }
  rewrite (convert_same_kind_eq y1 n (Some norm2) (Some cs2) None check);
    try done; [|simpl; lia].
  simpl default. f_equal. f_equal.
  - apply dtype_class_converted.
  - rewrite Hlmax. rewrite (converted_full y1 n) by (done || by simpl).
    rewrite (converted_full x n) by done. subst y1. cbn [coeffs normalization csphase].
    rewrite Hlmax, (converted_full x n) by done.
    rewrite arr_map_arr_map. apply arr_map_ext_entries.
    pose proof (entry_outside_zero x n Hmask Hshape Hinv) as Hz.
    pose proof (lower_valid _ Hv1) as Hn1. pose proof (lower_valid _ Hv2) as Hn2.
    apply valid_csphase_elem in Hc1, Hc2.
    destruct (coeffs x) as [a|a]; intros i l m v Hv;
      (destruct (decide (m ≤ l)%nat) as [Hm|Hm];
       [by apply convert_entry_compose
       |rewrite (Hz i l m v Hv ltac:(lia))]).
    + assert (∀ n0 n1 c0 c1, convert_entry n0 n1 c0 c1 l m 0%R = 0%R) as Z0
        by (intros; exact (convert_entry_zero (K:=R) _ _ _ _ _ _)).
      by rewrite !Z0.
    + assert (∀ n0 n1 c0 c1, convert_entry n0 n1 c0 c1 l m (RtoC 0) = RtoC 0) as Z0
        by (intros; exact (convert_entry_zero (K:=C) _ _ _ _ _ _)).
      by rewrite !Z0.
Qed.

Lemma X7_convert_composes_witness :
  ∃ y1 y2,
    SHCoeffs_convert (H := spec_convert_backend) example_ortho
      (Some "schmidt") (Some 1%Z) None None true = Ok y1
    ∧ SHCoeffs_convert (H := spec_convert_backend) y1
        (Some "4pi") (Some (-1)%Z) None None true = Ok y2
    ∧ SHCoeffs_convert (H := spec_convert_backend) example_ortho
        (Some "4pi") (Some (-1)%Z) None None true = Ok y2.
Proof.
  apply (X7_convert_composes (H := spec_convert_backend) example_ortho
           "schmidt" "4pi" 1 (-1) true).
  - exists 2%nat. split; [lia|]. repeat split.
  - apply (zero_outside_mask_spec _ 2%nat); [done|].
    intros i l m Hs Hi Hl Hm.
    destruct i as [|[|i]]; [| |lia]; destruct l as [|[|l]]; try lia;
      destruct m as [|[|m]]; try lia; try discriminate Hs; reflexivity.
  - unfold normalizations. rewrite !elem_of_cons. auto.
  - unfold csphases. rewrite !elem_of_cons. auto.
  - reflexivity.
  - reflexivity.
  - reflexivity.
  - reflexivity.
Defined.

(** X8. [convert] without a change of kind, on a coefficient set of the
    data model that is zero outside its mask, for a known normalization,
    a csphase of 1 or -1 and an output [lmax] between 0 and the degree of
    the set: it returns a coefficient set of the same class with that
    [lmax], the normalization in lower case and the csphase, which is
    again a set of the data model and zero outside its mask; its
    coefficients up to the output [lmax] are the converted coefficients
    of the instance; and with no argument at all it returns a coefficient
    set equal to the instance. *)
Theorem X8_convert_same_kind `{ConvertBackend} (x : SHCoeffs)
    (norm_ : option string) (cs_ : option Z) (lmax_ : option Z) (check : bool) :
  wf_coeffs x → zero_outside_mask x → class_of_dtype x →
  valid_normalization (default (normalization x) norm_) = true →
  valid_csphase (default (csphase x) cs_) = true →
  (0 <= default (lmax x) lmax_ <= lmax x)%Z →
  ∃ y, SHCoeffs_convert x norm_ cs_ lmax_ None check = Ok y
       ∧ cls y = cls x ∧ lmax y = default (lmax x) lmax_
       ∧ normalization y = lower (default (normalization x) norm_)
       ∧ csphase y = default (csphase x) cs_
       ∧ wf_coeffs y ∧ zero_outside_mask y
       ∧ (∀ i l m, (Z.of_nat l <= lmax y)%Z → (Z.of_nat m <= lmax y)%Z →
            arr_get (coeffs y) i l m
            = convert_entry (normalization x) (normalization y)
                            (csphase x) (csphase y) l m
                <$> arr_get (coeffs x) i l m)
       ∧ (norm_ = None → cs_ = None → lmax_ = None →
          normalization x ∈ normalizations → y = x).
Proof.
  intros (n & Hn & Hlmax & Hmask & Hshape) Hinv Hcls Hv Hc HL.
  rewrite (convert_same_kind_eq x n) by done.
  set (L := default (lmax x) lmax_) in *. set (n' := Z.to_nat (L + 1)).
  eexists. split; [reflexivity|]. cbn [cls lmax normalization csphase coeffs mask].
  assert (arr_has_shape (2, n', n')%nat
            (converted x (lower (default (normalization x) norm_))
                       (default (csphase x) cs_) L) = true) as Hs'.
  { unfold converted. rewrite arr_has_shape_arr_map.
    apply (arr_has_shape_slice_lmax n); [done|lia]. }
  assert (∀ i l m, (l < n')%nat → (m < n')%nat →
            arr_get (converted x (lower (default (normalization x) norm_))
                               (default (csphase x) cs_) L) i l m
            = convert_entry (normalization x)
                (lower (default (normalization x) norm_)) (csphase x)
                (default (csphase x) cs_) l m <$> arr_get (coeffs x) i l m) as Hget.
  { intros i l m Hl Hm. unfold converted. rewrite arr_get_converted_entry.
    f_equal. unfold slice_lmax.
    replace (L + 1)%Z with (Z.of_nat n') by lia.
    destruct (coeffs x) as [v|v]; simpl; rewrite lookup3_slice;
      by rewrite decide_True. }
  split; [by symmetry|]. split; [done|]. split; [done|]. split; [done|].
  split; [exists n'; cbn [lmax mask coeffs]; repeat split; [lia|lia|done]|].
  split.
  { apply (zero_outside_mask_spec _ n'); [done|]. cbn [coeffs].
    intros i l m Hs Hi Hl Hm. rewrite Hget by done.
    rewrite (proj1 (zero_outside_mask_spec x n Hmask) Hinv i l m Hs Hi) by lia.
    simpl. f_equal. exact (convert_entry_zero (K:=C) _ _ _ _ _ _). }
  split; [intros i l m Hl Hm; apply Hget; lia|].
  intros -> -> -> Hnorm. subst L n'. simpl default in *.
  rewrite (lower_normalizations _ Hnorm), Hlmax.
  rewrite (converted_same x n) by done.
  replace (Z.to_nat (Z.of_nat n - 1 + 1)) with n by lia.
  unfold class_of_dtype in Hcls. rewrite <- Hmask, <- Hcls, <- Hlmax.
  by destruct x.
Qed.

Lemma X8_convert_same_kind_witness :
  SHCoeffs_convert (H := spec_convert_backend) example_ortho None None None None
    true = Ok example_ortho.
Proof.
  destruct (X8_convert_same_kind (H := spec_convert_backend) example_ortho
              None None None true) as (y & Hy & _ & _ & _ & _ & _ & _ & _ & Heq).
  - exists 2%nat. split; [lia|]. repeat split.
  - apply (zero_outside_mask_spec _ 2%nat); [done|].
    intros i l m Hs Hi Hl Hm.
    destruct i as [|[|i]]; [| |lia]; destruct l as [|[|l]]; try lia;
      destruct m as [|[|m]]; try lia; try discriminate Hs; reflexivity.
  - reflexivity.
  - reflexivity.
  - reflexivity.
  - simpl. lia.
  - rewrite Hy. f_equal. apply Heq; try reflexivity.
    unfold normalizations. rewrite !elem_of_cons. auto.
Defined.

(** X10. [convert] does not test [kind]: it compares it with the kind of
    the instance and with 'complex' only.  On a real coefficient set a
    kind other than 'real' and 'complex' asks for [_make_real], which the
    real class does not have, and raises AttributeError; on a complex
    coefficient set every kind other than 'complex' is treated as 'real'. *)
Theorem X10_convert_kind_is_not_validated `{ConvertBackend} (x : SHCoeffs)
    (norm_ : option string) (cs_ lmax_ : option Z) (kind_ : string)
    (check : bool) :
  valid_normalization (default (normalization x) norm_) = true →
  valid_csphase (default (csphase x) cs_) = true →
  kind_ ≠ "complex" →
  match cls x with
  | SHRealCoeffs =>
      kind_ ≠ "real" →
      SHCoeffs_convert x norm_ cs_ lmax_ (Some kind_) check = Raise AttributeError
  | SHComplexCoeffs =>
      SHCoeffs_convert x norm_ cs_ lmax_ (Some kind_) check
      = SHCoeffs_convert x norm_ cs_ lmax_ (Some "real") check
  end.
Proof.
  intros Hv Hc Hk%String.eqb_neq. unfold SHCoeffs_convert, kind.
  rewrite Hv, Hc. cbn [negb default]. unfold Datatypes.id.
  destruct (cls x).
  - intros Hr%String.eqb_neq. by rewrite Hr, Hk.
  - by rewrite Hk.
Qed.

Lemma X10_convert_kind_is_not_validated_witness :
  SHCoeffs_convert (H := spec_convert_backend) example_ortho None None None
    (Some "Complex") true = Raise AttributeError.
Proof.
  apply (X10_convert_kind_is_not_validated (H := spec_convert_backend)
           example_ortho None None None "Complex" true); done.
Defined.

(** ** More on the operators *)

Lemma apply_op_num_op op : apply_op op = binary_operator (num_op op) false.
Proof. by destruct op. Qed.

(** The two statements shared by the operators, in closed form. *)
Lemma masked_op_eq f s n x y :
  (0 < n)%nat → lmax s = (Z.of_nat n - 1)%Z → mask s = mask_array n →
  arr_has_shape (2, n, n)%nat x = true → arr_has_shape (2, n, n)%nat y = true →
  masked_op f s x y
  = Ok (FloatArr (zip3 (λ (b : bool) v, if b then v else 0%R)
                       (mask_array n) (as_float (arr_zip f x y)))).
Proof.
  intros Hn Hl Hm Hx Hy. unfold masked_op. rewrite Hl, Hm.
  replace (Z.of_nat n - 1 + 1)%Z with (Z.of_nat n) by lia.
  rewrite zeros3_eq, bind_Ok by lia.
  rewrite shape3_mask_array by done. rewrite Nat2Z.id.
  by rewrite has_shape_mask_array, Hx, Hy, has_shape_np_zeros.
Qed.

Lemma op_result_eq f s n x y :
  (0 < n)%nat → lmax s = (Z.of_nat n - 1)%Z → mask s = mask_array n →
  arr_has_shape (2, n, n)%nat x = true → arr_has_shape (2, n, n)%nat y = true →
  normalization s ∈ normalizations → csphase s ∈ csphases →
  (masked_op f s x y ≫= λ coeffs,
     SHCoeffs_from_array coeffs (normalization s) (csphase s) true)
  = Ok {| cls := SHRealCoeffs;
          coeffs := masked (FloatArr (zip3 (λ (b : bool) v, if b then v else 0%R)
                              (mask_array n) (as_float (arr_zip f x y))));
          mask := mask_array n; lmax := (Z.of_nat n - 1)%Z;
          normalization := normalization s; csphase := csphase s |}.
Proof.
  intros Hn Hl Hm Hx Hy Hnorm Hcs.
  rewrite (masked_op_eq f s n) by done. rewrite bind_Ok.
  rewrite from_array_eq;
    [|by apply valid_normalization_elem; rewrite lower_normalizations
     |by apply valid_csphase_elem].
  rewrite (subclass_init_eq _ _ _ _ _ n); [|done|].
  - by rewrite (lower_normalizations _ Hnorm).
  - unfold arr_has_shape. apply has_shape_zip3; [apply has_shape_mask_array|].
    apply as_float_shape. by apply arr_zip_shape.
Qed.

(** The entry of the result where both operands are float arrays. *)
Lemma op_result_entry (f : ∀ K, Num K → K → K → K) n a b i l m :
  has_shape (2, n, n)%nat a = true → has_shape (2, n, n)%nat b = true →
  arr_get (masked (FloatArr (zip3 (λ (b : bool) v, if b then v else 0%R)
             (mask_array n) (as_float (arr_zip f (FloatArr a) (FloatArr b))))))
          i l m
  = u ← lookup3 a i l m; v ← lookup3 b i l m;
    Some (RtoC (if mask_spec i l m then f R _ u v else 0%R)).
Proof.
  intros Ha Hb. rewrite arr_get_masked. cbn [arr_get as_float arr_zip].
  rewrite lookup3_zip3, lookup3_mask_array, lookup3_zip3.
  destruct (lookup3 a i l m) as [u|] eqn:Hu; simpl.
  - destruct (lookup3_Some_lt _ _ _ _ _ _ Ha Hu) as (?&?&?). simpl in *.
    rewrite decide_True by done. simpl.
    destruct (lookup3 b i l m) as [v|]; simpl; [|done].
    by destruct (mask_spec i l m).
  - by destruct (decide _).
Qed.

Lemma zip3_comm {A D} (f : A → A → D) (a b : list3 A) :
  (∀ u v, f u v = f v u) → zip3 f a b = zip3 f b a.
Proof.
  intros Hf. unfold zip3.
  revert b. induction a as [|p a IH]; intros [|q b]; simpl; try done.
  f_equal; [|apply IH].
  revert q. induction p as [|r p IHp]; intros [|r' q]; simpl; try done.
  f_equal; [|apply IHp].
  revert r'. induction r as [|u r IHr]; intros [|v r']; simpl; try done.
  f_equal; [apply Hf|apply IHr].
Qed.

Lemma arr_zip_comm (f : ∀ K, Num K → K → K → K) a b :
  (∀ u v : R, f R _ u v = f R _ v u) → (∀ u v : C, f C _ u v = f C _ v u) →
  arr_zip f a b = arr_zip f b a.
Proof.
  intros HR HC. destruct a as [x|x], b as [y|y]; simpl; f_equal;
    by apply zip3_comm.
Qed.

Lemma Cadd_comm z w : Cadd z w = Cadd w z.
Proof. unfold Cadd. f_equal; lra. Qed.

Lemma Cmul_comm z w : Cmul z w = Cmul w z.
Proof. unfold Cmul. f_equal; lra. Qed.

(** X11. Addition, subtraction and multiplication of two real coefficient
    sets of the data model with the same conventions and the same degree:
    the operation succeeds and returns a real coefficient set with the
    degree and the conventions of the operands, which is zero outside its
    mask; inside the mask every coefficient is the sum, difference or
    product of the two coefficients at that index. *)
Theorem X11_operators_act_inside_the_mask (op : arith_op) (s o : SHCoeffs)
    (a b : list3 R) :
  op ≠ OpDiv →
  wf_coeffs s → wf_coeffs o → lmax s = lmax o → compatible s o →
  normalization s ∈ normalizations → csphase s ∈ csphases →
  coeffs s = FloatArr a → coeffs o = FloatArr b →
  ∃ r, apply_op op s (OCoeffs o) = Ok r
       ∧ cls r = SHRealCoeffs ∧ lmax r = lmax s
       ∧ normalization r = normalization s ∧ csphase r = csphase s
       ∧ wf_coeffs r ∧ zero_outside_mask r
       ∧ ∀ i l m u v,
           lookup3 a i l m = Some u → lookup3 b i l m = Some v →
           arr_get (coeffs r) i l m
           = Some (RtoC (if mask_spec i l m then real_op op u v else 0%R)).
Proof.
  intros Hop (n & Hn & Hl & Hm & Hs) (n' & Hn' & Hl' & Hm' & Hs') Hll Hc Hnorm Hcs
    Ha Hb.
  assert (n' = n) as -> by lia.
  rewrite apply_op_num_op. unfold binary_operator. fold (compatible_b s o).
  rewrite (proj2 (compatible_b_spec s o) Hc).
  rewrite (op_result_eq _ s n) by done.
  eexists. split; [reflexivity|]. cbn [cls lmax normalization csphase coeffs mask].
  split; [done|]. split; [done|]. split; [done|]. split; [done|].
  assert (arr_has_shape (2, n, n)%nat
            (FloatArr (zip3 (λ (b : bool) v, if b then v else 0%R) (mask_array n)
                         (as_float (arr_zip (num_op op) (coeffs s) (coeffs o)))))
          = true) as Hz.
  { unfold arr_has_shape. apply has_shape_zip3; [apply has_shape_mask_array|].
    apply as_float_shape. by apply arr_zip_shape. }
  split; [exists n; cbn [lmax mask coeffs]; by rewrite masked_shape|].
  split.
  { pose proof (subclass_init_eq SHRealCoeffs _ (normalization s) (csphase s)
                  true n Hn Hz) as Hi.
    apply zero_outside_mask_init in Hi. exact Hi. }
  intros i l m u v Hu Hv. rewrite Ha, Hb in *.
  rewrite op_result_entry by done. rewrite Hu, Hv. simpl.
  by destruct op.
Qed.

Lemma X11_operators_act_inside_the_mask_witness :
  ∃ r, SHCoeffs___sub__ example_4pi (OCoeffs example_4pi) = Ok r
       ∧ arr_get (coeffs r) 0 1 1 = Some (RtoC (7 - 7))
       ∧ arr_get (coeffs r) 0 0 1 = Some (RtoC 0).
Proof.
  destruct (X11_operators_act_inside_the_mask OpSub example_4pi example_4pi
              [[[5; 0]; [6; 7]]; [[0; 0]; [0; 8]]]%R
              [[[5; 0]; [6; 7]]; [[0; 0]; [0; 8]]]%R)
    as (r & Hr & _ & _ & _ & _ & _ & _ & Hget); try done.
  - exists 2%nat. split; [lia|]. repeat split.
  - exists 2%nat. split; [lia|]. repeat split.
  - unfold normalizations. rewrite !elem_of_cons. auto.
  - unfold csphases. rewrite !elem_of_cons. auto.
  - exists r. split; [exact Hr|]. split.
    + apply (Hget 0%nat 1%nat 1%nat 7%R 7%R); reflexivity.
    + apply (Hget 0%nat 0%nat 1%nat 0%R 0%R); reflexivity.
Defined.

(** X12. For two coefficient sets of the data model with the same
    conventions and the same degree, whatever their dtype: addition and
    multiplication do not depend on the order of the operands, and the
    reflected subtraction [s.__rsub__(o)] is the subtraction
    [o.__sub__(s)]. *)
Theorem X12_operators_commute (s o : SHCoeffs) :
  wf_coeffs s → wf_coeffs o → lmax s = lmax o → compatible s o →
  normalization s ∈ normalizations → csphase s ∈ csphases →
  (∃ r, SHCoeffs___add__ s (OCoeffs o) = Ok r
        ∧ SHCoeffs___add__ o (OCoeffs s) = Ok r
        ∧ SHCoeffs___radd__ s (OCoeffs o) = Ok r)
  ∧ (∃ r, SHCoeffs___mul__ s (OCoeffs o) = Ok r
          ∧ SHCoeffs___mul__ o (OCoeffs s) = Ok r
          ∧ SHCoeffs___rmul__ s (OCoeffs o) = Ok r)
  ∧ (∃ r, SHCoeffs___rsub__ s (OCoeffs o) = Ok r
          ∧ SHCoeffs___sub__ o (OCoeffs s) = Ok r).
Proof.
  intros (n & Hn & Hl & Hm & Hs) (n' & Hn' & Hl' & Hm' & Hs') Hll Hc Hnorm Hcs.
  assert (n' = n) as -> by lia.
  pose proof Hc as (Hc1 & Hc2 & Hc3).
  assert (compatible o s) as Hc' by (unfold compatible; auto).
  assert (normalization o ∈ normalizations) as Hnorm' by (by rewrite <- Hc1).
  assert (csphase o ∈ csphases) as Hcs' by (by rewrite <- Hc2).
  unfold SHCoeffs___radd__, SHCoeffs___rmul__, SHCoeffs___add__, SHCoeffs___mul__,
    SHCoeffs___rsub__, SHCoeffs___sub__, binary_operator.
  fold (compatible_b s o). fold (compatible_b o s).
  rewrite (proj2 (compatible_b_spec s o) Hc), (proj2 (compatible_b_spec o s) Hc').
  rewrite !(op_result_eq _ s n), !(op_result_eq _ o n) by done.
  rewrite <- Hc1, <- Hc2.
  split; [|split]; eexists; (split; [reflexivity|]); try split; try done.
  - by rewrite (arr_zip_comm (λ K _, nadd) (coeffs o) (coeffs s))
      by (intros; first [apply Rplus_comm | apply Cadd_comm]).
  - by rewrite (arr_zip_comm (λ K _, nmul) (coeffs o) (coeffs s))
      by (intros; first [apply Rmult_comm | apply Cmul_comm]).
Qed.

Lemma X12_operators_commute_witness :
  ∃ r, SHCoeffs___rsub__ example_4pi (OCoeffs example_4pi) = Ok r
       ∧ SHCoeffs___sub__ example_4pi (OCoeffs example_4pi) = Ok r.
Proof.
  apply (X12_operators_commute example_4pi example_4pi); try done.
  - exists 2%nat. split; [lia|]. repeat split.
  - exists 2%nat. split; [lia|]. repeat split.
  - unfold normalizations. rewrite !elem_of_cons. auto.
  - unfold csphases. rewrite !elem_of_cons. auto.
Defined.

Lemma full_like_float c a n :
  arr_has_shape (2, n, n)%nat a = true → (0 < n)%nat →
  full_like (PyFloat c) a = FloatArr (np_zeros c 2 n n).
Proof.
  intros Ha Hn. unfold full_like.
  by rewrite (arr_shape_has_shape (2, n, n)%nat) by (done || simpl; lia).
Qed.

(** X13. Addition, subtraction and multiplication of a real coefficient
    set of the data model and a real number: the operation succeeds and
    returns a real coefficient set with the same degree and conventions
    that is zero outside its mask; inside the mask every coefficient is
    combined with the number (the reflected subtraction gives the number
    minus the coefficient), outside the mask the result is zero whatever
    the number.  So adding or subtracting 0 and multiplying by 1 return a
    set equal to the instance when the instance is zero outside its mask. *)
Theorem X13_operators_with_a_number (op : arith_op) (s : SHCoeffs)
    (a : list3 R) (c : R) :
  op ≠ OpDiv → wf_coeffs s →
  normalization s ∈ normalizations → csphase s ∈ csphases →
  coeffs s = FloatArr a →
  (∃ r, apply_op op s (OScalar (PyFloat c)) = Ok r
        ∧ cls r = SHRealCoeffs ∧ lmax r = lmax s
        ∧ normalization r = normalization s ∧ csphase r = csphase s
        ∧ zero_outside_mask r
        ∧ (∀ i l m u, lookup3 a i l m = Some u →
             arr_get (coeffs r) i l m
             = Some (RtoC (if mask_spec i l m then real_op op u c else 0%R)))
        ∧ (cls s = SHRealCoeffs → zero_outside_mask s →
           (∀ u, real_op op u c = u) → r = s))
  ∧ (∃ r, SHCoeffs___rsub__ s (OScalar (PyFloat c)) = Ok r
          ∧ ∀ i l m u, lookup3 a i l m = Some u →
              arr_get (coeffs r) i l m
              = Some (RtoC (if mask_spec i l m then c - u else 0%R))).
Proof.
  intros Hop (n & Hn & Hl & Hm & Hs) Hnorm Hcs Ha.
  pose proof Hs as Hsa. rewrite Ha in Hsa. simpl in Hsa.
  assert (arr_has_shape (2, n, n)%nat (FloatArr (np_zeros c 2 n n)) = true) as Hfull
    by apply has_shape_np_zeros.
  split.
  - rewrite apply_op_num_op. unfold binary_operator.
    rewrite (full_like_float c _ n) by done.
    rewrite (op_result_eq _ s n) by done.
    eexists. split; [reflexivity|].
    cbn [cls lmax normalization csphase coeffs mask].
    split; [done|]. split; [done|]. split; [done|]. split; [done|].
    assert (arr_has_shape (2, n, n)%nat
              (FloatArr (zip3 (λ (b : bool) v, if b then v else 0%R) (mask_array n)
                 (as_float (arr_zip (num_op op) (coeffs s)
                                    (FloatArr (np_zeros c 2 n n))))))
            = true) as Hz.
    { unfold arr_has_shape. apply has_shape_zip3; [apply has_shape_mask_array|].
      apply as_float_shape. by apply arr_zip_shape. }
    assert (∀ i l m u, lookup3 a i l m = Some u →
              arr_get (masked (FloatArr (zip3 (λ (b : bool) v, if b then v else 0%R)
                         (mask_array n)
                         (as_float (arr_zip (num_op op) (coeffs s)
                                            (FloatArr (np_zeros c 2 n n)))))))
                      i l m
              = Some (RtoC (if mask_spec i l m then real_op op u c else 0%R)))
      as Hget.
    { intros i l m u Hu. rewrite Ha.
      rewrite op_result_entry by (done || apply has_shape_np_zeros).
      rewrite Hu, lookup3_np_zeros. simpl.
      destruct (lookup3_Some_lt _ _ _ _ _ _ Hsa Hu) as (?&?&?). simpl in *.
      rewrite decide_True by done. simpl. by destruct op. }
    split.
    { pose proof (subclass_init_eq SHRealCoeffs _ (normalization s) (csphase s)
                    true n Hn Hz) as Hi.
      apply zero_outside_mask_init in Hi. exact Hi. }
    split; [exact Hget|].
    intros Hcls Hinv Hid.
    assert (masked (FloatArr (zip3 (λ (b : bool) v, if b then v else 0%R)
                      (mask_array n)
                      (as_float (arr_zip (num_op op) (coeffs s)
                                         (FloatArr (np_zeros c 2 n n))))))
            = coeffs s) as ->.
    { pose proof (proj1 (zero_outside_mask_spec s n Hm) Hinv) as Hzero.
      revert Hget. rewrite Ha in *. unfold masked. cbn [arr_map arr_get].
      intros Hget. f_equal. apply (list3_eq (2, n, n)%nat).
      - rewrite has_shape_imap3. exact Hz.
      - done.
      - intros i l m. destruct (lookup3 a i l m) as [u|] eqn:Hu.
        + specialize (Hget i l m u Hu).
          destruct (lookup3 (imap3 _ _) i l m) as [w|]; [|done].
          simpl in Hget. injection Hget as Hw. subst w.
          f_equal. destruct (mask_spec i l m) eqn:Hms; [apply Hid|].
          destruct (lookup3_Some_lt _ _ _ _ _ _ Hsa Hu) as (Hi'&Hl'&Hm'). simpl in *.
          specialize (Hzero i l m Hms Hi' Hl' Hm').
          simpl in Hzero. rewrite Hu in Hzero. simpl in Hzero.
          injection Hzero as ->. done.
        + rewrite lookup3_imap3, lookup3_zip3, lookup3_mask_array.
          destruct (decide _) as [(Hi'&Hl'&Hm')|]; [|done]. simpl.
          rewrite lookup3_zip3, Hu. done. }
    rewrite <- Hcls, <- Hm, <- Hl. by destruct s.
  - unfold SHCoeffs___rsub__, binary_operator.
    rewrite (full_like_float c _ n) by done.
    rewrite (op_result_eq _ s n) by done.
    eexists. split; [reflexivity|]. cbn [coeffs].
    intros i l m u Hu. rewrite Ha.
    rewrite op_result_entry by (done || apply has_shape_np_zeros).
    rewrite Hu, lookup3_np_zeros.
    destruct (lookup3_Some_lt _ _ _ _ _ _ Hsa Hu) as (?&?&?). simpl in *.
    by rewrite decide_True by done.
Qed.

Lemma X13_operators_with_a_number_witness :
  SHCoeffs___mul__ example_4pi (OScalar (PyFloat 1)) = Ok example_4pi.
Proof.
  destruct (X13_operators_with_a_number OpMul example_4pi
              [[[5; 0]; [6; 7]]; [[0; 0]; [0; 8]]]%R 1)
    as [(r & Hr & _ & _ & _ & _ & _ & _ & Heq) _]; try done.
  - exists 2%nat. split; [lia|]. repeat split.
  - unfold normalizations. rewrite !elem_of_cons. auto.
  - unfold csphases. rewrite !elem_of_cons. auto.
  - change (SHCoeffs___mul__ example_4pi (OScalar (PyFloat 1)))
      with (apply_op OpMul example_4pi (OScalar (PyFloat 1))).
    rewrite Hr. f_equal. apply Heq; [reflexivity| |intros u; simpl; lra].
    apply (zero_outside_mask_spec _ 2%nat); [done|].
    intros i l m Hs Hi Hl Hm.
    destruct i as [|[|i]]; [| |lia]; destruct l as [|[|l]]; try lia;
      destruct m as [|[|m]]; try lia; try discriminate Hs; reflexivity.
Defined.

(** ** More on the spectra *)

(** An in-place operation commutes with a map of the spectrum that
    commutes with the operation. *)
Lemma vec_inplace_fmap (f : R → R → R) (g : R → R) (s v : list R) :
  (∀ x y, f (g x) y = g (f x y)) →
  vec_inplace f (g <$> s) v = (λ t : list R, g <$> t) <$> vec_inplace f s v.
Proof.
  intros Hfg. unfold vec_inplace. rewrite length_fmap.
  destruct (length v =? length s)%nat.
  - simpl. f_equal. revert v. induction s as [|x s IH]; intros [|y v]; simpl; try done.
    by rewrite Hfg, IH.
  - destruct v as [|c [|??]]; simpl; try done. f_equal.
    rewrite <- !list_fmap_compose. apply list_fmap_ext. intros _ x _. simpl. apply Hfg.
Qed.

Lemma subclass_spectrum_energy bs x unit_ base :
  subclass_spectrum bs x "energy" unit_ base
  = (λ t : list R, (λ v, v * (4 * PI))%R <$> t)
      <$> subclass_spectrum bs x "power" unit_ base.
Proof.
  unfold subclass_spectrum. simpl String.eqb. cbn [orb].
  match goal with
  | |- (?S ≫= _) = _ => destruct S as [s0|e0]
  end; [|done].
  rewrite !bind_Ok.
  destruct (String.eqb (lower unit_) "per_l"); [done|].
  destruct (String.eqb (lower unit_) "per_lm").
  - apply vec_inplace_fmap. intros u v. unfold Rdiv. ring.
  - destruct (String.eqb (lower unit_) "per_dlogl"); [|done].
    apply vec_inplace_fmap. intros u v. ring.
Qed.

(** X14. For every coefficient set, every unit string and every backend,
    the spectrum in the convention 'energy' is the spectrum in the
    convention 'power' with every entry multiplied by 4 pi; where one
    raises an error, the other raises the same. *)
Theorem X14_energy_is_4pi_times_power `{SpectrumBackend} (x : SHCoeffs)
    (unit_ : string) (base : R) :
  SHCoeffs_spectrum x "energy" unit_ base
  = (λ t : list R, (λ v, v * (4 * PI))%R <$> t)
      <$> SHCoeffs_spectrum x "power" unit_ base.
Proof.
  unfold SHCoeffs_spectrum, SHRealCoeffs__spectrum, SHComplexCoeffs__spectrum.
  destruct (cls x); apply subclass_spectrum_energy.
Qed.

Lemma zip_with_l_ln x (s : list R) base :
  length s = length (degrees x) →
  zip_with Rmult s ((λ l, INR l * ln base)%R <$> degrees x)
  = imap (λ l v, v * (INR l * ln base))%R s.
Proof.
  intros E. apply list_eq. intros l.
  rewrite lookup_zip_with, list_lookup_imap.
  destruct (s !! l) as [v|] eqn:Hv; simpl; [|done].
  unfold degrees, arange in *. rewrite length_seq in E.
  rewrite list_lookup_fmap, lookup_seq_lt; [done|].
  apply lookup_lt_Some in Hv. lia.
Qed.

Lemma subclass_spectrum_per_dlogl bs x n convention base :
  lmax x = (Z.of_nat n - 1)%Z → length (bs (coeffs x)) = n →
  subclass_spectrum bs x convention "per_dlogl" base
  = imap (λ l v, v * (INR l * ln base))%R
      <$> subclass_spectrum bs x convention "per_l" base.
Proof.
  intros Hl Hb.
  destruct (subclass_spectrum_per_lm bs x n convention base Hl Hb) as [_ Hlen].
  revert Hlen. unfold subclass_spectrum.
  match goal with
  | |- context [?S ≫= _] => destruct S as [s0|e0]
  end; [|done].
  rewrite !bind_Ok. simpl String.eqb. cbv iota. intros Hlen.
  set (s1 := if String.eqb (lower convention) "energy"
             then (λ v, v * (4 * PI))%R <$> s0 else s0) in *.
  specialize (Hlen s1 eq_refl).
  assert (length (degrees x) = n) as Hd.
  { unfold degrees, arange. rewrite length_seq. lia. }
  rewrite vec_inplace_same_length by (rewrite length_fmap; lia).
  simpl. f_equal. apply zip_with_l_ln. lia.
Qed.

(** X15. For every coefficient set of the data model, every convention
    string and a base [b > 0], with a backend that returns one value per
    degree: the spectrum with unit 'per_dlogl' is the spectrum with unit
    'per_l' with the entry of each degree [l] multiplied by [l * ln b];
    both raise the same error.  So its entry of degree 0 is zero. *)
Theorem X15_per_dlogl_is_per_l_times_l_ln_base `{SpectrumBackend} (x : SHCoeffs)
    (convention : string) (base : R) :
  spectrum_lengths → wf_coeffs x → (0 < base)%R →
  SHCoeffs_spectrum x convention "per_dlogl" base
  = imap (λ l v, v * (INR l * ln base))%R
      <$> SHCoeffs_spectrum x convention "per_l" base
  ∧ ∀ s, SHCoeffs_spectrum x convention "per_dlogl" base = Ok s →
         s !! 0%nat = Some 0%R.
Proof.
  intros [HR HC] (n & Hn & Hl & Hm & Hs) Hbase.
  assert (length (SHPowerSpectrum (as_float (coeffs x))) = n) as HlenR.
  { rewrite HR. rewrite (shape3_has_shape (2, n, n)%nat); [done| |simpl; lia..].
    by apply as_float_shape. }
  assert (length (SHPowerSpectrumC (as_complex (coeffs x))) = n) as HlenC.
  { rewrite HC. rewrite (shape3_has_shape (2, n, n)%nat); [done| |simpl; lia..].
    by apply as_complex_shape. }
  assert (∀ bs, length (bs (coeffs x)) = n →
            subclass_spectrum bs x convention "per_dlogl" base
            = imap (λ l v, v * (INR l * ln base))%R
                <$> subclass_spectrum bs x convention "per_l" base
            ∧ ∀ s, subclass_spectrum bs x convention "per_dlogl" base = Ok s →
                   s !! 0%nat = Some 0%R) as Hgen.
  { intros bs Hb.
    pose proof (subclass_spectrum_per_dlogl bs x n convention base Hl Hb) as E.
    destruct (subclass_spectrum_per_lm bs x n convention base Hl Hb) as [_ Hlen].
    split; [exact E|]. intros s. rewrite E.
    intros (s' & Hs' & ->)%fmap_Ok_inv. specialize (Hlen s' Hs').
    rewrite list_lookup_imap. destruct s' as [|v s']; [simpl in Hlen; lia|].
    simpl. f_equal. ring. }
  unfold SHCoeffs_spectrum, SHRealCoeffs__spectrum, SHComplexCoeffs__spectrum.
  destruct (cls x); by apply Hgen.
Qed.

Lemma X15_per_dlogl_is_per_l_times_l_ln_base_witness :
  SHCoeffs_spectrum (H := spec_spectrum_backend) example_ortho "power"
    "per_dlogl" 10
  = imap (λ l v, v * (INR l * ln 10))%R
      <$> SHCoeffs_spectrum (H := spec_spectrum_backend) example_ortho "power"
            "per_l" 10.
Proof.
  apply (X15_per_dlogl_is_per_l_times_l_ln_base (H := spec_spectrum_backend)
           example_ortho "power" 10).
  - apply spec_spectrum_lengths.
  - exists 2%nat. split; [lia|]. repeat split.
  - lra.
Defined.

Lemma vec_inplace_Raise f s v e : vec_inplace f s v = Raise e → e = ValueError.
Proof.
  unfold vec_inplace. destruct (_ =? _)%nat; [done|].
  destruct v as [|c [|??]]; try done; by intros [= <-].
Qed.

Lemma subclass_spectrum_Raise bs x convention unit_ base e :
  subclass_spectrum bs x convention unit_ base = Raise e → e = ValueError.
Proof.
  unfold subclass_spectrum.
  match goal with
  | |- (?S ≫= _) = _ → _ => destruct S as [s0|e0] eqn:ES
  end.
  - rewrite bind_Ok.
    repeat match goal with
           | |- (if ?b then _ else _) = _ → _ => destruct b
           end; try done; try apply vec_inplace_Raise. by intros [= <-].
  - simpl. intros [= <-].
    repeat match type of ES with
           | (if ?b then _ else _) = _ => destruct b
           end; try done; try (by injection ES as <-).
    by apply vec_inplace_Raise in ES.
Qed.

(** X16. What [spectrum] rejects, for every coefficient set and every
    backend: a convention that is not power, energy or l2norm in some
    letter case, and a unit that is not per_l, per_lm or per_dlogl in
    some letter case, are a ValueError; and no call of [spectrum] raises
    anything else than ValueError. *)
Theorem X16_spectrum_rejects `{SpectrumBackend} (x : SHCoeffs)
    (convention unit_ : string) (base : R) :
  (lower convention ∉ ["power"; "energy"; "l2norm"] →
   SHCoeffs_spectrum x convention unit_ base = Raise ValueError)
  ∧ (lower unit_ ∉ ["per_l"; "per_lm"; "per_dlogl"] →
     SHCoeffs_spectrum x convention unit_ base = Raise ValueError)
  ∧ (∀ e, SHCoeffs_spectrum x convention unit_ base = Raise e → e = ValueError).
Proof.
  assert (∀ bs e, subclass_spectrum bs x convention unit_ base = Raise e →
                  e = ValueError) as Hraise
    by (intros bs e; apply subclass_spectrum_Raise).
  assert (∀ bs, lower convention ∉ ["power"; "energy"; "l2norm"] →
                subclass_spectrum bs x convention unit_ base = Raise ValueError) as Hc.
  { intros bs Hin. rewrite !not_elem_of_cons in Hin.
    destruct Hin as (H1%String.eqb_neq & H2%String.eqb_neq & H3%String.eqb_neq & _).
    unfold subclass_spectrum. by rewrite H1, H2, H3. }
  assert (∀ bs, lower unit_ ∉ ["per_l"; "per_lm"; "per_dlogl"] →
                subclass_spectrum bs x convention unit_ base = Raise ValueError) as Hu.
  { intros bs Hin. rewrite !not_elem_of_cons in Hin.
    destruct Hin as (H1%String.eqb_neq & H2%String.eqb_neq & H3%String.eqb_neq & _).
    destruct (subclass_spectrum bs x convention unit_ base) as [s|e] eqn:E.
    - exfalso. revert E. unfold subclass_spectrum.
      match goal with
      | |- (?S ≫= _) = _ → _ => destruct S as [s0|e0]
      end; [|done].
      rewrite bind_Ok. by rewrite H1, H2, H3.
    - f_equal. by apply Hraise in E. }
  unfold SHCoeffs_spectrum, SHRealCoeffs__spectrum, SHComplexCoeffs__spectrum.
  destruct (cls x); (split; [apply Hc|split; [apply Hu|apply Hraise]]).
Qed.

(** ** More on rotation and expansion *)

(** X17. [rotate] on a real coefficient set of the data model in the
    default conventions (4pi-normalized, csphase 1): the backend routine
    receives the coefficient array, the angles in radians (converted from
    degrees unless [degrees=False]) and the matrix [djpi2(lmax + 1)] when
    none is given; when what it returns has the shape of the coefficient
    array, [rotate] returns it as a coefficient set with the same degree
    and conventions, without copying it and without zeroing anything.
    With a backend that leaves the coefficients unchanged at the angles
    (0, 0, 0), [rotate(0, 0, 0)] returns a coefficient set equal to the
    instance. *)
Theorem X17_rotate_default_conventions `{RotationBackend} `{GridBackend}
    (x : SHCoeffs) (a : list3 R) (alpha beta gamma : R) (degrees : bool)
    (dj_matrix : option dj_matrix_t) :
  cls x = SHRealCoeffs → coeffs x = FloatArr a → wf_coeffs x →
  normalization x = "4pi" → csphase x = 1%Z →
  let radians v := (v * (PI / 180))%R in
  let angles := if degrees then (radians alpha, radians beta, radians gamma)
                else (alpha, beta, gamma) in
  let out := SHRotateRealCoef a angles (default (djpi2 (lmax x + 1)) dj_matrix) in
  (has_shape (shape3 a) out = true →
   SHCoeffs_rotate x alpha beta gamma degrees dj_matrix
   = Ok {| cls := SHRealCoeffs; coeffs := FloatArr out; mask := mask x;
           lmax := lmax x; normalization := "4pi"; csphase := 1 |})
  ∧ (alpha = 0%R → beta = 0%R → gamma = 0%R →
     (∀ c dj, SHRotateRealCoef c (0, 0, 0)%R dj = c) →
     SHCoeffs_rotate x alpha beta gamma degrees dj_matrix = Ok x).
Proof.
  intros Hcls Ha (n & Hn & Hl & Hm & Hs) Hnorm Hcs radians angles out.
  assert (has_shape (2, n, n)%nat a = true) as Hsa by (by rewrite Ha in Hs).
  assert (shape3 a = (2, n, n)%nat) as Hshape
    by (apply shape3_has_shape; [done|simpl; lia..]).
  assert (has_shape (shape3 a) out = true →
          SHCoeffs_rotate x alpha beta gamma degrees dj_matrix
          = Ok {| cls := SHRealCoeffs; coeffs := FloatArr out; mask := mask x;
                  lmax := lmax x; normalization := "4pi"; csphase := 1 |}) as Hgen.
  { rewrite Hshape. intros Hout.
    unfold SHCoeffs_rotate. rewrite Hcls. unfold SHRealCoeffs__rotate.
    rewrite (to_array_eq x n); simpl default; try done; try lia.
    rewrite Hl, (converted_full x n) by done.
    rewrite (arr_map_id (2, n, n)%nat); [|done|].
    2:{ intros. unfold convert_entry. rewrite Hnorm, Hcs. reflexivity. }
    rewrite bind_Ok, Hnorm, Hcs. simpl negb. cbn [orb]. rewrite Ha.
    cbn [as_float]. fold radians. fold angles. rewrite <- Hl. fold out.
    unfold call_from_array. simpl.
    rewrite from_array_eq by done.
    rewrite (subclass_init_eq _ _ _ _ _ n) by done.
    rewrite Hm, <- Hl. reflexivity. }
  split; [exact Hgen|].
  intros -> -> -> Hrot.
  assert (out = a) as Hout.
  { unfold out, angles, radians. destruct degrees; [|apply Hrot].
    rewrite Rmult_0_l. apply Hrot. }
  rewrite Hgen by (by rewrite Hout, Hshape).
  rewrite Hout, <- Ha, <- Hcls, <- Hnorm, <- Hcs. by destruct x.
Qed.

Lemma X17_rotate_default_conventions_witness :
  SHCoeffs_rotate (H := spec_rotation_backend) (H0 := spec_grid_backend)
    example_4pi 0 0 0 true None = Ok example_4pi.
Proof.
  apply (X17_rotate_default_conventions (H := spec_rotation_backend)
           (H0 := spec_grid_backend) example_4pi
           [[[5; 0]; [6; 7]]; [[0; 0]; [0; 8]]]%R 0 0 0 true None);
    try reflexivity.
  exists 2%nat. split; [lia|]. repeat split.
Defined.

Lemma DHGrid_init_inv c array copy g :
  DHGrid_init c array copy = Ok g →
  g_cls g = c ∧ g_nlat g = (a2_shape array).1 ∧ g_nlon g = (a2_shape array).2
  ∧ g_data g = a2_data array
  ∧ DH_shape (g_nlat g) (g_nlon g)
  ∧ g_lmax g = (Z.of_nat (g_nlat g) / 2 - 1)%Z
  ∧ g_sampling g = Some (if (g_nlon g =? 2 * g_nlat g)%nat then 2%Z else 1%Z).
Proof.
  unfold DHGrid_init, DH_shape. destruct (a2_shape array) as [nlat nlon].
  destruct (Nat.eqb_spec (nlat mod 2) 0) as [Heven|]; [|done]. cbn [negb].
  destruct (Nat.eqb_spec nlon (2 * nlat)) as [E|E].
  - rewrite bind_Ok. intros [= <-].
    cbn [g_cls g_nlat g_nlon g_data g_lmax g_sampling fst snd].
    rewrite E, Nat.eqb_refl. repeat split; try done. by right.
  - destruct (Nat.eqb_spec nlat nlon) as [E'|]; [|done].
    rewrite bind_Ok. intros [= <-].
    cbn [g_cls g_nlat g_nlon g_data g_lmax g_sampling fst snd].
    destruct (Nat.eqb_spec nlon (2 * nlat)); [done|].
    repeat split; try done. by left.
Qed.

Lemma DHGrid_init_Raise_inv c array copy e :
  DHGrid_init c array copy = Raise e → e = ValueError.
Proof.
  unfold DHGrid_init. destruct (a2_shape array) as [nlat nlon].
  destruct (negb _); [by intros [= <-]|].
  destruct (_ =? _)%nat; [done|]. destruct (_ =? _)%nat; [done|].
  by intros [= <-].
Qed.

Lemma GLQGrid_init_inv `{GridBackend} c array zw copy g :
  GLQGrid_init c array zw copy = Ok g →
  g_cls g = c ∧ g_nlat g = (a2_shape array).1 ∧ g_nlon g = (a2_shape array).2
  ∧ g_data g = a2_data array
  ∧ GLQ_shape (g_nlat g) (g_nlon g)
  ∧ g_lmax g = (Z.of_nat (g_nlat g) - 1)%Z.
Proof.
  unfold GLQGrid_init, GLQ_shape. destruct (a2_shape array) as [nlat nlon].
  destruct (Z.eqb_spec (Z.of_nat nlat) (Z.of_nat nlat - 1 + 1)); [|done].
  destruct (Z.eqb_spec (Z.of_nat nlon) (2 * (Z.of_nat nlat - 1) + 1)); [|done].
  simpl. intros [= <-]. simpl. repeat split; lia.
Qed.

Lemma GLQGrid_init_Raise_inv `{GridBackend} c array zw copy e :
  GLQGrid_init c array zw copy = Raise e → e = ValueError.
Proof.
  unfold GLQGrid_init. destruct (a2_shape array) as [nlat nlon].
  destruct (_ || _); [by intros [= <-]|done].
Qed.

Lemma upper_ascii_idemp c :
  let up c := let n := nat_of_ascii c in
              if (97 <=? n)%nat && (n <=? 122)%nat then ascii_of_nat (n - 32) else c in
  up (up c) = up c.
Proof.
  cbv beta zeta.
  destruct ((97 <=? nat_of_ascii c)%nat && (nat_of_ascii c <=? 122)%nat) eqn:E.
  - apply andb_true_iff in E as [E1%Nat.leb_le E2%Nat.leb_le].
    rewrite nat_ascii_embedding by lia.
    destruct (Nat.leb_spec 97 (nat_of_ascii c - 32)); [lia|]. done.
  - by rewrite E.
Qed.

Lemma upper_idemp s : upper (upper s) = upper s.
Proof.
  induction s as [|c s IH]; [done|]. simpl. rewrite IH. f_equal.
  apply upper_ascii_idemp.
Qed.

(** What [SHGrid.from_array] returns when it returns a grid. *)
Lemma SHGrid_from_array_Some `{GridBackend} array grid copy g :
  SHGrid_from_array array grid copy = Ok (Some g) →
  (grid = "DH" ∧ g_cls g = DH_class (a2_data array)
   ∧ DHGrid_init (g_cls g) array copy = Ok g)
  ∨ (grid = "GLQ" ∧ g_cls g = GLQ_class (a2_data array)
     ∧ GLQGrid_init (g_cls g) array None copy = Ok g).
Proof.
  unfold SHGrid_from_array. destruct (negb _); [done|].
  destruct (a2_data array) as [d|d]; simpl;
    destruct (String.eqb_spec grid "DH") as [->|_]; simpl;
    try (intros (g' & Hg & [= ->])%fmap_Ok_inv;
         pose proof (DHGrid_init_inv _ _ _ _ Hg) as (Hc & _); left;
         rewrite Hc; by auto);
    destruct (String.eqb_spec grid "GLQ") as [->|_]; simpl; try done;
    intros (g' & Hg & [= ->])%fmap_Ok_inv;
    pose proof (GLQGrid_init_inv _ _ _ _ _ Hg) as (Hc & _); right;
    rewrite Hc; by auto.
Qed.

Lemma SHGrid_from_array_Raise `{GridBackend} array grid copy e :
  SHGrid_from_array array grid copy = Raise e → e = ValueError.
Proof.
  unfold SHGrid_from_array. destruct (negb _); [by intros [= <-]|].
  destruct (find _ _) as [c|]; [|done].
  destruct c; simpl;
    first [ destruct (DHGrid_init _ array copy) eqn:E; simpl; [done|];
            intros [= <-]; by apply DHGrid_init_Raise_inv in E
          | destruct (GLQGrid_init _ array None copy) eqn:E; simpl; [done|];
            intros [= <-]; by apply GLQGrid_init_Raise_inv in E ].
Qed.

(** X19. The grid name of [SHGrid.from_array] is tested without regard to
    letter case but matched against the classes as it is spelled: a name
    that is not DH or GLQ in any letter case is a ValueError; a name that
    is DH or GLQ only up to letter case, such as 'dh', passes the test,
    matches no class, and the call returns [None]; and a grid is returned
    only for the names 'DH' and 'GLQ' themselves, with the class of the
    name and of the dtype and the array as its data. *)
Theorem X19_grid_name_is_matched_as_spelled `{GridBackend} (array : array2)
    (grid : string) (copy : bool) :
  (upper grid ≠ "DH" → upper grid ≠ "GLQ" →
   SHGrid_from_array array grid copy = Raise ValueError)
  ∧ (upper grid = "DH" ∨ upper grid = "GLQ" → grid ≠ "DH" → grid ≠ "GLQ" →
     SHGrid_from_array array grid copy = Ok None)
  ∧ (∀ g, SHGrid_from_array array grid copy = Ok (Some g) →
          (grid = "DH" ∨ grid = "GLQ") ∧ g_grid g = grid
          ∧ g_kind g = match a2_data array with
                       | FloatGrid _ => "real" | ComplexGrid _ => "complex"
                       end
          ∧ g_data g = a2_data array
          ∧ (g_nlat g, g_nlon g) = a2_shape array).
Proof.
  split; [|split].
  - intros H1%String.eqb_neq H2%String.eqb_neq. unfold SHGrid_from_array, str_in.
    simpl. by rewrite H1, H2.
  - intros Hup H1%String.eqb_neq H2%String.eqb_neq. unfold SHGrid_from_array.
    assert (str_in (upper grid) ["DH"; "GLQ"] = true) as ->
      by (by destruct Hup as [-> | ->]).
    destruct (a2_data array); simpl; by rewrite H1, H2.
  - intros g [(-> & Hc & Hg)|(-> & Hc & Hg)]%SHGrid_from_array_Some.
    + apply DHGrid_init_inv in Hg as (_ & Hlat & Hlon & Hd & _).
      split; [by left|]. unfold g_grid, g_kind. rewrite Hc, Hd, Hlat, Hlon.
      destruct (a2_shape array). by destruct (a2_data array).
    + apply GLQGrid_init_inv in Hg as (_ & Hlat & Hlon & Hd & _).
      split; [by right|]. unfold g_grid, g_kind. rewrite Hc, Hd, Hlat, Hlon.
      destruct (a2_shape array). by destruct (a2_data array).
Qed.

(** X18. [expand] of a coefficient set reads the grid name without regard
    to letter case: a grid name that is not DH, DH1,
    DH2 or GLQ in some letter case is a ValueError, and so is a
    normalization of the instance that is not 4pi, schmidt or ortho; the
    call raises no other error; and when it returns, it returns a grid
    (never [None]) of the kind of the coefficient set, a DH grid for the
    three DH names and a GLQ grid for GLQ, whose shape satisfies the
    constraints of that grid type whatever the backend returned. *)
Theorem X18_expand_returns_a_grid_of_the_kind `{GridBackend} (x : SHCoeffs)
    (grid : string) :
  SHCoeffs_expand x (upper grid) = SHCoeffs_expand x grid
  ∧ (upper grid ∉ ["DH"; "DH1"; "DH2"; "GLQ"] →
     SHCoeffs_expand x grid = Raise ValueError)
  ∧ (normalization x ∉ normalizations →
     SHCoeffs_expand x grid = Raise ValueError)
  ∧ (∀ e, SHCoeffs_expand x grid = Raise e → e = ValueError)
  ∧ (∀ r, SHCoeffs_expand x grid = Ok r →
       ∃ g, r = Some g ∧ g_kind g = kind x
            ∧ g_grid g = (if String.eqb (upper grid) "GLQ" then "GLQ" else "DH")
            ∧ (if String.eqb (upper grid) "GLQ"
               then GLQ_shape (g_nlat g) (g_nlon g)
                    ∧ g_lmax g = (Z.of_nat (g_nlat g) - 1)%Z
               else DH_shape (g_nlat g) (g_nlon g)
                    ∧ g_lmax g = (Z.of_nat (g_nlat g) / 2 - 1)%Z)).
Proof.
  split; [unfold SHCoeffs_expand; by rewrite upper_idemp|].
  assert (∀ sampling r,
            (match cls x with
             | SHRealCoeffs => SHRealCoeffs__expandDH x
             | SHComplexCoeffs => SHComplexCoeffs__expandDH x
             end) sampling = r →
            (normalization x ∉ normalizations → r = Raise ValueError)
            ∧ (∀ e, r = Raise e → e = ValueError)
            ∧ (∀ o, r = Ok o →
                 ∃ g, o = Some g ∧ g_kind g = kind x ∧ g_grid g = "DH"
                      ∧ DH_shape (g_nlat g) (g_nlon g)
                      ∧ g_lmax g = (Z.of_nat (g_nlat g) / 2 - 1)%Z)) as HDH.
  { intros sampling r <-.
    unfold SHRealCoeffs__expandDH, SHComplexCoeffs__expandDH, kind, norm_code.
    split; [|split].
    - unfold normalizations. rewrite !not_elem_of_cons.
      intros (H1%String.eqb_neq & H2%String.eqb_neq & H3%String.eqb_neq & _).
      rewrite H1, H2, H3. by destruct (cls x).
    - intros e.
      destruct (cls x);
        repeat match goal with
               | |- context [String.eqb (normalization x) ?s] =>
                   destruct (String.eqb (normalization x) s)
               end; simpl; try (by intros [= <-]);
        apply SHGrid_from_array_Raise.
    - intros o.
      destruct (cls x);
        repeat match goal with
               | |- context [String.eqb (normalization x) ?s] =>
                   destruct (String.eqb (normalization x) s)
               end; simpl; try done;
        rewrite SHGrid_from_array_DH; simpl;
        intros (g & Hg & ->)%fmap_Ok_inv; exists g;
        apply DHGrid_init_inv in Hg as (Hc & _ & _ & _ & Hs & Hl & _);
        unfold g_kind, g_grid; rewrite Hc; auto. }
  assert (∀ r,
            (match cls x with
             | SHRealCoeffs => SHRealCoeffs__expandGLQ x
             | SHComplexCoeffs => SHComplexCoeffs__expandGLQ x
             end) None = r →
            (normalization x ∉ normalizations → r = Raise ValueError)
            ∧ (∀ e, r = Raise e → e = ValueError)
            ∧ (∀ o, r = Ok o →
                 ∃ g, o = Some g ∧ g_kind g = kind x ∧ g_grid g = "GLQ"
                      ∧ GLQ_shape (g_nlat g) (g_nlon g)
                      ∧ g_lmax g = (Z.of_nat (g_nlat g) - 1)%Z)) as HGLQ.
  { intros r <-.
    unfold SHRealCoeffs__expandGLQ, SHComplexCoeffs__expandGLQ, kind, norm_code.
    split; [|split].
    - unfold normalizations. rewrite !not_elem_of_cons.
      intros (H1%String.eqb_neq & H2%String.eqb_neq & H3%String.eqb_neq & _).
      rewrite H1, H2, H3. by destruct (cls x).
    - intros e.
      destruct (cls x);
        repeat match goal with
               | |- context [String.eqb (normalization x) ?s] =>
                   destruct (String.eqb (normalization x) s)
               end; simpl; try (by intros [= <-]);
        apply SHGrid_from_array_Raise.
    - intros o.
      destruct (cls x);
        repeat match goal with
               | |- context [String.eqb (normalization x) ?s] =>
                   destruct (String.eqb (normalization x) s)
               end; simpl; try done;
        rewrite SHGrid_from_array_GLQ; simpl;
        intros (g & Hg & ->)%fmap_Ok_inv; exists g;
        apply GLQGrid_init_inv in Hg as (Hc & _ & _ & _ & Hs & Hl);
        unfold g_kind, g_grid; rewrite Hc; auto. }
  unfold SHCoeffs_expand.
  destruct (String.eqb_spec (upper grid) "DH") as [E1|N1]; cbn [orb].
  { rewrite E1. simpl String.eqb. cbv iota.
    destruct (HDH 1%Z _ eq_refl) as (Hn & He & Ho).
    split; [rewrite !not_elem_of_cons; tauto|]. auto. }
  destruct (String.eqb_spec (upper grid) "DH1") as [E2|N2].
  { rewrite E2. simpl String.eqb. cbv iota.
    destruct (HDH 1%Z _ eq_refl) as (Hn & He & Ho).
    split; [rewrite !not_elem_of_cons; tauto|]. auto. }
  destruct (String.eqb_spec (upper grid) "DH2") as [E3|N3].
  { rewrite E3. simpl String.eqb. cbv iota.
    destruct (HDH 2%Z _ eq_refl) as (Hn & He & Ho).
    split; [rewrite !not_elem_of_cons; tauto|]. auto. }
  destruct (String.eqb_spec (upper grid) "GLQ") as [E4|N4].
  { destruct (HGLQ _ eq_refl) as (Hn & He & Ho).
    split; [rewrite !not_elem_of_cons; tauto|]. auto. }
  split; [done|]. split; [done|]. split; [by intros e [= <-]|done].
Qed.

(** ** More of [SHGrid] *)

Lemma linspace_length start stop num : length (linspace start stop num) = num.
Proof.
  destruct num as [|[|num]]; [done..|].
  unfold linspace. by rewrite length_fmap, length_seq.
Qed.

Lemma linspace_lookup start stop num i :
  (i < num)%nat →
  linspace start stop num !! i
  = Some (if (num =? 1)%nat then start
          else (start + INR i * ((stop - start) / INR (num - 1)))%R).
Proof.
  intros Hi. destruct num as [|[|num]]; [lia| |].
  - by replace i with 0%nat by lia.
  - unfold linspace. rewrite list_lookup_fmap, lookup_seq_lt by done. done.
Qed.

(** The nodes of an equally spaced axis that leaves out its end point. *)
Lemma linspace_open start len num i :
  (i < num)%nat →
  linspace start (start + len - len / INR num) num !! i
  = Some (start + INR i * (len / INR num))%R.
Proof.
  intros Hi. rewrite linspace_lookup by done.
  destruct num as [|[|num]]; [lia| |].
  - replace i with 0%nat by lia. simpl. f_equal. lra.
  - cbn [Nat.eqb]. f_equal. f_equal. f_equal.
    replace (S (S num) - 1)%nat with (S num) by lia.
    rewrite !S_INR. pose proof (pos_INR num). field. lra.
Qed.

Lemma frac_bounds (a b : R) : (0 <= a)%R → (a < b)%R → (0 <= a / b < 1)%R.
Proof.
  intros Ha Hb. assert (0 < / b)%R by (apply Rinv_0_lt_compat; lra).
  split; [unfold Rdiv; apply Rmult_le_pos; lra|].
  apply (Rmult_lt_reg_r b); [lra|].
  replace (a / b * b)%R with a by (field; lra). lra.
Qed.

(** X22. Latitudes and longitudes of the nodes of a grid with at least
    one row and one column.  On a DH grid [lats()] has [nlat] entries, the
    [i]-th being [90 - 180 i / nlat] degrees: the first row is the north
    pole and the south pole is not a row.  On any grid class [lons()]
    has [nlon] entries, the [j]-th being [360 j / nlon] degrees, so all
    are at least 0 and below 360.  With [degrees=False] the same values
    are returned in radians.  On a grid without rows or columns the
    division by their number fails. *)
Theorem X22_grid_nodes (self : SHGrid) :
  ((0 < g_nlat self)%nat →
   ∃ lats, DHGrid_lats self true = Some lats
           ∧ length lats = g_nlat self
           ∧ (∀ i, (i < g_nlat self)%nat →
                   lats !! i = Some (90 - 180 * INR i / INR (g_nlat self))%R)
           ∧ (∀ v, v ∈ lats → (-90 < v <= 90)%R)
           ∧ DHGrid_lats self false = Some (np_radians lats))
  ∧ ((0 < g_nlon self)%nat →
     ∃ lons, SHGrid_lons self true = Some lons
             ∧ length lons = g_nlon self
             ∧ (∀ j, (j < g_nlon self)%nat →
                     lons !! j = Some (360 * INR j / INR (g_nlon self))%R)
             ∧ (∀ v, v ∈ lons → (0 <= v < 360)%R)
             ∧ SHGrid_lons self false = Some (np_radians lons))
  ∧ (g_nlat self = 0%nat → ∀ degrees, DHGrid_lats self degrees = None)
  ∧ (g_nlon self = 0%nat → ∀ degrees, SHGrid_lons self degrees = None).
Proof.
  split; [|split; [|split]].
  - intros Hn. unfold DHGrid_lats, DHGrid__lats. cbn [negb].
    destruct (Nat.eqb_spec (g_nlat self) 0) as [|_]; [lia|].
    set (n := g_nlat self) in *.
    assert (0 < INR n)%R as Hpos by (apply lt_0_INR; lia).
    assert (∀ i, (i < n)%nat →
              linspace 90 (-90 + 180 / INR n) n !! i
              = Some (90 - 180 * INR i / INR n)%R) as Hget.
    { intros i Hi.
      replace (-90 + 180 / INR n)%R with (90 + -180 - -180 / INR n)%R
        by (field; lra).
      rewrite linspace_open by done. f_equal. field. lra. }
    eexists. split; [reflexivity|]. split; [apply linspace_length|].
    split; [exact Hget|]. split; [|done].
    intros v (i & Hv)%list_elem_of_lookup_1.
    pose proof (lookup_lt_Some _ _ _ Hv) as Hi. rewrite linspace_length in Hi.
    rewrite Hget in Hv by done. injection Hv as <-.
    assert (0 <= INR i)%R by apply pos_INR.
    assert (INR i < INR n)%R by (by apply lt_INR).
    destruct (frac_bounds (INR i) (INR n)) as [Hlo Hhi]; [lra..|].
    replace (180 * INR i / INR n)%R with (180 * (INR i / INR n))%R by (field; lra).
    lra.
  - intros Hn. unfold SHGrid_lons, SHGrid__lons. cbn [negb].
    destruct (Nat.eqb_spec (g_nlon self) 0) as [|_]; [lia|].
    set (n := g_nlon self) in *.
    assert (0 < INR n)%R as Hpos by (apply lt_0_INR; lia).
    assert (∀ j, (j < n)%nat →
              linspace 0 (360 - 360 / INR n) n !! j
              = Some (360 * INR j / INR n)%R) as Hget.
    { intros j Hj.
      replace (360 - 360 / INR n)%R with (0 + 360 - 360 / INR n)%R by lra.
      rewrite linspace_open by done. f_equal. field. lra. }
    eexists. split; [reflexivity|]. split; [apply linspace_length|].
    split; [exact Hget|]. split; [|done].
    intros v (j & Hv)%list_elem_of_lookup_1.
    pose proof (lookup_lt_Some _ _ _ Hv) as Hj. rewrite linspace_length in Hj.
    rewrite Hget in Hv by done. injection Hv as <-.
    assert (0 <= INR j)%R by apply pos_INR.
    assert (INR j < INR n)%R by (by apply lt_INR).
    destruct (frac_bounds (INR j) (INR n)) as [Hlo Hhi]; [lra..|].
    replace (360 * INR j / INR n)%R with (360 * (INR j / INR n))%R by (field; lra).
    lra.
  - intros E degrees. unfold DHGrid_lats, DHGrid__lats. rewrite E.
    by destruct degrees.
  - intros E degrees. unfold SHGrid_lons, SHGrid__lons. rewrite E.
    by destruct degrees.
Qed.

(** What the two constructors return on an array of a fitting shape. *)
Lemma DHGrid_init_eq c nlat nlon d copy :
  DH_shape nlat nlon →
  DHGrid_init c (mkArray2 (nlat, nlon) d) copy
  = Ok {| g_cls := c; g_nlat := nlat; g_nlon := nlon;
          g_lmax := (Z.of_nat nlat / 2 - 1)%Z;
          g_sampling := Some (if (nlon =? 2 * nlat)%nat then 2%Z else 1%Z);
          g_data := d; g_zeros_weights := None |}.
Proof.
  intros [Heven Hs]. unfold DHGrid_init. cbn [a2_shape a2_data].
  rewrite (proj2 (Nat.eqb_eq _ _) Heven). cbn [negb].
  destruct (Nat.eqb_spec nlon (2 * nlat)); [done|].
  destruct (Nat.eqb_spec nlat nlon); [done|lia].
Qed.

Lemma DHGrid_init_odd c array copy :
  ((a2_shape array).1 mod 2 ≠ 0)%nat →
  DHGrid_init c array copy = Raise ValueError.
Proof.
  unfold DHGrid_init. destruct (a2_shape array) as [nlat nlon]. cbn [fst].
  intros Hodd. by destruct (Nat.eqb_spec (nlat mod 2) 0).
Qed.

Lemma GLQGrid_init_eq `{GridBackend} c nlat nlon d copy :
  GLQ_shape nlat nlon →
  GLQGrid_init c (mkArray2 (nlat, nlon) d) None copy
  = Ok {| g_cls := c; g_nlat := nlat; g_nlon := nlon;
          g_lmax := (Z.of_nat nlat - 1)%Z; g_sampling := None;
          g_data := d;
          g_zeros_weights := Some (SHGLQ (Z.of_nat nlat - 1)) |}.
Proof.
  unfold GLQ_shape, GLQGrid_init. intros Hs. cbn [a2_shape a2_data].
  destruct (Z.eqb_spec (Z.of_nat nlat) (Z.of_nat nlat - 1 + 1)); [|lia].
  destruct (Z.eqb_spec (Z.of_nat nlon) (2 * (Z.of_nat nlat - 1) + 1)); [|lia].
  done.
Qed.

(** [SHGrid.from_file] on an array of rank 2, by its shape. *)
Lemma SHGrid_from_file_data_shape `{GridBackend} (data : array2) :
  let nlat := (a2_shape data).1 in
  let nlon := (a2_shape data).2 in
  SHGrid_from_file_data data ≠ Ok None
  ∧ (DH_shape nlat nlon →
     SHGrid_from_file_data data
     = Ok (Some {| g_cls := DH_class (a2_data data);
                   g_nlat := nlat; g_nlon := nlon;
                   g_lmax := (Z.of_nat nlat / 2 - 1)%Z;
                   g_sampling := Some (if (nlon =? 2 * nlat)%nat
                                       then 2%Z else 1%Z);
                   g_data := a2_data data;
                   g_zeros_weights := None |}))
  ∧ (GLQ_shape nlat nlon → nlat ≠ 1%nat →
     SHGrid_from_file_data data
     = Ok (Some {| g_cls := GLQ_class (a2_data data);
                   g_nlat := nlat; g_nlon := nlon;
                   g_lmax := (Z.of_nat nlat - 1)%Z;
                   g_sampling := None;
                   g_data := a2_data data;
                   g_zeros_weights := Some (SHGLQ (Z.of_nat nlat - 1)) |}))
  ∧ (¬ DH_shape nlat nlon → ¬ (GLQ_shape nlat nlon ∧ nlat ≠ 1%nat) →
     SHGrid_from_file_data data = Raise ValueError).
Proof.
  unfold SHGrid_from_file_data. revert data.
  assert (∀ data : array2,
            let nlat := (a2_shape data).1 in
            let nlon := (a2_shape data).2 in
            let r := (let kind := match a2_data data with
                                  | ComplexGrid _ => "complex"
                                  | FloatGrid _ => "real" end in
                      let '(nlat, nlon) := a2_shape data in
                      grid ← (if (nlon =? nlat)%nat || (nlon =? 2 * nlat)%nat
                              then Ok "DH"
                              else if (Z.of_nat nlon =? 2 * Z.of_nat nlat - 1)%Z
                                   then Ok "GLQ"
                                   else Raise ValueError);
                      match find (λ c, grid_istype c kind && isgrid c grid)
                                 [DHRealGrid; DHComplexGrid; GLQRealGrid;
                                  GLQComplexGrid] with
                      | Some c => Some <$> grid_init c data true
                      | None => Ok None
                      end) in
            r ≠ Ok None
            ∧ (DH_shape nlat nlon →
               r = Ok (Some {| g_cls := DH_class (a2_data data);
                               g_nlat := nlat; g_nlon := nlon;
                               g_lmax := (Z.of_nat nlat / 2 - 1)%Z;
                               g_sampling := Some (if (nlon =? 2 * nlat)%nat
                                                   then 2%Z else 1%Z);
                               g_data := a2_data data;
                               g_zeros_weights := None |}))
            ∧ (GLQ_shape nlat nlon → nlat ≠ 1%nat →
               r = Ok (Some {| g_cls := GLQ_class (a2_data data);
                               g_nlat := nlat; g_nlon := nlon;
                               g_lmax := (Z.of_nat nlat - 1)%Z;
                               g_sampling := None;
                               g_data := a2_data data;
                               g_zeros_weights :=
                                 Some (SHGLQ (Z.of_nat nlat - 1)) |}))
            ∧ (¬ DH_shape nlat nlon → ¬ (GLQ_shape nlat nlon ∧ nlat ≠ 1%nat) →
               r = Raise ValueError)) as Hbody.
  { intros [[nlat nlon] d]. cbn [a2_shape a2_data fst snd]. cbv zeta.
    unfold DH_shape, GLQ_shape.
    destruct (Nat.eqb_spec nlon nlat) as [E1|N1];
      [|destruct (Nat.eqb_spec nlon (2 * nlat)) as [E2|N2]]; cbn [orb].
    1, 2: rewrite bind_Ok;
      assert (find (λ c, grid_istype c
                           match d with
                           | ComplexGrid _ => "complex" | FloatGrid _ => "real"
                           end && isgrid c "DH")
                [DHRealGrid; DHComplexGrid; GLQRealGrid; GLQComplexGrid]
              = Some (DH_class d)) as -> by (by destruct d);
      assert (grid_init (DH_class d) (mkArray2 (nlat, nlon) d) true
              = DHGrid_init (DH_class d) (mkArray2 (nlat, nlon) d) true) as ->
        by (by destruct d);
      (destruct (Nat.eq_dec (nlat mod 2) 0) as [Heven|Hodd];
       [ rewrite DHGrid_init_eq by (split; [done|lia]);
         repeat split; try done; intros;
         first [lia | destruct (Nat.eqb_spec nlon (2 * nlat)); first [done|lia]]
       | rewrite DHGrid_init_odd by done;
         repeat split; try done; intros; lia ]).
    destruct (Z.eqb_spec (Z.of_nat nlon) (2 * Z.of_nat nlat - 1)) as [E3|N3].
    - rewrite bind_Ok.
      assert (find (λ c, grid_istype c
                           match d with
                           | ComplexGrid _ => "complex" | FloatGrid _ => "real"
                           end && isgrid c "GLQ")
                [DHRealGrid; DHComplexGrid; GLQRealGrid; GLQComplexGrid]
              = Some (GLQ_class d)) as -> by (by destruct d).
      assert (grid_init (GLQ_class d) (mkArray2 (nlat, nlon) d) true
              = GLQGrid_init (GLQ_class d) (mkArray2 (nlat, nlon) d) None true)
        as -> by (by destruct d).
      rewrite GLQGrid_init_eq by done.
      repeat split; try done; intros; lia.
    - repeat split; try done; intros; lia. }
  exact Hbody.
Qed.

(** X20. [SHGrid.from_file].  For a [binary] that is neither [True] nor
    [False] the call raises ValueError when it is a [str] or an [int], and
    TypeError when it is [None], for which the message of the ValueError
    cannot be formatted.  With [binary=False] the text file is read by
    [numpy.loadtxt]: rows of different lengths are a ValueError, and a
    file of at most one row or at most one column (also 1 x 1) gives an
    array of rank below 2, on which the call raises IndexError.  With
    [binary=True] the array of [numpy.load] is used: a rank below 2 is an
    IndexError and a rank above 2 a ValueError.  An array of rank 2 is
    read by its shape [(nlat, nlon)], DH first: for [nlat] even and [nlon]
    equal to [nlat] or [2*nlat] the result is a DH grid of the dtype of
    the array, with the array as data and [lmax = nlat/2 - 1]; for
    [nlon = 2*nlat - 1] and [nlat] other than 1 it is a GLQ grid with
    [lmax = nlat - 1]; for every other shape it is a ValueError.  One of
    these other shapes is (1, 1), the shape of the GLQ grid of degree 0,
    which [binary=True] can read: it passes the DH test and the DH
    constructor rejects its odd [nlat].  The call never returns [None]. *)
Theorem X20_from_file_reads_the_grid_off_the_shape `{GridBackend}
    `{GridFileBackend} (fname : string) (binary : pyarg) :
  (binary = PyNone → SHGrid_from_file fname binary = Raise TypeError)
  ∧ (∀ v, binary = PyVal v → (∀ b, v ≠ PyBool b) →
          SHGrid_from_file fname binary = Raise ValueError)
  ∧ SHGrid_from_file fname binary ≠ Ok None
  ∧ (binary = PyVal (PyBool false) →
     let rows := text_table fname in
     (has_shape2 (shape2 rows) rows = false →
      SHGrid_from_file fname binary = Raise ValueError)
     ∧ (has_shape2 (shape2 rows) rows = true →
        (length rows ≤ 1 ∨ length (hd [] rows) ≤ 1)%nat →
        SHGrid_from_file fname binary = Raise IndexError)
     ∧ (has_shape2 (shape2 rows) rows = true →
        (1 < length rows)%nat → (1 < length (hd [] rows))%nat →
        SHGrid_from_file fname binary
        = SHGrid_from_file_data
            (mkArray2 (length rows, length (hd [] rows)) (FloatGrid rows))))
  ∧ (binary = PyVal (PyBool true) →
     (np_load_grid fname = RankLow →
      SHGrid_from_file fname binary = Raise IndexError)
     ∧ (np_load_grid fname = RankHigh →
        SHGrid_from_file fname binary = Raise ValueError)
     ∧ (∀ data, np_load_grid fname = Rank2 data →
          SHGrid_from_file fname binary = SHGrid_from_file_data data
          ∧ (a2_shape data = (1, 1)%nat →
             SHGrid_from_file fname binary = Raise ValueError)))
  ∧ (∀ data : array2,
       let nlat := (a2_shape data).1 in
       let nlon := (a2_shape data).2 in
       (DH_shape nlat nlon →
        SHGrid_from_file_data data
        = Ok (Some {| g_cls := DH_class (a2_data data);
                      g_nlat := nlat; g_nlon := nlon;
                      g_lmax := (Z.of_nat nlat / 2 - 1)%Z;
                      g_sampling := Some (if (nlon =? 2 * nlat)%nat then 2%Z
                                          else 1%Z);
                      g_data := a2_data data; g_zeros_weights := None |}))
       ∧ (GLQ_shape nlat nlon → nlat ≠ 1%nat →
          SHGrid_from_file_data data
          = Ok (Some {| g_cls := GLQ_class (a2_data data);
                        g_nlat := nlat; g_nlon := nlon;
                        g_lmax := (Z.of_nat nlat - 1)%Z; g_sampling := None;
                        g_data := a2_data data;
                        g_zeros_weights := Some (SHGLQ (Z.of_nat nlat - 1)) |}))
       ∧ (¬ DH_shape nlat nlon → ¬ (GLQ_shape nlat nlon ∧ nlat ≠ 1%nat) →
          SHGrid_from_file_data data = Raise ValueError)).
Proof.
  split; [by intros ->|]. split.
  { intros v -> Hv. destruct v as [s|z|b]; [done..|]. by destruct (Hv b). }
  split.
  { unfold SHGrid_from_file.
    destruct binary as [[s|z|[|]]|]; try done.
    - destruct (np_load_grid fname) as [|data|]; try done.
      apply SHGrid_from_file_data_shape.
    - unfold np_loadtxt. destruct (negb _); [done|].
      destruct (_ || _); [done|]. apply SHGrid_from_file_data_shape. }
  split.
  { intros -> rows. unfold SHGrid_from_file, np_loadtxt. fold rows.
    split; [by intros ->|].
    split; intros ->; cbn [negb shape2 fst snd].
    - intros Hsmall.
      assert ((length rows <=? 1)%nat || (length (hd [] rows) <=? 1)%nat = true)
        as ->; [|done].
      apply orb_true_iff. rewrite !Nat.leb_le. lia.
    - intros H1 H2.
      destruct (Nat.leb_spec (length rows) 1); [lia|].
      destruct (Nat.leb_spec (length (hd [] rows)) 1); [lia|]. done. }
  split.
  { intros ->. unfold SHGrid_from_file.
    split; [by intros ->|]. split; [by intros ->|].
    intros data ->. split; [done|]. intros Hs. rewrite bind_Ok. cbv iota.
    destruct (SHGrid_from_file_data_shape data) as (_ & _ & _ & Helse).
    apply Helse; rewrite Hs; cbn [fst snd]; unfold DH_shape; simpl;
      intros ?; lia. }
  intros data. destruct (SHGrid_from_file_data_shape data) as (_ & ? & ? & ?).
  auto.
Qed.

(** The attributes of a grid that [SHGrid.from_array] returned. *)
Lemma built_grid_inv `{GridBackend} g :
  built_grid g →
  (g_cls g = DH_class (g_data g) ∧ DH_shape (g_nlat g) (g_nlon g)
   ∧ g_lmax g = (Z.of_nat (g_nlat g) / 2 - 1)%Z
   ∧ g_sampling g = Some (if (g_nlon g =? 2 * g_nlat g)%nat then 2%Z else 1%Z)
   ∧ g_zeros_weights g = None)
  ∨ (g_cls g = GLQ_class (g_data g) ∧ GLQ_shape (g_nlat g) (g_nlon g)
     ∧ g_lmax g = (Z.of_nat (g_nlat g) - 1)%Z
     ∧ g_sampling g = None
     ∧ g_zeros_weights g = Some (SHGLQ (Z.of_nat (g_nlat g) - 1))).
Proof.
  intros (array & copy & [(_ & Hc & Hi)|(_ & Hc & Hi)]%SHGrid_from_array_Some).
  - pose proof (DHGrid_init_inv _ _ _ _ Hi) as (_ & Hlat & Hlon & Hd & Hs & _).
    destruct array as [[nlat nlon] d]. cbn [a2_shape a2_data fst snd] in *.
    rewrite Hlat, Hlon in Hs. rewrite DHGrid_init_eq in Hi by done.
    injection Hi as <-. cbn. left. by rewrite Hc.
  - pose proof (GLQGrid_init_inv _ _ _ _ _ Hi) as (_ & Hlat & Hlon & Hd & Hs & _).
    destruct array as [[nlat nlon] d]. cbn [a2_shape a2_data fst snd] in *.
    rewrite Hlat, Hlon in Hs. rewrite GLQGrid_init_eq in Hi by done.
    injection Hi as <-. cbn. right. by rewrite Hc.
Qed.

(** [SHGrid.from_array(d, grid=g.grid)] for an array [d] of the shape of
    a grid [g] that [from_array] returned. *)
Lemma grid_rebuild `{GridBackend} g d :
  built_grid g →
  SHGrid_from_array (mkArray2 (g_nlat g, g_nlon g) d) (g_grid g) true
  = Ok (Some (with_data g d)).
Proof.
  intros [(Hc & Hs & Hl & Hsa & Hz)|(Hc & Hs & Hl & Hsa & Hz)]%built_grid_inv.
  - assert (g_grid g = "DH") as -> by (unfold g_grid; rewrite Hc; by destruct (g_data g)).
    rewrite SHGrid_from_array_DH. cbn [a2_data]. rewrite DHGrid_init_eq by done.
    unfold with_data. rewrite Hl, Hsa, Hz, Hc. by destruct (g_data g).
  - assert (g_grid g = "GLQ") as -> by (unfold g_grid; rewrite Hc; by destruct (g_data g)).
    rewrite SHGrid_from_array_GLQ. cbn [a2_data]. rewrite GLQGrid_init_eq by done.
    unfold with_data. rewrite Hl, Hsa, Hz, Hc. by destruct (g_data g).
Qed.

Lemma built_grid_dtype `{GridBackend} g :
  built_grid g →
  g_kind g = match g_data g with FloatGrid _ => "real" | ComplexGrid _ => "complex" end.
Proof.
  intros [(Hc & _)|(Hc & _)]%built_grid_inv; unfold g_kind; rewrite Hc;
    by destruct (g_data g).
Qed.

Lemma grid_apply_op_eq `{GridBackend} op :
  grid_apply_op op = SHGrid_binary_operator (num_op op) false.
Proof. by destruct op. Qed.

Lemma grid_compatible_test s o :
  String.eqb (g_grid s) (g_grid o)
  && ((g_nlat s =? g_nlat o)%nat && (g_nlon s =? g_nlon o)%nat)
  && String.eqb (g_kind s) (g_kind o) = true
  ↔ grid_compatible s o.
Proof.
  unfold grid_compatible.
  rewrite !andb_true_iff, !String.eqb_eq, !Nat.eqb_eq. split.
  - intros [[-> [-> ->]] ->]. done.
  - intros (-> & [= -> ->] & ->). done.
Qed.

(** X21. The operators [+], [-] and [*] of [SHGrid], for a grid that
    [SHGrid.from_array] returned.  With a second such grid of the same
    grid type, shape and kind the result is a grid of the class, shape,
    degree and sampling of the first, whose entries are the sums,
    differences or products of the entries; with a grid that differs in
    grid type, shape or kind it is a ValueError.  With a number the result
    is a grid of the same grid type and shape, with the number applied to
    every entry: a float leaves the class as it is, and a complex number
    gives a complex grid also on a real grid.  A string, which
    [numpy.isscalar] accepts like a number, is a TypeError raised by the
    array arithmetic; an operand that [numpy.isscalar] rejects is a
    NotImplementedError.  The operators never return [None]. *)
Theorem X21_grid_operators `{GridBackend} (op : arith_op) (self other : SHGrid) :
  op ≠ OpDiv → built_grid self → built_grid other →
  (grid_compatible self other →
   let data := grid_zip (num_op op) (g_data self) (g_data other) in
   grid_apply_op op self (GGrid other) = Ok (Some (with_data self data))
   ∧ g_cls (with_data self data) = g_cls self
   ∧ (∀ x y, g_data self = FloatGrid x → g_data other = FloatGrid y →
             data = FloatGrid (zip_with (zip_with (real_op op)) x y)))
  ∧ (¬ grid_compatible self other →
     grid_apply_op op self (GGrid other) = Raise ValueError)
  ∧ (∀ s, let data := grid_scalar (num_op op) false (g_data self) s in
          grid_apply_op op self (GScalar s) = Ok (Some (with_data self data))
          ∧ g_grid (with_data self data) = g_grid self
          ∧ match s with
            | PyFloat c =>
                g_cls (with_data self data) = g_cls self
                ∧ ∀ x, g_data self = FloatGrid x →
                       data = FloatGrid (map2 (λ v, real_op op v c) x)
            | PyComplex _ => g_kind (with_data self data) = "complex"
            end)
  ∧ (∀ s, grid_apply_op op self (GStr s) = Raise TypeError)
  ∧ grid_apply_op op self GOther = Raise NotImplementedError
  ∧ (∀ other', grid_apply_op op self other' ≠ Ok None).
Proof.
  intros Hop Hs Ho. rewrite grid_apply_op_eq.
  pose proof (built_grid_dtype _ Hs) as Hks.
  pose proof (built_grid_dtype _ Ho) as Hko.
  split; [|split; [|split; [|split; [done|split; [done|]]]]].
  4: { intros [o|sc|str|]; unfold SHGrid_binary_operator; [| |done..].
       - destruct (_ && _ && _); [|done]. by rewrite grid_rebuild.
       - by rewrite grid_rebuild. }
  - intros Hcomp. pose proof Hcomp as (_ & _ & Hk).
    apply grid_compatible_test in Hcomp. cbv zeta.
    unfold SHGrid_binary_operator. rewrite Hcomp.
    split; [by apply grid_rebuild|]. split.
    + unfold with_data. cbn [g_cls]. rewrite Hks, Hko in Hk.
      apply built_grid_inv in Hs as [(Hc & _)|(Hc & _)]; rewrite Hc;
        by destruct (g_data self), (g_data other).
    + intros x y -> ->. by destruct op.
  - intros Hn. unfold SHGrid_binary_operator.
    destruct (_ && _ && _) eqn:E; [|done].
    by apply grid_compatible_test in E.
  - intros s. cbv zeta. unfold SHGrid_binary_operator.
    split; [by apply grid_rebuild|]. split.
    + unfold g_grid, with_data. cbn [g_cls].
      by destruct (g_cls self), (grid_scalar _ _ _ _).
    + destruct s as [c|z].
      * split.
        -- unfold with_data. cbn [g_cls].
           apply built_grid_inv in Hs as [(Hc & _)|(Hc & _)]; rewrite Hc;
             by destruct (g_data self).
        -- intros x ->. by destruct op.
      * unfold g_kind, with_data. cbn [g_cls].
        by destruct (g_cls self), (g_data self).
Qed.

Lemma X21_grid_operators_witness :
  grid_apply_op (H := spec_grid_backend) OpAdd example_grid (GGrid example_grid)
  = Ok (Some (with_data example_grid
                (grid_zip (num_op OpAdd) (g_data example_grid)
                          (g_data example_grid)))).
Proof.
  assert (built_grid (H := spec_grid_backend) example_grid) as Hb.
  { exists (mkArray2 (2, 2)%nat (FloatGrid [[1; 2]; [3; 4]]%R)), true.
    reflexivity. }
  apply (X21_grid_operators (H := spec_grid_backend) OpAdd example_grid
           example_grid); [done|exact Hb|exact Hb|].
  repeat split.
Defined.

Lemma zip_with2_comm {A D} (f : A → A → D) (a b : list (list A)) :
  (∀ u v, f u v = f v u) →
  zip_with (zip_with f) a b = zip_with (zip_with f) b a.
Proof.
  intros Hf. revert b. induction a as [|r a IH]; intros [|r' b]; simpl; try done.
  f_equal; [|apply IH].
  revert r'. induction r as [|u r IHr]; intros [|v r']; simpl; try done.
  by rewrite Hf, IHr.
Qed.

Lemma grid_zip_comm (f : ∀ K, Num K → K → K → K) a b :
  (∀ u v : R, f R _ u v = f R _ v u) → (∀ u v : C, f C _ u v = f C _ v u) →
  grid_zip f a b = grid_zip f b a.
Proof.
  intros HR HC. destruct a as [x|x], b as [y|y]; simpl; f_equal;
    by apply zip_with2_comm.
Qed.

Lemma with_data_compatible `{GridBackend} s o d :
  built_grid s → built_grid o → grid_compatible s o →
  with_data s d = with_data o d.
Proof.
  intros Hs Ho (Hg & [= Hlat Hlon] & Hk). unfold with_data.
  apply built_grid_inv in Hs as [(Hc & _ & Hl & Hsa & Hz)|(Hc & _ & Hl & Hsa & Hz)];
    apply built_grid_inv in Ho as [(Hc' & _ & Hl' & Hsa' & Hz')|(Hc' & _ & Hl' & Hsa' & Hz')];
    unfold g_grid in Hg; rewrite Hc, Hc' in Hg;
    try (by destruct (g_data s), (g_data o));
    rewrite Hl, Hsa, Hz, Hl', Hsa', Hz', Hc, Hc', Hlat, Hlon;
    by destruct (g_data s), (g_data o).
Qed.

(** X23. For two grids that [SHGrid.from_array] returned, of the same
    grid type, shape and kind: addition and multiplication do not depend
    on the order of the operands, [__radd__] and [__rmul__] are [__add__]
    and [__mul__], and the reflected subtraction [self.__rsub__(other)] is
    [other - self]. *)
Theorem X23_grid_operators_commute `{GridBackend} (self other : SHGrid) :
  built_grid self → built_grid other → grid_compatible self other →
  SHGrid___add__ self (GGrid other) = SHGrid___add__ other (GGrid self)
  ∧ SHGrid___mul__ self (GGrid other) = SHGrid___mul__ other (GGrid self)
  ∧ SHGrid___radd__ self (GGrid other) = SHGrid___add__ other (GGrid self)
  ∧ SHGrid___rmul__ self (GGrid other) = SHGrid___mul__ other (GGrid self)
  ∧ SHGrid___rsub__ self (GGrid other) = SHGrid___sub__ other (GGrid self).
Proof.
  intros Hs Ho Hcomp.
  assert (grid_compatible other self) as Hcomp'.
  { destruct Hcomp as (? & ? & ?). by repeat split. }
  pose proof (proj2 (grid_compatible_test _ _) Hcomp) as Ht.
  pose proof (proj2 (grid_compatible_test _ _) Hcomp') as Ht'.
  assert (∀ f, SHGrid_binary_operator f false other (GGrid self)
               = Ok (Some (with_data self (grid_zip f (g_data other) (g_data self)))))
    as Hright.
  { intros f. unfold SHGrid_binary_operator. rewrite Ht'.
    rewrite grid_rebuild by done. do 2 f_equal. symmetry.
    by apply with_data_compatible. }
  assert (∀ f r, SHGrid_binary_operator f r self (GGrid other)
               = Ok (Some (with_data self
                             (if r then grid_zip f (g_data other) (g_data self)
                              else grid_zip f (g_data self) (g_data other)))))
    as Hleft.
  { intros f r. unfold SHGrid_binary_operator. rewrite Ht.
    by rewrite grid_rebuild by done. }
  unfold SHGrid___radd__, SHGrid___rmul__, SHGrid___add__, SHGrid___mul__,
    SHGrid___rsub__, SHGrid___sub__.
  rewrite !Hright, !Hleft.
  repeat split; try done; do 3 f_equal; apply grid_zip_comm; intros;
    first [apply Rplus_comm | apply Cadd_comm | apply Rmult_comm | apply Cmul_comm].
Qed.

Lemma X23_grid_operators_commute_witness :
  SHGrid___rsub__ (H := spec_grid_backend) example_grid (GGrid example_grid)
  = SHGrid___sub__ (H := spec_grid_backend) example_grid (GGrid example_grid).
Proof.
  assert (built_grid (H := spec_grid_backend) example_grid) as Hb.
  { exists (mkArray2 (2, 2)%nat (FloatGrid [[1; 2]; [3; 4]]%R)), true.
    reflexivity. }
  apply (X23_grid_operators_commute (H := spec_grid_backend) example_grid
           example_grid Hb Hb).
  repeat split.
Defined.

Lemma norm_code_valid normalization :
  valid_normalization normalization = true →
  norm_code (lower normalization) = Ok (norm_number (lower normalization)).
Proof.
  intros Hv%lower_valid. unfold normalizations in Hv.
  rewrite !elem_of_cons, elem_of_nil in Hv.
  by destruct Hv as [->|[->|[->|[]]]].
Qed.

(** X24. [expand] of a grid that [SHGrid.from_array] returned.  A
    normalization that is not 4pi, ortho or schmidt in some letter case is
    a ValueError, and so is a csphase other than 1 and -1; the letter case
    of the normalization is of no effect.  Otherwise the result is what
    [SHCoeffs.from_array] makes, without a copy, of the array the backend
    returns: when that array has the shape [(2, n, n)] with [n >= 1], a
    coefficient set of the kind of the grid that holds this very array,
    with [lmax = n - 1], the normalization in lower case and the csphase
    asked for. *)
Theorem X24_grid_expand `{GridBackend} `{GridExpandBackend} (self : SHGrid)
    (normalization : string) (csphase : Z) :
  built_grid self →
  (valid_normalization normalization = false →
   SHGrid_expand self normalization csphase = Raise ValueError)
  ∧ (valid_csphase csphase = false →
     SHGrid_expand self normalization csphase = Raise ValueError)
  ∧ SHGrid_expand self (lower normalization) csphase
    = SHGrid_expand self normalization csphase
  ∧ (valid_normalization normalization = true → valid_csphase csphase = true →
     let cilm := expand_output self (norm_number (lower normalization))
                               csphase in
     SHGrid_expand self normalization csphase
     = SHCoeffs_from_array cilm (lower normalization) csphase false
     ∧ (if iscomplexobj cilm then "complex" else "real") = g_kind self
     ∧ ∀ n, (0 < n)%nat → arr_has_shape (2, n, n)%nat cilm = true →
            SHGrid_expand self normalization csphase
            = Ok {| cls := dtype_class cilm; coeffs := cilm;
                    mask := mask_array n; lmax := (Z.of_nat n - 1)%Z;
                    normalization := lower normalization;
                    csphase := csphase |}).
Proof.
  intros Hb. split; [|split; [|split]].
  - intros Hv. unfold SHGrid_expand. unfold valid_normalization in Hv.
    by rewrite Hv.
  - intros Hc. unfold SHGrid_expand. unfold valid_csphase in Hc.
    apply negb_false_iff in Hc. rewrite Hc.
    by destruct (str_in _ _).
  - unfold SHGrid_expand, DHRealGrid__expand, DHComplexGrid__expand,
      GLQRealGrid__expand, GLQComplexGrid__expand.
    by rewrite !lower_idemp.
  - intros Hv Hc. cbv zeta.
    assert (SHGrid_expand self normalization csphase
            = SHCoeffs_from_array
                (expand_output self (norm_number (lower normalization)) csphase)
                (lower normalization) csphase false) as Heq.
    { unfold SHGrid_expand. pose proof Hv as Hv'. pose proof Hc as Hc'.
      unfold valid_normalization in Hv'. rewrite Hv'. cbn [negb].
      unfold valid_csphase in Hc'. apply negb_true_iff in Hc'. rewrite Hc'.
      unfold DHRealGrid__expand, DHComplexGrid__expand, GLQRealGrid__expand,
        GLQComplexGrid__expand, expand_output.
      rewrite (norm_code_valid _ Hv), !bind_Ok.
      apply built_grid_inv in Hb
        as [(Hcl & _ & _ & Hsa & _)|(Hcl & _ & _ & _ & Hz)].
      - rewrite Hcl, Hsa. destruct (g_data self); reflexivity.
      - rewrite Hcl, Hz. destruct (g_data self), (SHGLQ _); reflexivity. }
    split; [exact Heq|]. split.
    + unfold g_kind, expand_output. by destruct (g_cls self).
    + intros n Hn Hs. rewrite Heq.
      rewrite from_array_eq by (done || by apply valid_lower).
      rewrite (subclass_init_eq _ _ _ _ _ n) by done.
      by rewrite lower_idemp.
Qed.

Lemma X24_grid_expand_witness :
  SHGrid_expand (H := spec_grid_backend) (H0 := spec_grid_expand_backend)
                example_grid "4PI" 1
  = Ok {| cls := SHRealCoeffs; coeffs := FloatArr [[[0%R]]; [[0%R]]];
          mask := mask_array 1; lmax := 0; normalization := "4pi";
          csphase := 1 |}.
Proof.
  assert (built_grid (H := spec_grid_backend) example_grid) as Hb.
  { exists (mkArray2 (2, 2)%nat (FloatGrid [[1; 2]; [3; 4]]%R)), true.
    reflexivity. }
  pose proof (X24_grid_expand (H := spec_grid_backend)
                (H0 := spec_grid_expand_backend) example_grid "4PI" 1 Hb)
    as (_ & _ & _ & Hok).
  destruct (Hok eq_refl eq_refl) as (_ & _ & Hn).
  exact (Hn 1%nat ltac:(lia) eq_refl).
Defined.

(** ** Localization windows in the conventions *)

Lemma py_for_float_arr (body : nat → list3 R → res (list3 R))
    (body_arr : nat → ndarray → res ndarray) xs c :
  (∀ m c, body_arr m (FloatArr c) = FloatArr <$> body m c) →
  py_for xs body_arr (FloatArr c) = FloatArr <$> py_for xs body c.
Proof.
  intros Hb. revert c. induction xs as [|x xs IH]; intros c; [done|].
  rewrite !py_for_cons, Hb. destruct (body x c) as [c'|e]; simpl.
  - apply IH.
  - done.
Qed.

Lemma phase_loop_float n c :
  (0 < n)%nat → has_shape (2, n, n)%nat c = true →
  py_for (seq 0 n)
         (λ m c, if Nat.odd m then negate_order (K:=R) m c else Ok c) c
  = Ok (imap3 (λ _ _ m x, if Nat.odd m then nneg x else x) c).
Proof.
  intros Hn Hc.
  pose proof (phase_loop n Hn (FloatArr c) Hc) as Hloop.
  rewrite (py_for_float_arr
             (λ m c, if Nat.odd m then negate_order (K:=R) m c else Ok c)) in Hloop.
  - destruct (py_for _ _ c) as [c'|e]; simpl in Hloop; [|done].
    by injection Hloop as ->.
  - intros m c'. by destruct (Nat.odd m).
Qed.

(** The conversion of the windows is the conversion of a coefficient set
    that is 4pi-normalized and without the phase. *)
Lemma window_convention_eq n lwin norm cs coeffs :
  (0 < n)%nat → lwin = (Z.of_nat n - 1)%Z →
  norm ∈ normalizations → cs ∈ csphases →
  has_shape (2, n, n)%nat coeffs = true →
  window_convention lwin norm cs coeffs
  = Ok (imap3 (λ _ l m x, convert_entry "4pi" norm 1 cs l m x) coeffs).
Proof.
  intros Hn -> Hnorm Hcs Hc. unfold window_convention, arange.
  replace (Z.to_nat (Z.of_nat n - 1 + 1)) with n by lia.
  assert (∀ c', has_shape (2, n, n)%nat c' = true →
            (if (cs =? -1)%Z
             then py_for (seq 0 n)
                    (λ m c, if Nat.odd m then negate_order (K:=R) m c else Ok c) c'
             else Ok c')
            = Ok (imap3 (λ _ _ m x,
                           if negb (cs =? 1)%Z && Nat.odd m then nneg x else x) c'))
    as Hphase.
  { intros c' Hc'. unfold csphases in Hcs.
    rewrite !elem_of_cons, elem_of_nil in Hcs.
    destruct Hcs as [->|[->|[]]]; simpl.
    - symmetry. f_equal. by apply imap3_id.
    - by rewrite phase_loop_float. }
  unfold normalizations in Hnorm. rewrite !elem_of_cons, elem_of_nil in Hnorm.
  destruct Hnorm as [->|[->|[->|[]]]]; simpl String.eqb; cbv iota.
  - rewrite bind_Ok, Hphase by done.
    f_equal; apply imap3_ext; intros i l m x _; unfold convert_entry; done.
  - rewrite bind_Ok. cbn [scale_all arr_map as_float].
    rewrite Hphase by (by rewrite has_shape_imap3).
    rewrite imap3_imap3.
    f_equal; apply imap3_ext; intros i l m x _; unfold convert_entry; done.
  - rewrite (scale_degree_loop n Hn) by done. cbn [fmap arr_map as_float].
    simpl. rewrite Hphase by (by rewrite has_shape_imap3).
    rewrite imap3_imap3.
    f_equal; apply imap3_ext; intros i l m x _; unfold convert_entry; done.
Qed.

(** The array of a window before it is converted: the coefficients of the
    window, 4pi-normalized and without the phase. *)
Lemma window_to_array_default `{WindowBackend} self itaper normalization csphase :
  valid_normalization normalization = true → valid_csphase csphase = true →
  SHWindow_to_array self itaper normalization csphase
  = SHWindow_to_array self itaper "4pi" 1
      ≫= window_convention (w_lwin self) (lower normalization) csphase.
Proof.
  intros Hv Hc. unfold SHWindow_to_array. rewrite Hv, Hc. cbn [negb].
  change (valid_normalization "4pi") with true.
  change (valid_csphase 1) with true. cbn [negb].
  unfold SHWindowCap__to_array, SHWindowMask__to_array.
  assert (∀ m : res (list3 R),
            m ≫= window_convention (w_lwin self) (lower normalization) csphase
            = (m ≫= window_convention (w_lwin self) (lower "4pi") 1)
                ≫= window_convention (w_lwin self) (lower normalization) csphase)
    as Hm by (by intros [c|e]).
  destruct (w_cls self); apply Hm.
Qed.

(** X25. [to_array] of a window bank in the conventions.  A
    normalization that is not 4pi, ortho or schmidt in some letter case
    raises a NameError, because the message of the intended error names a
    variable this method does not have; a csphase other than 1 and -1 is a
    ValueError.  For valid conventions an error of the call in the default
    conventions is the error of the call, and when the call in the default
    conventions returns an array of shape [(2, lwin+1, lwin+1)], the call
    returns that array converted entry by entry as [SHCoeffs.to_array]
    converts a coefficient array that is 4pi-normalized and without the
    phase: multiplied by [sqrt(2l+1)] at [m <= l] for schmidt, by
    [sqrt(4 pi)] for ortho, and with the odd orders negated for csphase
    -1. *)
Theorem X25_window_to_array_conventions `{WindowBackend} (self : SHWindow)
    (itaper : Z) (normalization : string) (csphase : Z) :
  (valid_normalization normalization = false →
   SHWindow_to_array self itaper normalization csphase = Raise NameError)
  ∧ (valid_normalization normalization = true → valid_csphase csphase = false →
     SHWindow_to_array self itaper normalization csphase = Raise ValueError)
  ∧ (valid_normalization normalization = true → valid_csphase csphase = true →
     (∀ e, SHWindow_to_array self itaper "4pi" 1 = Raise e →
           SHWindow_to_array self itaper normalization csphase = Raise e)
     ∧ ∀ a n, (0 < n)%nat → w_lwin self = (Z.of_nat n - 1)%Z →
         SHWindow_to_array self itaper "4pi" 1 = Ok a →
         has_shape (2, n, n)%nat a = true →
         SHWindow_to_array self itaper normalization csphase
         = Ok (imap3 (λ _ l m x,
                        convert_entry "4pi" (lower normalization) 1 csphase l m x)
                     a)
         ∧ ∀ i l m, (i < 2)%nat → (m ≤ l)%nat → (l < n)%nat →
             lookup3 (imap3 (λ _ l m x,
                        convert_entry "4pi" (lower normalization) 1 csphase l m x)
                        a) i l m
             = (λ x, (if negb (csphase =? 1)%Z && Nat.odd m then -1 else 1)
                     * (norm_factor (lower normalization) l * x))%R
                 <$> lookup3 a i l m).
Proof.
  split; [|split].
  - intros Hv. unfold SHWindow_to_array. by rewrite Hv.
  - intros Hv Hc. unfold SHWindow_to_array. by rewrite Hv, Hc.
  - intros Hv Hc.
    rewrite (window_to_array_default self itaper normalization csphase) by done.
    split.
    + by intros e ->.
    + intros a n Hn Hl -> Ha. rewrite bind_Ok. split.
      * apply (window_convention_eq n); try done.
        -- by apply lower_valid.
        -- by apply valid_csphase_elem.
      * intros i l m Hi Hm Hln. rewrite lookup3_imap3.
        destruct (lookup3 a i l m) as [x|]; [|done]. simpl. f_equal.
        rewrite convert_entry_factor
          by (done || by apply lower_valid || by (unfold normalizations; left)).
        cbv zeta. cbn [nscale nneg Num_R].
        replace (norm_factor "4pi" l) with 1%R by done.
        destruct (negb (csphase =? 1)%Z && Nat.odd m); field.
Qed.

(** X27. [return_coeffs] of a window bank.  A normalization that is not
    4pi, ortho or schmidt in some letter case is a ValueError here, and so
    is a csphase other than 1 and -1.  For valid conventions, when
    [to_array] in the default conventions returns an array of shape
    [(2, lwin+1, lwin+1)], the result is a real coefficient set with
    [lmax = lwin], the normalization in lower case and the csphase asked
    for, whose coefficients are the array [to_array] returns in these
    conventions; and [to_array('4pi', 1)] of this coefficient set gives
    back the array of the window in the default conventions. *)
Theorem X27_window_return_coeffs `{WindowBackend} (self : SHWindow)
    (itaper : Z) (norm : string) (cs : Z) :
  (valid_normalization norm = false →
   SHWindow_return_coeffs self itaper norm cs = Raise ValueError)
  ∧ (valid_csphase cs = false →
     SHWindow_return_coeffs self itaper norm cs = Raise ValueError)
  ∧ (valid_normalization norm = true → valid_csphase cs = true →
     ∀ a n, (0 < n)%nat → w_lwin self = (Z.of_nat n - 1)%Z →
       SHWindow_to_array self itaper "4pi" 1 = Ok a →
       has_shape (2, n, n)%nat a = true →
       ∃ x, SHWindow_return_coeffs self itaper norm cs = Ok x
            ∧ cls x = SHRealCoeffs ∧ lmax x = w_lwin self
            ∧ normalization x = lower norm
            ∧ csphase x = cs
            ∧ FloatArr <$> SHWindow_to_array self itaper norm cs
              = Ok (coeffs x)
            ∧ SHCoeffs_to_array x (Some "4pi") (Some 1%Z) None = Ok (FloatArr a)).
Proof.
  split; [|split].
  - intros Hv. unfold SHWindow_return_coeffs. by rewrite Hv.
  - intros Hc. unfold SHWindow_return_coeffs. rewrite Hc.
    by destruct (valid_normalization norm).
  - intros Hv Hc a n Hn Hl Ha Hs.
    pose proof (lower_valid _ Hv) as Hv'.
    pose proof (proj1 (valid_csphase_elem _) Hc) as Hc'.
    assert (SHWindow_to_array self itaper norm cs
            = Ok (imap3 (λ _ l m x,
                           convert_entry "4pi" (lower norm) 1 cs
                                         l m x) a)) as Hto.
    { rewrite (window_to_array_default self itaper norm cs),
        Ha, bind_Ok by done.
      by apply (window_convention_eq n). }
    assert (SHWindow_to_array self itaper (lower norm) cs
            = SHWindow_to_array self itaper norm cs) as Hlow.
    { rewrite (window_to_array_default self itaper norm cs),
        (window_to_array_default self itaper (lower norm) cs)
        by (done || by apply valid_lower).
      by rewrite lower_idemp. }
    unfold SHWindow_return_coeffs. rewrite Hv, Hc. cbn [negb].
    rewrite Hlow, Hto, bind_Ok.
    set (b := imap3 _ a).
    assert (has_shape (2, n, n)%nat b = true) as Hb
      by (unfold b; by rewrite has_shape_imap3).
    rewrite from_array_eq by (done || by apply valid_lower).
    rewrite (subclass_init_eq _ _ _ _ _ n) by done.
    eexists. split; [reflexivity|].
    cbn [cls lmax normalization csphase coeffs].
    split; [done|]. split; [lia|]. split; [by rewrite lower_idemp|].
    split; [done|]. split; [done|].
    rewrite (to_array_eq _ n) by (done || (simpl; lia)).
    simpl default. cbn [lmax]. rewrite (converted_full _ n) by done.
    cbn [coeffs normalization csphase arr_map].
    do 2 f_equal. unfold b. rewrite imap3_imap3. apply imap3_id.
    intros i l m x _. rewrite lower_idemp.
    change (lower "4pi") with "4pi".
    apply (convert_entry_roundtrip (K:=R)); [by left|done].
Qed.

Lemma has_shape2_spec {K} (s : nat * nat) (p : list (list K)) :
  has_shape2 s p = true ↔ length p = s.1 ∧ ∀ r, r ∈ p → length r = s.2.
Proof.
  unfold has_shape2. rewrite andb_true_iff, Nat.eqb_eq, forallb_forall.
  split; intros [H1 H2]; (split; [done|]); intros r Hr.
  - apply Nat.eqb_eq, H2. by apply list_elem_of_In.
  - apply Nat.eqb_eq, H2. by apply list_elem_of_In.
Qed.

(** [_taper2coeffs] on windows of a cap, in closed form. *)
Lemma _taper2coeffs_eq self itaper n k :
  (0 < n)%nat → w_lwin self = (Z.of_nat n - 1)%Z →
  has_shape2 (n, k) (w_tapers self) = true → length (w_orders self) = k →
  (0 <= itaper < Z.of_nat k)%Z →
  let j := Z.to_nat itaper in
  let taperm := nth j (w_orders self) 0%Z in
  (Z.abs taperm < Z.of_nat n)%Z →
  _taper2coeffs self itaper
  = Ok (<[(if (taperm <? 0)%Z then 1 else 0)%nat :=
            zip_with (λ r x, <[Z.to_nat (Z.abs taperm) := x]> r)
                     (replicate n (replicate n 0%R))
                     ((λ r, nth j r 0%R) <$> w_tapers self)]>
          (np_zeros 0%R 2 n n)).
Proof.
  intros Hn Hl [Hrows Hcols]%has_shape2_spec Hk Hi j taperm Hm.
  cbn [fst snd] in Hrows, Hcols.
  unfold _taper2coeffs. rewrite Hk, py_index_in_range by done.
  fold j. fold taperm. rewrite Hl, zeros3_eq by lia.
  replace (Z.to_nat (Z.of_nat n - 1 + 1)) with n by lia. rewrite bind_Ok.
  assert ((shape2 (w_tapers self)).2 = k) as Hsh.
  { unfold shape2. cbn [snd]. destruct (w_tapers self) as [|r M]; simpl in *;
      [lia|]. apply Hcols. by left. }
  unfold get_column. rewrite Hsh, py_index_in_range by done. fold j.
  rewrite bind_Ok.
  assert (∀ i, (i < 2)%nat →
            set_order_column i (Z.to_nat (Z.abs taperm))
              ((λ r, nth j r 0%R) <$> w_tapers self) (np_zeros 0%R 2 n n)
            = Ok (<[i := zip_with (λ r x, <[Z.to_nat (Z.abs taperm) := x]> r)
                           (replicate n (replicate n 0%R))
                           ((λ r, nth j r 0%R) <$> w_tapers self)]>
                    (np_zeros 0%R 2 n n))) as Hset.
  { intros i Hi2. unfold set_order_column, np_zeros.
    rewrite lookup_replicate_2 by done.
    rewrite set_column_Ok; [done| | |].
    - by rewrite length_replicate.
    - by rewrite length_fmap, length_replicate.
    - intros r [-> _]%elem_of_replicate. rewrite length_replicate. lia. }
  destruct (taperm <? 0)%Z; apply Hset; lia.
Qed.

(** X26. The windows of a spherical cap that has not been rotated, with
    [lwin >= 0], tapers of shape [(lwin+1, k)] and [k] orders.  For
    [0 <= itaper < k] and an order [m0] of the window with [|m0| <= lwin],
    [to_array(itaper)] is an array of shape [(2, lwin+1, lwin+1)] that is
    zero except at the order [|m0|] of one plane, the cosine plane for
    [m0 >= 0] and the sine plane for [m0 < 0], where the entry of degree
    [l] is [tapers[l, itaper]].  An order with [|m0| > lwin] is an
    IndexError, and so is an index [itaper >= k]. *)
Theorem X26_cap_window_holds_one_order `{WindowBackend} (self : SHWindow)
    (itaper : Z) (n k : nat) :
  w_cls self = SHWindowCap → w_coeffs self = None →
  (0 < n)%nat → w_lwin self = (Z.of_nat n - 1)%Z →
  has_shape2 (n, k) (w_tapers self) = true → length (w_orders self) = k →
  (0 <= itaper)%Z →
  let j := Z.to_nat itaper in
  let taperm := nth j (w_orders self) 0%Z in
  (itaper < Z.of_nat k → Z.abs taperm < Z.of_nat n →
   ∃ a, SHWindow_to_array self itaper "4pi" 1 = Ok a
        ∧ has_shape (2, n, n)%nat a = true
        ∧ ∀ i l m, (i < 2)%nat → (l < n)%nat → (m < n)%nat →
            lookup3 a i l m
            = Some (if (i =? (if (taperm <? 0)%Z then 1 else 0))%nat
                       && (m =? Z.to_nat (Z.abs taperm))%nat
                    then nth j (nth l (w_tapers self) []) 0%R else 0%R))%Z
  ∧ (itaper < Z.of_nat k → Z.of_nat n <= Z.abs taperm →
     SHWindow_to_array self itaper "4pi" 1 = Raise IndexError)%Z
  ∧ (Z.of_nat k <= itaper →
     SHWindow_to_array self itaper "4pi" 1 = Raise IndexError)%Z.
Proof.
  intros Hcls Hco Hn Hl Hsh Hk Hi0 j taperm.
  assert (SHWindow_to_array self itaper "4pi" 1
          = _taper2coeffs self itaper
              ≫= window_convention (w_lwin self) "4pi" 1) as Hto.
  { unfold SHWindow_to_array. rewrite Hcls.
    change (valid_normalization "4pi") with true.
    change (valid_csphase 1) with true. cbn [negb].
    unfold SHWindowCap__to_array. by rewrite Hco. }
  pose proof Hsh as [Hrows Hcols]%has_shape2_spec. cbn [fst snd] in Hrows, Hcols.
  assert ((shape2 (w_tapers self)).2 = k) as Hsh2.
  { unfold shape2. cbn [snd]. destruct (w_tapers self) as [|r M]; simpl in *;
      [lia|]. apply Hcols. by left. }
  split; [|split].
  - intros Hik Hm. rewrite Hto.
    rewrite (_taper2coeffs_eq self itaper n k) by (done || lia).
    fold j. fold taperm. rewrite bind_Ok.
    set (i0 := (if (taperm <? 0)%Z then 1 else 0)%nat).
    set (m0 := Z.to_nat (Z.abs taperm)).
    assert (i0 < 2)%nat as Hi0' by (unfold i0; destruct (taperm <? 0)%Z; lia).
    assert (m0 < n)%nat as Hm0 by (unfold m0; lia).
    set (plane := zip_with (λ r x, <[m0 := x]> r) (replicate n (replicate n 0%R))
                           ((λ r, nth j r 0%R) <$> w_tapers self)).
    assert (length plane = n) as Hplane.
    { unfold plane. rewrite length_zip_with, length_replicate, length_fmap. lia. }
    assert (∀ r, r ∈ plane → length r = n) as Hprows.
    { intros r Hr. apply (zip_with_insert_rows m0 n _ _ _) in Hr; [done|].
      intros r' [-> _]%elem_of_replicate. by rewrite length_replicate. }
    assert (has_shape (2, n, n)%nat (<[i0 := plane]> (np_zeros 0%R 2 n n)) = true)
      as Hshape.
    { apply has_shape_spec. cbn [fst snd]. rewrite length_insert.
      unfold np_zeros at 1. rewrite length_replicate. split; [done|].
      intros i p Hp. destruct (decide (i = i0)) as [->|Hne].
      - rewrite list_lookup_insert_eq in Hp
          by (unfold np_zeros; rewrite length_replicate; lia).
        injection Hp as <-. split; [done|].
        intros l r Hr. apply Hprows. by eapply list_elem_of_lookup_2.
      - rewrite list_lookup_insert_ne in Hp by done.
        unfold np_zeros in Hp. apply lookup_replicate in Hp as [-> _].
        rewrite length_replicate. split; [done|].
        intros l r [-> _]%lookup_replicate. by rewrite length_replicate. }
    eexists. split; [reflexivity|]. split; [exact Hshape|].
    intros i l m Hi Hln Hmn. unfold lookup3.
    destruct (decide (i = i0)) as [->|Hne].
    + rewrite list_lookup_insert_eq
        by (unfold np_zeros; rewrite length_replicate; lia).
      rewrite Nat.eqb_refl. simpl. unfold plane.
      rewrite lookup_zip_with, lookup_replicate_2 by done. simpl.
      rewrite list_lookup_fmap.
      destruct (lookup_lt_is_Some_2 (w_tapers self) l) as [r Hr]; [lia|].
      rewrite Hr. simpl. rewrite (nth_lookup_Some _ _ _ _ Hr).
      destruct (Nat.eqb_spec m m0) as [->|Hmne].
      * by rewrite list_lookup_insert_eq by (rewrite length_replicate; lia).
      * rewrite list_lookup_insert_ne by done.
        by rewrite lookup_replicate_2.
    + rewrite list_lookup_insert_ne by done.
      destruct (Nat.eqb_spec i i0); [done|]. simpl.
      pose proof (lookup3_np_zeros 0%R 2 n n i l m) as Hz. unfold lookup3 in Hz.
      rewrite Hz. by rewrite decide_True.
  - intros Hik Hm. rewrite Hto. unfold _taper2coeffs.
    rewrite Hk, py_index_in_range by lia. fold j. fold taperm.
    rewrite Hl, zeros3_eq by lia.
    replace (Z.to_nat (Z.of_nat n - 1 + 1)) with n by lia. rewrite bind_Ok.
    unfold get_column. rewrite Hsh2, py_index_in_range by lia. rewrite bind_Ok.
    assert (∀ i, (i < 2)%nat →
              set_order_column i (Z.to_nat (Z.abs taperm))
                ((λ r, nth j r 0%R) <$> w_tapers self) (np_zeros 0%R 2 n n)
              = Raise IndexError) as Hset.
    { intros i Hi2. unfold set_order_column, np_zeros.
      rewrite lookup_replicate_2 by done. unfold set_column.
      assert ((shape2 (replicate n (replicate n 0%R))).2 = n) as ->.
      { unfold shape2. destruct n as [|n']; [lia|]. simpl.
        by rewrite length_replicate. }
      destruct (Nat.ltb_spec (Z.to_nat (Z.abs taperm)) n); [lia|done]. }
    destruct (taperm <? 0)%Z; rewrite Hset by lia; done.
  - intros Hik. rewrite Hto. unfold _taper2coeffs, py_index. rewrite Hk.
    destruct (Z.leb_spec 0 itaper); [|lia].
    destruct (Z.ltb_spec itaper (Z.of_nat k)); [lia|]. cbn [andb].
    destruct (Z.ltb_spec itaper 0); [lia|]. done.
Qed.

Lemma lookup3_out {K} s (a : list3 K) i l m :
  has_shape s a = true → ¬ (i < s.1.1 ∧ l < s.1.2 ∧ m < s.2)%nat →
  lookup3 a i l m = None.
Proof.
  intros Hs Hn. destruct (lookup3 a i l m) eqn:E; [|done].
  by apply (lookup3_Some_lt s) in E.
Qed.

Lemma X26_cap_window_holds_one_order_witness :
  SHWindow_to_array (H := spec_window_backend) example_cap 1 "4pi" 1
  = Ok [[[0; 0; 0; 0]; [0; 1; 0; 0]; [0; 2; 0; 0]; [0; 3; 0; 0]];
        [[0; 0; 0; 0]; [0; 0; 0; 0]; [0; 0; 0; 0]; [0; 0; 0; 0]]]%R.
Proof.
  destruct (X26_cap_window_holds_one_order (H := spec_window_backend)
              example_cap 1 4 2 eq_refl eq_refl ltac:(lia) eq_refl eq_refl
              eq_refl ltac:(lia)) as (Hok & _).
  destruct (Hok ltac:(lia) ltac:(simpl; lia)) as (a & Ha & Hs & Hget).
  rewrite Ha. f_equal.
  apply (list3_eq (2, 4, 4)%nat); [exact Hs|reflexivity|].
  intros i l m.
  destruct (decide (i < 2 ∧ l < 4 ∧ m < 4)%nat) as [(Hi & Hl & Hm)|Hout].
  - rewrite Hget by done.
    destruct i as [|[|i]]; [| |lia];
      (destruct l as [|[|[|[|l]]]]; [| | | |lia]);
      (destruct m as [|[|[|[|m]]]]; [| | | |lia]); reflexivity.
  - rewrite !(lookup3_out (2, 4, 4)%nat) by (done || reflexivity). done.
Defined.

Lemma length_filter_le {A} (f : A → bool) (l : list A) :
  (length (List.filter f l) ≤ length l)%nat.
Proof.
  induction l as [|x l IH]; [done|]. simpl. destruct (f x); simpl; lia.
Qed.

Lemma length_filter_mono {A} (f g : A → bool) (l : list A) :
  (∀ x, f x = true → g x = true) →
  (length (List.filter f l) ≤ length (List.filter g l))%nat.
Proof.
  intros Hfg. induction l as [|x l IH]; [done|]. simpl.
  destruct (f x) eqn:Hf.
  - rewrite (Hfg x Hf). simpl. lia.
  - destruct (g x); simpl; lia.
Qed.

Lemma Rge_b_true x y : Rge_b x y = true ↔ (y <= x)%R.
Proof. unfold Rge_b. by destruct (Rle_dec y x). Qed.

Lemma descending_tail x v : descending (x :: v) → descending v.
Proof. intros H i j a b Hij Ha Hb. by apply (H (S i) (S j) a b); [lia|..]. Qed.

(** In a descending list the entries that are at least [alpha] are the
    leading ones. *)
Lemma filter_descending_prefix alpha v :
  descending v →
  ∀ i e, v !! i = Some e →
         ((i < length (List.filter (λ e, Rge_b e alpha) v))%nat ↔ (alpha <= e)%R).
Proof.
  induction v as [|x v IH]; intros Hd i e Hi; [done|].
  pose proof (descending_tail _ _ Hd) as Hd'. simpl.
  destruct (Rge_b x alpha) eqn:Hx.
  - apply Rge_b_true in Hx. destruct i as [|i]; simpl in *.
    + injection Hi as <-. split; [done|lia].
    + rewrite <- (IH Hd' i e Hi). lia.
  - assert (¬ (alpha <= x)%R) as Hx'
      by (intros Hc%Rge_b_true; by rewrite Hc in Hx).
    assert (e <= x)%R as Hex by (by apply (Hd 0%nat i x e); [lia|..]).
    assert (List.filter (λ e, Rge_b e alpha) v = []) as ->.
    { clear -Hd Hx'. induction v as [|y v IHv]; [done|]. simpl.
      assert (y <= x)%R as Hy by (by apply (Hd 0%nat 1%nat x y); [lia|..]).
      destruct (Rge_b y alpha) eqn:Hy'; [apply Rge_b_true in Hy'; lra|].
      apply IHv. intros i j a b Hij Ha Hb.
      destruct i as [|i]; destruct j as [|j]; simpl in *.
      - by apply (Hd 0%nat 0%nat a b).
      - by apply (Hd 0%nat (S (S j)) a b); [lia|..].
      - lia.
      - by apply (Hd (S (S i)) (S (S j)) a b); [lia|..]. }
    simpl. split; [lia|lra].
Qed.

(** X28. [number(alpha)], the number of windows whose concentration
    factor is at least [alpha]: it is at most the number of eigenvalues
    held; it does not grow when [alpha] grows; it is the number of all
    eigenvalues exactly when each of them is at least [alpha]; and when
    the eigenvalues are in descending order, the windows counted are the
    leading ones: the window of index [i] has an eigenvalue of at least
    [alpha] exactly when [i < number(alpha)]. *)
Theorem X28_number_counts_the_leading_windows (self : SHWindow) (alpha : R) :
  (SHWindow_number self alpha ≤ length (w_eigenvalues self))%nat
  ∧ (∀ beta, (alpha <= beta)%R →
             (SHWindow_number self beta ≤ SHWindow_number self alpha)%nat)
  ∧ (SHWindow_number self alpha = length (w_eigenvalues self)
     ↔ ∀ e, e ∈ w_eigenvalues self → (alpha <= e)%R)
  ∧ (descending (w_eigenvalues self) →
     ∀ i e, w_eigenvalues self !! i = Some e →
            ((i < SHWindow_number self alpha)%nat ↔ (alpha <= e)%R)).
Proof.
  unfold SHWindow_number. split; [apply length_filter_le|].
  split; [|split].
  - intros beta Hb. apply length_filter_mono.
    intros x Hx%Rge_b_true. apply Rge_b_true. lra.
  - induction (w_eigenvalues self) as [|x v IH]; [by split; [intros _ e ?%elem_of_nil|]|].
    simpl. pose proof (length_filter_le (λ e, Rge_b e alpha) v) as Hle.
    destruct (Rge_b x alpha) eqn:Hx; simpl.
    + apply Rge_b_true in Hx. split.
      * intros [= Hlen] e [->|He]%elem_of_cons; [done|]. by apply IH.
      * intros Hall. f_equal. apply IH. intros e He. apply Hall. by right.
    + split; [lia|]. intros Hall.
      assert (alpha <= x)%R as Hc%Rge_b_true by (apply Hall; by left).
      by rewrite Hc in Hx.
  - apply filter_descending_prefix.
Qed.

(** ** Random coefficients *)

Lemma random_draw_shape g1 g2 nl kind :
  arr_has_shape (2, nl, nl)%nat (random_draw g1 g2 nl kind) = true.
Proof.
  unfold random_draw. destruct (String.eqb kind "real"); cbn [arr_has_shape].
  - rewrite has_shape_imap3. apply has_shape_np_zeros.
  - apply has_shape_zip3; rewrite has_shape_imap3; apply has_shape_np_zeros.
Qed.

(** [from_random] without [exact_power], in closed form. *)
Lemma from_random_eq `{SpectrumBackend} g1 g2 power kind norm cs :
  power ≠ [] → kind = "real" ∨ kind = "complex" →
  valid_normalization norm = true → valid_csphase cs = true →
  SHCoeffs_from_random g1 g2 power kind norm cs false
  = Ok (Some {| cls := if String.eqb kind "real" then SHRealCoeffs
                       else SHComplexCoeffs;
                coeffs := masked (scale_by_degree
                                    (random_factor (lower norm) power)
                                    (random_draw g1 g2 (length power) kind));
                mask := mask_array (length power);
                lmax := (Z.of_nat (length power) - 1)%Z;
                normalization := lower norm; csphase := cs |}).
Proof.
  intros Hp Hk Hv Hc.
  assert (0 < length power)%nat as Hnl by (destruct power; [done|simpl; lia]).
  pose proof (lower_valid _ Hv) as Hn. unfold normalizations in Hn.
  rewrite !elem_of_cons, elem_of_nil in Hn.
  unfold SHCoeffs_from_random. rewrite Hv, Hc. cbn [negb].
  pose proof (random_draw_shape g1 g2 (length power)) as Hsh.
  unfold random_draw in *.
  destruct Hk as [-> | ->]; simpl String.eqb; cbn [negb str_in existsb orb];
    cbv iota; simpl lower; simpl String.eqb; cbv iota; rewrite !bind_Ok;
    cbv zeta; cbn [subclass_for find istype String.eqb Ascii.eqb Bool.eqb andb];
    unfold random_factor;
    [specialize (Hsh "real")|specialize (Hsh "complex")];
    simpl String.eqb in Hsh; cbv iota in Hsh;
    destruct Hn as [->|[->|[->|[]]]]; simpl String.eqb; cbv iota;
    rewrite (subclass_init_eq _ _ _ _ _ (length power))
      by (done || by (unfold scale_by_degree; rewrite arr_has_shape_arr_map));
    reflexivity.
Qed.

(** X6. [from_random] without [exact_power], for a non-empty power
    spectrum without negative values, kind 'real' or 'complex' and valid
    conventions: the call returns a coefficient set of the kind asked for
    with [lmax = len(power) - 1], the normalization in lower case and the
    csphase asked for, which is zero outside its mask.  The same samples
    give in every normalization the same field: the coefficients drawn for
    a normalization are the coefficients drawn for the 4pi normalization
    converted to it by [to_array]. *)
Theorem X6_from_random_in_the_conventions `{SpectrumBackend}
    (normal1 normal2 : nat → nat → nat → R) (power : list R)
    (kind_ norm : string) (cs : Z) :
  power ≠ [] → Forall (λ p, 0 <= p)%R power →
  kind_ = "real" ∨ kind_ = "complex" →
  valid_normalization norm = true → valid_csphase cs = true →
  ∃ x0 x,
    SHCoeffs_from_random normal1 normal2 power kind_ "4pi" cs false
    = Ok (Some x0)
    ∧ SHCoeffs_from_random normal1 normal2 power kind_ norm cs false
      = Ok (Some x)
    ∧ kind x = kind_ ∧ lmax x = (Z.of_nat (length power) - 1)%Z
    ∧ normalization x = lower norm ∧ csphase x = cs
    ∧ zero_outside_mask x
    ∧ SHCoeffs_to_array x0 (Some norm) (Some cs) None = Ok (coeffs x).
Proof.
  intros Hp Hpos Hk Hv Hc.
  assert (0 < length power)%nat as Hnl by (destruct power; [done|simpl; lia]).
  pose proof (from_random_eq normal1 normal2 power kind_ "4pi" cs Hp Hk
                eq_refl Hc) as H0.
  pose proof (from_random_eq normal1 normal2 power kind_ norm cs Hp Hk Hv Hc)
    as Hx.
  eexists _, _. split; [exact H0|]. split; [exact Hx|].
  split; [by destruct Hk as [-> | ->]|]. split; [done|]. split; [done|].
  split; [done|]. split.
  { by apply from_random_invariant in Hx. }
  pose proof (random_draw_shape normal1 normal2 (length power) kind_) as Hsh.
  rewrite (to_array_eq _ (length power)); cbn [lmax coeffs normalization csphase];
    simpl default; try done; try lia.
  2: { rewrite masked_shape. unfold scale_by_degree.
       by rewrite arr_has_shape_arr_map. }
  f_equal.
  rewrite (converted_full _ (length power)); cbn [lmax coeffs normalization csphase];
    try done.
  2: { rewrite masked_shape. unfold scale_by_degree.
       by rewrite arr_has_shape_arr_map. }
  change (lower "4pi") with "4pi".
  unfold masked, scale_by_degree. rewrite !arr_map_arr_map.
  apply (arr_map_ext (2, length power, length power)%nat); [done|].
  intros K HK HL i l m x Hi Hl Hm. cbn [fst snd] in *.
  destruct (mask_spec i l m) eqn:Hmask; [|apply convert_entry_zero].
  apply mask_spec_true in Hmask as [Hml _].
  rewrite convert_entry_factor
    by (done || by apply lower_valid || by (unfold normalizations; left)).
  cbv zeta. rewrite Z.eqb_refl. cbn [negb andb]. rewrite nscale_nscale.
  f_equal.
  assert (0 <= nth l power 0)%R as Hpl.
  { destruct (nth_in_or_default l power 0%R) as [Hin| ->]; [|lra].
    rewrite Forall_forall in Hpos. by apply Hpos, list_elem_of_In. }
  pose proof (two_l_plus_1_pos l) as H2l. pose proof four_pi_pos as Hpi.
  assert (0 <= nth l power 0 / (2 * INR l + 1))%R as Hq.
  { unfold Rdiv. apply Rmult_le_pos; [done|]. left. by apply Rinv_0_lt_compat. }
  pose proof (lower_valid _ Hv) as Hn. unfold normalizations in Hn.
  rewrite !elem_of_cons, elem_of_nil in Hn.
  unfold random_factor, norm_factor.
  destruct Hn as [->|[->|[->|[]]]]; simpl String.eqb; cbv iota.
  - field.
  - rewrite Rdiv_1_r, <- sqrt_mult_alt by done. f_equal. field. lra.
  - rewrite Rdiv_1_r, <- sqrt_mult_alt by done. f_equal. field. lra.
Qed.

Lemma X6_from_random_in_the_conventions_witness :
  ∃ x0 x,
    SHCoeffs_from_random (H := spec_spectrum_backend) (λ _ _ _, 1%R)
      (λ _ _ _, 0%R) [1%R; 2%R] "real" "4pi" 1 false = Ok (Some x0)
    ∧ SHCoeffs_from_random (H := spec_spectrum_backend) (λ _ _ _, 1%R)
        (λ _ _ _, 0%R) [1%R; 2%R] "real" "Ortho" 1 false = Ok (Some x)
    ∧ SHCoeffs_to_array x0 (Some "Ortho") (Some 1%Z) None = Ok (coeffs x).
Proof.
  destruct (X6_from_random_in_the_conventions (H := spec_spectrum_backend)
              (λ _ _ _, 1%R) (λ _ _ _, 0%R) [1%R; 2%R] "real" "Ortho" 1)
    as (x0 & x & H0 & Hx & _ & _ & _ & _ & _ & Hto);
    [done| |by left|done|done|by exists x0, x].
  repeat constructor; lra.
Defined.

(** ** Coefficients read from a file *)

(** X9. [SHCoeffs.from_file] for valid conventions.  The format is read
    without regard to letter case.  Format 'shtools' without [lmax] is a
    ValueError and with a kind other than 'real' (in some letter case) a
    NotImplementedError; a format that is neither 'shtools' nor 'npy' is a
    NotImplementedError.  With format 'npy' and a file that holds an array
    of shape [(2, n, n)], [n >= 1], the result for kind 'real' or
    'complex' has the class of the kind asked for, whatever the dtype of
    the array, so that a complex array read with the default kind is held
    by a set of the real class; it has [lmax = n - 1] whatever [lmax] was
    passed, and its coefficients are the array with the entries outside
    the mask set to zero. *)
Theorem X9_from_file_by_format `{FileBackend} (fname : string)
    (lmax_ : option Z) (format kind_ norm : string) (cs : Z) :
  valid_normalization norm = true → valid_csphase cs = true →
  SHCoeffs_from_file fname lmax_ (lower format) kind_ norm cs
  = SHCoeffs_from_file fname lmax_ format kind_ norm cs
  ∧ (lower format = "shtools" → lmax_ = None →
     SHCoeffs_from_file fname lmax_ format kind_ norm cs = Raise ValueError)
  ∧ (lower format = "shtools" → is_Some lmax_ → lower kind_ ≠ "real" →
     SHCoeffs_from_file fname lmax_ format kind_ norm cs
     = Raise NotImplementedError)
  ∧ (lower format ≠ "shtools" → lower format ≠ "npy" →
     SHCoeffs_from_file fname lmax_ format kind_ norm cs
     = Raise NotImplementedError)
  ∧ (lower format = "npy" → kind_ = "real" ∨ kind_ = "complex" →
     ∀ n, (0 < n)%nat → arr_has_shape (2, n, n)%nat (np_load fname) = true →
       SHCoeffs_from_file fname lmax_ format kind_ norm cs
       = Ok (Some {| cls := if String.eqb kind_ "real" then SHRealCoeffs
                            else SHComplexCoeffs;
                     coeffs := masked (np_load fname);
                     mask := mask_array n; lmax := (Z.of_nat n - 1)%Z;
                     normalization := lower norm; csphase := cs |})
       ∧ iscomplexobj (masked (np_load fname)) = iscomplexobj (np_load fname)).
Proof.
  intros Hv Hc. split; [|split; [|split; [|split]]].
  - unfold SHCoeffs_from_file. by rewrite !lower_idemp.
  - intros Hf ->. unfold SHCoeffs_from_file. by rewrite Hv, Hc, Hf.
  - intros Hf [l ->] Hk%String.eqb_neq. unfold SHCoeffs_from_file.
    rewrite Hv, Hc, Hf, Hk.
    rewrite (bool_decide_true (is_Some (Some l))) by done. done.
  - intros H1%String.eqb_neq H2%String.eqb_neq. unfold SHCoeffs_from_file.
    rewrite Hv, Hc, H1, H2. done.
  - intros Hf Hk n Hn Hs. split; [|by destruct (np_load fname)].
    unfold SHCoeffs_from_file. rewrite Hv, Hc, Hf. simpl String.eqb.
    cbn [negb andb]. cbv iota. rewrite bind_Ok.
    destruct Hk as [-> | ->]; simpl;
      rewrite (subclass_init_eq _ _ _ _ _ n) by done; done.
Qed.

Lemma X9_from_file_by_format_witness :
  ∃ x, SHCoeffs_from_file (H := complex_file_backend) "f.npy" None "NPY" "real"
                          "4pi" 1 = Ok (Some x)
       ∧ cls x = SHRealCoeffs ∧ iscomplexobj (coeffs x) = true.
Proof.
  destruct (X9_from_file_by_format (H := complex_file_backend) "f.npy" None
              "NPY" "real" "4pi" 1 eq_refl eq_refl) as (_ & _ & _ & _ & Hnpy).
  destruct (Hnpy eq_refl ltac:(by left) 1%nat ltac:(lia) eq_refl) as [Hx _].
  eexists. split; [exact Hx|]. split; reflexivity.
Defined.
